(* ===== verification/_CoqProject ===== *)
-Q . S2P
Prelude.v
Strings.v
Sha256.v
Qt.v
Types.v
Semver.v
Version.v
Reference.v
RepoConfig.v
RepoCache.v
OstreeRepo.v
MergeModules.v
Extension.v
Prune.v
PackageTask.v
JobQueue.v
PackageManager.v
PackageJobs.v
Path.v
ContainerCfg.v
ContainerEnv.v
ContainerMounts.v
RunContext.v
Init.v
LayerFile.v
LightElf.v
Uab.v
PackageFiles.v
BuildOutput.v
Builder.v
CliCommands.v
CliRun.v
