(* ===== verification/Prelude.v ===== *)
(** * Linyaps verification library

    Linyaps (linglong) installs and runs sandboxed applications.  A package
    manager daemon keeps an OSTree repository of package layers, a client asks
    it to install, update and remove packages by (possibly incomplete)
    references, a container is configured from the layers when an application
    is run, and packages travel as layer files or as bundles that run by
    themselves.  This library models the decisions of that program: how versions
    and references are read, printed and compared, which layer or remote package
    a reference stands for, what is recorded about installed layers and how that
    record survives failures, how jobs are queued and what they do, what running
    an application needs, which mounts and variables a container gets, how the
    first process of a container ends, and how layer files and bundles are
    written, read and checked.

    ** Files and the code they model

    - [Prelude]: strings, results, machine integers, decimal numerals, splitting,
      three-way comparators, the interface of [std::sort] ([StdSort]).
    - [Strings]: [libs/utils/.../strings.h] and [bash_quote.h].
    - [Sha256]: [apps/uab/header/src/sha256.h], with the standard ([Fips]).
    - [Qt]: Qt's regular expressions and number parsers as an interface ([Qt])
      with the documented behaviour as laws ([QtOk]); the patterns of the code are
      values of [regex].
    - [Types]: the records of [libs/api/src/linglong/api/types/v1] and the error
      codes of [libs/utils/src/linglong/utils/error/error.h].
    - [Semver]: [package/semver.hpp].
    - [Version]: [package/version], [versionv1], [versionv2], [fallback_version].
    - [Reference]: [package/reference], [fuzzy_reference], [architecture].
    - [RepoConfig]: [repo/config.cpp]; YAML is an interface ([Yaml]).
    - [RepoCache]: [repo/repo_cache]; JSON is an interface ([Json]), the OSTree
      repository a record of its answers; a write has an outcome ([write_env]),
      and the text that reaches the file may be cut short unnoticed ([written]).
    - [OstreeRepo]: [repo/ostree_repo.cpp] without its file work: configuration
      and priorities, look-up of references, listing, layer selection, deletion
      marks; the web client is an interface ([Client]).
    - [MergeModules]: [OSTreeRepo::mergeModules].
    - [Extension]: [extension/extension].
    - [Prune]: [PackageManager::Prune].
    - [PackageTask]: [package_manager/package_task], the queue as a
      step relation in which a job that waits for the user runs a nested loop of
      events while its task is still queued.
    - [JobQueue]: the queue of background jobs of [package_manager.h].
    - [PackageManager]: what the requests to install, uninstall and update decide,
      the lock of the repository and the packages in use.
    - [PackageJobs]: the jobs behind these requests, as programs over the task,
      the repository and an oracle.
    - [PackageFiles]: the requests for layer files and bundles with their jobs and
      [OSTreeRepo::importLayerDir], [deferredUninstall] and [setConfiguration].
    - [Path]: the operations of [std::filesystem::path] in use.
    - [ContainerCfg]: the self-adjusting mounts of
      [libs/oci-cfg-generators/.../container_cfg_builder.cpp].
    - [ContainerEnv]: [appendEnv] and [buildEnv] of the same file.
    - [ContainerMounts]: the setters of the same file, the steps of [build] and
      their composition; the host is a record of answers ([host]).
    - [RunContext]: [runtime/run_context.cpp].
    - [Init]: [apps/ll-init/src/ll-init.cpp] and [delegateToContainerInit] of
      [cli/cli.cpp], which talk over a socket.
    - [LayerFile]: [package/layer_file], [package/layer_packager] and
      [libs/utils/.../packageinfo_handler.cpp]; JSON is an interface ([JsonLib]).
    - [LightElf]: [apps/uab/header/src/light_elf.h].
    - [Uab]: [package/uab_file.cpp], [package/uab_packager.cpp] and
      [apps/uab/header/src/main.cpp]; JSON is an interface ([MetaJson]).
    - [BuildOutput]: what [builder/linglong_builder.cpp] does with the output of
      a build: [installModule], [installFiles], [copyDir], [generateEntries], over
      a tree of files.
    - [Builder]: the rest of that file around it: scripts, dependencies, the
      stages of [build], the commit, exports and the commands about packages.
    - [CliCommands]: the commands of [cli/cli.cpp] about packages and
      repositories, and old command lines of [apps/ll-cli/src/main.cpp].
    - [CliRun]: the commands of [cli/cli.cpp] that run applications or look at
      containers.

    (The directories [package], [repo], [package_manager], [extension],
    [runtime], [builder] and [cli] are below [libs/linglong/src/linglong].)  [Reference]
    builds on [Version], which builds on [Semver]; [RepoCache] sorts by
    [Version]; [OstreeRepo] uses all of them; [MergeModules] works on the cache;
    [PackageManager], [Prune] and [RunContext] ask the repository, [PackageJobs]
    changes it; [ContainerMounts] ends in [ContainerCfg] and [ContainerEnv] and
    takes its digest from [Sha256]; [Uab] reads sections with [LightElf] and
    digests with [Sha256]; [PackageFiles] reads files with [LayerFile] and [Uab],
    weighs them with [PackageManager] and runs its jobs as [PackageJobs] does;
    [CliCommands] makes the requests that [PackageManager] and [PackageFiles]
    answer; [CliRun] composes [RunContext], [ContainerMounts] and [Init];
    [Builder] commits what [BuildOutput] has distributed, with the import of
    [PackageFiles] and the programs of [PackageJobs].

    ** Conventions

    Definitions keep the names of the code, with a prefix ([v1_], [fb_], [ver_],
    [ref_], [fuzzy_], ...) where several classes have a method of one name.  A
    method that changes its object takes the object and returns the new one
    together with a [result]; an error keeps its code, texts are dropped.
    [terminated] is the code of the runs that C++ does not define or ends
    ([std::terminate] out of a [noexcept] function, a dereferenced empty
    optional, an index out of range); in [LightElf], where exceptions are part
    of the interface, [Throws] and [Undefined] are values.  Integers are [Z] with
    the wrap-around written out ([u64], [i64], ...).  Failures of the outside
    world (a file that cannot be written, a remote that cannot be changed, a
    directory that cannot be read, a short read, a write that is cut short and
    not noticed) are arguments, so that the theorems hold for every combination
    of them.

    ** What the theorems show

    - Versions: strict parsing accepts the printed well-formed versions and
      nothing else but a final newline; printing and parsing are inverse;
      [compare] is a total preorder with the stated equality; increments increase;
      the operators of parsed versions with numbers below [2^63] are a strict weak
      order, except among fallback versions, where an example is a cycle; with
      larger numbers they are not transitive.
    - References: round trips through text, map and package record; the meaning of
      a fuzzy reference.
    - Text: replacing ends and is the reference definition; a quoted argument is
      read back by the shell.
    - SHA-256: the incremental hash of any pieces is the hash of the standard; its
      invariant.
    - Cache: invariant over adding, deleting and merging with failing and
      unnoticed short writes; the meaning of a query, stated without the code's
      tests; reopening, rebuilding.
    - Repository: local and remote look-up choose an admissible package of the
      greatest version; selection of the layer of a module; deletion marks;
      conversion of configurations; promotion of a repository; which failures of a
      configuration change are rolled back, and which are not.
    - Merging: the records and directories after a merge, from the installed
      layers alone; merging twice.
    - Pruning: what an installed application needs stays, the rest goes; what a
      run consists of is among what stays.
    - Tasks and jobs: states, progress within a stage; only the first task of the
      queue has jobs that run, one as long as none waits for the user, and such a
      wait lets the same job start again (an example); what a cancelled task at
      the head of the queue does; every job is executed.
    - Package manager: the verdict on a request against an abstract one; exactly
      when a removal is queued; which upgrades an update request takes and why one
      is refused; an update never loses the application.
    - Packages from files: which bundles are installed at all; what the
      installation of a layer file or a bundle leaves alone however it ends; what
      is recorded when a bundle is committed; that a later removal spares what
      runs.
    - Running: a file that is given to an application is where the application is
      told, as long as no linked directory lies on its way; which variables an
      extension can set; where the code dereferences what may be missing; a
      running application is found to be in use.
    - Containers: no mount of the builder hides another, what the builder and the
      configuration mount in the directories of the system is read-only but for
      named tmpfs and links, and the adjustment loses no mount; the mounts come
      out so that none hides an earlier one; no mount with a node and no entry of
      the root is lost; what building the tree drops or refuses; precedence and
      quoting of the variables.
    - Init: what its exit status is, that it leaves right after a look at [/proc]
      that saw nobody else or could not be taken, which clients it answers, and
      that a delegated command arrives unchanged.
    - Layer files: reading and unpacking what was packed; the offset of the image.
    - Bundles: the packager's bundles pass every check; what [verify] answers for
      any file; when copying the image ends; which files of a layer are exported;
      that the reader of sections stays in its buffers.
    - Builder: under the conditions that are listed there, every file of a build
      ends in one module; copies and exports are what they should be; what is in
      the repository after a commit and after a build, what a build leaves alone,
      and what is packed into a bundle in which order; where files get lost or an
      installation fails (theorems on examples in [BuildOutput]).
    - Command line: the modules a language asks for; what an upgrade asks for and
      that the daemon finds it; which packages and repositories a search shows and
      asks; that a changed configuration of repositories is in order and the
      daemon does not refuse it before it tries to apply it.

    ** Recursion

    Recursion is structural wherever the code's is.  The others carry fuel:
    [dec] one unit per bit, more than one per digit; a starred pattern the length
    of the text, since it consumes a character each round; [replace_loop] the
    length of the text, since every round moves on; the walks up the mount tree
    the index of the node, since parents have smaller indices ([up_fuel]); the
    climb along a path its length, since every parent is shorter ([climb_fuel]);
    the breadth-first loops the number of nodes, since a node is entered once
    ([bfs_run], [collect_bfs], [generate_bfs]); [verify_loop] and [copy_loop] one
    more than the length of the file, since every block they read is not empty;
    [read_blocks] the length of the image for the same reason.  [copyDir] takes the number of entries and
    two, more than the depth of any directory ([depth_size]).  [save_loop] takes
    the fuel of its caller, because the loop of the code need not end; its
    theorem says when it does.  [read_command] returns [None] for the clients on
    which the code spins.  A job ([PackageJobs], [PackageFiles]) whose result is
    [None] has ended the daemon or never returns.  Traces of events ([Init], [PackageTask], [JobQueue])
    are lists.

    ** Not modelled

    Importing, pulling, checking out and exporting files, starting containers
    and bundles, the downloads and containers of the builder, the output and the dialogue of
    the command line, D-Bus, logging and the Wayland socket: sequences of calls
    into OSTree, the file system and external programs, or generated code. *)
From stdpp Require Export base tactics list strings numbers sets gmap sorting.
From Stdlib Require Export Ascii ZArith Lia.
#[global] Open Scope Z_scope.
#[global] Set Default Proof Using "Type".

(** ** Strings

    [std::string] and [QString] values are sequences of characters.  Literals
    are written [lit "abc"]. *)

Abbreviation str := (list ascii).
Abbreviation lit s := (String.list_ascii_of_string s%string).

(** ** Results

    [utils::error::Result<T>] is [tl::expected<T, Error>].  Only the error code
    of an [Error] takes part in decisions of the code, so that is what the model
    keeps; message texts are for display. *)

Inductive result (A : Type) : Type :=
| Ok (a : A)
| Err (code : Z).
Arguments Ok {A} a.
Arguments Err {A} code.

Definition res_bind {A B} (r : result A) (f : A -> result B) : result B :=
  match r with Ok a => f a | Err e => Err e end.

Declare Scope res_scope.
Delimit Scope res_scope with res.
Notation "x <-r c1 ;; c2" := (res_bind c1 (fun x => c2))
  (at level 100, c1 at next level, right associativity) : res_scope.
Notation "c1 ;;r c2" := (res_bind c1 (fun _ => c2))
  (at level 100, c2 at level 200, right associativity) : res_scope.
#[global] Open Scope res_scope.

Definition is_ok {A} (r : result A) : bool :=
  match r with Ok _ => true | Err _ => false end.

Definition res_of_option {A} (code : Z) (o : option A) : result A :=
  match o with Some a => Ok a | None => Err code end.

(** ** Machine integers *)

Definition u32_max : Z := 2 ^ 32 - 1.
Definition u64_max : Z := 2 ^ 64 - 1.
Definition i64_max : Z := 2 ^ 63 - 1.
Definition i32_max : Z := 2 ^ 31 - 1.

(** Conversion to an unsigned [w]-bit integer. *)
Definition wrap_u (w x : Z) : Z := x mod 2 ^ w.

(** Conversion to a two's complement [w]-bit integer. *)
Definition wrap_s (w x : Z) : Z := (x + 2 ^ (w - 1)) mod 2 ^ w - 2 ^ (w - 1).

Abbreviation u64 := (wrap_u 64).
Abbreviation u32 := (wrap_u 32).
Abbreviation i64 := (wrap_s 64).
Abbreviation i32 := (wrap_s 32).

(** ** Decimal numerals *)

(** [isspace] in the C locale. *)
Definition is_space (c : ascii) : bool :=
  let n := N_of_ascii c in (n =? 32)%N || ((9 <=? n)%N && (n <=? 13)%N).

Definition is_digit (c : ascii) : bool :=
  let n := N_of_ascii c in (48 <=? n)%N && (n <=? 57)%N.

Definition digit_val (c : ascii) : Z := Z.of_N (N_of_ascii c) - 48.

Definition digit_chr (d : Z) : ascii := ascii_of_N (Z.to_N (d + 48)).

(** Value of a decimal numeral, most significant digit first. *)
Definition undec (s : str) : Z :=
  fold_left (fun acc c => acc * 10 + digit_val c) s 0.

Fixpoint dec_go (fuel : nat) (n : Z) (acc : str) : str :=
  match fuel with
  | O => acc
  | S f =>
      let acc' := digit_chr (n mod 10) :: acc in
      if n <? 10 then acc' else dec_go f (n / 10) acc'
  end.

(** [std::to_string] on a non-negative integer: one round of fuel per bit is
    more than one per decimal digit. *)
Definition dec (n : Z) : str := dec_go (S (Z.to_nat (Z.log2 n))) n [].

#[global] Arguments dec : simpl never.

(** [std::stoull] on the digit strings the code gives it: [None] is the thrown
    [std::out_of_range] (or [std::invalid_argument]). *)
Definition stoull (s : str) : option Z :=
  if negb (bool_decide (s = [])) && forallb is_digit s
  then if undec s <=? u64_max then Some (undec s) else None
  else None.

(** ** Character searches of [std::string] *)

(** [find(c)]: index of the first [c]. *)
Fixpoint find_char (c : ascii) (s : str) : option nat :=
  match s with
  | [] => None
  | x :: s' => if decide (x = c) then Some O else S <$> find_char c s'
  end.

(** [find_first_not_of(set) == npos]. *)
Definition all_in (p : ascii -> bool) (s : str) : bool := forallb p s.

(** [str.rfind(prefix, 0) == 0]. *)
Fixpoint is_prefix (p s : str) : bool :=
  match p, s with
  | [], _ => true
  | _, [] => false
  | x :: p', y :: s' => bool_decide (x = y) && is_prefix p' s'
  end.

(** [find(pat, 0)]: index of the first occurrence of [pat]. *)
Fixpoint find_sub (pat s : str) : option nat :=
  if is_prefix pat s then Some O
  else match s with
       | [] => None
       | _ :: s' => S <$> find_sub pat s'
       end.

(** [join(sep)] of a list of strings. *)
Fixpoint join (sep : str) (l : list str) : str :=
  match l with
  | [] => []
  | [x] => x
  | x :: l' => x ++ sep ++ join sep l'
  end.

(** Pieces of [s] between the characters [d], empty pieces kept. *)
Fixpoint split_on (d : ascii) (s : str) : list str :=
  match s with
  | [] => [[]]
  | c :: s' =>
      if decide (c = d) then [] :: split_on d s'
      else match split_on d s' with
           | [] => [[c]]
           | p :: ps => (c :: p) :: ps
           end
  end.

(** [QString::split(d, Qt::SkipEmptyParts)]. *)
Definition split_skip (d : ascii) (s : str) : list str :=
  filter (fun p => p <> []) (split_on d s).

(** ** Three-way comparators

    The code compares with [int]-valued functions returning -1, 0 or 1 and
    builds them up lexicographically.  [three_way] says that such a function is
    a total preorder; the combinators below preserve it. *)

Record three_way {A} (c : A -> A -> Z) : Prop := {
  tw_range : forall a b, c a b = -1 \/ c a b = 0 \/ c a b = 1;
  tw_anti : forall a b, c b a = - c a b;
  tw_trans : forall a b d, c a b <= 0 -> c b d <= 0 -> c a d <= 0
}.

(** [a < b ? -1 : (a > b)] on integers. *)
Definition z_cmp (a b : Z) : Z := if a <? b then -1 else if b <? a then 1 else 0.

Definition lex_cmp {A} (c1 c2 : A -> A -> Z) (a b : A) : Z :=
  if c1 a b =? 0 then c2 a b else c1 a b.

Definition on_cmp {A B} (f : A -> B) (c : B -> B -> Z) (a b : A) : Z := c (f a) (f b).

Fixpoint list_cmp {A} (c : A -> A -> Z) (l1 l2 : list A) : Z :=
  match l1, l2 with
  | [], [] => 0
  | [], _ :: _ => -1
  | _ :: _, [] => 1
  | x :: l1', y :: l2' => if c x y =? 0 then list_cmp c l1' l2' else c x y
  end.

Definition chr_cmp : ascii -> ascii -> Z := on_cmp (fun c => Z.of_N (N_of_ascii c)) z_cmp.

(** [std::string::compare] (bytes compare as [unsigned char]). *)
Definition str_cmp : str -> str -> Z := list_cmp chr_cmp.

(** ** Tactics and hints *)

Create HintDb lin.

(** Split on the boolean integer comparisons in the goal and finish by [lia]. *)
Ltac zcase :=
  repeat match goal with
  | |- context [?a <? ?b] => destruct (Z.ltb_spec a b)
  | |- context [?a =? ?b] => destruct (Z.eqb_spec a b)
  | |- context [?a <=? ?b] => destruct (Z.leb_spec a b)
  | H : context [?a <? ?b] |- _ => destruct (Z.ltb_spec a b)
  | H : context [?a =? ?b] |- _ => destruct (Z.eqb_spec a b)
  | H : context [?a <=? ?b] |- _ => destruct (Z.leb_spec a b)
  end.

(** Split the booleans combined by [&&] and [||] in the hypotheses. *)
Ltac bsplit :=
  repeat match goal with
  | H : (_ && _) = true |- _ => apply andb_true_iff in H as [? ?]
  | H : (_ || _) = false |- _ => apply orb_false_iff in H as [? ?]
  | H : negb _ = true |- _ => apply negb_true_iff in H
  | H : negb _ = false |- _ => apply negb_false_iff in H
  | H : bool_decide _ = true |- _ => apply bool_decide_eq_true in H
  | H : bool_decide _ = false |- _ => apply bool_decide_eq_false in H
  | H : (_ <=? _) = true |- _ => apply Z.leb_le in H
  | H : (_ <? _) = true |- _ => apply Z.ltb_lt in H
  | H : (_ <=? _)%N = true |- _ => apply N.leb_le in H
  end.

(** Associate concatenations to the right. *)
Ltac lassoc := repeat (rewrite <- app_assoc || (progress cbn [app String.list_ascii_of_string])).

(** ** Facts about comparators *)

Section three_way_facts.
Context {A : Type} (c : A -> A -> Z) (Hc : three_way c).

Lemma tw_refl a : c a a = 0.
Proof using Hc. pose proof (tw_anti c Hc a a). lia. Qed.

Lemma tw_lt_le a b d : c a b < 0 -> c b d <= 0 -> c a d < 0.
Proof using Hc.
  intros H1 H2. destruct (decide (c a d < 0)); [done|]. exfalso.
  pose proof (tw_anti c Hc a d). pose proof (tw_anti c Hc a b).
  assert (c b a <= 0); [|lia]. eapply (tw_trans c Hc b d a); lia.
Qed.

Lemma tw_le_lt a b d : c a b <= 0 -> c b d < 0 -> c a d < 0.
Proof using Hc.
  intros H1 H2. destruct (decide (c a d < 0)); [done|]. exfalso.
  pose proof (tw_anti c Hc a d). pose proof (tw_anti c Hc b d).
  assert (c d b <= 0); [|lia]. eapply (tw_trans c Hc d a b); lia.
Qed.

Lemma tw_eq_trans a b d : c a b = 0 -> c b d = 0 -> c a d = 0.
Proof using Hc.
  intros H1 H2. pose proof (tw_trans c Hc a b d). pose proof (tw_trans c Hc d b a).
  pose proof (tw_anti c Hc a b). pose proof (tw_anti c Hc b d). pose proof (tw_anti c Hc a d). lia.
Qed.

Lemma tw_on {B} (f : B -> A) : three_way (on_cmp f c).
Proof using Hc.
  split; unfold on_cmp; intros; [apply Hc | apply Hc | eapply (tw_trans c Hc); eauto].
Qed.

Lemma tw_list : three_way (list_cmp c).
Proof using Hc.
  split.
  - induction a as [|x a IH]; intros [|y b]; simpl; auto.
    destruct (Z.eqb_spec (c x y) 0); auto. apply Hc.
  - induction a as [|x a IH]; intros [|y b]; simpl; auto.
    rewrite (tw_anti c Hc x y), IH. zcase; lia.
  - induction a as [|x a IH]; intros [|y b] [|z d]; simpl; try lia.
    destruct (Z.eqb_spec (c x y) 0) as [E1|N1], (Z.eqb_spec (c y z) 0) as [E2|N2]; intros H1 H2.
    + rewrite (tw_eq_trans x y z) by done. simpl. eauto.
    + assert (c x z < 0) by (eapply (tw_le_lt x y z); lia). zcase; lia.
    + assert (c x z < 0) by (eapply (tw_lt_le x y z); lia). zcase; lia.
    + assert (c x z < 0) by (eapply (tw_lt_le x y z); lia). zcase; lia.
Qed.
End three_way_facts.

Lemma tw_lex {A} (c1 c2 : A -> A -> Z) :
  three_way c1 -> three_way c2 -> three_way (lex_cmp c1 c2).
Proof.
  intros H1 H2. unfold lex_cmp. split; intros.
  - destruct (Z.eqb_spec (c1 a b) 0); [apply H2|apply H1].
  - rewrite (tw_anti c1 H1 a b), (tw_anti c2 H2 a b). zcase; lia.
  - destruct (Z.eqb_spec (c1 a b) 0), (Z.eqb_spec (c1 b d) 0).
    + rewrite (tw_eq_trans c1 H1 a b d) by done. simpl. eapply (tw_trans c2 H2); eauto.
    + assert (c1 a d < 0) by (eapply (tw_le_lt c1 H1 a b d); lia). zcase; lia.
    + assert (c1 a d < 0) by (eapply (tw_lt_le c1 H1 a b d); lia). zcase; lia.
    + assert (c1 a d < 0) by (eapply (tw_lt_le c1 H1 a b d); lia). zcase; lia.
Qed.

Lemma tw_z : three_way z_cmp.
Proof. split; unfold z_cmp; intros; zcase; lia. Qed.

Lemma z_cmp_eq a b : z_cmp a b = 0 <-> a = b.
Proof. unfold z_cmp. zcase; lia. Qed.

Lemma z_cmp_lt a b : z_cmp a b = -1 <-> a < b.
Proof. unfold z_cmp. zcase; lia. Qed.

Lemma tw_chr : three_way chr_cmp.
Proof. apply tw_on, tw_z. Qed.

Lemma tw_str : three_way str_cmp.
Proof. apply tw_list, tw_chr. Qed.

#[export] Hint Resolve tw_z tw_chr tw_str tw_lex tw_on tw_list : lin.

Lemma N_of_ascii_inj a b : N_of_ascii a = N_of_ascii b -> a = b.
Proof. intros H. rewrite <- (ascii_N_embedding a), <- (ascii_N_embedding b). by rewrite H. Qed.

Lemma chr_cmp_eq a b : chr_cmp a b = 0 <-> a = b.
Proof.
  unfold chr_cmp, on_cmp. rewrite z_cmp_eq. split; [|by intros ->].
  intros H. apply N_of_ascii_inj. lia.
Qed.

Lemma list_cmp_eq {A} (c : A -> A -> Z) :
  (forall a b, c a b = 0 <-> a = b) -> forall l1 l2, list_cmp c l1 l2 = 0 <-> l1 = l2.
Proof.
  intros Hc. induction l1 as [|x l1 IH]; intros [|y l2]; simpl; try (split; (lia || done)).
  destruct (Z.eqb_spec (c x y) 0) as [E|N].
  - apply Hc in E as ->. rewrite IH. split; [by intros ->|by intros [= ->]].
  - split; [done|]. intros [= -> ->]. by destruct N; apply Hc.
Qed.

Lemma str_cmp_eq a b : str_cmp a b = 0 <-> a = b.
Proof. apply list_cmp_eq, chr_cmp_eq. Qed.

(** ** Facts about decimal numerals *)

(** A numeral without superfluous leading zero: [0|[1-9]\d*]. *)
Definition canon_num (s : str) : bool :=
  match s with
  | [] => false
  | c :: s' => is_digit c && forallb is_digit s' && (negb (bool_decide (c = "0"%char)) || bool_decide (s' = []))
  end.

Lemma digit_val_range c : is_digit c = true -> 0 <= digit_val c <= 9.
Proof. unfold is_digit, digit_val. intros H. bsplit. lia. Qed.

Lemma digit_chr_digit d : 0 <= d <= 9 -> is_digit (digit_chr d) = true /\ digit_val (digit_chr d) = d.
Proof.
  intros H. unfold is_digit, digit_val, digit_chr. rewrite N_ascii_embedding by lia.
  split; [|lia]. apply andb_true_iff. split; apply N.leb_le; lia.
Qed.

Lemma digit_chr_val c : is_digit c = true -> digit_chr (digit_val c) = c.
Proof.
  intros H. pose proof (digit_val_range c H) as Hr. apply N_of_ascii_inj.
  unfold digit_chr. replace (digit_val c + 48) with (Z.of_N (N_of_ascii c)) by (unfold digit_val; lia).
  by rewrite N2Z.id, ascii_N_embedding.
Qed.

Lemma undec_app s c : undec (s ++ [c]) = undec s * 10 + digit_val c.
Proof. unfold undec. by rewrite fold_left_app. Qed.

Lemma undec_fold_nonneg s acc :
  0 <= acc -> forallb is_digit s = true ->
  acc <= fold_left (fun a c => a * 10 + digit_val c) s acc.
Proof.
  revert acc. induction s as [|c s IH]; intros acc Ha; [simpl; lia|].
  intros H. simpl in *. bsplit. pose proof (digit_val_range c ltac:(done)).
  etrans; [|apply IH; [lia|done]]. lia.
Qed.

Lemma undec_nonneg s : forallb is_digit s = true -> 0 <= undec s.
Proof. intros. apply (undec_fold_nonneg s 0); [lia|done]. Qed.

Lemma canon_digits s : canon_num s = true -> forallb is_digit s = true /\ s <> [].
Proof. destruct s; simpl; [done|]. intros. bsplit. split; [apply andb_true_iff; auto|done]. Qed.

Lemma canon_snoc s c : s <> [] -> canon_num (s ++ [c]) = true ->
  canon_num s = true /\ is_digit c = true /\ 1 <= undec s.
Proof.
  destruct s as [|x s]; [done|]. intros _. simpl. intros H. bsplit.
  rewrite forallb_app in *. bsplit. simpl in *. bsplit.
  destruct (bool_decide_reflect (s ++ [c] = [])) as [E|_]; [by destruct s|].
  rewrite orb_false_r in *. bsplit.
  split_and!; auto.
  - apply andb_true_iff; split; [apply andb_true_iff; auto|].
    by rewrite bool_decide_false.
  - unfold undec. simpl. etrans; [|apply undec_fold_nonneg; [|done]].
    + assert (digit_val x <> 0); [|pose proof (digit_val_range x ltac:(done)); lia].
      intros E. assert (Hx : digit_chr (digit_val x) = x) by (by apply digit_chr_val).
      rewrite E in Hx. by subst x.
    + pose proof (digit_val_range x ltac:(done)); lia.
Qed.

Lemma dec_go_undec s f acc :
  canon_num s = true -> undec s < 10 ^ (Z.of_nat f + 1) -> dec_go (S f) (undec s) acc = s ++ acc.
Proof.
  revert f acc. induction s as [|c s IH] using rev_ind; [done|].
  intros f acc Hs Hlt.
  assert (Hc : is_digit c = true).
  { apply canon_digits in Hs as [Hs _]. rewrite forallb_app in Hs. simpl in Hs. by bsplit. }
  pose proof (digit_val_range c Hc) as Hr. rewrite undec_app in *. cbn [dec_go].
  replace ((undec s * 10 + digit_val c) mod 10) with (digit_val c)
    by (rewrite Z.add_comm, Z_mod_plus_full, Z.mod_small by lia; done).
  replace ((undec s * 10 + digit_val c) / 10) with (undec s)
    by (rewrite Z.div_add_l, Z.div_small by lia; lia).
  rewrite digit_chr_val by done.
  destruct (decide (s = [])) as [->|Hne].
  - change (undec []) with 0. change (0 * 10 + digit_val c) with (digit_val c).
    destruct (Z.ltb_spec (digit_val c) 10); [done|lia].
  - destruct (canon_snoc s c Hne Hs) as (Hs' & _ & Hpos).
    destruct (Z.ltb_spec (undec s * 10 + digit_val c) 10); [lia|].
    destruct f as [|f]; [simpl in Hlt; lia|].
    rewrite IH, <- app_assoc; [done|done|].
    replace (Z.of_nat (S f) + 1) with (Z.succ (Z.of_nat f + 1)) in Hlt by lia.
    rewrite Z.pow_succ_r in Hlt by lia. lia.
Qed.

Lemma canon_exists n : 0 <= n -> exists s, canon_num s = true /\ undec s = n.
Proof.
  intros H. revert n H. apply (Zlt_0_ind (fun n => exists s, canon_num s = true /\ undec s = n)).
  intros n IH Hn. destruct (decide (n < 10)) as [Hl|Hl].
  - destruct (digit_chr_digit n) as [H1 H2]; [lia|]. exists [digit_chr n].
    split; [|unfold undec; simpl; lia]. simpl. rewrite H1. simpl. apply orb_true_r.
  - destruct (IH (n / 10)) as (s & Hs & Hv); [split; [apply Z.div_pos|apply Z.div_lt]; lia|].
    destruct (digit_chr_digit (n mod 10)) as [H1 H2]; [pose proof (Z.mod_pos_bound n 10); lia|].
    exists (s ++ [digit_chr (n mod 10)]). split.
    + destruct s as [|x s]; [done|]. simpl in *. bsplit. rewrite forallb_app. simpl.
      rewrite H1. repeat match goal with H : _ = true |- _ => rewrite H end. simpl.
      destruct (bool_decide_reflect (x = "0"%char)) as [->|]; [|done]. simpl in *. bsplit. subst s.
      unfold undec in Hv; simpl in Hv. assert (n / 10 = 0) by (rewrite <- Hv; done).
      pose proof (Z.div_mod n 10). pose proof (Z.mod_pos_bound n 10). lia.
    + rewrite undec_app, Hv, H2. pose proof (Z.div_mod n 10). lia.
Qed.

Lemma dec_undec s : canon_num s = true -> dec (undec s) = s.
Proof.
  intros Hs. unfold dec. pose proof (canon_digits s Hs) as [Hd _].
  pose proof (undec_nonneg s Hd). rewrite dec_go_undec; [apply app_nil_r|done|].
  destruct (decide (undec s = 0)) as [->|]; [done|].
  rewrite Z2Nat.id by apply Z.log2_nonneg.
  eapply Z.lt_le_trans; [apply Z.log2_spec; lia|].
  replace (Z.succ (Z.log2 (undec s))) with (Z.log2 (undec s) + 1) by lia.
  apply Z.pow_le_mono_l. lia.
Qed.

Lemma undec_dec n : 0 <= n -> undec (dec n) = n.
Proof. intros H. destruct (canon_exists n H) as (s & Hs & <-). by rewrite dec_undec. Qed.

Lemma dec_canon n : 0 <= n -> canon_num (dec n) = true.
Proof. intros H. destruct (canon_exists n H) as (s & Hs & <-). by rewrite dec_undec. Qed.

Lemma dec_digits n : 0 <= n -> forallb is_digit (dec n) = true.
Proof. intros H. by apply canon_digits, dec_canon. Qed.

Lemma dec_nonempty n : 0 <= n -> dec n <> [].
Proof. intros H. by apply canon_digits, dec_canon. Qed.

Lemma dec_inj a b : 0 <= a -> 0 <= b -> dec a = dec b -> a = b.
Proof. intros Ha Hb H. by rewrite <- (undec_dec a), <- (undec_dec b), H. Qed.

Lemma stoull_dec n : 0 <= n <= u64_max -> stoull (dec n) = Some n.
Proof.
  intros H. unfold stoull. rewrite bool_decide_false by (apply dec_nonempty; lia).
  rewrite dec_digits, undec_dec by lia. simpl. by destruct (Z.leb_spec n u64_max); [|lia].
Qed.

Lemma stoull_some s n : stoull s = Some n ->
  s <> [] /\ forallb is_digit s = true /\ n = undec s /\ 0 <= n <= u64_max.
Proof.
  unfold stoull. destruct (bool_decide_reflect (s = [])); simpl; [done|].
  destruct (forallb is_digit s) eqn:E; [|done]. destruct (Z.leb_spec (undec s) u64_max); [|done].
  intros [= <-]. pose proof (undec_nonneg s E). auto.
Qed.

Lemma stoull_canon s n : canon_num s = true -> stoull s = Some n -> s = dec n.
Proof. intros Hc Hs. apply stoull_some in Hs as (_ & _ & -> & _). by rewrite dec_undec. Qed.

(** ** Facts about splitting and joining *)

Lemma split_on_nonempty d s : split_on d s <> [].
Proof. destruct s; simpl; [done|]. case_decide; [done|]. by destruct (split_on d s). Qed.

Lemma split_on_none d s : d ∉ s -> split_on d s = [s].
Proof.
  induction s as [|c s IH]; simpl; [done|]. intros H. apply not_elem_of_cons in H as [H1 H2].
  rewrite decide_False by done. by rewrite IH.
Qed.

Lemma split_on_app d p s : d ∉ p -> split_on d (p ++ d :: s) = p :: split_on d s.
Proof.
  induction p as [|c p IH]; intros H; simpl; [by rewrite decide_True|].
  apply not_elem_of_cons in H as [H1 H2]. rewrite decide_False by done. by rewrite IH.
Qed.

Lemma join_cons2 sep (x y : str) l : join sep (x :: y :: l) = x ++ sep ++ join sep (y :: l).
Proof. done. Qed.

(** Joining the pieces gives the string back. *)
Lemma join_split d s : join [d] (split_on d s) = s.
Proof.
  induction s as [|c s IH]; [done|]. simpl. case_decide as E.
  - subst. destruct (split_on d s) eqn:E; [by destruct (split_on_nonempty d s)|].
    simpl in *. by rewrite IH.
  - destruct (split_on d s) as [|p ps] eqn:E'; [by destruct (split_on_nonempty d s)|].
    destruct ps as [|q qs]; simpl in *; by rewrite <- IH.
Qed.

(** Splitting a joined list of separator-free pieces gives the pieces back. *)
Lemma split_join d l : l <> [] -> Forall (fun p => d ∉ p) l -> split_on d (join [d] l) = l.
Proof.
  induction l as [|p l IH]; [done|]. intros _ H. inversion H as [|?? Hp Hl]; subst.
  destruct l as [|q l]; simpl; [by apply split_on_none|].
  rewrite split_on_app by done. f_equal. by apply IH.
Qed.

Lemma split_on_free d s : Forall (fun p => d ∉ p) (split_on d s).
Proof.
  induction s as [|c s IH]; simpl; [repeat constructor; by apply not_elem_of_nil|].
  case_decide; [constructor; [by apply not_elem_of_nil|done]|].
  destruct (split_on d s) as [|p ps]; [repeat constructor; set_solver|].
  inversion IH; subst. constructor; [|done]. by apply not_elem_of_cons.
Qed.

Lemma split_skip_join d l :
  Forall (fun p => (d ∉ p) /\ p <> []) l -> split_skip d (join [d] l) = l.
Proof.
  intros H. unfold split_skip. destruct l as [|p l]; [done|].
  rewrite split_join; [|done|by eapply Forall_impl; [exact H|naive_solver]].
  revert H. generalize (p :: l). clear. induction l as [|p l IH]; [done|].
  intros H. inversion H as [|?? [? ?] ?]; subst. rewrite filter_cons_True by done. f_equal. auto.
Qed.

Lemma split_skip_free d s : Forall (fun p => (d ∉ p) /\ p <> []) (split_skip d s).
Proof.
  unfold split_skip. apply Forall_forall. intros p Hp. apply list_elem_of_filter in Hp as [H1 H2].
  split; [|done]. pose proof (split_on_free d s) as H. rewrite Forall_forall in H. auto.
Qed.

(** ** Sorting

    [std::sort] gives some sorted permutation, provided the comparator is a
    strict weak order on the elements (otherwise its behaviour is undefined).
    The order of equivalent elements is not specified, so it is a parameter. *)

Record strict_weak {A} (lt : A -> A -> bool) (l : list A) : Prop := {
  sw_asym : forall x y, x ∈ l -> y ∈ l -> lt x y = true -> lt y x = false;
  sw_neg : forall x y z, x ∈ l -> y ∈ l -> z ∈ l -> lt x y = false -> lt y z = false -> lt x z = false
}.

Class StdSort := {
  std_sort : forall {A}, (A -> A -> bool) -> list A -> list A;
  std_sort_perm : forall A (lt : A -> A -> bool) l, strict_weak lt l -> std_sort lt l ≡ₚ l;
  std_sort_sorted : forall A (lt : A -> A -> bool) l, strict_weak lt l ->
    StronglySorted (fun a b => lt b a = false) (std_sort lt l)
}.

Lemma sorted_lookup {A} (R : A -> A -> Prop) l i j x y :
  StronglySorted R l -> l !! i = Some x -> l !! j = Some y -> (i < j)%nat -> R x y.
Proof.
  intros H. revert i j. induction H as [|z l Hl IH Hz]; intros i j Hi Hj Hij; [done|].
  destruct j as [|j]; [lia|]. destruct i as [|i]; simpl in *.
  - injection Hi as ->. rewrite Forall_forall in Hz. apply Hz. by eapply list_elem_of_lookup_2.
  - eapply (IH i j); [done|done|lia].
Qed.

(** An instance: insertion sort. *)
Fixpoint insert_sorted {A} (lt : A -> A -> bool) (x : A) (l : list A) : list A :=
  match l with
  | [] => [x]
  | y :: l' => if lt y x then y :: insert_sorted lt x l' else x :: l
  end.

Fixpoint insertion_sort {A} (lt : A -> A -> bool) (l : list A) : list A :=
  match l with
  | [] => []
  | x :: l' => insert_sorted lt x (insertion_sort lt l')
  end.

Lemma insert_sorted_perm {A} (lt : A -> A -> bool) x l : insert_sorted lt x l ≡ₚ x :: l.
Proof.
  induction l as [|y l IH]; simpl; [done|]. destruct (lt y x); [|done].
  rewrite IH. apply Permutation_swap.
Qed.

Lemma insertion_sort_perm {A} (lt : A -> A -> bool) l : insertion_sort lt l ≡ₚ l.
Proof. induction l as [|x l IH]; simpl; [done|]. by rewrite insert_sorted_perm, IH. Qed.

Lemma strict_weak_sub {A} (lt : A -> A -> bool) l l' : (forall x, x ∈ l -> x ∈ l') ->
  strict_weak lt l' -> strict_weak lt l.
Proof. intros H [H1 H2]. split; eauto. Qed.

Lemma insert_sorted_sorted {A} (lt : A -> A -> bool) x l : strict_weak lt (x :: l) ->
  StronglySorted (fun a b => lt b a = false) l ->
  StronglySorted (fun a b => lt b a = false) (insert_sorted lt x l).
Proof.
  intros Hsw H. induction H as [|y l Hl IH Hy]; simpl; [repeat constructor|].
  assert (Hin : forall z, z ∈ insert_sorted lt x l -> z = x \/ z ∈ l).
  { intros z. rewrite insert_sorted_perm. by rewrite elem_of_cons. }
  destruct (lt y x) eqn:E.
  - constructor; [apply IH; eapply strict_weak_sub; [|exact Hsw]; set_solver|].
    apply Forall_forall. intros z Hz. destruct (Hin z Hz) as [->|Hz'].
    + eapply (sw_asym _ _ Hsw); [set_solver|set_solver|done].
    + rewrite Forall_forall in Hy. auto.
  - constructor; [by constructor|]. constructor; [done|]. apply Forall_forall. intros z Hz.
    rewrite Forall_forall in Hy. eapply (sw_neg _ _ Hsw z y x); [set_solver..|by apply Hy|done].
Qed.

Lemma insertion_sort_sorted {A} (lt : A -> A -> bool) l : strict_weak lt l ->
  StronglySorted (fun a b => lt b a = false) (insertion_sort lt l).
Proof.
  induction l as [|x l IH]; intros H; simpl; [constructor|].
  apply insert_sorted_sorted.
  - eapply strict_weak_sub; [|exact H]. intros z. by rewrite !elem_of_cons, insertion_sort_perm.
  - apply IH. eapply strict_weak_sub; [|exact H]. set_solver.
Qed.

Definition std_sort_model : StdSort := {|
  std_sort := @insertion_sort;
  std_sort_perm := fun A lt l _ => insertion_sort_perm lt l;
  std_sort_sorted := @insertion_sort_sorted
|}.

(** ** Results *)

Lemma res_bind_ok {A B} (r : result A) (f : A -> result B) y : res_bind r f = Ok y -> exists x, r = Ok x /\ f x = Ok y.
Proof. destruct r as [x|]; [|done]. intros E. by exists x. Qed.
