(* ===== verification/Strings.v ===== *)
(** * Text helpers ([utils/strings.h], [utils/bash_quote.h])

    The loops over positions of a [std::string], with the number of rounds as
    fuel, and what they compute.  [replaceSubstring] is written a second time in
    [run_context.cpp]. *)
From S2P Require Import Prelude.

(** ** Pieces *)

(** The loop of [splitString]: the pieces so far and the current one. *)
Fixpoint split_loop (delimiter : ascii) (s : str) (result : list str) (token : str) : list str :=
  match s with
  | [] => if bool_decide (token = []) then result else result ++ [token]
  | ch :: rest =>
      if bool_decide (ch = delimiter) then
        if bool_decide (token = []) then split_loop delimiter rest result []
        else split_loop delimiter rest (result ++ [token]) []
      else split_loop delimiter rest result (token ++ [ch])
  end.

Definition splitString (s : str) (delimiter : ascii) : list str := split_loop delimiter s [] [].

Definition hasPrefix (s prefix : str) : bool :=
  if bool_decide (length s < length prefix)%nat then false else bool_decide (take (length prefix) s = prefix).

Definition hasSuffix (s suffix : str) : bool :=
  if bool_decide (length s < length suffix)%nat then false
  else bool_decide (drop (length s - length suffix) s = suffix).

Definition contains (s sub : str) : bool := bool_decide (is_Some (find_sub sub s)).

(** ** Replacing *)

(** [str.find(from, start)] *)
Definition find_from (from s : str) (start : nat) : option nat :=
  (fun n => (start + n)%nat) <$> find_sub from (drop start s).

(** [while (true)]: [None] when the fuel is used up. *)
Fixpoint replace_loop (fuel : nat) (s from to : str) (start : nat) (result : str) : option str :=
  match fuel with
  | O => None
  | S fuel =>
      match find_from from s start with
      | None => Some (result ++ drop start s)
      | Some pos =>
          replace_loop fuel s from to (pos + length from)
            (result ++ take (pos - start) (drop start s) ++ to)
      end
  end.

Definition replaceSubstring (fuel : nat) (s from to : str) : option str :=
  if bool_decide (from = []) then Some s else replace_loop fuel s from to 0 [].

(** ** Quoting for a shell *)

Definition insert_at (i : nat) (text s : str) : str := take i s ++ text ++ drop i s.

Definition quotePrefix : str := lit "'\".

(** The loop of [quoteBashArg]: the text and the position of the iterator. *)
Fixpoint quote_loop (fuel : nat) (arg : str) (it : nat) : option str :=
  match fuel with
  | O => None
  | S fuel =>
      match arg !! it with
      | None => Some arg
      | Some c =>
          if bool_decide (c = "'"%char) then
            let arg := insert_at it quotePrefix arg in
            let it := (it + length quotePrefix + 1)%nat in
            let arg := insert_at it (lit "'") arg in
            quote_loop fuel arg (S it)
          else quote_loop fuel arg (S it)
      end
  end.

Definition quoteBashArg (fuel : nat) (arg : str) : option str :=
  (fun s => lit "'" ++ s ++ lit "'") <$> quote_loop fuel arg 0.

(** ** What a shell reads *)

(** The value of a word made of single-quoted parts, escaped characters and
    plain characters (POSIX shell, 2.2); [None] for an open quote or a final
    backslash. *)
Fixpoint sh_word (quoted : bool) (s : str) : option str :=
  match s with
  | [] => if quoted then None else Some []
  | c :: s =>
      if bool_decide (c = "'"%char) then sh_word (negb quoted) s
      else if negb quoted && bool_decide (c = "\"%char) then
        match s with
        | [] => None
        | d :: s => cons d <$> sh_word quoted s
        end
      else cons c <$> sh_word quoted s
  end.

Example sh_word_1 : sh_word false (lit "'it'\''s'") = Some (lit "it's"). Proof. reflexivity. Qed.
Example sh_word_2 : sh_word false (lit "'open") = None. Proof. reflexivity. Qed.

(** ** Facts *)

Lemma split_loop_spec d s result token :
  split_loop d s result token =
  result ++ filter (fun p => p <> []) (match split_on d s with [] => [token] | p :: ps => (token ++ p) :: ps end).
Proof.
  revert result token. induction s as [|c s IH]; intros result token; cbn [split_loop split_on].
  - rewrite app_nil_r. case_bool_decide as E.
    + rewrite filter_cons_False by tauto. by rewrite app_nil_r.
    + by rewrite filter_cons_True.
  - case_bool_decide as Ec; [subst|].
    + rewrite decide_True by done. rewrite app_nil_r. case_bool_decide as E.
      * rewrite IH, filter_cons_False by tauto. by destruct (split_on d s).
      * rewrite IH, filter_cons_True by done. rewrite <- app_assoc. by destruct (split_on d s).
    + rewrite decide_False by done. rewrite IH. destruct (split_on d s) as [|p ps]; [done|].
      by rewrite <- app_assoc.
Qed.

(** [splitString] is Qt's [split] with [SkipEmptyParts]. *)
Lemma splitString_spec s d : splitString s d = split_skip d s.
Proof.
  unfold splitString, split_skip. rewrite split_loop_spec. destruct (split_on d s) eqn:E; [|done].
  destruct s as [|c s]; cbn in E; [done|]. by destruct (decide (c = d)), (split_on d s).
Qed.

Lemma is_prefix_spec p s : is_prefix p s = true <-> exists r, s = p ++ r.
Proof.
  revert s. induction p as [|x p IH]; intros s; cbn [is_prefix]; [split; [by exists s|done]|].
  destruct s as [|y s]; [split; [done|by intros [? ?]]|].
  rewrite andb_true_iff, bool_decide_eq_true, IH. split.
  - intros [-> [r ->]]. by exists r.
  - intros [r [= -> ->]]. split; [done|by exists r].
Qed.

Lemma find_sub_some pat s n : find_sub pat s = Some n ->
  exists pre post, s = pre ++ pat ++ post /\ length pre = n /\
    forall pre', (length pre' < n)%nat -> forall post', s <> pre' ++ pat ++ post'.
Proof.
  revert n. induction s as [|c s IH]; intros n; cbn [find_sub].
  - destruct (is_prefix pat []) eqn:E; [|done]. intros [= <-]. apply is_prefix_spec in E as [r ->].
    exists [], r. split_and!; [done|done|]. cbn. lia.
  - destruct (is_prefix pat (c :: s)) eqn:E.
    + intros [= <-]. apply is_prefix_spec in E as [r ->]. exists [], r. split_and!; [done|done|]. cbn. lia.
    + intros (m & Em & ->)%fmap_Some_1. destruct (IH m Em) as (pre & post & -> & <- & Hmin).
      exists (c :: pre), post. split_and!; [done|done|]. intros [|c' pre'] Hl post'.
      * intros Es. apply not_true_iff_false in E. apply E, is_prefix_spec. by exists post'.
      * intros [= _ Es]. by apply (Hmin pre' ltac:(cbn in Hl; lia) post').
Qed.

Lemma find_sub_none pat s : find_sub pat s = None <-> forall pre post, s <> pre ++ pat ++ post.
Proof.
  induction s as [|c s IH]; cbn [find_sub].
  - destruct (is_prefix pat []) eqn:E.
    + split; [done|]. intros Hn. apply is_prefix_spec in E as [r E]. by destruct (Hn [] r).
    + split; [|done]. intros _ pre post Es. destruct pre; [|done]. apply not_true_iff_false in E.
      apply E, is_prefix_spec. by exists post.
  - destruct (is_prefix pat (c :: s)) eqn:E.
    + split; [done|]. intros Hn. apply is_prefix_spec in E as [r E]. by destruct (Hn [] r).
    + rewrite fmap_None, IH. split.
      * intros Hn [|c' pre] post Es; [|by injection Es as _ Es; apply (Hn pre post)].
        apply not_true_iff_false in E. apply E, is_prefix_spec. by exists post.
      * intros Hn pre post ->. by apply (Hn (c :: pre) post).
Qed.

(** A text before a first occurrence has none in it. *)
Lemma before_first pat pre post : pat <> [] ->
  (forall pre', (length pre' < length pre)%nat -> forall post', pre ++ pat ++ post <> pre' ++ pat ++ post') ->
  find_sub pat pre = None.
Proof.
  intros Hp Hmin. apply find_sub_none. intros p q ->.
  apply (Hmin p) with (q ++ pat ++ post); [|by rewrite <- !app_assoc].
  rewrite !length_app. destruct pat; [done|cbn; lia].
Qed.

Lemma replace_loop_spec fuel s from to start result : from <> [] ->
  (start <= length s)%nat -> (length s - start < fuel)%nat ->
  exists pieces, pieces <> [] /\ drop start s = join from pieces /\
    replace_loop fuel s from to start result = Some (result ++ join to pieces) /\
    Forall (fun p => find_sub from p = None) pieces.
Proof.
  intros Hf. revert start result. induction fuel as [|fuel IH]; intros start result Hs Hfuel; [lia|].
  cbn [replace_loop]. unfold find_from. destruct (find_sub from (drop start s)) as [n|] eqn:E; cbn [fmap option_fmap option_map].
  - destruct (find_sub_some _ _ _ E) as (pre & post & Ed & <- & Hmin).
    assert (Hlen : (length s - start = length pre + (length from + length post))%nat).
    { rewrite <- length_drop, Ed, !length_app. done. }
    assert (Hfrom : (0 < length from)%nat) by (destruct from; [done|cbn; lia]).
    rewrite Ed in Hmin. pose proof (before_first from pre post Hf Hmin) as Hpre.
    assert (Hdrop : drop (start + length pre + length from) s = post).
    { replace (start + length pre + length from)%nat with (start + (length pre + length from))%nat by lia.
      rewrite <- drop_drop, Ed, app_assoc. replace (length pre + length from)%nat with (length (pre ++ from))
        by (by rewrite length_app). by rewrite drop_app_length. }
    destruct (IH (start + length pre + length from)%nat (result ++ pre ++ to) ltac:(lia) ltac:(lia))
      as (pieces & Hne & Hj & Hr & Hall).
    exists (pre :: pieces). split_and!; [done| | |by constructor].
    + rewrite Hdrop in Hj. destruct pieces; [done|]. cbn [join] in *. by rewrite Ed, Hj.
    + replace (start + length pre - start)%nat with (length pre) by lia. rewrite Ed, take_app_length, Hr.
      destruct pieces; [done|]. cbn [join]. by rewrite <- !app_assoc.
  - exists [drop start s]. by repeat constructor.
Qed.

(** [replaceSubstring] returns, whatever the texts, and what it returns is the
    text with its pieces between the occurrences of [from] -- the pieces have
    none in them -- joined by [to] instead. *)
Theorem replaceSubstring_spec s from to fuel : from <> [] -> (length s < fuel)%nat ->
  exists pieces, s = join from pieces /\ replaceSubstring fuel s from to = Some (join to pieces) /\
    Forall (fun p => find_sub from p = None) pieces.
Proof.
  intros Hf Hfuel. unfold replaceSubstring. rewrite bool_decide_false by done.
  destruct (replace_loop_spec fuel s from to 0 [] Hf ltac:(lia) ltac:(lia)) as (pieces & _ & Hj & Hr & Hall).
  exists pieces. by rewrite drop_0 in Hj.
Qed.

(** *** Quoting *)

Definition quoted_chr (c : ascii) : str := if bool_decide (c = "'"%char) then lit "'\''" else [c].

Lemma quote_loop_spec rest front fuel : (length rest < fuel)%nat ->
  quote_loop fuel (front ++ rest) (length front) = Some (front ++ (rest ≫= quoted_chr)).
Proof.
  revert front fuel. induction rest as [|c rest IH]; intros front [|fuel] Hf; [cbn in Hf; lia| |cbn in Hf; lia|];
    cbn [quote_loop].
  - rewrite app_nil_r. cbn. by rewrite lookup_ge_None_2, app_nil_r by lia.
  - rewrite list_lookup_middle by done. cbn in Hf. rewrite bind_cons. unfold quoted_chr at 1. case_bool_decide as Ec.
    + subst c. unfold insert_at. rewrite take_app_length, drop_app_length.
      replace (front ++ quotePrefix ++ "'"%char :: rest) with ((front ++ quotePrefix ++ lit "'") ++ rest)
        by (by rewrite <- !app_assoc).
      replace (length front + length quotePrefix + 1)%nat with (length (front ++ quotePrefix ++ lit "'"))
        by (rewrite !length_app; cbn; lia).
      rewrite take_app_length, drop_app_length.
      replace ((front ++ quotePrefix ++ lit "'") ++ lit "'" ++ rest)
        with ((front ++ lit "'\''") ++ rest) by (by rewrite <- !app_assoc).
      replace (S (length (front ++ quotePrefix ++ lit "'"))) with (length (front ++ lit "'\''"))
        by (rewrite !length_app; cbn; lia).
      rewrite IH by lia. by rewrite <- !app_assoc.
    + replace (front ++ c :: rest) with ((front ++ [c]) ++ rest) by (by rewrite <- app_assoc).
      replace (S (length front)) with (length (front ++ [c])) by (rewrite length_app; cbn; lia).
      rewrite IH by lia. by rewrite <- app_assoc.
Qed.

Lemma sh_quoted v rest : sh_word true ((v ≫= quoted_chr) ++ "'"%char :: rest) = (app v) <$> sh_word false rest.
Proof.
  induction v as [|c v IH]; [cbn; by destruct (sh_word false rest)|].
  rewrite bind_cons, <- app_assoc. unfold quoted_chr at 1. case_bool_decide as Ec.
  - subst. cbn. rewrite IH. by destruct (sh_word false rest).
  - cbn. rewrite bool_decide_false by done. cbn. rewrite IH. by destruct (sh_word false rest).
Qed.

(** [quoteBashArg] returns, whatever the argument, and a shell that reads the
    quoted word reads the argument. *)
Theorem quoteBashArg_roundtrip arg fuel : (length arg < fuel)%nat ->
  exists word, quoteBashArg fuel arg = Some word /\ sh_word false word = Some arg.
Proof.
  intros Hf. unfold quoteBashArg. pose proof (quote_loop_spec arg [] fuel Hf) as Hq. cbn [app length] in Hq.
  rewrite Hq. cbn [fmap option_fmap option_map]. eexists. split; [done|]. cbn. rewrite (sh_quoted arg []). cbn. by rewrite app_nil_r.
Qed.

(** ** Examples *)

Lemma replaceSubstring_spec_witness :
  replaceSubstring 40 (lit "$PREFIX/lib:$PREFIX/bin") (lit "$PREFIX") (lit "/opt") = Some (lit "/opt/lib:/opt/bin") /\
  exists pieces, lit "$PREFIX/lib:$PREFIX/bin" = join (lit "$PREFIX") pieces /\
    Some (lit "/opt/lib:/opt/bin") = Some (join (lit "/opt") pieces) /\
    Forall (fun p => find_sub (lit "$PREFIX") p = None) pieces.
Proof.
  split; [reflexivity|].
  exact (replaceSubstring_spec (lit "$PREFIX/lib:$PREFIX/bin") (lit "$PREFIX") (lit "/opt") 40
    ltac:(done) ltac:(cbn; lia)).
Defined.

Lemma quoteBashArg_roundtrip_witness :
  quoteBashArg 20 (lit "let's go") = Some (lit "'let'\''s go'") /\
  exists word, quoteBashArg 20 (lit "let's go") = Some word /\ sh_word false word = Some (lit "let's go").
Proof. split; [reflexivity|]. exact (quoteBashArg_roundtrip (lit "let's go") 20 ltac:(cbn; lia)). Defined.
