(* ===== verification/Sha256.v ===== *)
(** * SHA-256 ([apps/uab/header/src/sha256.h])

    The incremental hash the program uses to name ld configurations and to
    check bundles.  [SHA256] is the class's state; [update] and [final] are its
    methods, [transform] the block loop.  Words are 32-bit integers and lengths
    64-bit ones, every operation wrapped as in C++; memory is a list of bytes
    (characters), read and written little-endian as on the supported hosts.
    [Fips] is the standard's description of the hash of a whole message, with
    arithmetic instead of shifts and with the constants computed from primes;
    the theorems say that the class computes it. *)
From Stdlib Require Import NArith.
From S2P Require Import Prelude.

(** ** Memory *)

Definition byte_val (b : ascii) : Z := Z.of_N (N_of_ascii b).
Definition byte_of (x : Z) : ascii := ascii_of_N (Z.to_N (x mod 256)).

(** An object of [n] bytes read from memory ([std::memcpy] into an integer). *)
Fixpoint le_read (l : list ascii) : Z :=
  match l with
  | [] => 0
  | b :: l' => byte_val b + 256 * le_read l'
  end.

(** The [n] bytes an integer occupies. *)
Fixpoint le_bytes (n : nat) (x : Z) : list ascii :=
  match n with
  | O => []
  | S n' => byte_of x :: le_bytes n' (x / 256)
  end.

(** [std::copy_n(src, n, &m[pos])]. *)
Definition copy_n (src : list ascii) (n pos : nat) (m : list ascii) : list ascii :=
  take pos m ++ take n src ++ drop (pos + n) m.

(** [std::fill_n(&m[pos], n, v)]. *)
Definition fill_n (pos n : nat) (v : ascii) (m : list ascii) : list ascii :=
  take pos m ++ replicate n v ++ drop (pos + n) m.

(** ** The functions of namespace [details] *)

Definition rotate_right (x n : Z) : Z :=
  Z.lor (Z.shiftr x n) (u32 (Z.shiftl x (32 - n))).

Definition to_big_endian_32 (val : Z) : Z :=
  Z.lor (Z.lor (Z.lor (Z.shiftr (Z.land val 0xff000000) 24)
                      (Z.shiftr (Z.land val 0x00ff0000) 8))
               (u32 (Z.shiftl (Z.land val 0x0000ff00) 8)))
        (u32 (Z.shiftl (Z.land val 0x000000ff) 24)).

Definition to_big_endian_64 (val : Z) : Z :=
  Z.lor (Z.lor (Z.lor (Z.lor (Z.lor (Z.lor (Z.lor
    (Z.shiftr (Z.land val 0xff00000000000000) 56)
    (Z.shiftr (Z.land val 0x00ff000000000000) 40))
    (Z.shiftr (Z.land val 0x0000ff0000000000) 24))
    (Z.shiftr (Z.land val 0x000000ff00000000) 8))
    (u64 (Z.shiftl (Z.land val 0x00000000ff000000) 8)))
    (u64 (Z.shiftl (Z.land val 0x0000000000ff0000) 24)))
    (u64 (Z.shiftl (Z.land val 0x000000000000ff00) 40)))
    (u64 (Z.shiftl (Z.land val 0x00000000000000ff) 56)).

Definition sum0 (x : Z) : Z :=
  Z.lxor (Z.lxor (rotate_right x 2) (rotate_right x 13)) (rotate_right x 22).
Definition sum1 (x : Z) : Z :=
  Z.lxor (Z.lxor (rotate_right x 6) (rotate_right x 11)) (rotate_right x 25).
Definition sigma0 (x : Z) : Z :=
  Z.lxor (Z.lxor (rotate_right x 7) (rotate_right x 18)) (Z.shiftr x 3).
Definition sigma1 (x : Z) : Z :=
  Z.lxor (Z.lxor (rotate_right x 17) (rotate_right x 19)) (Z.shiftr x 10).
Definition Ch (x y z : Z) : Z := Z.lxor (Z.land x y) (Z.land (u32 (Z.lnot x)) z).
Definition Maj (x y z : Z) : Z :=
  Z.lxor (Z.lxor (Z.land x y) (Z.land x z)) (Z.land y z).

(** 32-bit addition. *)
Definition add32 (x y : Z) : Z := u32 (x + y).

(** ** The tables of the class *)

Definition block_size : nat := 64.

(** One row of the source per line. *)
Definition K : list Z := mjoin [
  [0x428a2f98; 0x71374491; 0xb5c0fbcf; 0xe9b5dba5; 0x3956c25b; 0x59f111f1; 0x923f82a4];
  [0xab1c5ed5; 0xd807aa98; 0x12835b01; 0x243185be; 0x550c7dc3; 0x72be5d74; 0x80deb1fe];
  [0x9bdc06a7; 0xc19bf174; 0xe49b69c1; 0xefbe4786; 0x0fc19dc6; 0x240ca1cc; 0x2de92c6f];
  [0x4a7484aa; 0x5cb0a9dc; 0x76f988da; 0x983e5152; 0xa831c66d; 0xb00327c8; 0xbf597fc7];
  [0xc6e00bf3; 0xd5a79147; 0x06ca6351; 0x14292967; 0x27b70a85; 0x2e1b2138; 0x4d2c6dfc];
  [0x53380d13; 0x650a7354; 0x766a0abb; 0x81c2c92e; 0x92722c85; 0xa2bfe8a1; 0xa81a664b];
  [0xc24b8b70; 0xc76c51a3; 0xd192e819; 0xd6990624; 0xf40e3585; 0x106aa070; 0x19a4c116];
  [0x1e376c08; 0x2748774c; 0x34b0bcb5; 0x391c0cb3; 0x4ed8aa4a; 0x5b9cca4f; 0x682e6ff3];
  [0x748f82ee; 0x78a5636f; 0x84c87814; 0x8cc70208; 0x90befffa; 0xa4506ceb; 0xbef9a3f7];
  [0xc67178f2]
].

Definition H_init : list Z :=
  [0x6a09e667; 0xbb67ae85; 0x3c6ef372; 0xa54ff53a;
   0x510e527f; 0x9b05688c; 0x1f83d9ab; 0x5be0cd19].

(** The members of [class SHA256]. *)
Record SHA256 := mkSHA256 {
  pos : nat;
  total : Z;
  H : list Z;
  m : list ascii
}.

Definition sha256_new : SHA256 := mkSHA256 0 0 H_init (replicate 64 Ascii.zero).

(** ** [transform]: the loop over the blocks *)

Definition load_block (data : list ascii) (i : nat) : list Z :=
  fold_left (fun M j =>
      <[ j := to_big_endian_32 (le_read (take 4 (drop (i * 64 + j * 4) data))) ]> M)
    (seq 0 16) (replicate 16 0).

Definition schedule (M : list Z) : list Z :=
  let W := fold_left (fun W t => <[ t := M !!! t ]> W) (seq 0 16) (replicate 64 0) in
  fold_left (fun W t =>
      <[ t := add32 (add32 (add32 (sigma1 (W !!! (t - 2)%nat)) (W !!! (t - 7)%nat))
                           (sigma0 (W !!! (t - 15)%nat)))
                    (W !!! (t - 16)%nat) ]> W)
    (seq 16 48) W.

(** The working variables [a] to [h] and one round of the loop on them. *)
Record vars := mkVars { va : Z; vb : Z; vc : Z; vd : Z; ve : Z; vf : Z; vg : Z; vh : Z }.

Definition round (W : list Z) (v : vars) (t : nat) : vars :=
  let T1 := add32 (add32 (add32 (add32 (vh v) (sum1 (ve v))) (Ch (ve v) (vf v) (vg v)))
                         (K !!! t)) (W !!! t) in
  let T2 := add32 (sum0 (va v)) (Maj (va v) (vb v) (vc v)) in
  mkVars (add32 T1 T2) (va v) (vb v) (vc v) (add32 (vd v) T1) (ve v) (vf v) (vg v).

Definition transform_block (data : list ascii) (H : list Z) (i : nat) : list Z :=
  let W := schedule (load_block data i) in
  let v := fold_left (round W) (seq 0 64)
             (mkVars (H !!! 0%nat) (H !!! 1%nat) (H !!! 2%nat) (H !!! 3%nat)
                     (H !!! 4%nat) (H !!! 5%nat) (H !!! 6%nat) (H !!! 7%nat)) in
  [add32 (H !!! 0%nat) (va v); add32 (H !!! 1%nat) (vb v);
   add32 (H !!! 2%nat) (vc v); add32 (H !!! 3%nat) (vd v);
   add32 (H !!! 4%nat) (ve v); add32 (H !!! 5%nat) (vf v);
   add32 (H !!! 6%nat) (vg v); add32 (H !!! 7%nat) (vh v)].

Definition transform (H : list Z) (data : list ascii) (block_num : nat) : list Z :=
  fold_left (transform_block data) (seq 0 block_num) H.

(** ** [update] and [final] *)

(** The block in hand is completed and hashed when the input reaches its end;
    lengths are [std::size_t], so the test on [pos + len] wraps at 2^64. *)
Definition complete_block (st : SHA256) (data : list ascii) : SHA256 * list ascii :=
  if negb (pos st =? 0)%nat
     && (64 <=? u64 (Z.of_nat (pos st) + Z.of_nat (length data)))
  then let m' := copy_n data (block_size - pos st) (pos st) (m st) in
       (mkSHA256 0 (u64 (total st + 64 * 8)) (transform (H st) m' 1) m',
        drop (block_size - pos st) data)
  else (st, data).

(** Whole blocks are hashed from the input in place. *)
Definition whole_blocks (st : SHA256) (data : list ascii) : SHA256 * list ascii :=
  if (block_size <=? length data)%nat
  then let blocks := (length data / block_size)%nat in
       let bytes := (blocks * block_size)%nat in
       (mkSHA256 (pos st) (u64 (total st + u64 (Z.of_nat bytes * 8)))
                 (transform (H st) data blocks) (m st),
        drop bytes data)
  else (st, data).

Definition update (st : SHA256) (data : list ascii) : SHA256 :=
  let '(st, data) := complete_block st data in
  let '(st, data) := whole_blocks st data in
  mkSHA256 (pos st + length data) (total st) (H st)
           (copy_n data (length data) (pos st) (m st)).

Definition final (st : SHA256) : SHA256 * list ascii :=
  let total1 := u64 (total st + Z.of_nat (pos st) * 8) in
  let m1 := copy_n [byte_of 0x80] 1 (pos st) (m st) in
  let pos1 := S (pos st) in
  let '(pos2, H2, m2) :=
    if (block_size - 8 <? pos1)%nat
    then let m2 := if negb (pos1 =? block_size)%nat
                   then fill_n pos1 (block_size - pos1) Ascii.zero m1 else m1 in
         (0%nat, transform (H st) m2 1, m2)
    else (pos1, H st, m1) in
  let m3 := fill_n pos2 (block_size - pos2) Ascii.zero m2 in
  let m4 := copy_n (le_bytes 8 (to_big_endian_64 total1)) 8 (block_size - 8) m3 in
  let H3 := map to_big_endian_32 (transform H2 m4 1) in
  (mkSHA256 pos2 total1 H3 m4, take 32 (mjoin (map (le_bytes 4) H3))).

(** A fresh object fed with the pieces of a message. *)
Definition sha256 (chunks : list (list ascii)) : list ascii :=
  (final (fold_left update chunks sha256_new)).2.

Example sha256_abc :
  sha256 [lit "a"; lit "bc"] =
  map byte_of [0xba;0x78;0x16;0xbf;0x8f;0x01;0xcf;0xea;0x41;0x41;0x40;0xde;0x5d;0xae;0x22;0x23;
               0xb0;0x03;0x61;0xa3;0x96;0x17;0x7a;0x9c;0xb4;0x10;0xff;0x61;0xf2;0x00;0x15;0xad].
Proof. vm_compute. reflexivity. Qed.

(** ** The standard

    FIPS 180-4 for messages of whole bytes.  Words are numbers below 2^32,
    rotations and shifts are divisions, the choice and majority functions are
    given by conjunction and disjunction, and the constants are the leading bits
    of the fractional parts of square and cube roots of primes. *)
Module Fips.

Definition ROTR (n x : Z) : Z := x / 2 ^ n + (x mod 2 ^ n) * 2 ^ (32 - n).
Definition SHR (n x : Z) : Z := x / 2 ^ n.
Definition xor3 (x y z : Z) : Z := Z.lxor (Z.lxor x y) z.
Definition Sigma0 (x : Z) : Z := xor3 (ROTR 2 x) (ROTR 13 x) (ROTR 22 x).
Definition Sigma1 (x : Z) : Z := xor3 (ROTR 6 x) (ROTR 11 x) (ROTR 25 x).
Definition small_sigma0 (x : Z) : Z := xor3 (ROTR 7 x) (ROTR 18 x) (SHR 3 x).
Definition small_sigma1 (x : Z) : Z := xor3 (ROTR 17 x) (ROTR 19 x) (SHR 10 x).
Definition Choice (x y z : Z) : Z := Z.lor (Z.land x y) (Z.ldiff z x).
Definition Majority (x y z : Z) : Z :=
  Z.lor (Z.lor (Z.land x y) (Z.land x z)) (Z.land y z).

(** The first primes. *)
Definition is_prime (n : Z) : bool :=
  forallb (fun d => negb (n mod d =? 0)) (seqZ 2 (n - 2)).
Definition primes : list Z := List.filter is_prime (seqZ 2 310).

(** Integer cube root below [2 ^ k], one bit per round. *)
Fixpoint cbrt_go (k : nat) (n c : Z) : Z :=
  match k with
  | O => c
  | S k' =>
      let c' := c + 2 ^ Z.of_nat k' in
      cbrt_go k' n (if c' ^ 3 <=? n then c' else c)
  end.
Definition cbrt (n : Z) : Z := cbrt_go 44 n 0.

Definition constants : list Z := map (fun p => cbrt (p * 2 ^ 96) mod 2 ^ 32) (take 64 primes).
Definition H0 : list Z := map (fun p => Z.sqrt (p * 2 ^ 64) mod 2 ^ 32) (take 8 primes).

(** Big-endian words and bytes. *)
Definition be_word (l : list ascii) : Z :=
  fold_left (fun acc b => acc * 256 + byte_val b) l 0.
Definition be_bytes (n : nat) (x : Z) : list ascii := rev (le_bytes n x).

(** The message followed by a one bit, the least number of zero bits that makes
    the length 448 modulo 512, and the length in bits as a 64-bit number. *)
Definition zeros (len : nat) : nat := Z.to_nat ((55 - Z.of_nat len) mod 64).
Definition pad (msg : list ascii) : list ascii :=
  msg ++ byte_of 0x80 :: replicate (zeros (length msg)) Ascii.zero
      ++ be_bytes 8 (Z.of_nat (length msg) * 8).

(** The [i]-th block of 16 words. *)
Definition block (data : list ascii) (i : nat) : list Z :=
  map (fun j => be_word (take 4 (drop (i * 64 + j * 4) data))) (seq 0 16).

(** The message schedule grows from the block by one word at a time. *)
Fixpoint W (n : nat) (M : list Z) : list Z :=
  match n with
  | O => M
  | S n' =>
      let w := W n' M in
      let t := (16 + n')%nat in
      w ++ [(small_sigma1 (w !!! (t - 2)%nat) + w !!! (t - 7)%nat
             + small_sigma0 (w !!! (t - 15)%nat) + w !!! (t - 16)%nat) mod 2 ^ 32]
  end.

Definition step (v : vars) (kw : Z * Z) : vars :=
  let '(mkVars a b c d e f g h) := v in
  let T1 := h + Sigma1 e + Choice e f g + kw.1 + kw.2 in
  let T2 := Sigma0 a + Majority a b c in
  mkVars ((T1 + T2) mod 2 ^ 32) a b c ((d + T1) mod 2 ^ 32) e f g.

Definition vars_list (v : vars) : list Z :=
  [va v; vb v; vc v; vd v; ve v; vf v; vg v; vh v].
Definition list_vars (H : list Z) : vars :=
  mkVars (H !!! 0%nat) (H !!! 1%nat) (H !!! 2%nat) (H !!! 3%nat)
         (H !!! 4%nat) (H !!! 5%nat) (H !!! 6%nat) (H !!! 7%nat).

Definition compress (H : list Z) (M : list Z) : list Z :=
  zip_with (fun x y => (x + y) mod 2 ^ 32) H
    (vars_list (fold_left step (zip constants (W 48 M)) (list_vars H))).

Definition compress_all (H : list Z) (data : list ascii) (n : nat) : list Z :=
  fold_left (fun H i => compress H (block data i)) (seq 0 n) H.

Definition digest (H : list Z) : list ascii := mjoin (map (be_bytes 4) H).

Definition hash (msg : list ascii) : list ascii :=
  let p := pad msg in
  digest (compress_all H0 p (length p / 64)).

End Fips.

Lemma cbrt_go_spec k n c :
  0 <= c -> c ^ 3 <= n < (c + 2 ^ Z.of_nat k) ^ 3 ->
  Fips.cbrt_go k n c ^ 3 <= n < (Fips.cbrt_go k n c + 1) ^ 3.
Proof.
  revert c. induction k as [|k IH]; intros c Hc Hn; cbn [Fips.cbrt_go]; [exact Hn|].
  rewrite Nat2Z.inj_succ, Z.pow_succ_r in Hn by lia.
  destruct (Z.leb_spec ((c + 2 ^ Z.of_nat k) ^ 3) n) as [H|H].
  - apply IH; [lia|]. split; [done|].
    replace (c + 2 ^ Z.of_nat k + 2 ^ Z.of_nat k) with (c + 2 * 2 ^ Z.of_nat k) by lia.
    apply Hn.
  - apply IH; [done|]. split; [apply Hn|done].
Qed.

(** [Fips.cbrt] is the integer cube root of the numbers it is used on. *)
Lemma cbrt_spec n :
  0 <= n < 2 ^ 132 -> Fips.cbrt n ^ 3 <= n < (Fips.cbrt n + 1) ^ 3.
Proof.
  intros Hn. unfold Fips.cbrt. generalize (cbrt_go_spec 44 n 0).
  rewrite Z.add_0_l, <- Z.pow_mul_r by lia. intros HC. apply HC; [lia|].
  change (Z.of_nat 44 * 3) with 132. rewrite Z.pow_0_l by lia. exact Hn.
Qed.

(** The tables of the class are the constants of the standard. *)
Lemma K_fips : K = Fips.constants.
Proof. vm_compute. reflexivity. Qed.
Lemma H_fips : H_init = Fips.H0.
Proof. vm_compute. reflexivity. Qed.

(** ** Words and bits *)

Definition word (x : Z) : Prop := 0 <= x < 2 ^ 32.

(** Equalities of bitwise expressions, one bit at a time. *)
Ltac by_bits :=
  apply Z.bits_inj'; intros ? ?;
  rewrite ?Z.lor_spec, ?Z.lxor_spec, ?Z.ldiff_spec, ?Z.land_spec,
    ?Z.testbit_mod_pow2, ?Z.lnot_spec by lia;
  repeat match goal with |- context [Z.testbit ?a ?b] => destruct (Z.testbit a b) end;
  try reflexivity.

Lemma word_mod x : word (x mod 2 ^ 32).
Proof. apply Z.mod_pos_bound. lia. Qed.

Lemma word_u32 x : word (u32 x).
Proof. apply word_mod. Qed.

(** A number below [2 ^ k] and a multiple of [2 ^ k] share no bits. *)
Lemma lor_add a b k : 0 <= k -> 0 <= a < 2 ^ k -> Z.lor a (b * 2 ^ k) = a + b * 2 ^ k.
Proof.
  intros Hk Ha. rewrite <- Z.add_lor_land.
  replace (Z.land a (b * 2 ^ k)) with 0; [lia|].
  rewrite <- (Z.mod_small a (2 ^ k)) by lia.
  apply Z.bits_inj'. intros n Hn.
  rewrite Z.land_spec, Z.bits_0, Z.testbit_mod_pow2, Z.mul_pow2_bits by lia.
  destruct (Z.ltb_spec n k); [|reflexivity].
  rewrite (Z.testbit_neg_r b) by lia. by rewrite andb_false_r.
Qed.

Lemma word_lor x y : word x -> word y -> word (Z.lor x y).
Proof.
  unfold word. intros Hx Hy.
  rewrite <- (Z.mod_small x (2 ^ 32)), <- (Z.mod_small y (2 ^ 32)) by lia.
  replace (Z.lor _ _) with (Z.lor x y mod 2 ^ 32); [apply word_mod|].
  apply Z.bits_inj'; intros n Hn.
  rewrite Z.lor_spec, !Z.testbit_mod_pow2, Z.lor_spec by lia. by destruct (n <? 32).
Qed.

Lemma rotate_right_fips x n :
  word x -> 0 < n < 32 -> rotate_right x n = Fips.ROTR n x.
Proof.
  intros Hx Hn. unfold rotate_right, Fips.ROTR, wrap_u, word in *.
  rewrite Z.shiftr_div_pow2, Z.shiftl_mul_pow2 by lia.
  replace (2 ^ 32) with (2 ^ n * 2 ^ (32 - n)) at 1
    by (rewrite <- Z.pow_add_r by lia; f_equal; lia).
  rewrite Zmult_mod_distr_r. apply lor_add; [lia|].
  pose proof (Z.pow_pos_nonneg 2 n). pose proof (Z.pow_pos_nonneg 2 (32 - n)).
  split; [apply Z.div_pos; lia|]. apply Z.div_lt_upper_bound; [lia|].
  rewrite <- Z.pow_add_r by lia. replace (n + (32 - n)) with 32 by lia. lia.
Qed.

Lemma Ch_fips x y z : word z -> Ch x y z = Fips.Choice x y z.
Proof.
  intros Hz. unfold Ch, Fips.Choice, wrap_u.
  rewrite <- (Z.mod_small z (2 ^ 32)) by apply Hz.
  apply Z.bits_inj'. intros n Hn.
  rewrite Z.lor_spec, Z.lxor_spec, Z.ldiff_spec, !Z.land_spec, !Z.testbit_mod_pow2,
    Z.lnot_spec by lia.
  by destruct (n <? 32), (Z.testbit x n), (Z.testbit y n), (Z.testbit z n).
Qed.

Lemma Maj_fips x y z : Maj x y z = Fips.Majority x y z.
Proof. unfold Maj, Fips.Majority. by_bits. Qed.

Lemma sum0_fips x : word x -> sum0 x = Fips.Sigma0 x.
Proof. intros. unfold sum0. rewrite !rotate_right_fips by (done || lia). done. Qed.
Lemma sum1_fips x : word x -> sum1 x = Fips.Sigma1 x.
Proof. intros. unfold sum1. rewrite !rotate_right_fips by (done || lia). done. Qed.
Lemma sigma0_fips x : word x -> sigma0 x = Fips.small_sigma0 x.
Proof.
  intros. unfold sigma0. rewrite !rotate_right_fips, Z.shiftr_div_pow2 by (done || lia).
  done.
Qed.
Lemma sigma1_fips x : word x -> sigma1 x = Fips.small_sigma1 x.
Proof.
  intros. unfold sigma1. rewrite !rotate_right_fips, Z.shiftr_div_pow2 by (done || lia).
  done.
Qed.

(** Sums wrapped at every step and sums wrapped once. *)
Lemma add32_3 a b c : add32 (add32 a b) c = (a + b + c) mod 2 ^ 32.
Proof. apply Zplus_mod_idemp_l. Qed.
Lemma add32_4 a b c d : add32 (add32 (add32 a b) c) d = (a + b + c + d) mod 2 ^ 32.
Proof. unfold add32 at 1. rewrite add32_3. apply Zplus_mod_idemp_l. Qed.
Lemma add32_5 a b c d e :
  add32 (add32 (add32 (add32 a b) c) d) e = (a + b + c + d + e) mod 2 ^ 32.
Proof. unfold add32 at 1. rewrite add32_4. apply Zplus_mod_idemp_l. Qed.

(** ** Bytes *)

Lemma byte_val_bound b : 0 <= byte_val b < 256.
Proof. unfold byte_val. pose proof (N_ascii_bounded b). lia. Qed.

Lemma byte_of_val b : byte_of (byte_val b) = b.
Proof.
  unfold byte_of. rewrite Z.mod_small by apply byte_val_bound.
  unfold byte_val. by rewrite N2Z.id, ascii_N_embedding.
Qed.

Lemma byte_val_of x : byte_val (byte_of x) = x mod 256.
Proof.
  unfold byte_val, byte_of. pose proof (Z.mod_pos_bound x 256).
  rewrite N_ascii_embedding by lia. lia.
Qed.

Lemma byte_of_mod b x : byte_of (byte_val b + 256 * x) = b.
Proof.
  rewrite <- (byte_of_val b) at 2. unfold byte_of at 1. pose proof (byte_val_bound b).
  replace ((byte_val b + 256 * x) mod 256) with (byte_val b mod 256); [done|].
  by rewrite Z.mul_comm, Z_mod_plus_full.
Qed.

Lemma le_bytes_length n x : length (le_bytes n x) = n.
Proof. revert x. induction n; intros; cbn [le_bytes length]; congruence. Qed.

Lemma le_bytes_read l n : n = length l -> le_bytes n (le_read l) = l.
Proof.
  intros ->. induction l as [|b l IH]; [done|]. cbn [length le_bytes le_read].
  rewrite byte_of_mod. f_equal. pose proof (byte_val_bound b).
  by rewrite Z.mul_comm, Z.div_add, Z.div_small, Z.add_0_l by lia.
Qed.

Lemma le_read_bound l : 0 <= le_read l < 256 ^ Z.of_nat (length l).
Proof.
  induction l as [|b l IH]; cbn [le_read length]; [cbn; lia|].
  pose proof (byte_val_bound b). rewrite Nat2Z.inj_succ, Z.pow_succ_r by lia. nia.
Qed.

Lemma le_read_bytes n x : le_read (le_bytes n x) = x mod 256 ^ Z.of_nat n.
Proof.
  revert x. induction n as [|n IH]; intros x; cbn [le_bytes le_read].
  { by rewrite Z.mod_1_r. }
  rewrite byte_val_of, IH, Nat2Z.inj_succ, Z.pow_succ_r by lia.
  by rewrite Z.rem_mul_r by (try apply Z.pow_nonzero; lia).
Qed.

Lemma be_word_rev l : Fips.be_word (rev l) = le_read l.
Proof.
  unfold Fips.be_word. rewrite <- fold_left_rev_right, rev_involutive.
  induction l as [|b l IH]; cbn [fold_right le_read]; [done|]. rewrite IH. lia.
Qed.

(** Swapping the bytes: each masked and shifted term is one byte moved to its
    new place. *)
Lemma land_byte x k : 0 <= k -> Z.land x (255 * 2 ^ k) = (x / 2 ^ k mod 256) * 2 ^ k.
Proof.
  intros Hk. change 256 with (2 ^ 8). rewrite <- (Z.land_ones _ 8) by lia.
  rewrite <- Z.shiftr_div_pow2, <- !Z.shiftl_mul_pow2 by lia.
  rewrite Z.shiftl_land. change (Z.ones 8) with 255.
  apply Z.bits_inj'. intros n Hn. rewrite !Z.land_spec, !Z.shiftl_spec by lia.
  destruct (Z.ltb_spec n k) as [Hlt|Hge].
  - rewrite (Z.testbit_neg_r 255) by lia. by rewrite !andb_false_r.
  - rewrite Z.shiftr_spec by lia. by replace (n - k + k) with n by lia.
Qed.

Lemma byte_down x k j :
  0 <= j <= k ->
  Z.shiftr (Z.land x (255 * 2 ^ k)) j = (x / 2 ^ k mod 256) * 2 ^ (k - j).
Proof.
  intros Hk. rewrite land_byte, Z.shiftr_div_pow2 by lia.
  replace (2 ^ k) with (2 ^ (k - j) * 2 ^ j) at 2
    by (rewrite <- Z.pow_add_r by lia; f_equal; lia).
  rewrite Z.mul_assoc. apply Z.div_mul. apply Z.pow_nonzero; lia.
Qed.

Lemma byte_up w x k j :
  0 <= k -> 0 <= j -> k + j + 8 <= w ->
  wrap_u w (Z.shiftl (Z.land x (255 * 2 ^ k)) j) = (x / 2 ^ k mod 256) * 2 ^ (k + j).
Proof.
  intros Hk Hj Hw. rewrite land_byte, Z.shiftl_mul_pow2 by lia.
  rewrite <- Z.mul_assoc, <- Z.pow_add_r by lia. apply Z.mod_small.
  pose proof (Z.mod_pos_bound (x / 2 ^ k) 256).
  assert (0 < 2 ^ (k + j)) by (apply Z.pow_pos_nonneg; lia).
  split; [nia|]. apply Z.lt_le_trans with (2 ^ (k + j + 8)).
  - rewrite (Z.pow_add_r 2 (k + j) 8) by lia. nia.
  - apply Z.pow_le_mono_r; lia.
Qed.

(** Disjoint bytes from the lowest to the highest place. *)
Lemma lor_byte a b k :
  0 <= k -> 0 <= a < 2 ^ k -> 0 <= b < 256 ->
  Z.lor a (b * 2 ^ k) = a + b * 2 ^ k /\ 0 <= a + b * 2 ^ k < 2 ^ (k + 8).
Proof.
  intros Hk Ha Hb. split; [by apply lor_add|]. rewrite Z.pow_add_r by lia. nia.
Qed.

Ltac swap_terms w :=
  repeat match goal with
  | |- context [Z.shiftr (Z.land ?x ?c) ?j] =>
      let k := eval vm_compute in (Z.log2 c - 7) in
      change (Z.land x c) with (Z.land x (255 * 2 ^ k));
      rewrite (byte_down x k j) by lia
  | |- context [wrap_u w (Z.shiftl (Z.land ?x ?c) ?j)] =>
      let k := eval vm_compute in (Z.log2 c - 7) in
      change (Z.land x c) with (Z.land x (255 * 2 ^ k));
      rewrite (byte_up w x k j) by lia
  end.

(** Name the bytes, then join them from the innermost disjunction outwards. *)
Ltac join_bytes x :=
  repeat match goal with
  | |- context [?v mod 256] =>
      lazymatch v with context [x] => idtac end;
      let b := fresh "b" in let B := fresh "B" in
      pose proof (Z.mod_pos_bound v 256 eq_refl) as B;
      set (b := v mod 256) in *; clearbody b
  end;
  repeat match goal with
  | |- context [Z.lor ?a (?b * ?c)] =>
      lazymatch a with context [Z.lor _ _] => fail | _ => idtac end;
      let k := eval vm_compute in (Z.log2 c) in
      let E := fresh "E" in
      destruct (lor_byte a b k) as [E ?]; [lia | lia | lia |];
      replace (2 ^ k) with c in E by (vm_compute; reflexivity); rewrite E; clear E
  end.

Ltac swap_bytes w x :=
  swap_terms w; cbn [le_bytes rev app le_read]; rewrite !byte_val_of, !Zdiv_Zdiv by lia;
  repeat match goal with
  | |- context [?a ^ ?b] => let v := eval vm_compute in (a ^ b) in
      replace (a ^ b) with v by (vm_compute; reflexivity)
  | |- context [256 * Zpos ?b] => let v := eval vm_compute in (256 * Zpos b) in
        replace (256 * Zpos b) with v by (vm_compute; reflexivity)
  end;
  rewrite ?Z.mul_1_r, ?Z.div_1_r; join_bytes x; lia.

Lemma to_be_32 x : word x -> to_big_endian_32 x = le_read (rev (le_bytes 4 x)).
Proof. intros Hx. unfold to_big_endian_32. swap_bytes 32 x. Qed.

Lemma to_be_64 x : to_big_endian_64 x = le_read (rev (le_bytes 8 x)).
Proof. unfold to_big_endian_64. swap_bytes 64 x. Qed.

(** ** Loading a block *)

(** A loop that writes [f j] to every place [j] of an array. *)
Lemma fill_loop {A} (f : nat -> A) n l :
  (n <= length l)%nat ->
  fold_left (fun M j => <[ j := f j ]> M) (seq 0 n) l = map f (seq 0 n) ++ drop n l.
Proof.
  induction n as [|n IH]; intros Hn; [done|].
  rewrite seq_S, fold_left_app, IH, map_app by lia. cbn [fold_left Nat.add map].
  rewrite insert_app_r_alt by (rewrite length_map, length_seq; lia).
  rewrite length_map, length_seq, Nat.sub_diag, <- app_assoc. f_equal.
  destruct (lookup_lt_is_Some_2 l n) as [x Hx]; [lia|].
  by rewrite (drop_S _ _ _ Hx).
Qed.

Lemma to_be_read l : length l = 4%nat -> to_big_endian_32 (le_read l) = Fips.be_word l.
Proof.
  intros Hl. pose proof (le_read_bound l) as Hb. rewrite Hl in Hb.
  rewrite to_be_32 by exact Hb. rewrite le_bytes_read by done.
  by rewrite <- (rev_involutive l) at 2; rewrite be_word_rev.
Qed.

Lemma load_block_fips data i :
  (i * 64 + 64 <= length data)%nat -> load_block data i = Fips.block data i.
Proof.
  intros Hi. unfold load_block. rewrite fill_loop by (rewrite length_replicate; lia).
  rewrite drop_ge, app_nil_r by (rewrite length_replicate; lia).
  apply map_ext_in. intros j Hj%in_seq. apply to_be_read.
  rewrite length_take, length_drop. lia.
Qed.

Lemma be_word_word l : length l = 4%nat -> word (Fips.be_word l).
Proof.
  intros Hl. rewrite <- (rev_involutive l), be_word_rev.
  pose proof (le_read_bound (rev l)) as Hb. rewrite length_rev, Hl in Hb. exact Hb.
Qed.

Lemma block_length data i : length (Fips.block data i) = 16%nat.
Proof. done. Qed.

Lemma block_words data i :
  (i * 64 + 64 <= length data)%nat -> Forall word (Fips.block data i).
Proof.
  intros Hi. apply Forall_forall. intros w [j [<- Hj%in_seq]]%list_elem_of_In%in_map_iff.
  apply be_word_word. rewrite length_take, length_drop. lia.
Qed.

(** ** The schedule *)

Lemma W_length n M : length (Fips.W n M) = (length M + n)%nat.
Proof. induction n; cbn [Fips.W]; rewrite ?length_app; cbn [length]; lia. Qed.

Lemma W_words n M : Forall word M -> Forall word (Fips.W n M).
Proof.
  intros HM. induction n as [|n IH]; cbn [Fips.W]; [done|].
  apply Forall_app. split; [done|]. constructor; [apply word_mod|done].
Qed.

Lemma word_nth l t : Forall word l -> (t < length l)%nat -> word (l !!! t).
Proof. intros Hl Ht. by apply Forall_lookup_total_1. Qed.

Lemma schedule_fips M :
  length M = 16%nat -> Forall word M -> schedule M = Fips.W 48 M.
Proof.
  intros HM Hw. unfold schedule. rewrite fill_loop by (rewrite length_replicate; lia).
  rewrite drop_replicate.
  replace (map (fun t => M !!! t) (seq 0 16)) with M.
  2:{ apply list_eq_same_length with (n := 16%nat); [rewrite ?length_map; done..|].
      intros i x y Hi Hx Hy. apply list_lookup_total_correct in Hx. subst x.
      rewrite list_lookup_fmap, lookup_seq_lt in Hy by lia. by injection Hy. }
  change (64 - 16)%nat with 48%nat.
  cut (forall n, (n <= 48)%nat ->
    fold_left (fun W t =>
      <[ t := add32 (add32 (add32 (sigma1 (W !!! (t - 2)%nat)) (W !!! (t - 7)%nat))
                           (sigma0 (W !!! (t - 15)%nat)))
                    (W !!! (t - 16)%nat) ]> W) (seq 16 n) (M ++ replicate 48 0)
    = Fips.W n M ++ replicate (48 - n) 0).
  { intros Hcut. rewrite Hcut by lia. by rewrite app_nil_r. }
  intros n. induction n as [|n IH]; intros Hn; [done|].
  rewrite seq_S, fold_left_app, IH by lia. cbn [fold_left].
  assert (HL : length (Fips.W n M) = (16 + n)%nat) by (rewrite W_length; lia).
  rewrite insert_app_r_alt by lia. rewrite HL, Nat.sub_diag.
  rewrite !lookup_total_app_l by lia.
  replace (48 - n)%nat with (S (48 - S n)) by lia. cbn [replicate insert list_insert].
  rewrite sigma1_fips, sigma0_fips by (apply word_nth; [by apply W_words|lia]).
  cbn [Fips.W]. rewrite <- app_assoc. f_equal. cbn [app].
  by rewrite add32_4.
Qed.

(** ** The rounds *)

Definition vwords (v : vars) : Prop := Forall word (Fips.vars_list v).

Lemma step_words v kw : vwords v -> vwords (Fips.step v kw).
Proof.
  destruct v. unfold vwords. cbn [Fips.step Fips.vars_list va vb vc vd ve vf vg vh].
  intros Hv.
  repeat (apply Forall_cons in Hv as [? Hv]).
  repeat (constructor; [first [apply word_mod | done]|]). done.
Qed.

Lemma round_fips W v t :
  vwords v -> round W v t = Fips.step v (K !!! t, W !!! t).
Proof.
  destruct v as [a b c d e f g h]. unfold vwords.
  cbn [Fips.vars_list va vb vc vd ve vf vg vh]. intros Hv.
  repeat (apply Forall_cons in Hv as [? Hv]).
  unfold round, Fips.step. cbn [va vb vc vd ve vf vg vh fst snd].
  rewrite sum1_fips, sum0_fips, Ch_fips, Maj_fips by done.
  rewrite (add32_5 h (Fips.Sigma1 e)). unfold add32, wrap_u.
  f_equal; [symmetry; apply Zplus_mod | apply Zplus_mod_idemp_r].
Qed.

Lemma rounds_fips W v n :
  (n <= 64)%nat -> length W = 64%nat -> vwords v ->
  fold_left (round W) (seq 0 n) v = fold_left Fips.step (take n (zip K W)) v
  /\ vwords (fold_left (round W) (seq 0 n) v).
Proof.
  intros Hn HW Hv. induction n as [|n IH]; [done|].
  destruct IH as [IH1 IH2]; [lia|]. rewrite seq_S, fold_left_app. cbn [fold_left Nat.add].
  rewrite round_fips by done. split; [|by apply step_words].
  destruct (lookup_lt_is_Some_2 K n) as [k Hk]; [cbn; lia|].
  destruct (lookup_lt_is_Some_2 W n) as [w Hw]; [lia|].
  rewrite (take_S_r _ _ (k, w)) by (apply lookup_zip_with_Some; eauto).
  rewrite fold_left_app, <- IH1. cbn [fold_left].
  by rewrite (list_lookup_total_correct _ _ _ Hk), (list_lookup_total_correct _ _ _ Hw).
Qed.

(** ** The block loop *)

Definition hwords (H : list Z) : Prop := length H = 8%nat /\ Forall word H.

Lemma list8 (H : list Z) :
  length H = 8%nat -> exists a b c d e f g h, H = [a; b; c; d; e; f; g; h].
Proof.
  intros HL. destruct H as [|a [|b [|c [|d [|e [|f [|g [|h [|]]]]]]]]]; try discriminate HL.
  by exists a, b, c, d, e, f, g, h.
Qed.

Lemma transform_block_fips data H i :
  hwords H -> (i * 64 + 64 <= length data)%nat ->
  transform_block data H i = Fips.compress H (Fips.block data i).
Proof.
  intros [HL HF] Hi. unfold transform_block, Fips.compress.
  rewrite load_block_fips, schedule_fips by (done || by apply block_words).
  rewrite <- K_fips.
  destruct (rounds_fips (Fips.W 48 (Fips.block data i)) (Fips.list_vars H) 64)
    as [HR _]; [lia|by rewrite W_length|..].
  { destruct (list8 H HL) as (a&b&c&d&e&f&g&h&->). exact HF. }
  unfold Fips.list_vars in *. rewrite HR.
  rewrite take_ge by (rewrite length_zip_with, W_length, block_length; cbn; lia).
  destruct (list8 H HL) as (a&b&c&d&e&f&g&h&->). done.
Qed.

Lemma compress_words H M : hwords H -> hwords (Fips.compress H M).
Proof.
  intros [HL _]. destruct (list8 H HL) as (a&b&c&d&e&f&g&h&->).
  split; [done|]. unfold Fips.compress. cbn [Fips.vars_list zip_with].
  repeat (constructor; [apply word_mod|]). done.
Qed.

Lemma compress_all_S H data n :
  Fips.compress_all H data (S n)
  = Fips.compress (Fips.compress_all H data n) (Fips.block data n).
Proof. unfold Fips.compress_all. by rewrite seq_S, fold_left_app. Qed.

Lemma transform_S H data n :
  transform H data (S n) = transform_block data (transform H data n) n.
Proof. unfold transform. by rewrite seq_S, fold_left_app. Qed.

Lemma compress_all_0 H data : Fips.compress_all H data 0 = H.
Proof. done. Qed.

#[local] Opaque Fips.compress Fips.compress_all transform transform_block.

Lemma compress_all_words data n H : hwords H -> hwords (Fips.compress_all H data n).
Proof.
  intros HH. induction n as [|n IH]; [done|].
  rewrite compress_all_S. by apply compress_words.
Qed.

Lemma transform_fips data n H :
  hwords H -> (n * 64 <= length data)%nat ->
  transform H data n = Fips.compress_all H data n.
Proof.
  intros HH. induction n as [|n IH]; intros Hn; [done|].
  rewrite transform_S, compress_all_S, IH by lia.
  apply transform_block_fips; [by apply compress_all_words|lia].
Qed.

(** Blocks only look at their own bytes, so a run of blocks can be cut. *)
Lemma block_app_r a b n i :
  length a = (n * 64)%nat -> Fips.block (a ++ b) (n + i) = Fips.block b i.
Proof.
  intros Ha. unfold Fips.block. apply map_ext. intros j.
  rewrite drop_app_ge by lia. do 3 f_equal. lia.
Qed.

Lemma block_app_l a b n i :
  length a = (n * 64)%nat -> (i < n)%nat -> Fips.block (a ++ b) i = Fips.block a i.
Proof.
  intros Ha Hi. unfold Fips.block. apply map_ext_in. intros j Hj%in_seq.
  rewrite drop_app_le, take_app_le by (rewrite ?length_drop; lia). done.
Qed.

Lemma compress_all_ext H d1 d2 n :
  (forall i, (i < n)%nat -> Fips.block d1 i = Fips.block d2 i) ->
  Fips.compress_all H d1 n = Fips.compress_all H d2 n.
Proof.
  intros Hd. induction n as [|n IH]; [done|].
  rewrite !compress_all_S, IH, Hd by auto with lia. done.
Qed.

Lemma compress_all_app H a b na nb :
  length a = (na * 64)%nat ->
  Fips.compress_all H (a ++ b) (na + nb) =
  Fips.compress_all (Fips.compress_all H a na) b nb.
Proof.
  intros Ha. induction nb as [|nb IH].
  - rewrite Nat.add_0_r, compress_all_0. apply compress_all_ext. intros i Hi. by apply block_app_l with na.
  - replace (na + S nb)%nat with (S (na + nb)) by lia.
    rewrite !compress_all_S, IH. by rewrite (block_app_r a b na) by done.
Qed.

(** ** Feeding the message *)

(** [hashed st n a]: the object has hashed the [n] blocks [a].  [pending st data
    msg]: of the message [msg], the last bytes [data] are still to be taken in
    and the [pos] bytes before them wait in [m]. *)
Record hashed (st : SHA256) (n : nat) (a : list ascii) : Prop := {
  hashed_len : length a = (n * 64)%nat;
  hashed_m : length (m st) = 64%nat;
  hashed_H : H st = Fips.compress_all Fips.H0 a n;
  hashed_total : total st = u64 (Z.of_nat n * 64 * 8)
}.

Definition pending (st : SHA256) (data msg : list ascii) : Prop :=
  (pos st < 64)%nat /\
  exists n a, hashed st n a /\ msg = a ++ take (pos st) (m st) ++ data.

Lemma H0_words : hwords Fips.H0.
Proof. rewrite <- H_fips. split; [done|]. repeat (constructor; [done|]). done. Qed.

Lemma new_pending data : pending sha256_new data data.
Proof.
  split; [cbn; lia|]. exists 0%nat, []. split; [|done]. split; done.
Qed.

Lemma copy_n_length src n pos m :
  (n <= length src)%nat -> (pos + n <= length m)%nat ->
  length (copy_n src n pos m) = length m.
Proof. intros. unfold copy_n. rewrite !length_app, !length_take, length_drop. lia. Qed.

Lemma fill_n_length pos n v m :
  (pos + n <= length m)%nat -> length (fill_n pos n v m) = length m.
Proof.
  intros. unfold fill_n. rewrite !length_app, length_take, length_replicate, length_drop. lia.
Qed.

(** Hashing [nb] more blocks [b]. *)
Lemma hashed_more st n a p t b m' nb h :
  hashed st n a -> length b = (nb * 64)%nat -> length m' = 64%nat ->
  h = Fips.compress_all (H st) b nb -> t = u64 (total st + u64 (Z.of_nat nb * 64 * 8)) ->
  hashed (mkSHA256 p t h m') (n + nb) (a ++ b).
Proof.
  intros [Ha Hm HH Ht] Hb Hm' -> ->. split; cbn; [|done|..].
  - rewrite length_app. lia.
  - by rewrite HH, compress_all_app.
  - rewrite Ht. unfold wrap_u. rewrite <- Zplus_mod. f_equal. lia.
Qed.

Lemma hashed_words st n a : hashed st n a -> hwords (H st).
Proof. intros Hh. rewrite (hashed_H _ _ _ Hh). apply compress_all_words, H0_words. Qed.

Lemma complete_block_spec st data msg :
  Z.of_nat (length data) + 64 < 2 ^ 64 -> pending st data msg ->
  let '(st', data') := complete_block st data in
  pending st' data' msg /\ (pos st' = 0 \/ pos st' + length data' < 64)%nat.
Proof.
  intros Hlen Hp. pose proof Hp as [Hpos (n & a & Hh & ->)].
  unfold complete_block, wrap_u. rewrite Z.mod_small by lia.
  destruct (Nat.eqb_spec (pos st) 0) as [H0|H0]; cbn [negb andb]; [by auto|].
  destruct (Z.leb_spec 64 (Z.of_nat (pos st) + Z.of_nat (length data))) as [Hl|Hl].
  2:{ split; [done|]. right. lia. }
  pose proof (hashed_m _ _ _ Hh) as Hm. unfold block_size.
  set (m' := copy_n data (64 - pos st) (pos st) (m st)).
  assert (Hm' : length m' = 64%nat) by (unfold m'; rewrite copy_n_length; lia).
  split; [|by left]. split; [cbn; lia|]. exists (n + 1)%nat, (a ++ m').
  split.
  - apply hashed_more with st; try done.
    apply transform_fips; [by eapply hashed_words|lia].
  - cbn [pos m take app]. rewrite <- app_assoc. f_equal. unfold m', copy_n.
    rewrite (drop_ge (m st)), app_nil_r, <- app_assoc, take_0 by lia.
    by rewrite app_nil_l, take_drop.
Qed.

Lemma whole_blocks_spec st data msg :
  pending st data msg -> (pos st = 0 \/ pos st + length data < 64)%nat ->
  let '(st', data') := whole_blocks st data in
  pending st' data' msg /\ (pos st' + length data' < 64)%nat.
Proof.
  intros Hp H0. pose proof Hp as [Hpos (n & a & Hh & ->)].
  unfold whole_blocks, block_size.
  destruct (Nat.leb_spec 64 (length data)) as [Hl|Hl]; [|split; [done|lia]].
  destruct H0 as [H0|]; [|lia].
  pose proof (Nat.div_mod_eq (length data) 64) as HD.
  pose proof (Nat.mod_upper_bound (length data) 64 ltac:(lia)) as HM.
  set (k := (length data / 64)%nat) in *.
  split; [|cbn [pos]; rewrite length_drop; lia].
  split; [cbn [pos]; lia|]. exists (n + k)%nat, (a ++ take (k * 64) data). split.
  - apply hashed_more with st; [done|rewrite length_take; lia|by eapply hashed_m| |].
    + rewrite transform_fips by (by eapply hashed_words || lia).
      rewrite <- (take_drop (k * 64) data) at 1.
      apply compress_all_ext. intros i Hi.
      apply block_app_l with k; [rewrite length_take; lia|done].
    + do 3 f_equal. lia.
  - cbn [pos m]. rewrite H0. by rewrite take_0, !app_nil_l, <- app_assoc, take_drop.
Qed.

(** One call takes the whole input in; [rest] is what later calls bring. *)
Lemma pending_app st data rest msg :
  pending st (data ++ rest) msg <->
  exists msg', pending st data msg' /\ msg = msg' ++ rest.
Proof.
  split.
  - intros [Hpos (n & a & Hh & ->)]. exists (a ++ take (pos st) (m st) ++ data).
    split; [|by rewrite <- !app_assoc]. split; [done|]. by exists n, a.
  - intros (msg' & [Hpos (n & a & Hh & ->)] & ->). split; [done|].
    exists n, a. by rewrite <- !app_assoc.
Qed.

Lemma update_pending st data msg :
  Z.of_nat (length data) + 64 < 2 ^ 64 ->
  pending st data msg -> pending (update st data) [] msg.
Proof.
  intros Hlen Hp. unfold update.
  pose proof (complete_block_spec st data msg Hlen Hp) as H1.
  destruct (complete_block st data) as [st1 data1]. destruct H1 as [Hp1 H1].
  pose proof (whole_blocks_spec st1 data1 msg Hp1 H1) as H2.
  destruct (whole_blocks st1 data1) as [st2 data2]. destruct H2 as [[Hpos (n & a & Hh & ->)] H2].
  pose proof (hashed_m _ _ _ Hh) as Hm.
  split; [cbn; lia|]. exists n, a. cbn [pos m]. split.
  - destruct Hh as [? ? ? ?]. split; try done. cbn. rewrite copy_n_length; lia.
  - unfold copy_n. rewrite firstn_all, app_nil_r. f_equal.
    rewrite app_assoc, take_app_length'; [done|]. rewrite length_app, length_take. lia.
Qed.

Lemma updates_pending chunks rest st msg :
  Forall (fun c => Z.of_nat (length c) + 64 < 2 ^ 64) chunks ->
  pending st (mjoin chunks ++ rest) msg ->
  pending (fold_left update chunks st) rest msg.
Proof.
  intros Hc. revert st. induction Hc as [|c chunks Hc _ IH]; intros st Hp; [done|].
  cbn [fold_left]. apply IH. cbn [mjoin list_join] in Hp. rewrite <- app_assoc in Hp.
  apply pending_app in Hp as (msg' & Hp & ->).
  apply (pending_app _ []). exists msg'. split; [by apply update_pending|done].
Qed.

(** ** The last blocks *)

Lemma be_bytes_64 x : le_bytes 8 (to_big_endian_64 x) = Fips.be_bytes 8 x.
Proof. rewrite to_be_64. apply (le_bytes_read (rev _)). by rewrite length_rev, le_bytes_length. Qed.

Lemma be_bytes_32 x : word x -> le_bytes 4 (to_big_endian_32 x) = Fips.be_bytes 4 x.
Proof.
  intros Hx. rewrite to_be_32 by done. apply (le_bytes_read (rev _)).
  by rewrite length_rev, le_bytes_length.
Qed.

Lemma digest_bytes h :
  hwords h -> take 32 (mjoin (map (le_bytes 4) (map to_big_endian_32 h))) = Fips.digest h.
Proof.
  intros [HL HF]. unfold Fips.digest. rewrite map_map.
  rewrite (map_ext_in _ (Fips.be_bytes 4)).
  2:{ intros x Hx. apply be_bytes_32. rewrite Forall_forall in HF. apply HF.
      by apply list_elem_of_In. }
  apply take_ge. destruct (list8 h HL) as (a&b&c&d&e&f&g&k&->). done.
Qed.

(** The tail of the padded message, cut where [final] cuts it: [r] is the
    incomplete block. *)
Lemma zeros_blocks n r :
  (r < 64)%nat ->
  Fips.zeros (n * 64 + r) = (if (r <? 56)%nat then 55 - r else 119 - r)%nat.
Proof.
  intros Hr. unfold Fips.zeros.
  replace (55 - Z.of_nat (n * 64 + r)) with (55 - Z.of_nat r + (- Z.of_nat n) * 64) by lia.
  rewrite Z_mod_plus_full.
  destruct (Nat.ltb_spec r 56); [rewrite Z.mod_small by lia; lia|].
  rewrite <- (Z_mod_plus_full _ 1), Z.mod_small by lia. lia.
Qed.

Lemma final_total st n a r :
  hashed st n a -> le_bytes 8 (to_big_endian_64 (u64 (total st + Z.of_nat r * 8)))
                   = Fips.be_bytes 8 (Z.of_nat (n * 64 + r) * 8).
Proof.
  intros Hh. rewrite be_bytes_64, (hashed_total _ _ _ Hh).
  unfold wrap_u. rewrite Zplus_mod_idemp_l.
  unfold Fips.be_bytes. f_equal.
  rewrite <- (le_bytes_read (le_bytes 8 _) 8) by (by rewrite le_bytes_length).
  rewrite <- (le_bytes_read (le_bytes 8 (Z.of_nat (n * 64 + r) * 8)) 8)
    by (by rewrite le_bytes_length).
  rewrite !le_read_bytes. change (256 ^ Z.of_nat 8) with (2 ^ 64).
  rewrite Zmod_mod. do 2 f_equal. lia.
Qed.

(** The incomplete block with the one bit and zeros to its end. *)
Definition marked_block (st : SHA256) : list ascii :=
  take (pos st) (m st) ++ byte_of 0x80 :: replicate (63 - pos st) Ascii.zero.

Lemma mark_pos st :
  (pos st < 64)%nat -> length (m st) = 64%nat ->
  copy_n [byte_of 0x80] 1 (pos st) (m st)
  = take (pos st) (m st) ++ byte_of 0x80 :: drop (S (pos st)) (m st).
Proof. intros. unfold copy_n. by rewrite Nat.add_1_r. Qed.

Lemma fill_marked st n :
  (pos st < 64)%nat -> length (m st) = 64%nat -> n = (63 - pos st)%nat ->
  fill_n (S (pos st)) n Ascii.zero
    (take (pos st) (m st) ++ byte_of 0x80 :: drop (S (pos st)) (m st))
  = marked_block st.
Proof.
  intros Hp Hm ->. unfold fill_n, marked_block.
  rewrite (drop_ge (take _ _ ++ _)), app_nil_r
    by (rewrite !length_app, length_take; cbn [length]; rewrite length_drop; lia).
  rewrite take_app_ge by (rewrite length_take; lia).
  replace (S (pos st) - length (take (pos st) (m st)))%nat with 1%nat
    by (rewrite length_take; lia).
  by rewrite firstn_cons, take_0, <- app_assoc.
Qed.

Lemma put_length b len :
  length b = 64%nat -> length len = 8%nat ->
  copy_n len 8 56 b = take 56 b ++ len.
Proof.
  intros Hb Hl. unfold copy_n. rewrite (take_ge len) by lia.
  by rewrite (drop_ge b), app_nil_r by lia.
Qed.

Lemma marked_block_length st :
  (pos st < 64)%nat -> length (m st) = 64%nat -> length (marked_block st) = 64%nat.
Proof.
  intros. unfold marked_block. rewrite length_app, length_take. cbn [length].
  rewrite length_replicate. lia.
Qed.

(** The bytes [final] hashes are the end of the padded message. *)
Lemma final_tail st n a :
  (pos st < 64)%nat -> hashed st n a ->
  let len := Fips.be_bytes 8 (Z.of_nat (n * 64 + pos st) * 8) in
  Fips.pad (a ++ take (pos st) (m st)) =
  a ++ (if (pos st <? 56)%nat then take 56 (marked_block st) ++ len
        else marked_block st ++ replicate 56 Ascii.zero ++ len).
Proof.
  intros Hp Hh len. unfold Fips.pad.
  pose proof (hashed_m _ _ _ Hh) as Hm. pose proof (hashed_len _ _ _ Hh) as Ha.
  assert (HL : length (a ++ take (pos st) (m st)) = (n * 64 + pos st)%nat)
    by (rewrite length_app, length_take; lia).
  rewrite HL, zeros_blocks, <- app_assoc by done. fold len. f_equal.
  unfold marked_block. destruct (Nat.ltb_spec (pos st) 56) as [H|H].
  - rewrite take_app_ge by (rewrite length_take; lia).
    replace (56 - length (take (pos st) (m st)))%nat with (S (55 - pos st))
      by (rewrite length_take; lia).
    rewrite firstn_cons, take_replicate, <- app_assoc, Nat.min_l by lia. done.
  - rewrite <- app_assoc. f_equal. cbn [app]. f_equal. rewrite app_assoc. f_equal.
    rewrite <- replicate_add. f_equal. lia.
Qed.

Lemma marked_full st :
  pos st = 63%nat -> length (m st) = 64%nat ->
  take (pos st) (m st) ++ byte_of 0x80 :: drop (S (pos st)) (m st) = marked_block st.
Proof. intros Hp Hm. unfold marked_block. rewrite Hp, drop_ge by lia. done. Qed.

(** Hashing the tail in one transform or two gives the hash of the message. *)
Lemma hash_tail st n a tail k msg :
  hashed st n a -> Fips.pad msg = a ++ tail -> length tail = (k * 64)%nat ->
  Fips.hash msg = Fips.digest (Fips.compress_all (H st) tail k).
Proof.
  intros Hh Hp Ht. unfold Fips.hash. rewrite Hp, (hashed_H _ _ _ Hh).
  pose proof (hashed_len _ _ _ Hh) as Ha.
  rewrite length_app, Ha, Ht, <- Nat.mul_add_distr_r, Nat.div_mul by lia.
  by rewrite compress_all_app.
Qed.

Lemma final_pending st msg :
  pending st [] msg -> (final st).2 = Fips.hash msg.
Proof.
  intros [Hp (n & a & Hh & ->)]. rewrite app_nil_r.
  pose proof (final_tail st n a Hp Hh) as HT. cbv zeta in HT.
  pose proof (hashed_m _ _ _ Hh) as Hm. pose proof (hashed_words _ _ _ Hh) as HW.
  pose proof (marked_block_length st Hp Hm) as HB.
  unfold final, block_size. rewrite mark_pos by done.
  rewrite (final_total st n a) by done.
  set (len := Fips.be_bytes 8 _) in *.
  assert (HLen : length len = 8%nat)
    by (unfold len, Fips.be_bytes; by rewrite length_rev, le_bytes_length).
  change (64 - 8)%nat with 56%nat.
  destruct (Nat.ltb_spec 56 (S (pos st))) as [H|H];
    destruct (Nat.ltb_spec (pos st) 56) as [H'|H']; try lia.
  - assert (HM : (if negb (S (pos st) =? 64)%nat
        then fill_n (S (pos st)) (64 - S (pos st)) Ascii.zero
               (take (pos st) (m st) ++ byte_of 0x80 :: drop (S (pos st)) (m st))
        else take (pos st) (m st) ++ byte_of 0x80 :: drop (S (pos st)) (m st))
        = marked_block st).
    { destruct (Nat.eqb_spec (S (pos st)) 64); cbn [negb];
        [apply marked_full|apply fill_marked]; lia. }
    rewrite HM. cbn [snd].
    assert (HZ : fill_n 0 (64 - 0) Ascii.zero (marked_block st) = replicate 64 Ascii.zero).
    { unfold fill_n. rewrite drop_ge by lia. by rewrite app_nil_r. }
    rewrite HZ, put_length by (done || apply length_replicate).
    rewrite (hash_tail st n a _ 2 _ Hh HT)
      by (rewrite !length_app, length_replicate; lia).
    rewrite (transform_fips (marked_block st)) by (done || lia).
    rewrite transform_fips.
    2:{ by apply compress_all_words. }
    2:{ rewrite length_app, length_take, length_replicate. lia. }
    rewrite digest_bytes by (by do 2 apply compress_all_words).
    by rewrite (compress_all_app _ (marked_block st) _ 1 1) by lia.
  - cbn [snd]. rewrite fill_marked, put_length by (done || lia).
    rewrite (hash_tail st n a _ 1 _ Hh HT) by (rewrite length_app, length_take; lia).
    rewrite transform_fips by (done || rewrite length_app, length_take; lia).
    by rewrite digest_bytes by (by apply compress_all_words).
Qed.

(** ** The class computes the standard's hash *)

Lemma sha256_hash (chunks : list (list ascii))
    (Hlen : Forall (fun c => Z.of_nat (length c) + 64 < 2 ^ 64) chunks) :
  sha256 chunks = Fips.hash (mjoin chunks).
Proof.
  unfold sha256. apply final_pending. apply updates_pending; [done|].
  rewrite app_nil_r. apply new_pending.
Qed.

(** C4: fed with a message in pieces of any lengths, the object's digest is the
    hash that the standard defines for the whole message. *)
Theorem sha256_fips (chunks : list (list ascii))
    (Hlen : Forall (fun c => Z.of_nat (length c) + 64 < 2 ^ 64) chunks) :
  sha256 chunks = Fips.hash (mjoin chunks).
Proof. by apply sha256_hash. Qed.

Lemma sha256_fips_witness :
  Forall (fun c => Z.of_nat (length c) + 64 < 2 ^ 64) [lit "ab"; []; lit "c"] /\
  sha256 [lit "ab"; []; lit "c"] = Fips.hash (lit "abc").
Proof.
  assert (Hl : Forall (fun c => Z.of_nat (length c) + 64 < 2 ^ 64) [lit "ab"; []; lit "c"])
    by (repeat constructor).
  split; [exact Hl | exact (sha256_fips _ Hl)].
Defined.

(** The shape of the object. *)
Definition sha256_wf (st : SHA256) : Prop :=
  hwords (H st) /\ length (m st) = 64%nat /\ (pos st < 64)%nat /\
  0 <= total st < 2 ^ 64.

Lemma transform_words h data n :
  hwords h -> (n * 64 <= length data)%nat -> hwords (transform h data n).
Proof. intros Hh Hn. rewrite transform_fips by done. by apply compress_all_words. Qed.

Lemma u64_bound x : 0 <= u64 x < 2 ^ 64.
Proof. apply Z.mod_pos_bound. lia. Qed.

Lemma complete_block_wf st data :
  Z.of_nat (length data) + 64 < 2 ^ 64 -> sha256_wf st ->
  let '(st', data') := complete_block st data in
  sha256_wf st' /\ (pos st' = 0 \/ pos st' + length data' < 64)%nat.
Proof.
  intros Hlen Hw. pose proof Hw as (Hh & Hm & Hp & Ht).
  unfold complete_block, block_size, wrap_u. rewrite Z.mod_small by lia.
  destruct (Nat.eqb_spec (pos st) 0) as [H0|H0]; cbn [negb andb]; [by auto|].
  destruct (Z.leb_spec 64 (Z.of_nat (pos st) + Z.of_nat (length data))) as [Hl|Hl].
  2:{ split; [done|]. right. lia. }
  assert (HL : length (copy_n data (64 - pos st) (pos st) (m st)) = 64%nat)
    by (rewrite copy_n_length; lia).
  split; [|by left]. split_and!; cbn [H m pos total];
    [apply transform_words; [done|lia]|done|lia|apply u64_bound..].
Qed.

Lemma whole_blocks_wf st data :
  sha256_wf st -> (pos st = 0 \/ pos st + length data < 64)%nat ->
  let '(st', data') := whole_blocks st data in
  sha256_wf st' /\ (pos st' + length data' < 64)%nat.
Proof.
  intros Hw H0. pose proof Hw as (Hh & Hm & Hp & Ht).
  unfold whole_blocks, block_size.
  destruct (Nat.leb_spec 64 (length data)) as [Hl|Hl]; [|split; [done|lia]].
  pose proof (Nat.div_mod_eq (length data) 64) as HD.
  pose proof (Nat.mod_upper_bound (length data) 64 ltac:(lia)) as HM.
  split; [|cbn [pos]; rewrite length_drop; lia].
  split_and!; cbn [H m pos total]; try done; try apply u64_bound.
  apply transform_words; [done|lia].
Qed.

Lemma digest_length h : length h = 8%nat -> length (take 32 (mjoin (map (le_bytes 4) h))) = 32%nat.
Proof. intros HL. destruct (list8 h HL) as (a&b&c&d&e&f&g&k&->). done. Qed.

(** C40: a new object has eight 32-bit words, a buffer of 64 bytes, fewer than 64
    of them in use, and a 64-bit count; every update keeps that shape, and the
    digest of an object of that shape has 32 bytes. *)
Theorem sha256_type :
  sha256_wf sha256_new /\
  (forall st data, Z.of_nat (length data) + 64 < 2 ^ 64 ->
     sha256_wf st -> sha256_wf (update st data)) /\
  (forall st, sha256_wf st -> length (final st).2 = 32%nat).
Proof.
  split; [|split].
  - split; [cbn [H sha256_new]; rewrite H_fips; apply H0_words|].
    cbn. repeat split; lia.
  - intros st data Hlen Hw. unfold update.
    pose proof (complete_block_wf st data Hlen Hw) as H1.
    destruct (complete_block st data) as [st1 data1]. destruct H1 as [Hw1 H1].
    pose proof (whole_blocks_wf st1 data1 Hw1 H1) as H2.
    destruct (whole_blocks st1 data1) as [st2 data2].
    destruct H2 as [(Hh & Hm & Hp & Ht) H2].
    split_and!; cbn [H m pos total]; try done; [|lia..]. rewrite copy_n_length; lia.
  - intros st (Hh & Hm & Hp & Ht). unfold final, block_size.
    assert (HL : length (copy_n [byte_of 0x80] 1 (pos st) (m st)) = 64%nat)
      by (rewrite copy_n_length; cbn [length]; lia).
    destruct (Nat.ltb_spec (64 - 8) (S (pos st))) as [H0|H0]; cbn [snd];
      apply digest_length; rewrite length_map;
      apply transform_words; try apply transform_words; try done.
    all: rewrite ?copy_n_length, ?fill_n_length; rewrite ?le_bytes_length; try lia.
    all: destruct (S (pos st) =? 64)%nat eqn:E; cbn [negb];
      rewrite ?fill_n_length; rewrite ?fill_n_length; rewrite ?HL; lia.
Qed.

Lemma sha256_type_witness :
  sha256_wf (update sha256_new (lit "abc")) /\
  length (final (update sha256_new (lit "abc"))).2 = 32%nat.
Proof.
  destruct sha256_type as (Hn & Hu & Hf).
  assert (Hw : sha256_wf (update sha256_new (lit "abc"))) by (apply Hu; [done|exact Hn]).
  split; [exact Hw | exact (Hf _ Hw)].
Defined.
