(* ===== verification/Qt.v ===== *)
(** * The Qt library, as the code relies on it

    Qt is not part of the repository, so its regular expression engine and its
    number parsers are parameters ([Qt]) with the documented behaviour the code
    relies on as hypotheses ([QtOk]).

    The patterns the code passes to [QRegularExpression] are values of [regex]
    here, one constructor per construct of the pattern language that occurs in
    them.  The documented meaning of a pattern is the Perl one: try the
    alternatives in order, quantifiers greedily, from the leftmost start, and
    take the first success.  [rsearch] is that meaning, [rm] the relational
    reading of it, and [bt_sound]/[bt_complete] relate the two.

    [QString] is a sequence of characters like [std::string]; the conversions
    between them are the identity on the (ASCII) strings the model covers. *)
From S2P Require Import Prelude.

(** ** Patterns *)

Inductive regex :=
| RChr (p : ascii -> bool)     (** a literal character or a character class *)
| REps
| RSeq (a b : regex)
| RAlt (a b : regex)           (** [a|b] *)
| ROpt (a : regex)             (** [a?] *)
| RStar (a : regex)            (** [a*] *)
| RGroup (i : nat) (a : regex) (** capturing group number [i] *)
| RBol                         (** [^] *)
| REol.                        (** [$]: at the end or before a final newline *)

(** The concatenation [ab...z]. *)
Fixpoint rcat (l : list regex) : regex :=
  match l with
  | [] => REps
  | [a] => a
  | a :: l' => RSeq a (rcat l')
  end.

Definition chr (c : ascii) : regex := RChr (fun x => bool_decide (x = c)).
Definition not_chr (c : ascii) : ascii -> bool := fun x => negb (bool_decide (x = c)).
Definition RPlus (a : regex) : regex := RSeq a (RStar a).

(** Captured groups, the latest first. *)
Abbreviation caps := (list (nat * str)).

(** [QRegularExpressionMatch::captured(i)]; [None] is the null string. *)
Definition captured (c : caps) (i : nat) : option str :=
  snd <$> List.find (fun p => Nat.eqb (fst p) i) c.

Definition newline : ascii := ascii_of_N 10.

(** Backtracking matching at a position: [n] is the length of the whole
    subject, [s] what is left of it, [k] what has to match afterwards. *)
Fixpoint bt (r : regex) (n : nat) (s : str) (c : caps)
    (k : str -> caps -> option caps) : option caps :=
  match r with
  | RChr p => match s with
              | x :: s' => if p x then k s' c else None
              | [] => None
              end
  | REps => k s c
  | RSeq a b => bt a n s c (fun s1 c1 => bt b n s1 c1 k)
  | RAlt a b => match bt a n s c k with Some x => Some x | None => bt b n s c k end
  | ROpt a => match bt a n s c k with Some x => Some x | None => k s c end
  | RStar a =>
      (fix star (fuel : nat) (s : str) (c : caps) : option caps :=
         match fuel with
         | O => k s c
         | S f =>
             match bt a n s c (fun s1 c1 =>
                     if Nat.ltb (length s1) (length s) then star f s1 c1 else None) with
             | Some x => Some x
             | None => k s c
             end
         end) (length s) s c
  | RGroup i a => bt a n s c (fun s1 c1 => k s1 ((i, take (length s - length s1) s) :: c1))
  | RBol => if Nat.eqb (length s) n then k s c else None
  | REol => match s with
            | [] => k s c
            | [x] => if bool_decide (x = newline) then k s c else None
            | _ => None
            end
  end.

Definition bt_done (s : str) (c : caps) : option caps := Some c.

(** Leftmost search. *)
Fixpoint rsearch_from (r : regex) (n : nat) (s : str) : option caps :=
  match bt r n s [] bt_done with
  | Some c => Some c
  | None => match s with [] => None | _ :: s' => rsearch_from r n s' end
  end.

Definition rsearch (r : regex) (s : str) : option caps := rsearch_from r (length s) s.

(** ** The library interface *)

(** [QRegularExpression(p).match(s)], [QString::toInt] and
    [QString::toLongLong] ([None]: the conversion failed). *)
Class Qt := {
  re_match : regex -> str -> option caps;
  q_toInt : str -> option Z;
  q_toLongLong : str -> option Z
}.

(** Characters that may occur in the text of a number. *)
Definition number_chr (c : ascii) : bool :=
  is_digit c || bool_decide (c = "+"%char) || bool_decide (c = "-"%char) ||
  (N_of_ascii c <=? 32)%N.

Class QtOk (q : Qt) : Prop := {
  re_match_spec : forall r s, re_match r s = rsearch r s;
  q_toInt_range : forall s z, q_toInt s = Some z -> - 2 ^ 31 <= z <= i32_max;
  q_toInt_digits : forall s, s <> [] -> forallb is_digit s = true ->
    q_toInt s = if undec s <=? i32_max then Some (undec s) else None;
  q_toInt_invalid : forall s, forallb number_chr s = false -> q_toInt s = None;
  q_toInt_empty : q_toInt [] = None;
  q_toLongLong_digits : forall s, s <> [] -> forallb is_digit s = true ->
    q_toLongLong s = if undec s <=? i64_max then Some (undec s) else None
}.

(** ** Relational reading of patterns *)

Inductive rm (n : nat) : regex -> str -> caps -> str -> caps -> Prop :=
| rm_chr p x s c : p x = true -> rm n (RChr p) (x :: s) c s c
| rm_eps s c : rm n REps s c s c
| rm_seq a b s c s1 c1 s2 c2 :
    rm n a s c s1 c1 -> rm n b s1 c1 s2 c2 -> rm n (RSeq a b) s c s2 c2
| rm_altl a b s c s1 c1 : rm n a s c s1 c1 -> rm n (RAlt a b) s c s1 c1
| rm_altr a b s c s1 c1 : rm n b s c s1 c1 -> rm n (RAlt a b) s c s1 c1
| rm_opt a s c s1 c1 : rm n a s c s1 c1 -> rm n (ROpt a) s c s1 c1
| rm_opt_none a s c : rm n (ROpt a) s c s c
| rm_star_nil a s c : rm n (RStar a) s c s c
| rm_star a s c s1 c1 s2 c2 :
    rm n a s c s1 c1 -> (length s1 < length s)%nat ->
    rm n (RStar a) s1 c1 s2 c2 -> rm n (RStar a) s c s2 c2
| rm_group i a s c s1 c1 :
    rm n a s c s1 c1 -> rm n (RGroup i a) s c s1 ((i, take (length s - length s1) s) :: c1)
| rm_bol s c : length s = n -> rm n RBol s c s c
| rm_eol_end c : rm n REol [] c [] c
| rm_eol_nl c : rm n REol [newline] c [newline] c.

(** Words of a pattern without groups and anchors. *)
Inductive lang : regex -> str -> Prop :=
| lang_chr p x : p x = true -> lang (RChr p) [x]
| lang_eps : lang REps []
| lang_seq a b w1 w2 : lang a w1 -> lang b w2 -> lang (RSeq a b) (w1 ++ w2)
| lang_altl a b w : lang a w -> lang (RAlt a b) w
| lang_altr a b w : lang b w -> lang (RAlt a b) w
| lang_opt a w : lang a w -> lang (ROpt a) w
| lang_opt_none a : lang (ROpt a) []
| lang_star_nil a : lang (RStar a) []
| lang_star a w1 w2 : w1 <> [] -> lang a w1 -> lang (RStar a) w2 -> lang (RStar a) (w1 ++ w2).

Fixpoint pure (r : regex) : bool :=
  match r with
  | RChr _ | REps => true
  | RSeq a b | RAlt a b => pure a && pure b
  | ROpt a | RStar a => pure a
  | RGroup _ _ | RBol | REol => false
  end.

(** ** Backtracking finds a match exactly when there is one *)

Lemma bt_sound r : forall n s c k x, bt r n s c k = Some x ->
  exists s' c', rm n r s c s' c' /\ k s' c' = Some x.
Proof.
  induction r as [p| |a IHa b IHb|a IHa b IHb|a IHa|a IHa|i a IHa| |]; simpl; intros n s c k x H.
  - destruct s as [|y s]; [done|]. destruct (p y) eqn:E; [|done]. eauto using rm.
  - eauto using rm.
  - apply IHa in H as (s1 & c1 & H1 & H). apply IHb in H as (s2 & c2 & H2 & H). eauto using rm.
  - destruct (bt a n s c k) eqn:E.
    + simplify_eq. apply IHa in E as (?&?&?&?). eauto using rm.
    + apply IHb in H as (?&?&?&?). eauto using rm.
  - destruct (bt a n s c k) eqn:E; [|eauto using rm].
    simplify_eq. apply IHa in E as (?&?&?&?). eauto using rm.
  - revert H. generalize (length s) as f. intros f. revert s c.
    induction f as [|f IHf]; intros s c H; [eauto using rm|].
    match type of H with match ?e with _ => _ end = _ => destruct e eqn:E end; [|eauto using rm].
    simplify_eq. apply IHa in E as (s1 & c1 & H1 & E).
    destruct (Nat.ltb_spec (length s1) (length s)); [|done].
    apply IHf in E as (s2 & c2 & H2 & E). eauto using rm.
  - apply IHa in H as (s1 & c1 & H1 & H). eauto using rm.
  - destruct (Nat.eqb_spec (length s) n); [|done]. eauto using rm.
  - destruct s as [|y [|z s]]; [eauto using rm| |done].
    case_bool_decide; [|done]. subst. eauto using rm.
Qed.

Lemma rm_shorter n r s c s' c' : rm n r s c s' c' -> exists w, s = w ++ s'.
Proof.
  induction 1; try (by exists []); try done; try (by eexists [_]).
  all: destruct IHrm1 as [w1 ->], IHrm2 as [w2 ->]; exists (w1 ++ w2); by rewrite <- app_assoc.
Qed.

Lemma bt_complete r : forall n s c s' c' k, rm n r s c s' c' ->
  k s' c' <> None -> bt r n s c k <> None.
Proof.
  induction r as [p| |a IHa b IHb|a IHa b IHb|a IHa|a IHa|i a IHa| |];
    intros n s c s' c' k H Hk; simpl.
  - inversion H as [?? ?? Hp| | | | | | | | | | | |]; subst. by rewrite Hp.
  - by inversion H; subst.
  - inversion H; subst. eapply IHa; [done|]. by eapply IHb.
  - destruct (bt a n s c k) eqn:E; [done|].
    inversion H; subst; [|by eapply IHb]. exfalso. by eapply (IHa n s c).
  - destruct (bt a n s c k) eqn:E; [done|].
    inversion H; subst; [|done]. exfalso. by eapply (IHa n s c).
  - assert (Hf : (length s <= length s)%nat) by lia. revert Hf. generalize (length s) at 2 3.
    remember (RStar a) as r eqn:Er. revert Er Hk. induction H; intros Er Hk f Hf; simplify_eq.
    + destruct f; [done|]. by case_match.
    + destruct f as [|f]; [lia|]. match goal with |- match ?e with _ => _ end <> None =>
        destruct e eqn:E; [done|] end.
      exfalso. revert E. eapply IHa; [done|]. destruct (Nat.ltb_spec (length s1) (length s)); [|lia].
      apply IHrm2; [done|done|lia].
  - inversion H; subst. eapply IHa; [done|done].
  - inversion H; subst. by rewrite Nat.eqb_refl.
  - inversion H; subst; [done|]. by rewrite bool_decide_true.
Qed.

(** *** Pure sub-patterns match the words of their language *)

Lemma rm_pure n r s c s' c' : pure r = true ->
  rm n r s c s' c' <-> c' = c /\ exists w, s = w ++ s' /\ lang r w.
Proof.
  intros Hp. split.
  - induction 1; simpl in *; bsplit; try done.
    + split; [done|]. exists [x]. split; [done|by constructor].
    + split; [done|]. exists []. split; [done|eauto using lang].
    + destruct IHrm1 as (-> & w1 & -> & ?), IHrm2 as (-> & w2 & -> & ?); try done.
      split; [done|]. exists (w1 ++ w2). rewrite <- app_assoc. eauto using lang.
    + destruct IHrm as (-> & w & -> & ?); [done|]. eauto using lang.
    + destruct IHrm as (-> & w & -> & ?); [done|]. eauto using lang.
    + destruct IHrm as (-> & w & -> & ?); [done|]. eauto using lang.
    + split; [done|]. exists []. split; [done|eauto using lang].
    + split; [done|]. exists []. split; [done|eauto using lang].
    + destruct IHrm1 as (-> & w1 & -> & ?), IHrm2 as (-> & w2 & -> & ?); try done.
      split; [done|]. exists (w1 ++ w2). rewrite <- app_assoc. split; [done|].
      constructor; [|done|done]. intros ->. simpl in *. lia.
  - intros (-> & w & -> & Hl). revert s' Hp. induction Hl; intros s' Hp; simpl in *; bsplit.
    + by constructor.
    + constructor.
    + rewrite <- app_assoc. eauto using rm.
    + eauto using rm.
    + eauto using rm.
    + eauto using rm.
    + apply rm_opt_none.
    + apply rm_star_nil.
    + rewrite <- app_assoc. eapply rm_star; [by apply IHHl1| |by apply IHHl2].
      rewrite (length_app w1). destruct w1; [done|simpl; lia].
Qed.

Lemma rm_seq_iff n a b s c s' c' :
  rm n (RSeq a b) s c s' c' <-> exists s1 c1, rm n a s c s1 c1 /\ rm n b s1 c1 s' c'.
Proof. split; [inversion 1; eauto|intros (?&?&?&?); eauto using rm]. Qed.

Lemma rm_opt_iff n a s c s' c' :
  rm n (ROpt a) s c s' c' <-> rm n a s c s' c' \/ (s' = s /\ c' = c).
Proof. split; [inversion 1; auto|intros [?|[-> ->]]; eauto using rm]. Qed.

Lemma rm_chr_iff n p s c s' c' :
  rm n (RChr p) s c s' c' <-> exists x, s = x :: s' /\ p x = true /\ c' = c.
Proof. split; [inversion 1; eauto|intros (?&->&?&->); eauto using rm]. Qed.

Lemma rm_lit_iff n x s c s' c' : rm n (chr x) s c s' c' <-> s = x :: s' /\ c' = c.
Proof.
  unfold chr. rewrite rm_chr_iff. split.
  - intros (y & -> & Hy & ->). by bsplit; subst.
  - intros [-> ->]. exists x. by rewrite bool_decide_true.
Qed.

Lemma rm_group_iff n i a s c s' c' : pure a = true ->
  rm n (RGroup i a) s c s' c' <-> exists w, s = w ++ s' /\ c' = (i, w) :: c /\ lang a w.
Proof.
  intros Hp.
  assert (Ht : forall w : str, take (length (w ++ s') - length s') (w ++ s') = w).
  { intros w. rewrite length_app, Nat.add_sub. by rewrite take_app_length. }
  split.
  - inversion 1 as [| | | | | | | | | ???? s1 c1 Hm | | |]; subst.
    apply rm_pure in Hm as (-> & w & -> & Hl); [|done]. exists w. by rewrite Ht.
  - intros (w & -> & -> & Hl). rewrite <- (Ht w) at 2. constructor. apply rm_pure; eauto.
Qed.

Lemma rm_bol_iff n s c s' c' : rm n RBol s c s' c' <-> length s = n /\ s' = s /\ c' = c.
Proof. split; [by inversion 1|intros (?&->&->); eauto using rm]. Qed.

Lemma rm_eol_iff n s c s' c' :
  rm n REol s c s' c' <-> (s = [] \/ s = [newline]) /\ s' = s /\ c' = c.
Proof. split; [inversion 1; auto|intros ([->| ->]&->&->); eauto using rm]. Qed.

(** *** Searching *)

Lemma rsearch_sound r s c : rsearch r s = Some c ->
  exists p s0 s', s = p ++ s0 /\ rm (length s) r s0 [] s' c.
Proof.
  unfold rsearch. generalize (length s) as n. intros n. induction s as [|x s IH]; simpl; intros H.
  - destruct (bt r n [] [] bt_done) eqn:E; [|done]. simplify_eq.
    apply bt_sound in E as (s' & c' & Hm & E). injection E as ->. by exists [], [], s'.
  - destruct (bt r n (x :: s) [] bt_done) eqn:E.
    + simplify_eq. apply bt_sound in E as (s' & c' & Hm & E). injection E as ->.
      by exists [], (x :: s), s'.
    + apply IH in H as (p & s0 & s' & -> & Hm). by exists (x :: p), s0, s'.
Qed.

(** A match at the very start wins. *)
Lemma rsearch_start r s : bt r (length s) s [] bt_done <> None ->
  rsearch r s = bt r (length s) s [] bt_done.
Proof. unfold rsearch. intros H. destruct s; simpl in *; by destruct (bt r _ _ [] bt_done). Qed.

(** A pattern that starts with [^] matches at the start of the subject only. *)
Lemma rsearch_anchored r s c : rsearch (RSeq RBol r) s = Some c ->
  exists s', rm (length s) r s [] s' c.
Proof.
  intros H. apply rsearch_sound in H as (p & s0 & s' & -> & Hm).
  apply rm_seq_iff in Hm as (s1 & c1 & Hb & Hm). apply rm_bol_iff in Hb as (Hl & -> & ->).
  destruct p as [|x p]; [by exists s'|]. rewrite length_app in Hl. simpl in Hl. lia.
Qed.

Lemma rsearch_anchored_some r s s' c : rm (length s) r s [] s' c ->
  exists c', rsearch (RSeq RBol r) s = Some c'.
Proof.
  intros H. assert (Hne : bt (RSeq RBol r) (length s) s [] bt_done <> None).
  { eapply (bt_complete _ _ _ _ s' c); [|done]. apply rm_seq_iff. exists s, [].
    split; [by apply rm_bol_iff|done]. }
  rewrite rsearch_start by done. destruct (bt _ _ _ _ _) eqn:E in Hne |- *; eauto. done.
Qed.

(** *** Greedy classes *)

(** [\[class\]*] first tries the longest run of the class. *)
Lemma bt_star_class p n w s c k r :
  forallb p w = true -> (forall x t, s = x :: t -> p x = false) -> k s c = Some r ->
  bt (RStar (RChr p)) n (w ++ s) c k = Some r.
Proof.
  intros Hw Hs Hk. cbn [bt].
  assert (Hf : (length w <= length (w ++ s))%nat) by (rewrite length_app; lia).
  revert Hf. generalize (length (w ++ s)) as f. intros f. revert w Hw.
  induction f as [|f IH]; intros w Hw Hf.
  - destruct w; [done|simpl in Hf; lia].
  - destruct w as [|x w]; simpl.
    + destruct s as [|y s]; [done|]. by rewrite (Hs y s).
    + simpl in Hw, Hf. bsplit. rewrite H.
      destruct (Nat.ltb_spec (length (w ++ s)) (S (length (w ++ s)))); [|lia].
      by rewrite IH by (done || lia).
Qed.

Lemma take_group (w s : str) : take (length (w ++ s) - length s) (w ++ s) = w.
Proof. rewrite length_app, Nat.add_sub. apply take_app_length. Qed.

(** A captured run. *)
Lemma bt_group_star i p n w s c k r :
  forallb p w = true -> (forall x t, s = x :: t -> p x = false) -> k s ((i, w) :: c) = Some r ->
  bt (RGroup i (RStar (RChr p))) n (w ++ s) c k = Some r.
Proof.
  intros Hw Hs Hk. cbn [bt]. apply (bt_star_class p n w s c); [done|done|].
  by rewrite take_group.
Qed.

Lemma bt_group_plus i p n w s c k r : w <> [] ->
  forallb p w = true -> (forall x t, s = x :: t -> p x = false) -> k s ((i, w) :: c) = Some r ->
  bt (RGroup i (RPlus (RChr p))) n (w ++ s) c k = Some r.
Proof.
  intros Hne Hw Hs Hk. destruct w as [|x w]; [done|]. cbn [forallb] in Hw. bsplit.
  unfold RPlus.
  change (bt (RGroup i (RSeq (RChr p) (RStar (RChr p)))) n ((x :: w) ++ s) c k) with
    (if p x then bt (RStar (RChr p)) n (w ++ s) c
       (fun s1 c1 => k s1 ((i, take (length ((x :: w) ++ s) - length s1) ((x :: w) ++ s)) :: c1)) else None).
  rewrite H. apply bt_star_class; [done|done|]. by rewrite take_group.
Qed.

Lemma bt_seq a b n s c k : bt (RSeq a b) n s c k = bt a n s c (fun s1 c1 => bt b n s1 c1 k).
Proof. done. Qed.

Lemma bt_lit x n s c k : bt (chr x) n (x :: s) c k = k s c.
Proof. unfold chr. cbn [bt]. by rewrite bool_decide_true. Qed.

Lemma bt_bol s c k : bt RBol (length s) s c k = k s c.
Proof. cbn [bt]. by rewrite Nat.eqb_refl. Qed.

Lemma bt_opt_none a n s c k : (forall s' c', ~ rm n a s c s' c') -> bt (ROpt a) n s c k = k s c.
Proof.
  intros H. cbn [bt]. destruct (bt a n s c k) eqn:E; [|done].
  apply bt_sound in E as (s' & c' & E & _). by apply H in E.
Qed.

Lemma bt_opt_some a n s c k r : bt a n s c k = Some r -> bt (ROpt a) n s c k = Some r.
Proof. cbn [bt]. by intros ->. Qed.

Lemma not_chr_free x w : forallb (not_chr x) w = true <-> x ∉ w.
Proof.
  rewrite forallb_forall. split.
  - intros H Hx%list_elem_of_In. apply H in Hx. unfold not_chr in Hx. by rewrite bool_decide_true in Hx.
  - intros H y Hy%list_elem_of_In. unfold not_chr. rewrite bool_decide_false; [done|].
    by intros ->.
Qed.

(** *** Languages of common sub-patterns *)

Lemma lang_seq_iff a b w :
  lang (RSeq a b) w <-> exists w1 w2, w = w1 ++ w2 /\ lang a w1 /\ lang b w2.
Proof. split; [inversion 1; eauto|intros (?&?&->&?&?); by constructor]. Qed.

Lemma lang_alt_iff a b w : lang (RAlt a b) w <-> lang a w \/ lang b w.
Proof. split; [inversion 1; auto|intros [?|?]; eauto using lang]. Qed.

Lemma lang_chr_iff p w : lang (RChr p) w <-> exists x, w = [x] /\ p x = true.
Proof. split; [inversion 1; eauto|intros (?&->&?); by constructor]. Qed.

Lemma lang_lit_iff x w : lang (chr x) w <-> w = [x].
Proof.
  unfold chr. rewrite lang_chr_iff. split.
  - intros (y & -> & Hy). by bsplit; subst.
  - intros ->. exists x. by rewrite bool_decide_true.
Qed.

Lemma lang_star_ind' a (P : str -> Prop) :
  P [] -> (forall w1 w2, w1 <> [] -> lang a w1 -> lang (RStar a) w2 -> P w2 -> P (w1 ++ w2)) ->
  forall w, lang (RStar a) w -> P w.
Proof.
  intros H0 H1 w Hw. remember (RStar a) as r eqn:Er. induction Hw; simplify_eq; [done|].
  apply H1; auto.
Qed.

Lemma lang_star_class p w : lang (RStar (RChr p)) w <-> forallb p w = true.
Proof.
  split.
  - intros H. induction H as [|w1 w2 _ H1 _ IH] using lang_star_ind'; [done|].
    apply lang_chr_iff in H1 as (x & -> & Hx). simpl. by rewrite Hx.
  - induction w as [|x w IH]; intros H; [constructor|]. simpl in H. bsplit.
    change (x :: w) with ([x] ++ w). constructor; [done|by constructor|auto].
Qed.

Lemma lang_plus_class p w : lang (RPlus (RChr p)) w <-> w <> [] /\ forallb p w = true.
Proof.
  unfold RPlus. rewrite lang_seq_iff. split.
  - intros (w1 & w2 & -> & H1 & H2). apply lang_chr_iff in H1 as (x & -> & Hx).
    apply lang_star_class in H2. simpl. by rewrite Hx.
  - intros [Hne H]. destruct w as [|x w]; [done|]. simpl in H. bsplit. exists [x], w.
    split; [done|]. split; [by constructor|by apply lang_star_class].
Qed.

(** [0|[1-9]\d*] *)
Definition nonzero_digit (c : ascii) : bool := is_digit c && negb (bool_decide (c = "0"%char)).

Definition re_num : regex :=
  RAlt (chr "0") (RSeq (RChr nonzero_digit) (RStar (RChr is_digit))).

Lemma lang_num w : lang re_num w <-> canon_num w = true.
Proof.
  unfold re_num. rewrite lang_alt_iff, lang_lit_iff, lang_seq_iff. split.
  - intros [->|(w1 & w2 & -> & H1 & H2)]; [done|].
    apply lang_chr_iff in H1 as (x & -> & Hx). apply lang_star_class in H2.
    unfold nonzero_digit in Hx. bsplit. simpl. rewrite H2. rewrite H. by rewrite bool_decide_false.
  - destruct w as [|x w]; [done|]. simpl. intros H. bsplit.
    destruct (decide (x = "0"%char)) as [->|Hne].
    + rewrite bool_decide_true in H0 by done. simpl in H0. bsplit. subst. by left.
    + right. exists [x], w. split; [done|]. split; [|by apply lang_star_class].
      constructor. unfold nonzero_digit. rewrite H. by rewrite bool_decide_false.
Qed.

(** Two ways of cutting a string at the first character of a class agree. *)
Lemma cut_unique (p : ascii -> bool) (w1 w2 s1 s2 : str) :
  w1 ++ s1 = w2 ++ s2 -> forallb p w1 = true -> forallb p w2 = true ->
  (forall x s, s1 = x :: s -> p x = false) -> (forall x s, s2 = x :: s -> p x = false) ->
  w1 = w2 /\ s1 = s2.
Proof.
  revert w2. induction w1 as [|x w1 IH]; intros [|y w2] E H1 H2 Hs1 Hs2; simpl in *; bsplit.
  - done.
  - specialize (Hs1 _ _ E). congruence.
  - specialize (Hs2 _ _ (eq_sym E)). congruence.
  - simplify_eq. destruct (IH w2) as [-> ->]; auto.
Qed.

(** ** A concrete library that meets the hypotheses *)

(** Optional sign, then digits; [None] when the value is out of range. *)
Definition parse_int (lo hi : Z) (s : str) : option Z :=
  let '(neg, ds) := match s with
                    | "-"%char :: s' => (true, s')
                    | "+"%char :: s' => (false, s')
                    | _ => (false, s)
                    end in
  if negb (bool_decide (ds = [])) && forallb is_digit ds then
    let v := if neg then - undec ds else undec ds in
    if (lo <=? v) && (v <=? hi) then Some v else None
  else None.

Definition qt_model : Qt := {|
  re_match := rsearch;
  q_toInt := parse_int (- 2 ^ 31) i32_max;
  q_toLongLong := parse_int (- 2 ^ 63) i64_max
|}.

Lemma parse_int_digits lo hi s : lo <= 0 -> s <> [] -> forallb is_digit s = true ->
  parse_int lo hi s = if undec s <=? hi then Some (undec s) else None.
Proof.
  intros Hlo Hne Hd. unfold parse_int.
  assert (E : match s with "-"%char :: s' => (true, s') | "+"%char :: s' => (false, s')
              | _ => (false, s) end = (false, s)).
  { destruct s as [|[[] [] [] [] [] [] [] []] s]; try done; by simpl in Hd. }
  rewrite E, bool_decide_false, Hd by done. simpl. pose proof (undec_nonneg s Hd).
  destruct (Z.leb_spec lo (undec s)); [done|lia].
Qed.

Lemma parse_int_chars lo hi s z : parse_int lo hi s = Some z -> forallb number_chr s = true.
Proof.
  assert (Hd : forall ds, forallb is_digit ds = true -> forallb number_chr ds = true).
  { induction ds as [|d ds IH]; [done|]. simpl. intros H. bsplit. unfold number_chr at 1.
    rewrite H. simpl. auto. }
  unfold parse_int. destruct s as [|x s]; [done|].
  destruct (decide (x = "-"%char)) as [->|]; [|destruct (decide (x = "+"%char)) as [->|]].
  - destruct (negb (bool_decide (s = [])) && forallb is_digit s) eqn:E; [|done]. bsplit.
    intros _. simpl. auto.
  - destruct (negb (bool_decide (s = [])) && forallb is_digit s) eqn:E; [|done]. bsplit.
    intros _. simpl. auto.
  - match goal with |- (let '(_, _) := ?e in _) = _ -> _ => assert (E : e = (false, x :: s)) end.
    { by destruct x as [[] [] [] [] [] [] [] []]. }
    rewrite E. match goal with |- (if ?b then _ else _) = _ -> _ => destruct b eqn:Eb; [|done] end.
    bsplit. auto.
Qed.

Lemma qt_model_ok : QtOk qt_model.
Proof.
  split; simpl.
  - done.
  - intros s z. unfold parse_int. 
    match goal with |- (let '(_, _) := ?e in _) = _ -> _ => destruct e as [neg ds] end.
    repeat case_match; intros; simplify_eq; bsplit; unfold i32_max in *; lia.
  - intros. apply parse_int_digits; [lia|done|done].
  - intros s H. destruct (parse_int _ _ s) eqn:E; [|done]. apply parse_int_chars in E. congruence.
  - done.
  - intros. apply parse_int_digits; [lia|done|done].
Qed.
