(* ===== verification/Types.v ===== *)
(** * Data types shared by the components ([linglong/api/types/v1])

    The records the JSON API types become, with the fields the modelled code
    reads or writes.  An [std::optional] field is an [option]; a [std::map] is
    the list of its pairs in key order. *)
From S2P Require Import Prelude.

(** ** Error codes ([utils::error::ErrorCode]) *)

Definition ec_Failed : Z := -1.
Definition ec_Unknown : Z := 1000.
Definition ec_AppNotFoundFromRemote : Z := 1001.
Definition ec_AppNotFoundFromLocal : Z := 1002.
Definition ec_AppInstallFailed : Z := 2001.
Definition ec_AppInstallNotFoundFromRemote : Z := 2002.
Definition ec_AppInstallAlreadyInstalled : Z := 2003.
Definition ec_AppInstallNeedDowngrade : Z := 2004.
Definition ec_LayerCompatibilityError : Z := 2104.
Definition ec_NetworkError : Z := 3001.
Definition ec_InvalidFuzzyReference : Z := 4001.
Definition ec_UnknownArchitecture : Z := 4002.

(** [LINGLONG_ERR(msg)] without a code. *)
Definition err_default : Z := ec_Failed.

(** Not an error code: the program has ended ([std::terminate], an exception
    escaping a [noexcept] function) or done something undefined. *)
Definition terminated : Z := -1000.

(** ** Packages *)

Record ExtensionDefine := mkExtensionDefine {
  ed_allowEnv : option (list (str * str));
  ed_directory : str;
  ed_name : str;
  ed_version : str
}.

Record ExtensionImpl := mkExtensionImpl {
  ei_env : option (list (str * str));
  ei_libs : option (list str)
}.

(** [permissions] is the one field that is only passed through and is left out. *)
Record PackageInfoV2 := mkInfo {
  pi_arch : list str;
  pi_base : str;
  pi_channel : str;
  pi_command : option (list str);
  pi_compatibleVersion : option str;
  pi_description : option str;
  pi_extImpl : option ExtensionImpl;
  pi_extensions : option (list ExtensionDefine);
  pi_id : str;
  pi_kind : str;
  packageInfoV2Module : str;
  pi_name : str;
  pi_runtime : option str;
  pi_schemaVersion : str;
  pi_size : Z;
  pi_uuid : option str;
  pi_version : str
}.

#[export] Instance ExtensionDefine_eq_dec : EqDecision ExtensionDefine.
Proof. solve_decision. Defined.
#[export] Instance ExtensionImpl_eq_dec : EqDecision ExtensionImpl.
Proof. solve_decision. Defined.
#[export] Instance PackageInfoV2_eq_dec : EqDecision PackageInfoV2.
Proof. solve_decision. Defined.

(** The version-1 record of older packages. *)
Record PackageInfo := mkInfoV1 {
  p1_appid : str;
  p1_arch : list str;
  p1_base : str;
  p1_channel : option str;
  p1_command : option (list str);
  p1_description : option str;
  p1_kind : str;
  packageInfoModule : str;
  p1_name : str;
  p1_runtime : option str;
  p1_size : Z;
  p1_version : str
}.

(** ** Repositories *)

Record Repo := mkRepo {
  r_alias : option str;
  r_mirrorEnabled : option bool;
  r_name : str;
  r_priority : Z;
  r_url : str
}.

Record RepoConfig := mkRepoConfig {
  c1_defaultRepo : str;
  c1_repos : list (str * str);
  c1_version : Z
}.

Record RepoConfigV2 := mkRepoConfigV2 {
  c2_defaultRepo : str;
  c2_repos : list Repo;
  c2_version : Z
}.

#[export] Instance Repo_eq_dec : EqDecision Repo.
Proof. solve_decision. Defined.
#[export] Instance RepoConfigV2_eq_dec : EqDecision RepoConfigV2.
Proof. solve_decision. Defined.

Record RepositoryCacheLayersItem := mkLayer {
  l_commit : str;
  l_deleted : option bool;
  l_info : PackageInfoV2;
  l_repo : str
}.

Record RepositoryCacheMergedItem := mkMerged {
  mi_binaryCommit : option str;
  mi_commits : list str;
  mi_id : str;
  mi_modules : list str;
  mi_name : option str
}.

Record RepositoryCache := mkRepositoryCache {
  rc_config : RepoConfigV2;
  rc_layers : list RepositoryCacheLayersItem;
  rc_llVersion : str;
  rc_merged : option (list RepositoryCacheMergedItem);
  rc_version : str
}.

#[export] Instance layer_eq_dec : EqDecision RepositoryCacheLayersItem.
Proof. solve_decision. Defined.
#[export] Instance merged_eq_dec : EqDecision RepositoryCacheMergedItem.
Proof. solve_decision. Defined.
#[export] Instance cache_eq_dec : EqDecision RepositoryCache.
Proof. solve_decision. Defined.

(** ** Tasks *)

Inductive State :=
| Canceled | Failed | PartCompleted | Pending | Processing | Queued | Succeed | StateUnknown.

Inductive SubState :=
| AllDone | InstallApplication | InstallBase | InstallRuntime | PackageManagerDone
| PostAction | PreAction | Uninstall | SubStateUnknown.

#[export] Instance State_eq_dec : EqDecision State.
Proof. solve_decision. Defined.
#[export] Instance SubState_eq_dec : EqDecision SubState.
Proof. solve_decision. Defined.
