(* ===== verification/Semver.v ===== *)
(** * Semantic versions ([package/semver.hpp])

    [prerelease_part], [prerelease_descriptor] and [version] with their
    comparison, printing, increments and parsing.  A thrown exception is an
    [Err]: [semver_exception] or, when it escapes [std::stoull], [out_of_range].
    [uint64_t] fields are integers in [0 .. u64_max]; additions wrap. *)
From S2P Require Import Prelude Qt.

Definition semver_exception : Z := 1.
Definition out_of_range : Z := 2.

(** ** Characters *)

Definition is_alpha (c : ascii) : bool :=
  let n := N_of_ascii c in
  ((65 <=? n) && (n <=? 90) || (97 <=? n) && (n <=? 122))%N.

(** [prerelease_allowed_chars] *)
Definition prerelease_allowed_chars (c : ascii) : bool := is_alpha c || bool_decide (c = "-"%char).

Definition ident_chr (c : ascii) : bool := is_digit c || prerelease_allowed_chars c.

(** ** The patterns [version_pattern] and [loose_version_pattern] *)

Definition re_preid : regex :=
  RAlt (chr "0")
    (RAlt (RSeq (RChr nonzero_digit) (RStar (RChr is_digit)))
          (rcat [RStar (RChr is_digit); RChr prerelease_allowed_chars; RStar (RChr ident_chr)])).

(** [a(?:\.a)*] *)
Definition re_dotted (a : regex) : regex := RSeq a (RStar (RSeq (chr ".") a)).

Definition re_pre : regex := re_dotted re_preid.
Definition re_build : regex := re_dotted (RPlus (RChr ident_chr)).

(** [(?:-(pre))?(?:\+(build))?$] *)
Definition re_tail : regex :=
  rcat [ROpt (RSeq (chr "-") (RGroup 4 re_pre));
        ROpt (RSeq (chr "+") (RGroup 5 re_build));
        REol].

Definition re_strict : regex :=
  rcat [RGroup 1 re_num; chr "."; RGroup 2 re_num; chr "."; RGroup 3 re_num; re_tail].

Definition version_pattern : regex := RSeq RBol re_strict.

Definition re_loose : regex :=
  rcat [ROpt (chr "v"); RGroup 1 re_num; chr "."; RGroup 2 re_num;
        ROpt (RSeq (chr ".") (RGroup 3 re_num)); re_tail].

Definition loose_version_pattern : regex := RSeq RBol re_loose.

(** ** Pre-release parts *)

Definition parse_numeric_part (version_part : str) : result Z :=
  res_of_option out_of_range (stoull version_part).

Definition split (text : str) (delimiter : ascii) : list str := split_on delimiter text.

Definition is_numeric (text : str) : bool := all_in is_digit text.

Definition is_valid_prerelease (text : str) : bool := all_in ident_chr text.

Record prerelease_part := mkPart {
  m_numeric : bool;
  m_value : str;
  m_numeric_value : Z (** read for numeric parts only *)
}.

Definition make_part (part : str) : result prerelease_part :=
  if bool_decide (part = []) then Err semver_exception
  else
    num <-r (if is_numeric part then
               match part with
               | "0"%char :: _ :: _ => Err semver_exception
               | _ => n <-r parse_numeric_part part ;; Ok (Some n)
               end
             else Ok None) ;;
    if is_valid_prerelease part then
      Ok (match num with
          | Some n => mkPart true part n
          | None => mkPart false part 0
          end)
    else Err semver_exception.

Definition part_compare (this other : prerelease_part) : Z :=
  if m_numeric this && negb (m_numeric other) then -1
  else if negb (m_numeric this) && m_numeric other then 1
  else if m_numeric this then z_cmp (m_numeric_value this) (m_numeric_value other)
  else str_cmp (m_value this) (m_value other).

(** ** Pre-release descriptors *)

Record prerelease_descriptor := mkPre {
  m_parts : list prerelease_part;
  prerelease_str : str
}.

Definition make_pre (parts : list prerelease_part) : prerelease_descriptor :=
  mkPre parts
    (fold_left (fun acc p => (if bool_decide (acc = []) then acc else acc ++ ["."%char]) ++ m_value p)
       parts []).

Definition pre_is_empty (d : prerelease_descriptor) : bool := bool_decide (length (m_parts d) = O).

Definition identity (d : prerelease_descriptor) : str :=
  match m_parts d with [] => [] | p :: _ => m_value p end.

Fixpoint make_parts (l : list str) : result (list prerelease_part) :=
  match l with
  | [] => Ok []
  | x :: l' => p <-r make_part x ;; ps <-r make_parts l' ;; Ok (p :: ps)
  end.

Definition pre_empty : prerelease_descriptor := make_pre [].

Definition pre_parse (s : str) : result prerelease_descriptor :=
  if bool_decide (s = []) then Ok pre_empty
  else ps <-r make_parts (split s ".") ;; Ok (make_pre ps).

Definition default_prerelease_part : str := lit "0".

(** Index of the last numeric part: the loop of [increment]. *)
Fixpoint last_numeric_index (i : nat) (found : option nat) (l : list prerelease_part) : option nat :=
  match l with
  | [] => found
  | p :: l' => last_numeric_index (S i) (if m_numeric p then Some i else found) l'
  end.

Definition pre_increment (d : prerelease_descriptor) : result prerelease_descriptor :=
  match last_numeric_index 0 None (m_parts d) with
  | Some i =>
      match m_parts d !! i with
      | Some last =>
          p <-r make_part (dec (u64 (m_numeric_value last + 1))) ;;
          Ok (make_pre (<[i := p]> (m_parts d)))
      | None => Err out_of_range
      end
  | None => p <-r make_part default_prerelease_part ;; Ok (make_pre (m_parts d ++ [p]))
  end.

Definition pre_compare (this other : prerelease_descriptor) : Z :=
  list_cmp part_compare (m_parts this) (m_parts other).

(** ** Versions *)

Inductive inc := by_major | by_minor | by_patch | by_prerelease | by_security.

Record version := mkVersion {
  m_major : Z;
  m_minor : Z;
  m_patch : Z;
  m_prerelease : prerelease_descriptor;
  m_build_meta : str;
  m_security : Z;
  m_has_patch : bool
}.

Definition make_version (major minor patch : Z) (prerelease build_meta : str)
    (security : Z) (has_patch : bool) : result version :=
  d <-r pre_parse prerelease ;;
  Ok (mkVersion major minor patch d build_meta security has_patch).

Definition compare (this other : version) : Z :=
  if m_major other <? m_major this then 1
  else if m_major this <? m_major other then -1
  else if m_minor other <? m_minor this then 1
  else if m_minor this <? m_minor other then -1
  else if m_patch other <? m_patch this then 1
  else if m_patch this <? m_patch other then -1
  else if negb (pre_is_empty (m_prerelease this)) && pre_is_empty (m_prerelease other) then -1
  else if pre_is_empty (m_prerelease this) && negb (pre_is_empty (m_prerelease other)) then 1
  else
    let prerelease_cmp :=
      if negb (pre_is_empty (m_prerelease this)) && negb (pre_is_empty (m_prerelease other))
      then pre_compare (m_prerelease this) (m_prerelease other) else 0 in
    if negb (prerelease_cmp =? 0) then prerelease_cmp
    else if m_security other <? m_security this then 1
    else if m_security this <? m_security other then -1
    else 0.

Definition is_prerelease (v : version) : bool := negb (pre_is_empty (m_prerelease v)).

Definition is_stable (v : version) : bool := (0 <? m_major v) && pre_is_empty (m_prerelease v).

Definition version_str (v : version) : str :=
  dec (m_major v) ++ lit "." ++ dec (m_minor v) ++ lit "." ++ dec (m_patch v)
  ++ (if pre_is_empty (m_prerelease v) then [] else lit "-" ++ prerelease_str (m_prerelease v))
  ++ (if bool_decide (m_build_meta v = []) then [] else lit "+" ++ m_build_meta v).

Definition without_suffixes (v : version) : result version :=
  make_version (m_major v) (m_minor v) (m_patch v) [] [] 0 false.

Definition next_major (v : version) (prerelease : str) : result version :=
  make_version (u64 (m_major v + 1)) 0 0 prerelease [] 0 false.

Definition next_minor (v : version) (prerelease : str) : result version :=
  make_version (m_major v) (u64 (m_minor v + 1)) 0 prerelease [] 0 false.

Definition next_patch (v : version) (prerelease : str) : result version :=
  make_version (m_major v) (m_minor v)
    (if negb (is_prerelease v) || negb (bool_decide (prerelease = []))
     then u64 (m_patch v + 1) else m_patch v)
    prerelease [] 0 false.

Definition next_prerelease (v : version) (prerelease : str) : result version :=
  pre <-r (if negb (bool_decide (prerelease = [])) then
             if is_prerelease v && bool_decide (identity (m_prerelease v) = prerelease)
             then d <-r pre_increment (m_prerelease v) ;; Ok (prerelease_str d)
             else Ok prerelease
           else if is_prerelease v
           then d <-r pre_increment (m_prerelease v) ;; Ok (prerelease_str d)
           else Ok default_prerelease_part) ;;
  make_version (m_major v) (m_minor v)
    (if is_prerelease v then m_patch v else u64 (m_patch v + 1)) pre [] 0 false.

(** [s.substr(0, s.find_last_of(c) + 1)]: up to and with the last [c]. *)
Fixpoint upto_last (c : ascii) (s : str) : str :=
  match s with
  | [] => []
  | x :: s' =>
      match upto_last c s' with
      | [] => if decide (x = c) then [x] else []
      | r => x :: r
      end
  end.

Definition next_security (v : version) (prerelease : str) : result version :=
  let build_meta :=
    if m_security v =? 0 then
      if bool_decide (m_build_meta v = []) then lit "security.1"
      else m_build_meta v ++ lit ".security.1"
    else upto_last "." (m_build_meta v) ++ dec (u64 (m_security v + 1)) in
  make_version (m_major v) (m_minor v) (m_patch v)
    (if bool_decide (prerelease = []) then prerelease_str (m_prerelease v) else prerelease)
    build_meta (u64 (m_security v + 1)) false.

Definition increment (v : version) (by_ : inc) (prerelease : str) : result version :=
  match by_ with
  | by_major => next_major v prerelease
  | by_minor => next_minor v prerelease
  | by_patch => next_patch v prerelease
  | by_prerelease => next_prerelease v prerelease
  | by_security => next_security v prerelease
  end.

Definition version_lt (a b : version) : bool := compare a b =? -1.
Definition version_le (a b : version) : bool := compare a b <=? 0.
Definition version_gt (a b : version) : bool := compare a b =? 1.
Definition version_ge (a b : version) : bool := 0 <=? compare a b.
Definition version_eq (a b : version) : bool := compare a b =? 0.

(** ** Parsing *)

(** The value of a [security.N] component of the build metadata. *)
Definition parse_security (build_meta : str) : result Z :=
  match find_sub (lit "security.") build_meta with
  | None => Ok 0
  | Some security_pos =>
      let security_part := drop (security_pos + 9) build_meta in
      if bool_decide (security_part = []) then Err semver_exception
      else if bool_decide (find_char "-" security_part <> None) then Err semver_exception
      else if (1 <? Z.of_nat (length security_part)) && bool_decide (head security_part = Some "0"%char)
      then Err semver_exception
      else if negb (all_in is_digit security_part) then Err semver_exception
      else
        security_value <-r parse_numeric_part security_part ;;
        if security_value =? 0 then Err semver_exception else Ok security_value
  end.

Definition parse_capture (o : option str) : result Z :=
  match o with
  | Some s => parse_numeric_part s
  | None => Ok 0
  end.

(** The body of the [try] block of [version::parse]. *)
Definition parse_captures (strict : bool) (m : caps) : result version :=
  nums <-r (match captured m 1, captured m 2 with
            | Some c1, Some c2 =>
                if strict then
                  match captured m 3 with
                  | Some c3 =>
                      major <-r parse_numeric_part c1 ;;
                      minor <-r parse_numeric_part c2 ;;
                      patch <-r parse_numeric_part c3 ;;
                      Ok (major, minor, patch)
                  | None => Err semver_exception
                  end
                else
                  major <-r parse_numeric_part c1 ;;
                  minor <-r parse_numeric_part c2 ;;
                  patch <-r parse_capture (captured m 3) ;;
                  Ok (major, minor, patch)
            | _, _ => Err semver_exception
            end) ;;
  let '(major, minor, patch) := nums in
  let prerelease := default [] (captured m 4) in
  let build_meta := default [] (captured m 5) in
  security <-r (match captured m 5 with
                | Some b => parse_security b
                | None => Ok 0
                end) ;;
  make_version major minor patch prerelease build_meta security
    (bool_decide (captured m 3 <> None)).

Section parsing.
Context `{Qt}.

(** [version::parse]: every exception of the block is rethrown as a
    [semver_exception]. *)
Definition semver_parse (version_str : str) (strict : bool) : result version :=
  match re_match (if strict then version_pattern else loose_version_pattern) version_str with
  | None => Err semver_exception
  | Some m =>
      match parse_captures strict m with
      | Ok v => Ok v
      | Err _ => Err semver_exception
      end
  end.

End parsing.

(** ** Ordering *)

Lemma tw_part : three_way part_compare.
Proof.
  pose proof tw_z as Hz. pose proof tw_str as Hs. split; unfold part_compare.
  - intros a b. destruct (m_numeric a), (m_numeric b); simpl; auto; [apply Hz|apply Hs].
  - intros a b. destruct (m_numeric a), (m_numeric b); simpl; try lia; [apply Hz|apply Hs].
  - intros a b d. destruct (m_numeric a), (m_numeric b), (m_numeric d); simpl; try lia;
      [eapply (tw_trans _ Hz)|eapply (tw_trans _ Hs)].
Qed.

Lemma tw_pre : three_way pre_compare.
Proof. apply (tw_on (list_cmp part_compare)), tw_list, tw_part. Qed.

(** The pre-release step of [compare]: an empty descriptor is greater than any
    other. *)
Definition pre_step (a b : prerelease_descriptor) : Z :=
  if negb (pre_is_empty a) && pre_is_empty b then -1
  else if pre_is_empty a && negb (pre_is_empty b) then 1
  else if negb (pre_is_empty a) && negb (pre_is_empty b) then pre_compare a b else 0.

Lemma tw_pre_step : three_way pre_step.
Proof.
  pose proof tw_pre as Hp. split; unfold pre_step.
  - intros a b. destruct (pre_is_empty a), (pre_is_empty b); simpl; auto; apply Hp.
  - intros a b. destruct (pre_is_empty a), (pre_is_empty b); simpl; try lia; apply Hp.
  - intros a b d. destruct (pre_is_empty a), (pre_is_empty b), (pre_is_empty d); simpl; try lia;
      apply (tw_trans _ Hp).
Qed.

(** [compare] is the lexicographic comparison of its fields. *)
Definition version_cmp : version -> version -> Z :=
  lex_cmp (on_cmp m_major z_cmp)
    (lex_cmp (on_cmp m_minor z_cmp)
      (lex_cmp (on_cmp m_patch z_cmp)
        (lex_cmp (on_cmp m_prerelease pre_step) (on_cmp m_security z_cmp)))).

Lemma compare_lex a b : compare a b = version_cmp a b.
Proof.
  unfold compare, version_cmp, lex_cmp, on_cmp, z_cmp, pre_step. zcase; try lia; try done.
  all: destruct (pre_is_empty (m_prerelease a)), (pre_is_empty (m_prerelease b)); simpl; try done;
    zcase; simpl; try lia; zcase; try lia; done.
Qed.

Lemma tw_version : three_way compare.
Proof.
  assert (H : three_way version_cmp).
  { unfold version_cmp. auto 10 using tw_lex, tw_on, tw_z, tw_pre_step. }
  split; intros; rewrite ?compare_lex in *; [apply H|apply H|by eapply (tw_trans _ H)].
Qed.
#[export] Hint Resolve tw_part tw_pre tw_version : lin.

(** ** Pre-release parts and descriptors *)

Lemma digit_ident c : is_digit c = true -> ident_chr c = true.
Proof. unfold ident_chr. by intros ->. Qed.

Lemma digits_ident s : forallb is_digit s = true -> forallb ident_chr s = true.
Proof. induction s; simpl; [done|]. intros. bsplit. rewrite digit_ident by done. auto. Qed.

(** What a pre-release identifier has to look like. *)
Definition valid_preid (s : str) : Prop :=
  s <> [] /\ forallb ident_chr s = true /\ (forallb is_digit s = true -> canon_num s = true).

Lemma make_part_value s p : make_part s = Ok p -> m_value p = s.
Proof.
  unfold make_part. case_bool_decide; [done|].
  destruct (if is_numeric s then _ else _) as [[n|]|]; simpl; [| |done].
  all: destruct (is_valid_prerelease s); [|done]; by intros [= <-].
Qed.

Lemma leading_zero s : canon_num s = true -> forall (A : Type) (x y : A),
  match s with "0"%char :: _ :: _ => x | _ => y end = y.
Proof.
  intros Hc A x y. destruct s as [|a [|b s]]; [done| |].
  - by destruct a as [[] [] [] [] [] [] [] []].
  - simpl in Hc. bsplit. destruct (bool_decide_reflect (a = "0"%char)); [done|].
    destruct a as [[] [] [] [] [] [] [] []]; done.
Qed.

Lemma make_part_numeric s : canon_num s = true -> undec s <= u64_max ->
  make_part s = Ok (mkPart true s (undec s)).
Proof.
  intros Hc Hm. destruct (canon_digits s Hc) as [Hd Hne]. unfold make_part.
  rewrite bool_decide_false by done. unfold is_numeric, all_in. rewrite Hd.
  rewrite (leading_zero s Hc). unfold parse_numeric_part, stoull.
  rewrite bool_decide_false, Hd by done. simpl.
  destruct (Z.leb_spec (undec s) u64_max); [|lia]. simpl.
  unfold is_valid_prerelease, all_in. by rewrite digits_ident.
Qed.

Lemma make_part_alnum s : s <> [] -> forallb is_digit s = false -> forallb ident_chr s = true ->
  make_part s = Ok (mkPart false s 0).
Proof.
  intros Hne Hd Hi. unfold make_part, is_numeric, is_valid_prerelease, all_in.
  rewrite bool_decide_false, Hd by done. simpl. by rewrite Hi.
Qed.

Lemma make_part_valid s p : make_part s = Ok p -> valid_preid s.
Proof.
  unfold make_part, valid_preid, is_numeric, is_valid_prerelease, all_in.
  case_bool_decide as Hne; [done|]. intros H. split; [done|].
  destruct (forallb is_digit s) eqn:Hd.
  - split; [by apply digits_ident|]. intros _.
    destruct s as [|a [|b s]]; [done| |].
    + simpl in *. bsplit. rewrite H0. apply orb_true_r.
    + simpl in Hd |- *. bsplit. apply andb_true_iff. split.
      * repeat match goal with H : _ = true |- _ => rewrite H end. done.
      * destruct (bool_decide_reflect (a = "0"%char)) as [->|]; [|done]. simpl in H. done.
  - simpl in H. destruct (forallb ident_chr s); [|done]. done.
Qed.

Lemma make_part_numeric_inv s p : make_part s = Ok p -> m_numeric p = true ->
  canon_num s = true /\ m_numeric_value p = undec s /\ 0 <= undec s <= u64_max.
Proof.
  intros H Hn. pose proof (make_part_valid _ _ H) as (Hne & _ & Hc).
  destruct (forallb is_digit s) eqn:Hd.
  - specialize (Hc eq_refl). split; [done|]. unfold make_part, is_numeric, all_in in H.
    rewrite bool_decide_false, Hd, (leading_zero s Hc) in H by done.
    unfold parse_numeric_part in H. destruct (stoull s) eqn:E; [|done].
    apply stoull_some in E as (_ & _ & -> & ?). simpl in H.
    destruct (is_valid_prerelease s); [|done]. injection H as <-. done.
  - unfold make_part, is_numeric, all_in in H. rewrite bool_decide_false, Hd in H by done.
    simpl in H. destruct (is_valid_prerelease s); [|done]. by injection H as <-.
Qed.

Definition wf_part (p : prerelease_part) : Prop := make_part (m_value p) = Ok p.

Definition wf_pre (d : prerelease_descriptor) : Prop :=
  d = make_pre (m_parts d) /\ Forall wf_part (m_parts d).

Lemma wf_part_valid p : wf_part p -> valid_preid (m_value p).
Proof. apply make_part_valid. Qed.

Lemma valid_nodot s : forallb ident_chr s = true -> "."%char ∉ s.
Proof.
  intros H Hin. apply list_elem_of_In in Hin. rewrite forallb_forall in H. by apply H in Hin.
Qed.

Lemma make_parts_wf l ps : make_parts l = Ok ps -> m_value <$> ps = l /\ Forall wf_part ps.
Proof.
  revert ps. induction l as [|s l IH]; simpl; intros ps H; [by simplify_eq|].
  destruct (make_part s) as [p|] eqn:E1; [|done]. simpl in H.
  destruct (make_parts l) as [qs|]; [|done]. simpl in H. simplify_eq.
  destruct (IH qs) as [<- Hw]; [done|]. simpl.
  rewrite (make_part_value s p) by done. split; [done|]. constructor; [|done].
  unfold wf_part. by rewrite (make_part_value s p).
Qed.

Lemma make_parts_values ps : Forall wf_part ps -> make_parts (m_value <$> ps) = Ok ps.
Proof.
  induction 1 as [|p ps Hp _ IH]; [done|]. rewrite fmap_cons. cbn [make_parts].
  rewrite Hp. cbn [res_bind]. by rewrite IH.
Qed.

(** The constructor joins the values with dots. *)
Lemma make_pre_str ps : Forall wf_part ps ->
  prerelease_str (make_pre ps) = join ["."%char] (m_value <$> ps).
Proof.
  assert (G : forall ps acc, acc <> [] ->
    fold_left (fun acc p => (if bool_decide (acc = []) then acc else acc ++ ["."%char]) ++ m_value p) ps acc
    = join ["."%char] (acc :: (m_value <$> ps))).
  { clear. induction ps as [|p ps IH]; intros acc Hne; [done|].
    cbn [fold_left]. rewrite bool_decide_false by done. rewrite IH by (by destruct acc).
    rewrite fmap_cons. destruct (m_value <$> ps); cbn [join]; by rewrite <- ?app_assoc. }
  intros H. destruct H as [|p ps Hp H]; [done|]. simpl.
  apply G. by apply wf_part_valid in Hp as (?&_).
Qed.

Lemma make_pre_str_nonempty p ps : Forall wf_part (p :: ps) -> prerelease_str (make_pre (p :: ps)) <> [].
Proof.
  intros H. rewrite make_pre_str by done. inversion H as [|?? Hp ?]; subst.
  apply wf_part_valid in Hp as (Hne & _). rewrite fmap_cons.
  destruct (m_value <$> ps); cbn [join]; by destruct (m_value p).
Qed.

Lemma wf_nodots ps : Forall wf_part ps -> Forall (fun s => "."%char ∉ s) (m_value <$> ps).
Proof.
  induction 1 as [|p ps Hp _ IH]; [constructor|]. constructor; [|done].
  by apply wf_part_valid in Hp as (_ & ? & _); apply valid_nodot.
Qed.

Lemma pre_parse_str d : wf_pre d -> pre_parse (prerelease_str d) = Ok d.
Proof.
  intros [E H]. rewrite E. destruct (m_parts d) as [|p ps]; [done|]. unfold pre_parse.
  rewrite bool_decide_false by (by apply make_pre_str_nonempty).
  rewrite make_pre_str by done. unfold split. rewrite split_join; [|done|by apply wf_nodots].
  by rewrite make_parts_values.
Qed.

Lemma pre_parse_wf s d : pre_parse s = Ok d -> wf_pre d /\ prerelease_str d = s.
Proof.
  unfold pre_parse. case_bool_decide as Hs; [by intros; simplify_eq|].
  destruct (make_parts (split s ".")) as [ps|] eqn:E; [|done]. simpl. intros [= <-].
  apply make_parts_wf in E as [E Hw]. split; [done|].
  rewrite make_pre_str, E by done. apply join_split.
Qed.

Lemma wf_pre_empty d : wf_pre d -> pre_is_empty d = bool_decide (prerelease_str d = []).
Proof.
  intros [E H]. unfold pre_is_empty. rewrite E. simpl. destruct (m_parts d) as [|p ps]; [done|].
  rewrite !bool_decide_false; [done|by apply (make_pre_str_nonempty p ps)|done].
Qed.

(** ** Languages of the patterns *)

Lemma nondigit_ident c : ident_chr c = true -> is_digit c = false -> prerelease_allowed_chars c = true.
Proof. unfold ident_chr. intros H E. by rewrite E in H. Qed.

Lemma allowed_ident c : prerelease_allowed_chars c = true -> ident_chr c = true.
Proof. unfold ident_chr. intros ->. apply orb_true_r. Qed.

Lemma allowed_nondigit c : prerelease_allowed_chars c = true -> is_digit c = false.
Proof.
  unfold prerelease_allowed_chars, is_alpha, is_digit. intros H. apply not_true_is_false. intros Hd.
  bsplit. apply orb_true_iff in H as [H|H]; [|by bsplit; subst].
  apply orb_true_iff in H as [H|H]; bsplit; lia.
Qed.

Lemma lang_preid w : lang re_preid w <-> valid_preid w.
Proof.
  assert (E : lang re_preid w <-> lang re_num w \/
    lang (rcat [RStar (RChr is_digit); RChr prerelease_allowed_chars; RStar (RChr ident_chr)]) w).
  { unfold re_preid, re_num. rewrite !lang_alt_iff. tauto. }
  rewrite E, lang_num. clear E. simpl. unfold valid_preid. split.
  - intros [Hc|Hl].
    + destruct (canon_digits w Hc). split_and!; [done|by apply digits_ident|done].
    + apply lang_seq_iff in Hl as (w1 & w' & -> & H1 & Hl).
      apply lang_seq_iff in Hl as (w2 & w3 & -> & H2 & H3).
      apply lang_star_class in H1, H3. apply lang_chr_iff in H2 as (x & -> & Hx).
      split_and!.
      * by destruct w1.
      * rewrite !forallb_app. simpl. rewrite (digits_ident _ H1), (allowed_ident _ Hx). done.
      * rewrite !forallb_app. simpl. rewrite (allowed_nondigit _ Hx). simpl.
        rewrite andb_false_r. done.
  - intros (Hne & Hi & Hc). destruct (forallb is_digit w) eqn:Hd; [by left; apply Hc|]. right.
    assert (Hx : exists w1 x w2, w = w1 ++ x :: w2 /\ forallb is_digit w1 = true /\
              is_digit x = false /\ ident_chr x = true /\ forallb ident_chr w2 = true).
    { clear Hne Hc. induction w as [|x w IH]; [done|]. simpl in Hi, Hd. bsplit.
      destruct (is_digit x) eqn:Ex; [|by exists [], x, w].
      destruct IH as (w1 & y & w2 & -> & ? & ? & ? & ?); [done|done|].
      exists (x :: w1), y, w2. simpl. by rewrite Ex. }
    destruct Hx as (w1 & x & w2 & -> & H1 & Hx & Hxi & H2).
    apply lang_seq_iff. exists w1, (x :: w2). split; [done|].
    split; [by apply lang_star_class|]. apply lang_seq_iff. exists [x], w2. split; [done|].
    split; [|by apply lang_star_class]. constructor. by apply nondigit_ident.
Qed.

Lemma lang_dotted a w :
  lang (re_dotted a) w <-> exists l, l <> [] /\ Forall (lang a) l /\ w = join ["."%char] l.
Proof.
  unfold re_dotted. rewrite lang_seq_iff. split.
  - intros (w1 & w2 & -> & H1 & H2). cut (exists l, Forall (lang a) l /\
      forall x, join ["."%char] (x :: l) = x ++ w2).
    { intros (l & Hl & E). exists (w1 :: l). split_and!; [done|by constructor|by rewrite E]. }
    induction H2 as [|v1 v2 _ Hv _ IH] using lang_star_ind'.
    + exists []. split; [constructor|]. intros x. by rewrite app_nil_r.
    + destruct IH as (l & Hl & E). apply lang_seq_iff in Hv as (d & v & -> & Hd & Hv).
      apply lang_lit_iff in Hd as ->. exists (v :: l). split; [by constructor|].
      intros x. cbn [join]. rewrite <- app_assoc, <- E. done.
  - intros (l & Hne & Hl & ->). destruct l as [|x l]; [done|]. inversion Hl as [|?? Hx Hl']; subst.
    clear Hl Hne. revert x Hx. induction Hl' as [|y l Hy Hl IH]; intros x Hx.
    + exists x, []. rewrite app_nil_r. eauto using lang.
    + destruct (IH y Hy) as (w1 & w2 & E & H1 & H2). exists x, (["."%char] ++ join ["."%char] (y :: l)).
      split; [done|]. split; [done|]. rewrite E, app_assoc. constructor; [done| |done].
      apply lang_seq_iff. exists ["."%char], w1. split; [done|]. split; [by apply lang_lit_iff|done].
Qed.

Definition valid_pre (s : str) : Prop :=
  exists l, l <> [] /\ Forall valid_preid l /\ s = join ["."%char] l.

Definition valid_buildid (s : str) : Prop := s <> [] /\ forallb ident_chr s = true.

Definition valid_build (s : str) : Prop :=
  exists l, l <> [] /\ Forall valid_buildid l /\ s = join ["."%char] l.

Lemma lang_pre w : lang re_pre w <-> valid_pre w.
Proof.
  unfold re_pre. rewrite lang_dotted. unfold valid_pre.
  split; intros (l & ? & H & ?); exists l; (split; [done|]; split; [|done]);
    eapply Forall_impl; [exact H|apply lang_preid|exact H|apply lang_preid].
Qed.

Lemma lang_build w : lang re_build w <-> valid_build w.
Proof.
  unfold re_build. rewrite lang_dotted. unfold valid_build.
  split; intros (l & ? & H & ?); exists l; (split; [done|]; split; [|done]);
    eapply Forall_impl; [exact H|apply lang_plus_class|exact H|apply lang_plus_class].
Qed.

Definition ident_dot (c : ascii) : bool := ident_chr c || bool_decide (c = "."%char).

Lemma join_class (p : ascii -> bool) l : p "."%char = true ->
  Forall (fun s => forallb p s = true) l -> forallb p (join ["."%char] l) = true.
Proof.
  intros Hd H. induction H as [|s l Hs H IH]; [done|]. destruct l as [|t l]; [done|].
  rewrite join_cons2, !forallb_app, Hs, IH. simpl. by rewrite Hd.
Qed.

Lemma ident_dots s : forallb ident_chr s = true -> forallb ident_dot s = true.
Proof. induction s; simpl; [done|]. intros. bsplit. unfold ident_dot at 1. rewrite H. simpl. auto. Qed.

Lemma valid_build_class s : valid_build s -> forallb ident_dot s = true /\ s <> [].
Proof.
  intros (l & Hne & H & ->). split.
  - apply join_class; [done|]. eapply Forall_impl; [exact H|]. intros x [_ ?]. by apply ident_dots.
  - destruct H as [|x l [Hx _] H]; [done|]. destruct l; cbn [join]; by destruct x.
Qed.

Lemma valid_pre_build s : valid_pre s -> valid_build s.
Proof.
  intros (l & Hne & H & ->). exists l. split; [done|]. split; [|done].
  eapply Forall_impl; [exact H|]. by intros x (? & ? & _).
Qed.

(** ** What the patterns match *)

Definition at_eol (s : str) : Prop := s = [] \/ s = [newline].

Definition opt_text (d : ascii) (o : option str) : str :=
  match o with Some p => d :: p | None => [] end.

Definition opt_caps (i : nat) (o : option str) : caps :=
  match o with Some p => [(i, p)] | None => [] end.

Definition opt_all (P : str -> Prop) (o : option str) : Prop :=
  match o with Some p => P p | None => True end.

Lemma rm_opt_group n d i a s c s' c' : pure a = true ->
  rm n (ROpt (RSeq (chr d) (RGroup i a))) s c s' c' <->
  exists o, s = opt_text d o ++ s' /\ c' = opt_caps i o ++ c /\ opt_all (lang a) o.
Proof.
  intros Hp. rewrite rm_opt_iff, rm_seq_iff. split.
  - intros [(s1 & c1 & H1 & H2)|[-> ->]]; [|by exists None].
    apply rm_lit_iff in H1 as [-> ->]. apply rm_group_iff in H2 as (w & -> & -> & Hw); [|done].
    by exists (Some w).
  - intros ([w|] & -> & -> & Hw); simpl; [|by right].
    left. exists (w ++ s'), c. split; [by apply rm_lit_iff|]. apply rm_group_iff; [done|]. eauto.
Qed.

Lemma rm_tail n s c s' c' :
  rm n re_tail s c s' c' <->
  exists opre obuild, s = opt_text "-" opre ++ opt_text "+" obuild ++ s' /\ at_eol s' /\
    c' = opt_caps 5 obuild ++ opt_caps 4 opre ++ c /\
    opt_all valid_pre opre /\ opt_all valid_build obuild.
Proof.
  unfold re_tail. cbn [rcat]. rewrite rm_seq_iff. split.
  - intros (s1 & c1 & H1 & H). apply rm_seq_iff in H as (s2 & c2 & H2 & H).
    apply rm_opt_group in H1 as (opre & -> & -> & Hpre); [|done].
    apply rm_opt_group in H2 as (obuild & -> & -> & Hbuild); [|done].
    apply rm_eol_iff in H as (He & -> & ->). exists opre, obuild. split_and!; [done|done|done| |].
    + destruct opre; [by apply lang_pre|done].
    + destruct obuild; [by apply lang_build|done].
  - intros (opre & obuild & -> & He & -> & Hpre & Hbuild).
    exists (opt_text "+" obuild ++ s'), (opt_caps 4 opre ++ c). split.
    + apply rm_opt_group; [done|]. exists opre. split_and!; [done|done|].
      destruct opre; [by apply lang_pre|done].
    + apply rm_seq_iff. exists s', (opt_caps 5 obuild ++ opt_caps 4 opre ++ c). split.
      * apply rm_opt_group; [done|]. exists obuild. split_and!; [done|done|].
        destruct obuild; [by apply lang_build|done].
      * by apply rm_eol_iff.
Qed.

Lemma rm_num_dot n i a s c s' c' :
  rm n (RSeq (RGroup i re_num) a) s c s' c' <->
  exists w s1, s = w ++ s1 /\ canon_num w = true /\ rm n a s1 ((i, w) :: c) s' c'.
Proof.
  rewrite rm_seq_iff. split.
  - intros (s1 & c1 & H1 & H). apply rm_group_iff in H1 as (w & -> & -> & Hw); [|done].
    exists w, s1. split_and!; [done|by apply lang_num|done].
  - intros (w & s1 & -> & Hw & H). exists s1, ((i, w) :: c). split; [|done].
    apply rm_group_iff; [done|]. exists w. split_and!; [done|done|by apply lang_num].
Qed.

Lemma rm_lit_seq n x a s c s' c' :
  rm n (RSeq (chr x) a) s c s' c' <-> exists s1, s = x :: s1 /\ rm n a s1 c s' c'.
Proof.
  rewrite rm_seq_iff. split.
  - intros (s1 & c1 & H1 & H). apply rm_lit_iff in H1 as [-> ->]. eauto.
  - intros (s1 & -> & H). exists s1, c. by rewrite rm_lit_iff.
Qed.

(** The text of a version and the groups it captures. *)
Definition version_text (M m p : str) (opre obuild : option str) : str :=
  M ++ "."%char :: m ++ "."%char :: p ++ opt_text "-" opre ++ opt_text "+" obuild.

Definition version_caps (M m p : str) (opre obuild : option str) : caps :=
  opt_caps 5 obuild ++ opt_caps 4 opre ++ [(3%nat, p); (2%nat, m); (1%nat, M)].

Definition version_parts_ok (M m p : str) (opre obuild : option str) : Prop :=
  canon_num M = true /\ canon_num m = true /\ canon_num p = true /\
  opt_all valid_pre opre /\ opt_all valid_build obuild.

Lemma rm_strict n s s' c' :
  rm n re_strict s [] s' c' <->
  exists M m p opre obuild, s = version_text M m p opre obuild ++ s' /\ at_eol s' /\
    c' = version_caps M m p opre obuild /\ version_parts_ok M m p opre obuild.
Proof.
  unfold re_strict, version_text, version_caps, version_parts_ok. cbn [rcat]. rewrite rm_num_dot. split.
  - intros (M & s1 & -> & HM & H). apply rm_lit_seq in H as (s2 & -> & H).
    apply rm_num_dot in H as (m & s3 & -> & Hm & H). apply rm_lit_seq in H as (s4 & -> & H).
    apply rm_num_dot in H as (p & s5 & -> & Hp & H).
    apply rm_tail in H as (opre & obuild & -> & He & -> & Hpre & Hbuild).
    exists M, m, p, opre, obuild. split_and!; try done.
    by lassoc.
  - intros (M & m & p & opre & obuild & -> & He & -> & HM & Hm & Hp & Hpre & Hbuild).
    exists M. eexists. split; [by lassoc|]. split; [done|].
    apply rm_lit_seq. eexists. split; [done|]. apply rm_num_dot. exists m. eexists.
    split; [by lassoc|]. split; [done|]. apply rm_lit_seq. eexists. split; [done|].
    apply rm_num_dot. exists p. eexists. split; [by lassoc|]. split; [done|].
    apply rm_tail. exists opre, obuild. by split_and!.
Qed.

Lemma opt_text_head d o s (p : ascii -> bool) : p d = false ->
  (forall x t, s = x :: t -> p x = false) -> forall x t, opt_text d o ++ s = x :: t -> p x = false.
Proof. intros Hd Hs x t. destruct o; simpl; [by intros [= <- _]|apply Hs]. Qed.

Lemma eol_head s (p : ascii -> bool) : at_eol s -> p newline = false ->
  forall x t, s = x :: t -> p x = false.
Proof. intros [->| ->] Hp x t; [done|]. by intros [= <- _]. Qed.

Lemma canon_class s : canon_num s = true -> forallb is_digit s = true.
Proof. by intros [? _]%canon_digits. Qed.

(** An optional group that starts with [d] is determined by the text. *)
Lemma opt_unique d (P : str -> Prop) o1 o2 s1 s2 :
  (forall w, P w -> forallb ident_dot w = true) -> opt_all P o1 -> opt_all P o2 ->
  (forall x t, s1 = x :: t -> ident_dot x = false /\ x <> d) ->
  (forall x t, s2 = x :: t -> ident_dot x = false /\ x <> d) ->
  opt_text d o1 ++ s1 = opt_text d o2 ++ s2 -> o1 = o2 /\ s1 = s2.
Proof.
  intros HP H1 H2 E1 E2 E. destruct o1 as [w1|], o2 as [w2|]; simpl in *.
  - injection E as E. destruct (cut_unique ident_dot w1 w2 s1 s2) as [-> ->]; auto.
    + intros x t ->. by eapply E1.
    + intros x t ->. by eapply E2.
  - subst s2. by destruct (E2 _ _ eq_refl).
  - subst s1. by destruct (E1 _ _ eq_refl).
  - done.
Qed.

Lemma opt_stop d o s x t : ident_dot d = false -> at_eol s -> opt_text d o ++ s = x :: t ->
  ident_dot x = false /\ (x = d \/ x = newline).
Proof.
  intros Hd Hs. destruct o; simpl; [intros [= <- _]; auto|].
  destruct Hs as [->| ->]; [done|]. by intros [= <- _]; auto.
Qed.

Lemma suffix_unique o b s o' b' s' :
  opt_all valid_pre o -> opt_all valid_pre o' -> opt_all valid_build b -> opt_all valid_build b' ->
  at_eol s -> at_eol s' ->
  opt_text "-" o ++ opt_text "+" b ++ s = opt_text "-" o' ++ opt_text "+" b' ++ s' ->
  o = o' /\ b = b' /\ s = s'.
Proof.
  intros Ho Ho' Hb Hb' Hs Hs' E.
  apply (opt_unique "-" valid_pre) in E as [-> E]; try done.
  2: by intros w [? _]%valid_pre_build%valid_build_class.
  2,3: intros x t Hx; apply opt_stop in Hx as [? [-> | ->]]; done.
  apply (opt_unique "+" valid_build) in E as [-> ->]; try done.
  1: by intros w [? _]%valid_build_class.
  1,2: intros x t; destruct Hs as [->| ->], Hs' as [->| ->]; try done; by intros [= <- _].
Qed.

Lemma suffix_stop o b s x t : at_eol s -> opt_text "-" o ++ opt_text "+" b ++ s = x :: t ->
  is_digit x = false /\ x <> "."%char.
Proof.
  intros Hs. destruct o; simpl; [by intros [= <- _]|]. destruct b; simpl; [by intros [= <- _]|].
  destruct Hs as [->| ->]; [done|]. by intros [= <- _].
Qed.

Lemma cut_digits w1 w2 s1 s2 : canon_num w1 = true -> canon_num w2 = true ->
  (forall x t, s1 = x :: t -> is_digit x = false) -> (forall x t, s2 = x :: t -> is_digit x = false) ->
  w1 ++ s1 = w2 ++ s2 -> w1 = w2 /\ s1 = s2.
Proof. intros H1 H2 E1 E2 E. apply (cut_unique is_digit); auto using canon_class. Qed.

Lemma version_text_unique M m p o b s M' m' p' o' b' s' :
  version_parts_ok M m p o b -> version_parts_ok M' m' p' o' b' -> at_eol s -> at_eol s' ->
  version_text M m p o b ++ s = version_text M' m' p' o' b' ++ s' ->
  M = M' /\ m = m' /\ p = p' /\ o = o' /\ b = b' /\ s = s'.
Proof.
  intros (HM & Hm & Hp & Ho & Hb) (HM' & Hm' & Hp' & Ho' & Hb') Hs Hs'.
  unfold version_text. lassoc. intros E.
  apply cut_digits in E as [-> E]; [|done|done|by intros ?? [= <- _]..].
  injection E as E.
  apply cut_digits in E as [-> E]; [|done|done|by intros ?? [= <- _]..].
  injection E as E.
  apply cut_digits in E as [-> E]; [|done|done|intros x t Hx; apply suffix_stop in Hx as [? _]; done..].
  by apply suffix_unique in E as (-> & -> & ->).
Qed.

Section strict.
Context {q : Qt} {Hq : QtOk q}.

(** The strict pattern matches exactly the texts of versions, possibly followed
    by one newline, and captures their fields. *)
Lemma strict_match s c :
  re_match version_pattern s = Some c <->
  exists M m p o b t, s = version_text M m p o b ++ t /\ at_eol t /\
    version_parts_ok M m p o b /\ c = version_caps M m p o b.
Proof using Hq.
  rewrite re_match_spec. unfold version_pattern. split.
  - intros (t & H)%rsearch_anchored. apply rm_strict in H as (M & m & p & o & b & -> & ? & -> & ?).
    by exists M, m, p, o, b, t.
  - intros (M & m & p & o & b & t & -> & Ht & Hok & ->).
    destruct (rsearch_anchored_some re_strict (version_text M m p o b ++ t) t (version_caps M m p o b))
      as [c Hc]; [by apply rm_strict; exists M, m, p, o, b|].
    rewrite Hc. apply rsearch_anchored in Hc as (t' & Hc).
    apply rm_strict in Hc as (M' & m' & p' & o' & b' & E & Ht' & -> & Hok').
    eapply version_text_unique in E; [|done..]. by destruct E as (-> & -> & -> & -> & -> & ->).
Qed.
End strict.

(** ** Well-formed versions *)

(** The [security] field is the one the build metadata announces. *)
Definition wf_version (v : version) : Prop :=
  0 <= m_major v <= u64_max /\ 0 <= m_minor v <= u64_max /\ 0 <= m_patch v <= u64_max /\
  wf_pre (m_prerelease v) /\
  (m_build_meta v = [] /\ m_security v = 0 \/
   valid_build (m_build_meta v) /\ parse_security (m_build_meta v) = Ok (m_security v)).

Definition opt_of (s : str) : option str := if bool_decide (s = []) then None else Some s.

Lemma version_str_text v : wf_version v ->
  version_str v = version_text (dec (m_major v)) (dec (m_minor v)) (dec (m_patch v))
    (opt_of (prerelease_str (m_prerelease v))) (opt_of (m_build_meta v)).
Proof.
  intros (_ & _ & _ & Hp & _). unfold version_str, version_text, opt_of.
  rewrite wf_pre_empty by done. by do 2 case_bool_decide.
Qed.

Lemma wf_pre_valid d : wf_pre d -> opt_all valid_pre (opt_of (prerelease_str d)).
Proof.
  intros [E H]. unfold opt_of. case_bool_decide as Hs; [done|]. simpl. rewrite E.
  rewrite make_pre_str by done. exists (m_value <$> m_parts d). split_and!; [|  |done].
  - intros F%fmap_nil_inv. apply Hs. by rewrite E, F.
  - apply Forall_fmap. eapply Forall_impl; [exact H|]. apply wf_part_valid.
Qed.

Lemma parse_captures_strict M m p o b :
  parse_captures true (version_caps M m p o b) =
  ( major <-r parse_numeric_part M ;; minor <-r parse_numeric_part m ;;
    patch <-r parse_numeric_part p ;;
    security <-r (match b with Some b => parse_security b | None => Ok 0 end) ;;
    make_version major minor patch (default [] o) (default [] b) security true ).
Proof.
  unfold parse_captures, parse_capture. destruct o, b; cbn;
    (destruct (parse_numeric_part M); [cbn|done]); (destruct (parse_numeric_part m); [cbn|done]);
    by (destruct (parse_numeric_part p); [cbn|done]).
Qed.

Lemma numeric_dec n : 0 <= n <= u64_max -> parse_numeric_part (dec n) = Ok n.
Proof. intros H. unfold parse_numeric_part. by rewrite stoull_dec. Qed.

Lemma numeric_canon s n : canon_num s = true -> parse_numeric_part s = Ok n ->
  s = dec n /\ 0 <= n <= u64_max.
Proof.
  unfold parse_numeric_part. intros Hc H. destruct (stoull s) eqn:E; [|done]. injection H as ->.
  split; [by apply stoull_canon|]. by apply stoull_some in E as (_ & _ & _ & ?).
Qed.

Lemma opt_of_default s : default [] (opt_of s) = s.
Proof. unfold opt_of. by case_bool_decide. Qed.

Lemma opt_of_text P o : (forall s, P s -> s <> []) -> opt_all P o -> opt_of (default [] o) = o.
Proof. intros HP Ho. unfold opt_of. destruct o as [s|]; [|done]. simpl in *. by rewrite bool_decide_false; auto. Qed.

Lemma valid_pre_nonempty s : valid_pre s -> s <> [].
Proof. by intros [_ ?]%valid_pre_build%valid_build_class. Qed.

Lemma wf_version_parts v : wf_version v ->
  version_parts_ok (dec (m_major v)) (dec (m_minor v)) (dec (m_patch v))
    (opt_of (prerelease_str (m_prerelease v))) (opt_of (m_build_meta v)).
Proof.
  intros (HM & Hm & Hp & Hpre & Hb). unfold version_parts_ok.
  split_and!; try (apply dec_canon; lia); [by apply wf_pre_valid|].
  destruct Hb as [[-> _]|[Hb _]]; [done|]. unfold opt_of. case_bool_decide; done.
Qed.

Lemma wf_version_captures v : wf_version v ->
  parse_captures true
    (version_caps (dec (m_major v)) (dec (m_minor v)) (dec (m_patch v))
       (opt_of (prerelease_str (m_prerelease v))) (opt_of (m_build_meta v))) =
  Ok (mkVersion (m_major v) (m_minor v) (m_patch v) (m_prerelease v) (m_build_meta v)
        (m_security v) true).
Proof.
  intros (HM & Hm & Hp & Hpre & Hb). rewrite parse_captures_strict, !numeric_dec by done.
  cbn [res_bind]. rewrite !opt_of_default. unfold make_version. rewrite pre_parse_str by done.
  unfold opt_of. destruct Hb as [[-> ->]|[Hb Hs]]; [done|].
  rewrite bool_decide_false by (by apply valid_build_class). by rewrite Hs.
Qed.

Lemma parse_captures_sound M m p o b v : version_parts_ok M m p o b ->
  parse_captures true (version_caps M m p o b) = Ok v ->
  wf_version v /\ m_has_patch v = true /\ version_str v = version_text M m p o b.
Proof.
  intros (HM & Hm & Hp & Ho & Hb). rewrite parse_captures_strict.
  destruct (parse_numeric_part M) as [nM|] eqn:EM; [|done]. cbn [res_bind].
  destruct (parse_numeric_part m) as [nm|] eqn:Em; [|done]. cbn [res_bind].
  destruct (parse_numeric_part p) as [np|] eqn:Ep; [|done]. cbn [res_bind].
  destruct (match b with Some b => parse_security b | None => Ok 0 end) as [sec|] eqn:Es; [|done].
  cbn [res_bind]. unfold make_version.
  destruct (pre_parse (default [] o)) as [d|] eqn:Ed; [|done]. cbn [res_bind]. intros [= <-].
  apply pre_parse_wf in Ed as [Hd Eo].
  apply numeric_canon in EM as [-> ?], Em as [-> ?], Ep as [-> ?]; try done.
  match goal with |- wf_version ?v /\ _ => assert (Hw : wf_version v) end.
  { unfold wf_version. cbn. split_and!; try done; try lia.
    destruct b as [b|]; simpl; [by right|left]. injection Es as <-. done. }
  split_and!; [done|done|]. rewrite version_str_text by done.
  cbn [m_major m_minor m_patch m_prerelease m_build_meta]. rewrite Eo.
  rewrite (opt_of_text valid_pre), (opt_of_text valid_build); auto using valid_pre_nonempty.
  by intros s [_ ?]%valid_build_class.
Qed.

Section strict_parse.
Context {q : Qt} {Hq : QtOk q}.

Lemma strict_print_parse v : wf_version v ->
  semver_parse (version_str v) true =
  Ok (mkVersion (m_major v) (m_minor v) (m_patch v) (m_prerelease v) (m_build_meta v)
        (m_security v) true).
Proof using Hq.
  intros Hv. pose proof (wf_version_parts v Hv) as Hok. unfold semver_parse.
  rewrite version_str_text by done.
  pose proof (proj2 (strict_match (version_text (dec (m_major v)) (dec (m_minor v)) (dec (m_patch v))
    (opt_of (prerelease_str (m_prerelease v))) (opt_of (m_build_meta v))) _)
    ltac:(do 5 eexists; exists []; split_and!; [by rewrite app_nil_r|by left|exact Hok|done])) as ->.
  by rewrite wf_version_captures.
Qed.

Lemma strict_parse_inv s v : semver_parse s true = Ok v ->
  wf_version v /\ m_has_patch v = true /\
  (s = version_str v \/ s = version_str v ++ [newline]).
Proof using Hq.
  unfold semver_parse. intros H. destruct (re_match version_pattern s) as [c|] eqn:E; [|done].
  apply strict_match in E as (M & m & p & o & b & t & -> & Ht & Hok & ->).
  destruct (parse_captures _ _) eqn:E; [|done]. injection H as ->.
  apply parse_captures_sound in E as (Hw & Hp & <-); [|done]. split_and!; [done|done|].
  destruct Ht as [->| ->]; [left; apply app_nil_r|by right].
Qed.

(** Printing a well-formed version and parsing the text strictly gives the
    version back; the parsed value records that a patch number was written. *)
Theorem semver_parse_print v : wf_version v ->
  semver_parse (version_str v) true =
  Ok (mkVersion (m_major v) (m_minor v) (m_patch v) (m_prerelease v) (m_build_meta v)
        (m_security v) true).
Proof using Hq. apply strict_print_parse. Qed.

(** Whatever the strict parser accepts is a well-formed version, and the
    text is exactly its printed form, possibly followed by one newline (the
    pattern's [$] matches before it). *)
Theorem semver_parse_strict_sound s v : semver_parse s true = Ok v ->
  wf_version v /\ m_has_patch v = true /\
  (s = version_str v \/ s = version_str v ++ [newline]).
Proof using Hq. apply strict_parse_inv. Qed.
End strict_parse.

(** ** Loose parsing *)

Definition loose_text (pv : bool) (M m : str) (op o b : option str) : str :=
  (if pv then lit "v" else []) ++ M ++ "."%char :: m ++ opt_text "." op ++ opt_text "-" o ++ opt_text "+" b.

Definition loose_caps (M m : str) (op o b : option str) : caps :=
  opt_caps 5 b ++ opt_caps 4 o ++ opt_caps 3 op ++ [(2%nat, m); (1%nat, M)].

Definition loose_parts_ok (M m : str) (op o b : option str) : Prop :=
  canon_num M = true /\ canon_num m = true /\ opt_all (fun p => canon_num p = true) op /\
  opt_all valid_pre o /\ opt_all valid_build b.

Lemma opt_all_iff (P Q : str -> Prop) o : (forall s, P s <-> Q s) -> opt_all P o <-> opt_all Q o.
Proof. intros H. destruct o; simpl; [apply H|done]. Qed.

Lemma rm_loose_body n s c s' c' :
  rm n (rcat [RGroup 1 re_num; chr "."; RGroup 2 re_num;
              ROpt (RSeq (chr ".") (RGroup 3 re_num)); re_tail]) s c s' c' <->
  exists M m op o b, s = loose_text false M m op o b ++ s' /\ at_eol s' /\
    c' = loose_caps M m op o b ++ c /\ loose_parts_ok M m op o b.
Proof.
  unfold loose_text, loose_caps, loose_parts_ok. cbn [rcat]. rewrite rm_num_dot. split.
  - intros (M & s1 & -> & HM & H). apply rm_lit_seq in H as (s2 & -> & H).
    apply rm_num_dot in H as (m & s3 & -> & Hm & H).
    apply rm_seq_iff in H as (s4 & c4 & Hp & H). apply rm_opt_group in Hp as (op & -> & -> & Hp); [|done].
    apply rm_tail in H as (o & b & -> & He & -> & Ho & Hb).
    exists M, m, op, o, b. split_and!; try done; [by lassoc|by lassoc|].
    by eapply opt_all_iff; [|exact Hp]; intros; rewrite lang_num.
  - intros (M & m & op & o & b & -> & He & -> & HM & Hm & Hp & Ho & Hb).
    exists M. eexists. split; [by lassoc|]. split; [done|].
    apply rm_lit_seq. eexists. split; [done|]. apply rm_num_dot. exists m. eexists.
    split; [by lassoc|]. split; [done|]. apply rm_seq_iff. do 2 eexists. split.
    + apply rm_opt_group; [done|]. exists op. split_and!; [by lassoc|done|].
      by eapply opt_all_iff; [|exact Hp]; intros; rewrite lang_num.
    + apply rm_tail. exists o, b. split_and!; try done. by lassoc.
Qed.

Lemma rm_loose n s s' c' :
  rm n re_loose s [] s' c' <->
  exists pv M m op o b, s = loose_text pv M m op o b ++ s' /\ at_eol s' /\
    c' = loose_caps M m op o b /\ loose_parts_ok M m op o b.
Proof.
  unfold re_loose. set (body := [RGroup 1 re_num; _; _; _; _]). change (rcat (ROpt (chr "v") :: body))
    with (RSeq (ROpt (chr "v")) (rcat body)). unfold body. rewrite rm_seq_iff. split.
  - intros (s1 & c1 & Hv & H). apply rm_loose_body in H as (M & m & op & o & b & -> & He & -> & Hok).
    apply rm_opt_iff in Hv as [Hv|[<- ->]].
    + apply rm_lit_iff in Hv as [-> ->]. exists true, M, m, op, o, b.
      rewrite app_nil_r. split_and!; by lassoc.
    + exists false, M, m, op, o, b. by rewrite app_nil_r.
  - intros (pv & M & m & op & o & b & -> & He & -> & Hok).
    exists (loose_text false M m op o b ++ s'), []. split.
    + rewrite rm_opt_iff, rm_lit_iff. destruct pv; [left|right]; done.
    + apply rm_loose_body. exists M, m, op, o, b. rewrite app_nil_r. done.
Qed.

Lemma opt_num_stop op s x t : opt_text "." op ++ s = x :: t ->
  (forall y u, s = y :: u -> is_digit y = false) -> is_digit x = false.
Proof. destruct op; simpl; [by intros [= <- _]|]. eauto. Qed.

Lemma opt_num_unique op op' s s' :
  opt_all (fun p => canon_num p = true) op -> opt_all (fun p => canon_num p = true) op' ->
  (forall x t, s = x :: t -> is_digit x = false /\ x <> "."%char) ->
  (forall x t, s' = x :: t -> is_digit x = false /\ x <> "."%char) ->
  opt_text "." op ++ s = opt_text "." op' ++ s' -> op = op' /\ s = s'.
Proof.
  intros H H' E E' Eq. destruct op as [w|], op' as [w'|]; simpl in *.
  - injection Eq as Eq. apply cut_digits in Eq as [-> ->]; try done.
    + intros x t Hx. by apply E in Hx as [? _].
    + intros x t Hx. by apply E' in Hx as [? _].
  - subst s'. by destruct (E' _ _ eq_refl).
  - subst s. by destruct (E _ _ eq_refl).
  - done.
Qed.

Lemma canon_head w s : canon_num w = true -> exists x t, w ++ s = x :: t /\ is_digit x = true.
Proof. destruct w as [|x w]; [done|]. simpl. intros. bsplit. eauto. Qed.

Lemma loose_text_unique pv M m op o b s pv' M' m' op' o' b' s' :
  loose_parts_ok M m op o b -> loose_parts_ok M' m' op' o' b' -> at_eol s -> at_eol s' ->
  loose_text pv M m op o b ++ s = loose_text pv' M' m' op' o' b' ++ s' ->
  pv = pv' /\ M = M' /\ m = m' /\ op = op' /\ o = o' /\ b = b' /\ s = s'.
Proof.
  intros (HM & Hm & Hp & Ho & Hb) (HM' & Hm' & Hp' & Ho' & Hb') Hs Hs'.
  unfold loose_text. lassoc. intros E.
  assert (pv = pv') as <-.
  { destruct (canon_head M ("."%char :: m ++ opt_text "." op ++ opt_text "-" o ++ opt_text "+" b ++ s) HM)
      as (x & t & E1 & Hx).
    destruct (canon_head M' ("."%char :: m' ++ opt_text "." op' ++ opt_text "-" o' ++ opt_text "+" b' ++ s') HM')
      as (x' & t' & E2 & Hx').
    rewrite E1, E2 in E. destruct pv, pv'; try done; simpl in E; by simplify_eq. }
  apply app_inv_head in E.
  apply cut_digits in E as [-> E]; [|done|done|by intros ?? [= <- _]..]. injection E as E.
  apply cut_digits in E as [-> E]; [|done|done|..].
  2,3: intros x t Hx; apply opt_num_stop in Hx; [done|];
    intros y u Hy; apply suffix_stop in Hy as [? _]; done.
  apply opt_num_unique in E as [-> E]; [|done|done|intros x t Hx; by apply suffix_stop in Hx..].
  by apply suffix_unique in E as (-> & -> & ->).
Qed.

Section loose.
Context {q : Qt} {Hq : QtOk q}.

Lemma loose_match s c :
  re_match loose_version_pattern s = Some c <->
  exists pv M m op o b t, s = loose_text pv M m op o b ++ t /\ at_eol t /\
    loose_parts_ok M m op o b /\ c = loose_caps M m op o b.
Proof using Hq.
  rewrite re_match_spec. unfold loose_version_pattern. split.
  - intros (t & H)%rsearch_anchored.
    apply rm_loose in H as (pv & M & m & op & o & b & -> & ? & -> & ?). by exists pv, M, m, op, o, b, t.
  - intros (pv & M & m & op & o & b & t & -> & Ht & Hok & ->).
    destruct (rsearch_anchored_some re_loose (loose_text pv M m op o b ++ t) t (loose_caps M m op o b))
      as [c Hc]; [by apply rm_loose; exists pv, M, m, op, o, b|].
    rewrite Hc. apply rsearch_anchored in Hc as (t' & Hc).
    apply rm_loose in Hc as (pv' & M' & m' & op' & o' & b' & E & Ht' & -> & Hok').
    eapply loose_text_unique in E; [|done..]. by destruct E as (-> & -> & -> & -> & -> & -> & ->).
Qed.

(** The loose parser on [M.m] and [M.m.p]. *)
Lemma loose_parse_numbers a b oc : 0 <= a <= u64_max -> 0 <= b <= u64_max ->
  (forall c, oc = Some c -> 0 <= c <= u64_max) ->
  semver_parse (dec a ++ "."%char :: dec b ++ opt_text "." (dec <$> oc)) false =
  Ok (mkVersion a b (default 0 oc) pre_empty [] 0 (bool_decide (oc <> None))).
Proof using Hq.
  intros Ha Hb Hc. unfold semver_parse.
  assert (Hok : loose_parts_ok (dec a) (dec b) (dec <$> oc) None None).
  { unfold loose_parts_ok. split_and!; try (apply dec_canon; lia); try done.
    destruct oc as [c|]; [|done]. apply dec_canon. by apply Hc. }
  pose proof (proj2 (loose_match (dec a ++ "."%char :: dec b ++ opt_text "." (dec <$> oc)) _)
    ltac:(exists false, (dec a), (dec b), (dec <$> oc), None, None, []; split_and!;
      [unfold loose_text; simpl; by rewrite !app_nil_r|by left|exact Hok|done])) as ->.
  unfold parse_captures, loose_caps. destruct oc as [c|]; cbn -[parse_numeric_part];
    rewrite !numeric_dec by auto; done.
Qed.
End loose.

(** ** Increments *)

(** The index [pre_increment] finds is that of the last numeric part. *)
Lemma last_numeric_index_spec l i found :
  last_numeric_index i found l =
  match last (filter (fun jp => m_numeric (snd jp) = true) (imap (fun j p => ((i + j)%nat, p)) l)) with
  | Some (j, _) => Some j
  | None => found
  end.
Proof.
  revert i found. induction l as [|p l IH]; intros i found; [done|].
  cbn [last_numeric_index]. rewrite IH, imap_cons, Nat.add_0_r.
  assert (E : imap ((fun j p => ((i + j)%nat, p)) ∘ S) l = imap (fun j (p : prerelease_part) => ((S i + j)%nat, p)) l)
    by (apply imap_ext; intros; simpl; f_equal; lia).
  rewrite E. destruct (m_numeric p) eqn:Ep.
  - rewrite filter_cons_True by done. rewrite last_cons. by destruct (last _) as [[]|].
  - rewrite filter_cons_False by (simpl; congruence). done.
Qed.

Lemma last_numeric_index_some l i : last_numeric_index 0 None l = Some i ->
  exists p, l !! i = Some p /\ m_numeric p = true.
Proof.
  rewrite last_numeric_index_spec. destruct (last _) as [[j p]|] eqn:E; [|done]. intros [= ->].
  apply last_Some_elem_of, list_elem_of_filter in E as [Hn E]. exists p. split; [|done].
  apply elem_of_lookup_imap in E as (k & y & [= -> ->] & H). done.
Qed.

Lemma list_cmp_insert {A} (c : A -> A -> Z) l i x y : (forall a, c a a = 0) -> l !! i = Some x ->
  c x y <> 0 -> list_cmp c l (<[i := y]> l) = c x y.
Proof.
  intros Hr. revert i. induction l as [|z l IH]; intros [|i] Hi Hn; simpl in *; try done; simplify_eq.
  - by destruct (Z.eqb_spec (c x y) 0).
  - by rewrite Hr, IH.
Qed.

Lemma list_cmp_snoc {A} (c : A -> A -> Z) l x : (forall a, c a a = 0) -> list_cmp c l (l ++ [x]) = -1.
Proof. intros Hr. induction l as [|z l IH]; simpl; [done|]. by rewrite Hr. Qed.

Lemma part_refl p : part_compare p p = 0.
Proof. apply tw_refl, tw_part. Qed.

(** No [uint64_t] of the descriptor overflows when it is incremented. *)
Definition pre_no_overflow (d : prerelease_descriptor) : Prop :=
  Forall (fun p => m_numeric p = true -> m_numeric_value p < u64_max) (m_parts d).

Lemma u64_small n : 0 <= n <= u64_max -> u64 n = n.
Proof. intros. apply Z.mod_small. unfold u64_max in *. lia. Qed.

Lemma wf_part_numeric p : wf_part p -> m_numeric p = true ->
  m_value p = dec (m_numeric_value p) /\ 0 <= m_numeric_value p <= u64_max.
Proof.
  intros Hp Hn. apply make_part_numeric_inv in Hp as (Hc & -> & ?); [|done].
  by rewrite dec_undec.
Qed.

Lemma pre_increment_ok d : wf_pre d -> m_parts d <> [] -> pre_no_overflow d ->
  exists d', pre_increment d = Ok d' /\ wf_pre d' /\ pre_is_empty d' = false /\ pre_compare d d' = -1.
Proof.
  intros [_ H] Hne Ho. unfold pre_increment.
  destruct (last_numeric_index 0 None (m_parts d)) as [i|] eqn:Ei.
  - destruct (last_numeric_index_some _ _ Ei) as (p & Hp & Hn). rewrite Hp.
    unfold pre_no_overflow in Ho. rewrite Forall_lookup in H, Ho.
    destruct (wf_part_numeric p) as [_ Hr]; [by eapply H|done|]. specialize (Ho _ _ Hp Hn).
    rewrite u64_small by (unfold u64_max in *; lia).
    assert (Hd : canon_num (dec (m_numeric_value p + 1)) = true) by (apply dec_canon; lia).
    rewrite make_part_numeric, undec_dec; [|lia|done|rewrite undec_dec; lia]. cbn [res_bind].
    eexists. split; [done|]. split; [split; [done|]|split].
    + apply Forall_insert; [by rewrite Forall_lookup|]. unfold wf_part. cbn [m_value].
      rewrite make_part_numeric, undec_dec; [done|lia|done|rewrite undec_dec; lia].
    + unfold pre_is_empty. simpl. rewrite length_insert. apply bool_decide_false.
      by destruct (m_parts d).
    + unfold pre_compare. cbn [m_parts make_pre].
      assert (E : part_compare p (mkPart true (dec (m_numeric_value p + 1)) (m_numeric_value p + 1)) = -1).
      { unfold part_compare. rewrite Hn. simpl. apply z_cmp_lt. lia. }
      rewrite (list_cmp_insert _ _ _ p); [done|apply part_refl|done|lia].
  - cbn. eexists. split; [done|]. split; [split; [done|]|split].
    + apply Forall_app. split; [done|]. by repeat constructor.
    + unfold pre_is_empty. simpl. rewrite length_app. simpl. apply bool_decide_false. lia.
    + apply list_cmp_snoc, part_refl.
Qed.

Lemma pre_empty_iff d : pre_is_empty d = bool_decide (m_parts d = []).
Proof. unfold pre_is_empty. by destruct (m_parts d). Qed.

(** The fields that [increment] adds one to do not overflow. *)
Definition no_overflow (v : version) (by_ : inc) : Prop :=
  match by_ with
  | by_major => m_major v < u64_max
  | by_minor => m_minor v < u64_max
  | by_patch => m_patch v < u64_max
  | by_prerelease => m_patch v < u64_max /\ pre_no_overflow (m_prerelease v)
  | by_security => m_security v < u64_max
  end.


Lemma compare_major a b : m_major a < m_major b -> compare a b = -1.
Proof. intros. unfold compare. zcase; lia. Qed.

Lemma compare_minor a b : m_major a = m_major b -> m_minor a < m_minor b -> compare a b = -1.
Proof. intros. unfold compare. zcase; lia. Qed.

Lemma compare_patch a b : m_major a = m_major b -> m_minor a = m_minor b ->
  m_patch a < m_patch b -> compare a b = -1.
Proof. intros. unfold compare. zcase; lia. Qed.

Lemma compare_pre a b : m_major a = m_major b -> m_minor a = m_minor b -> m_patch a = m_patch b ->
  pre_step (m_prerelease a) (m_prerelease b) = -1 -> compare a b = -1.
Proof.
  intros H1 H2 H3 H4. rewrite compare_lex. unfold version_cmp, lex_cmp, on_cmp.
  rewrite H1, H2, H3, H4, !(tw_refl _ tw_z). done.
Qed.

Lemma compare_security a b : m_major a = m_major b -> m_minor a = m_minor b -> m_patch a = m_patch b ->
  m_prerelease a = m_prerelease b -> m_security a < m_security b -> compare a b = -1.
Proof.
  intros H1 H2 H3 H4 H5. rewrite compare_lex. unfold version_cmp, lex_cmp, on_cmp.
  rewrite H1, H2, H3, H4, !(tw_refl _ tw_z), (tw_refl _ tw_pre_step). by apply z_cmp_lt.
Qed.

Lemma make_version_ok M m p d b s h : wf_pre d ->
  make_version M m p (prerelease_str d) b s h = Ok (mkVersion M m p d b s h).
Proof. intros. unfold make_version. by rewrite pre_parse_str. Qed.

Lemma next_prerelease_greater v : wf_version v -> no_overflow v by_prerelease ->
  exists w, next_prerelease v [] = Ok w /\ compare v w = -1.
Proof.
  intros (HM & Hm & Hp & Hpre & _) [Ho1 Ho2]. unfold next_prerelease. cbn [negb bool_decide].
  rewrite bool_decide_true by done. cbn [negb]. unfold is_prerelease.
  destruct (pre_is_empty (m_prerelease v)) eqn:Ee; cbn [negb].
  - cbn [res_bind]. eexists. split; [done|]. apply compare_patch; [done|done|]. cbn.
    rewrite u64_small; lia.
  - destruct (pre_increment_ok (m_prerelease v)) as (d' & Hd & Hw & He & Hc); [done| |done|].
    { intros E. by rewrite pre_empty_iff, E in Ee. }
    rewrite Hd. cbn [res_bind]. rewrite make_version_ok by done. eexists. split; [done|].
    apply compare_pre; try done. cbn. unfold pre_step. by rewrite Ee, He.
Qed.

Lemma next_patch_greater v : wf_version v -> no_overflow v by_patch ->
  exists w, next_patch v [] = Ok w /\ compare v w = -1.
Proof.
  intros (HM & Hm & Hp & Hpre & _) Ho. unfold next_patch, make_version. cbn. eexists. split; [done|].
  unfold is_prerelease. destruct (pre_is_empty (m_prerelease v)) eqn:Ee; cbn.
  - apply compare_patch; [done|done|]. cbn. unfold no_overflow in Ho. rewrite u64_small; lia.
  - apply compare_pre; try done. cbn. unfold pre_step. by rewrite Ee.
Qed.

Lemma next_security_greater v : wf_version v -> no_overflow v by_security ->
  exists w, next_security v [] = Ok w /\ compare v w = -1.
Proof.
  intros (HM & Hm & Hp & Hpre & Hb) Ho. unfold next_security. rewrite bool_decide_true by done.
  rewrite make_version_ok by done. eexists. split; [done|]. apply compare_security; try done. cbn.
  unfold no_overflow in Ho. rewrite u64_small; [lia|].
  assert (0 <= m_security v); [|lia]. destruct Hb as [[_ ->]|[_ Hs]]; [lia|].
  revert Hs. unfold parse_security. repeat case_match; intros Hs; simplify_eq; try lia.
  destruct (parse_numeric_part _) eqn:E; [|done]. cbn in Hs. case_match; [done|]. simplify_eq.
  unfold parse_numeric_part in E. destruct (stoull _) eqn:E'; [|done]. injection E as ->.
  apply stoull_some in E' as (_ & _ & _ & ?). lia.
Qed.

(** C10: every increment without an explicit pre-release succeeds on a well-formed
    version and gives a strictly greater one, as long as the incremented
    64-bit field does not overflow. *)
Theorem increment_greater v by_ : wf_version v -> no_overflow v by_ ->
  exists w, increment v by_ [] = Ok w /\ compare v w = -1.
Proof.
  intros Hw Ho. destruct by_; cbn [increment].
  - destruct Hw as (HM & _). eexists. split; [done|]. apply compare_major. cbn.
    unfold no_overflow in Ho. rewrite u64_small; lia.
  - destruct Hw as (_ & Hm & _). eexists. split; [done|]. apply compare_minor; [done|]. cbn.
    unfold no_overflow in Ho. rewrite u64_small; lia.
  - by apply next_patch_greater.
  - by apply next_prerelease_greater.
  - by apply next_security_greater.
Qed.

(** ** When two versions compare equal *)

Lemma part_compare_eq p p' : wf_part p -> wf_part p' -> part_compare p p' = 0 <-> p = p'.
Proof.
  intros H H'. split; [|intros ->; apply part_refl]. unfold part_compare, wf_part in *.
  intros E. assert (Ev : m_value p = m_value p'); [|rewrite Ev in H; congruence].
  destruct (m_numeric p) eqn:E1, (m_numeric p') eqn:E2; simpl in E; try done.
  - apply (proj1 (z_cmp_eq _ _)) in E. apply wf_part_numeric in H as [-> _], H' as [-> _]; try done. by rewrite E.
  - by apply (proj1 (str_cmp_eq _ _)) in E.
Qed.

Lemma pre_step_eq d d' : wf_pre d -> wf_pre d' -> pre_step d d' = 0 <-> d = d'.
Proof.
  intros [E H] [E' H']. split; [|intros ->; apply tw_refl, tw_pre_step].
  unfold pre_step, pre_compare. rewrite E, E'. cbn [m_parts make_pre]. rewrite !pre_empty_iff.
  cbn [m_parts make_pre]. intros Hc. f_equal. revert H H' Hc.
  generalize (m_parts d) (m_parts d'). clear. intros l l' H H'.
  assert (G : list_cmp part_compare l l' = 0 -> l = l').
  { revert l' H'. induction H as [|p l Hp H IH]; intros l' H'; destruct H' as [|p' l' Hp' H']; simpl; try done.
    destruct (Z.eqb_spec (part_compare p p') 0) as [E|E]; [|done].
    apply part_compare_eq in E as ->; [|done..]. intros. f_equal. auto. }
  destruct l, l'; simpl in *; [done..|exact G].
Qed.

(** [compare] is a total preorder, and on well-formed versions it says 0
    exactly when everything but the build metadata text (and the remembered
    presence of a patch number) agrees; the [security] number in the metadata
    does count. *)
Theorem compare_total_order :
  three_way compare /\
  forall a b, wf_version a -> wf_version b ->
    compare a b = 0 <->
    m_major a = m_major b /\ m_minor a = m_minor b /\ m_patch a = m_patch b /\
    m_prerelease a = m_prerelease b /\ m_security a = m_security b.
Proof.
  split; [exact tw_version|]. intros a b (_ & _ & _ & Ha & _) (_ & _ & _ & Hb & _).
  rewrite compare_lex. unfold version_cmp, lex_cmp, on_cmp. pose proof (pre_step_eq _ _ Ha Hb).
  pose proof (z_cmp_eq (m_major a) (m_major b)). pose proof (z_cmp_eq (m_minor a) (m_minor b)).
  pose proof (z_cmp_eq (m_patch a) (m_patch b)). pose proof (z_cmp_eq (m_security a) (m_security b)).
  zcase; tauto.
Qed.

(** ** Concrete versions *)

#[local] Existing Instance qt_model.
#[local] Existing Instance qt_model_ok.

Definition example_version : version :=
  mkVersion 1 2 3 (make_pre [mkPart false (lit "beta") 0; mkPart true (lit "4") 4])
    (lit "b7.security.2") 2 true.

Lemma example_wf : wf_version example_version.
Proof.
  unfold wf_version, u64_max. cbn. split_and!; try lia.
  - split; [done|]. repeat constructor.
  - right. split; [|by vm_compute]. exists [lit "b7"; lit "security"; lit "2"].
    split; [done|]. split; [by repeat constructor|done].
Qed.

Lemma semver_parse_print_witness :
  wf_version example_version /\
  semver_parse (lit "1.2.3-beta.4+b7.security.2") true = Ok example_version.
Proof. split; [apply example_wf|]. exact (semver_parse_print example_version example_wf). Defined.

Lemma semver_parse_strict_sound_witness :
  semver_parse (lit "1.2.3-beta.4+b7.security.2") true = Ok example_version /\
  (wf_version example_version /\ m_has_patch example_version = true /\
   (lit "1.2.3-beta.4+b7.security.2" = version_str example_version \/
    lit "1.2.3-beta.4+b7.security.2" = version_str example_version ++ [newline])).
Proof.
  assert (H : semver_parse (lit "1.2.3-beta.4+b7.security.2") true = Ok example_version)
    by (vm_compute; reflexivity).
  split; [exact H|]. exact (semver_parse_strict_sound _ _ H).
Defined.

Lemma increment_greater_witness :
  no_overflow example_version by_prerelease /\
  exists w, increment example_version by_prerelease [] = Ok w /\ compare example_version w = -1.
Proof.
  assert (H : no_overflow example_version by_prerelease).
  { split; [done|]. repeat constructor; done. }
  split; [exact H|]. exact (increment_greater _ by_prerelease example_wf H).
Defined.
