(* ===== verification/Version.v ===== *)
(** * Package versions ([package/versionv1], [versionv2], [fallback_version], [version])

    A package version is one of three: [VersionV2] (semantic version), [VersionV1]
    (three or four numbers) and [FallbackVersion] (anything else, split at dots).
    [qlonglong] fields are integers in the signed 64-bit range; the conversions
    between [uint64_t] and [qlonglong] wrap. *)
From S2P Require Import Prelude Qt Semver Types.

Section versions.
Context `{Qt}.

(** ** [VersionV1] *)

Record VersionV1 := mkV1 {
  v1_major : Z;
  v1_minor : Z;
  v1_patch : Z;
  v1_tweak : option Z
}.

(** [^(num)\.(num)\.(num)(?:\.(num))?$] *)
Definition re_v1 : regex :=
  rcat [RBol; RGroup 1 re_num; chr "."; RGroup 2 re_num; chr "."; RGroup 3 re_num;
        ROpt (RSeq (chr ".") (RGroup 4 re_num)); REol].

(** [matched.captured(i).toLongLong(&ok)], the thrown exception as an error. *)
Definition captured_ll (m : caps) (i : nat) : result Z :=
  res_of_option err_default (q_toLongLong (default [] (captured m i))).

Definition v1_parse (raw : str) : result VersionV1 :=
  match re_match re_v1 raw with
  | None => Err err_default
  | Some m =>
      major <-r captured_ll m 1 ;;
      minor <-r captured_ll m 2 ;;
      patch <-r captured_ll m 3 ;;
      match captured m 4 with
      | Some _ => tweak <-r captured_ll m 4 ;; Ok (mkV1 major minor patch (Some tweak))
      | None => Ok (mkV1 major minor patch None)
      end
  end.

Definition v1_semanticMatch (v : VersionV1) (versionStr : str) : bool :=
  match v1_parse versionStr with
  | Err _ => false
  | Ok f =>
      (v1_major f =? v1_major v) && (v1_minor f =? v1_minor v) && (v1_patch f =? v1_patch v) &&
      match v1_tweak f, v1_tweak v with
      | Some a, Some b => a =? b
      | _, _ => true
      end
  end.

(** [std::tie(major, minor, patch, tweak)]. *)
Definition v1_tuple (v : VersionV1) : list Z :=
  [v1_major v; v1_minor v; v1_patch v; default 0 (v1_tweak v)].

Definition v1_eq (a b : VersionV1) : bool :=
  Bool.eqb (bool_decide (is_Some (v1_tweak a))) (bool_decide (is_Some (v1_tweak b))) &&
  (list_cmp z_cmp (v1_tuple a) (v1_tuple b) =? 0).
Definition v1_lt (a b : VersionV1) : bool := list_cmp z_cmp (v1_tuple a) (v1_tuple b) =? -1.
Definition v1_gt (a b : VersionV1) : bool := list_cmp z_cmp (v1_tuple a) (v1_tuple b) =? 1.
Definition v1_le (a b : VersionV1) : bool := v1_eq a b || v1_lt a b.
Definition v1_ge (a b : VersionV1) : bool := v1_eq a b || v1_gt a b.

Definition v1_toString (v : VersionV1) : str :=
  dec (v1_major v) ++ lit "." ++ dec (v1_minor v) ++ lit "." ++ dec (v1_patch v) ++
  match v1_tweak v with Some t => lit "." ++ dec t | None => [] end.

(** ** [VersionV2] *)

Record VersionV2 := mkV2 {
  v2_major : Z;
  v2_minor : Z;
  v2_patch : Z;
  v2_prerelease : str;
  v2_buildMeta : str;
  v2_security : Z;
  v2_hasPatch : bool
}.

Definition v2_of_semver (s : version) : VersionV2 :=
  mkV2 (i64 (m_major s)) (i64 (m_minor s)) (i64 (m_patch s))
    (prerelease_str (m_prerelease s)) (m_build_meta s) (i64 (m_security s)) (m_has_patch s).

Definition v2_parse (raw : str) (strict : bool) : result VersionV2 :=
  match semver_parse raw strict with
  | Ok s => Ok (v2_of_semver s)
  | Err _ => Err err_default
  end.

(** The [semver::version] the operators build.  It would throw on an invalid
    pre-release, which ends the program since the operators are [noexcept];
    parsed versions have none ([v2_semver_of_semver]). *)
Definition v2_semver (v : VersionV2) : result version :=
  make_version (u64 (v2_major v)) (u64 (v2_minor v)) (u64 (v2_patch v))
    (v2_prerelease v) (v2_buildMeta v) (u64 (v2_security v)) false.

Definition v2_test (f : version -> version -> bool) (a b : VersionV2) : bool :=
  match v2_semver a, v2_semver b with
  | Ok x, Ok y => f x y
  | _, _ => false
  end.

Definition v2_eq : VersionV2 -> VersionV2 -> bool := v2_test version_eq.
Definition v2_lt : VersionV2 -> VersionV2 -> bool := v2_test version_lt.

Definition v2_semanticMatch (v : VersionV2) (versionStr : str) : bool :=
  match v2_parse versionStr false with
  | Err _ => false
  | Ok f =>
      (v2_major f =? v2_major v) && (v2_minor f =? v2_minor v) &&
      negb (v2_hasPatch f && negb (v2_patch f =? v2_patch v))
  end.

Definition v2_toString (v : VersionV2) : str :=
  match v2_semver v with Ok s => version_str s | Err _ => [] end.

(** ** [VersionV1] against [VersionV2] *)

Definition v1_triple (v : VersionV1) : list Z := [v1_major v; v1_minor v; v1_patch v].
Definition v2_triple (v : VersionV2) : list Z := [v2_major v; v2_minor v; v2_patch v].

Definition v12_eq (v1 : VersionV1) (v2 : VersionV2) : bool :=
  if negb (list_cmp z_cmp (v1_triple v1) (v2_triple v2) =? 0) then false
  else
    let v1HasNoTweak := bool_decide (v1_tweak v1 = None) in
    let v2HasNoPrerelease := bool_decide (v2_prerelease v2 = []) in
    let v2HasNoSecurity := v2_security v2 =? 0 in
    v1HasNoTweak && v2HasNoPrerelease && v2HasNoSecurity.

Definition v12_lt (v1 : VersionV1) (v2 : VersionV2) : bool :=
  if list_cmp z_cmp (v1_triple v1) (v2_triple v2) =? -1 then true
  else if list_cmp z_cmp (v1_triple v1) (v2_triple v2) =? 0 then
    let v1HasNoTweak := bool_decide (v1_tweak v1 = None) in
    let v2HasNoPrerelease := bool_decide (v2_prerelease v2 = []) in
    let v2HasSecurity := negb (v2_security v2 =? 0) in
    v1HasNoTweak && v2HasNoPrerelease && v2HasSecurity
  else false.

Definition v12_gt (v1 : VersionV1) (v2 : VersionV2) : bool := negb (v12_eq v1 v2) && negb (v12_lt v1 v2).

(** [operator<(VersionV2, VersionV1)] is [v1 > v2]. *)
Definition v21_eq (v2 : VersionV2) (v1 : VersionV1) : bool := v12_eq v1 v2.
Definition v21_lt (v2 : VersionV2) (v1 : VersionV1) : bool := v12_gt v1 v2.

(** ** [FallbackVersion] *)

Record FallbackVersion := mkFb { fb_list : list str }.

Definition fb_parse (raw : str) : result FallbackVersion :=
  let list := split_skip "." raw in
  if bool_decide (list = []) then Err err_default else Ok (mkFb list).

Fixpoint fb_match (parts list : list str) : bool :=
  match parts, list with
  | [], _ => true
  | p :: ps, x :: xs => bool_decide (x = p) && fb_match ps xs
  | _ :: _, [] => false
  end.

Definition fb_semanticMatch (v : FallbackVersion) (versionStr : str) : bool :=
  let versionParts := split_skip "." versionStr in
  if bool_decide (versionParts = []) || bool_decide (length (fb_list v) < length versionParts)%nat
  then false else fb_match versionParts (fb_list v).

(** One round of the loop of [compare]: [None] means go on. *)
Definition fb_compare_part (thisPart otherPart : str) : option Z :=
  match q_toInt thisPart, q_toInt otherPart with
  | Some a, Some b => if negb (a =? b) then Some (i32 (a - b)) else None
  | _, _ => if bool_decide (thisPart = otherPart) then None else Some (str_cmp thisPart otherPart)
  end.

Fixpoint fb_compare_from (n i : nat) (l l' : list str) : Z :=
  match n with
  | O => 0
  | S n' =>
      match fb_compare_part (default [] (l !! i)) (default [] (l' !! i)) with
      | Some r => r
      | None => fb_compare_from n' (S i) l l'
      end
  end.

Definition fb_compare (a b : FallbackVersion) : Z :=
  fb_compare_from (Nat.max (length (fb_list a)) (length (fb_list b))) 0 (fb_list a) (fb_list b).

Definition fb_eq (a b : FallbackVersion) : bool := bool_decide (fb_list a = fb_list b).
Definition fb_gt (a b : FallbackVersion) : bool := 0 <? fb_compare a b.
Definition fb_lt (a b : FallbackVersion) : bool := fb_compare a b <? 0.
Definition fb_ge (a b : FallbackVersion) : bool := fb_eq a b || fb_gt a b.
Definition fb_le (a b : FallbackVersion) : bool := fb_eq a b || fb_lt a b.

Definition fb_toString (v : FallbackVersion) : str := join (lit ".") (fb_list v).

Definition fb_compareWithOtherVersion (v : FallbackVersion) (raw : str) : Z :=
  match fb_parse raw with
  | Ok other => fb_compare v other
  | Err _ => 0
  end.

(** A [VersionV1] or [VersionV2] with printed form [raw] against a fallback version. *)
Definition xf_eq (raw : str) (fv : FallbackVersion) : bool := fb_compareWithOtherVersion fv raw =? 0.
Definition xf_lt (raw : str) (fv : FallbackVersion) : bool := 0 <? fb_compareWithOtherVersion fv raw.
Definition xf_gt (raw : str) (fv : FallbackVersion) : bool := negb (xf_eq raw fv) && negb (xf_lt raw fv).

(** ** [Version] *)

Inductive Version :=
| isV2 (v : VersionV2)
| isV1 (v : VersionV1)
| isFb (v : FallbackVersion).

Record ParseOptions := mkParseOptions { strict : bool; fallback : bool }.
Definition default_options : ParseOptions := mkParseOptions true true.

Definition version_parse (raw : str) (opt : ParseOptions) : result Version :=
  match v2_parse raw (strict opt) with
  | Ok v => Ok (isV2 v)
  | Err _ =>
      if negb (fallback opt) then Err err_default
      else match v1_parse raw with
           | Ok v => Ok (isV1 v)
           | Err _ => match fb_parse raw with
                      | Ok v => Ok (isFb v)
                      | Err _ => Err err_default
                      end
           end
  end.

(** [^(num)\.(num)(?:\.(num))?$] *)
Definition re_depend : regex :=
  rcat [RBol; RGroup 1 re_num; chr "."; RGroup 2 re_num;
        ROpt (RSeq (chr ".") (RGroup 3 re_num)); REol].

Definition validateDependVersion (raw : str) : result unit :=
  match re_match re_depend raw with Some _ => Ok tt | None => Err err_default end.

Definition semanticMatch (v : Version) (versionStr : str) : bool :=
  match v with
  | isV1 v => v1_semanticMatch v versionStr
  | isV2 v => v2_semanticMatch v versionStr
  | isFb v => fb_semanticMatch v versionStr
  end.

Fixpoint filterByFuzzyVersion (list : list PackageInfoV2) (fuzzyVersion : str) : Datatypes.list PackageInfoV2 :=
  match list with
  | [] => []
  | it :: rest =>
      match version_parse (pi_version it) default_options with
      | Err _ => filterByFuzzyVersion rest fuzzyVersion
      | Ok v => if negb (semanticMatch v fuzzyVersion) then filterByFuzzyVersion rest fuzzyVersion
                else it :: filterByFuzzyVersion rest fuzzyVersion
      end
  end.

Definition ignoreTweak (v : Version) : Version :=
  match v with
  | isV1 v => isV1 (mkV1 (v1_major v) (v1_minor v) (v1_patch v) None)
  | _ => v
  end.

Definition isVersionV1 (v : Version) : bool := match v with isV1 _ => true | _ => false end.

Definition hasTweak (v : Version) : bool :=
  match v with isV1 v => bool_decide (is_Some (v1_tweak v)) | _ => false end.

(** [std::visit] over the pairs of alternatives. *)
Definition ver_eq (this that : Version) : bool :=
  match this, that with
  | isV2 a, isV2 b => v2_eq a b
  | isV1 a, isV1 b => v1_eq a b
  | isFb a, isFb b => fb_eq a b
  | isV1 a, isV2 b => v12_eq a b
  | isV2 a, isV1 b => v21_eq a b
  | isV1 a, isFb b => xf_eq (v1_toString a) b
  | isV2 a, isFb b => xf_eq (v2_toString a) b
  | isFb a, isV1 b => xf_eq (v1_toString b) a
  | isFb a, isV2 b => xf_eq (v2_toString b) a
  end.

Definition ver_lt (this that : Version) : bool :=
  match this, that with
  | isV2 a, isV2 b => v2_lt a b
  | isV1 a, isV1 b => v1_lt a b
  | isFb a, isFb b => fb_lt a b
  | isV1 a, isV2 b => v12_lt a b
  | isV2 a, isV1 b => v21_lt a b
  | isV1 a, isFb b => xf_lt (v1_toString a) b
  | isV2 a, isFb b => xf_lt (v2_toString a) b
  | isFb a, isV1 b => xf_gt (v1_toString b) a
  | isFb a, isV2 b => xf_gt (v2_toString b) a
  end.

Definition ver_gt (a b : Version) : bool := negb (ver_eq a b) && negb (ver_lt a b).
Definition ver_le (a b : Version) : bool := ver_eq a b || ver_lt a b.
Definition ver_ge (a b : Version) : bool := negb (ver_lt a b).

Definition ver_toString (v : Version) : str :=
  match v with
  | isV1 v => v1_toString v
  | isV2 v => v2_toString v
  | isFb v => fb_toString v
  end.

End versions.

(** ** 64-bit conversions *)

Lemma u64_i64 x : 0 <= x <= u64_max -> u64 (i64 x) = x.
Proof.
  intros H. unfold wrap_u, wrap_s, u64_max in *.
  rewrite Zminus_mod, (Zmod_mod (x + 2 ^ (64 - 1))), <- Zminus_mod.
  replace (x + 2 ^ (64 - 1) - 2 ^ (64 - 1)) with x by lia. apply Z.mod_small. lia.
Qed.

Lemma i64_small x : - 2 ^ 63 <= x <= i64_max -> i64 x = x.
Proof. intros H. unfold wrap_s, i64_max in *. rewrite Z.mod_small by lia. lia. Qed.

Lemma i32_small x : - 2 ^ 31 <= x <= i32_max -> i32 x = x.
Proof. intros H. unfold wrap_s, i32_max in *. rewrite Z.mod_small by lia. lia. Qed.

Lemma u64_nonneg x : 0 <= u64 x <= u64_max.
Proof. unfold wrap_u, u64_max. pose proof (Z.mod_pos_bound x (2 ^ 64)). lia. Qed.

(** ** Parsing [VersionV2] *)

(** The semantic version a [VersionV2] compares as. *)
Definition forget_patch (w : version) : version :=
  mkVersion (m_major w) (m_minor w) (m_patch w) (m_prerelease w) (m_build_meta w) (m_security w) false.

Lemma security_range w : wf_version w -> 0 <= m_security w <= u64_max.
Proof.
  intros (_ & _ & _ & _ & [[_ ->]|[_ Hs]]); [unfold u64_max; lia|].
  revert Hs. unfold parse_security. repeat case_match; intros Hs; simplify_eq; try (unfold u64_max; lia).
  destruct (parse_numeric_part _) eqn:E; [|done]. cbn in Hs. case_match; [done|]. simplify_eq.
  unfold parse_numeric_part in E. destruct (stoull _) eqn:E'; [|done]. injection E as ->.
  by apply stoull_some in E' as (_ & _ & _ & ?).
Qed.

Lemma v2_semver_of_semver w : wf_version w -> v2_semver (v2_of_semver w) = Ok (forget_patch w).
Proof.
  intros Hw. pose proof (security_range w Hw) as Hs. destruct Hw as (HM & Hm & Hp & Hd & _).
  unfold v2_semver, v2_of_semver. cbn [v2_major v2_minor v2_patch v2_prerelease v2_buildMeta v2_security].
  rewrite !u64_i64 by done. by apply make_version_ok.
Qed.

Lemma version_str_forget w : version_str (forget_patch w) = version_str w.
Proof. done. Qed.

Lemma v2_toString_of_semver w : wf_version w -> v2_toString (v2_of_semver w) = version_str w.
Proof. intros Hw. unfold v2_toString. by rewrite v2_semver_of_semver. Qed.

(** ** Parsing [VersionV1] *)

Definition v1_text (M m p : str) (t : option str) : str :=
  M ++ "."%char :: m ++ "."%char :: p ++ opt_text "." t.

Definition v1_caps (M m p : str) (t : option str) : caps :=
  opt_caps 4 t ++ [(3%nat, p); (2%nat, m); (1%nat, M)].

Definition v1_parts_ok (M m p : str) (t : option str) : Prop :=
  canon_num M = true /\ canon_num m = true /\ canon_num p = true /\
  opt_all (fun t => canon_num t = true) t.

Definition re_v1_body : regex :=
  rcat [RGroup 1 re_num; chr "."; RGroup 2 re_num; chr "."; RGroup 3 re_num;
        ROpt (RSeq (chr ".") (RGroup 4 re_num)); REol].

Lemma rm_v1 n s s' c' :
  rm n re_v1_body s [] s' c' <->
  exists M m p t, s = v1_text M m p t ++ s' /\ at_eol s' /\ c' = v1_caps M m p t /\ v1_parts_ok M m p t.
Proof.
  unfold re_v1_body, v1_text, v1_caps, v1_parts_ok. cbn [rcat]. rewrite rm_num_dot. split.
  - intros (M & s1 & -> & HM & H). apply rm_lit_seq in H as (s2 & -> & H).
    apply rm_num_dot in H as (m & s3 & -> & Hm & H). apply rm_lit_seq in H as (s4 & -> & H).
    apply rm_num_dot in H as (p & s5 & -> & Hp & H). apply rm_seq_iff in H as (s6 & c6 & Ht & H).
    apply rm_opt_group in Ht as (t & -> & -> & Ht); [|done]. apply rm_eol_iff in H as (He & -> & ->).
    exists M, m, p, t. split_and!; try done; [by lassoc|].
    by eapply opt_all_iff; [|exact Ht]; intros; rewrite lang_num.
  - intros (M & m & p & t & -> & He & -> & HM & Hm & Hp & Ht).
    exists M. eexists. split; [by lassoc|]. split; [done|]. apply rm_lit_seq. eexists. split; [done|].
    apply rm_num_dot. exists m. eexists. split; [by lassoc|]. split; [done|].
    apply rm_lit_seq. eexists. split; [done|].
    apply rm_num_dot. exists p. eexists. split; [by lassoc|]. split; [done|].
    apply rm_seq_iff. do 2 eexists. split; [|by apply rm_eol_iff].
    apply rm_opt_group; [done|]. exists t. split_and!; [by lassoc|done|].
    by eapply opt_all_iff; [|exact Ht]; intros; rewrite lang_num.
Qed.

Lemma eol_digit s : at_eol s -> forall x t, s = x :: t -> is_digit x = false /\ x <> "."%char.
Proof. intros [->| ->] x t; [done|]. by intros [= <- _]. Qed.

Lemma v1_text_unique M m p t s M' m' p' t' s' :
  v1_parts_ok M m p t -> v1_parts_ok M' m' p' t' -> at_eol s -> at_eol s' ->
  v1_text M m p t ++ s = v1_text M' m' p' t' ++ s' ->
  M = M' /\ m = m' /\ p = p' /\ t = t' /\ s = s'.
Proof.
  intros (HM & Hm & Hp & Ht) (HM' & Hm' & Hp' & Ht') Hs Hs'. unfold v1_text. lassoc. intros E.
  apply cut_digits in E as [-> E]; [|done|done|by intros ?? [= <- _]..]. injection E as E.
  apply cut_digits in E as [-> E]; [|done|done|by intros ?? [= <- _]..]. injection E as E.
  apply cut_digits in E as [-> E]; [|done|done|..].
  2,3: intros x u Hx; apply opt_num_stop in Hx; [done|]; intros y v Hy; apply eol_digit in Hy as [? _]; done.
  apply opt_num_unique in E as [-> ->]; [|done|done|by apply eol_digit..]. done.
Qed.

(** The semantic version pattern does not match four numbers. *)
Lemma v1_text_not_strict M m p t s M' m' p' o b s' :
  v1_parts_ok M m p (Some t) -> version_parts_ok M' m' p' o b -> at_eol s -> at_eol s' ->
  v1_text M m p (Some t) ++ s <> version_text M' m' p' o b ++ s'.
Proof.
  intros (HM & Hm & Hp & Ht) (HM' & Hm' & Hp' & Ho & Hb) Hs Hs'. unfold v1_text, version_text.
  lassoc. intros E.
  apply cut_digits in E as [-> E]; [|done|done|by intros ?? [= <- _]..]. injection E as E.
  apply cut_digits in E as [-> E]; [|done|done|by intros ?? [= <- _]..]. injection E as E.
  apply cut_digits in E as [-> E]; [|done|done|by intros ?? [= <- _]|].
  2: intros x u Hx; apply suffix_stop in Hx as [? _]; done.
  simpl in E. symmetry in E. apply suffix_stop in E as [_ E]; done.
Qed.

Section v1_parsing.
Context {q : Qt} {Hq : QtOk q}.

Lemma v1_match s c :
  re_match re_v1 s = Some c <->
  exists M m p t u, s = v1_text M m p t ++ u /\ at_eol u /\ v1_parts_ok M m p t /\ c = v1_caps M m p t.
Proof using Hq.
  rewrite re_match_spec. change re_v1 with (RSeq RBol re_v1_body). split.
  - intros (u & H)%rsearch_anchored. apply rm_v1 in H as (M & m & p & t & -> & ? & -> & ?).
    by exists M, m, p, t, u.
  - intros (M & m & p & t & u & -> & Hu & Hok & ->).
    destruct (rsearch_anchored_some re_v1_body (v1_text M m p t ++ u) u (v1_caps M m p t))
      as [c Hc]; [by apply rm_v1; exists M, m, p, t|].
    rewrite Hc. apply rsearch_anchored in Hc as (u' & Hc).
    apply rm_v1 in Hc as (M' & m' & p' & t' & E & Hu' & -> & Hok').
    eapply v1_text_unique in E; [|done..]. by destruct E as (-> & -> & -> & -> & ->).
Qed.

Definition wf_v1 (v : VersionV1) : Prop :=
  0 <= v1_major v <= i64_max /\ 0 <= v1_minor v <= i64_max /\ 0 <= v1_patch v <= i64_max /\
  match v1_tweak v with Some t => 0 <= t <= i64_max | None => True end.

Lemma v1_toString_text v : v1_toString v =
  v1_text (dec (v1_major v)) (dec (v1_minor v)) (dec (v1_patch v)) (dec <$> v1_tweak v).
Proof. unfold v1_toString, v1_text. by destruct (v1_tweak v). Qed.

Lemma v1_parts_dec v : wf_v1 v ->
  v1_parts_ok (dec (v1_major v)) (dec (v1_minor v)) (dec (v1_patch v)) (dec <$> v1_tweak v).
Proof.
  intros (? & ? & ? & Ht). unfold v1_parts_ok. split_and!; try (apply dec_canon; lia).
  destruct (v1_tweak v); [|done]. apply dec_canon. lia.
Qed.

Lemma toLongLong_dec n : 0 <= n <= i64_max -> q_toLongLong (dec n) = Some n.
Proof using Hq.
  intros H. rewrite q_toLongLong_digits by (first [apply dec_nonempty|apply dec_digits]; lia).
  rewrite undec_dec by lia. by destruct (Z.leb_spec n i64_max); [|lia].
Qed.

Lemma toLongLong_canon s n : canon_num s = true -> q_toLongLong s = Some n ->
  s = dec n /\ 0 <= n <= i64_max.
Proof using Hq.
  intros Hc. destruct (canon_digits s Hc) as [Hd Hne]. rewrite q_toLongLong_digits by done.
  destruct (Z.leb_spec (undec s) i64_max); [|done]. intros [= <-].
  rewrite dec_undec by done. pose proof (undec_nonneg s Hd). auto.
Qed.

Lemma v1_print_parse v : wf_v1 v -> v1_parse (v1_toString v) = Ok v.
Proof using Hq.
  intros Hv. pose proof (v1_parts_dec v Hv) as Hok. unfold v1_parse. rewrite v1_toString_text.
  pose proof (proj2 (v1_match (v1_text (dec (v1_major v)) (dec (v1_minor v)) (dec (v1_patch v))
    (dec <$> v1_tweak v)) _)
    ltac:(do 4 eexists; exists []; split_and!; [by rewrite app_nil_r|by left|exact Hok|done])) as ->.
  destruct Hv as (? & ? & ? & Ht). destruct v as [M m p [t|]]; unfold captured_ll; cbn in *;
    by rewrite !toLongLong_dec by lia.
Qed.

Lemma v1_parse_inv s v : v1_parse s = Ok v ->
  wf_v1 v /\ exists u, at_eol u /\ s = v1_toString v ++ u.
Proof using Hq.
  unfold v1_parse. destruct (re_match re_v1 s) as [c|] eqn:E; [|done].
  apply v1_match in E as (M & m & p & t & u & -> & Hu & (HM & Hm & Hp & Ht) & ->).
  unfold captured_ll. replace (default [] (captured (v1_caps M m p t) 1)) with M by (by destruct t).
  replace (default [] (captured (v1_caps M m p t) 2)) with m by (by destruct t).
  replace (default [] (captured (v1_caps M m p t) 3)) with p by (by destruct t).
  replace (captured (v1_caps M m p t) 4) with t by (by destruct t).
  destruct (q_toLongLong M) eqn:EM; [|done]. destruct (q_toLongLong m) eqn:Em; [|done].
  destruct (q_toLongLong p) eqn:Ep; [|done]. cbn [res_of_option res_bind].
  apply toLongLong_canon in EM as [-> ?], Em as [-> ?], Ep as [-> ?]; try done.
  destruct t as [t|]; simpl.
  - destruct (q_toLongLong t) eqn:Et; [|done]. apply toLongLong_canon in Et as [-> ?]; [|done].
    intros [= <-]. split; [done|]. exists u. split; [done|]. by rewrite v1_toString_text.
  - intros [= <-]. split; [done|]. exists u. split; [done|]. by rewrite v1_toString_text.
Qed.

(** ** Parsing any version *)

Lemma v2_strict_inv s v : v2_parse s true = Ok v ->
  exists w, wf_version w /\ m_has_patch w = true /\ v = v2_of_semver w /\
    exists u, at_eol u /\ s = version_str w ++ u.
Proof using Hq.
  unfold v2_parse. destruct (semver_parse s true) as [w|] eqn:E; [|done]. intros [= <-].
  apply strict_parse_inv in E as (Hw & Hh & E). exists w. split_and!; [done|done|done|].
  destruct E as [->| ->]; [exists []|exists [newline]]; (split; [|by rewrite ?app_nil_r]).
  - by left.
  - by right.
Qed.

Lemma v2_print_parse w : wf_version w -> m_has_patch w = true ->
  v2_parse (version_str w) true = Ok (v2_of_semver w).
Proof using Hq.
  intros Hw Hh. unfold v2_parse. rewrite strict_print_parse by done. by rewrite <- Hh; destruct w.
Qed.

(** Strict parsing accepts any three numbers in range. *)
Lemma v2_parse_numbers a b c u : 0 <= a <= u64_max -> 0 <= b <= u64_max -> 0 <= c <= u64_max ->
  at_eol u -> v2_parse (v1_text (dec a) (dec b) (dec c) None ++ u) true =
              Ok (mkV2 (i64 a) (i64 b) (i64 c) [] [] 0 true).
Proof using Hq.
  intros Ha Hb Hc Hu. unfold v2_parse, semver_parse.
  assert (Hok : version_parts_ok (dec a) (dec b) (dec c) None None).
  { unfold version_parts_ok. split_and!; try (apply dec_canon; lia); done. }
  pose proof (proj2 (strict_match (version_text (dec a) (dec b) (dec c) None None ++ u) _)
    ltac:(do 5 eexists; exists u; split_and!; [done|done|exact Hok|done])) as E.
  change (v1_text (dec a) (dec b) (dec c) None) with (version_text (dec a) (dec b) (dec c) None None).
  rewrite E, parse_captures_strict, !numeric_dec by done. done.
Qed.

Lemma v2_parse_four v u : wf_v1 v -> v1_tweak v <> None -> at_eol u ->
  v2_parse (v1_toString v ++ u) true = Err err_default.
Proof using Hq.
  intros Hv Ht Hu. destruct (v2_parse _ true) eqn:E.
  - apply v2_strict_inv in E as (w & Hw & _ & _ & u' & Hu' & E). exfalso. revert E.
    rewrite version_str_text, v1_toString_text by done. pose proof (v1_parts_dec v Hv).
    destruct (v1_tweak v); [|done]. apply v1_text_not_strict; try done. by apply wf_version_parts.
  - unfold v2_parse in E. destruct (semver_parse _ true); [done|]. by injection E as <-.
Qed.

Lemma version_parse_v1 s v : version_parse s default_options = Ok (isV1 v) ->
  wf_v1 v /\ v1_tweak v <> None /\ version_parse (v1_toString v) default_options = Ok (isV1 v).
Proof using Hq.
  unfold version_parse, default_options. cbn [strict fallback negb].
  destruct (v2_parse s true) eqn:E2; [done|]. destruct (v1_parse s) as [v'|] eqn:E1; [|by case_match].
  intros [= ->]. apply v1_parse_inv in E1 as (Hw & u & Hu & ->).
  assert (Ht : v1_tweak v <> None).
  { intros Ht. rewrite v1_toString_text, Ht in E2. destruct Hw as (? & ? & ? & _).
    unfold i64_max in *. cbn [fmap option_fmap option_map] in E2.
    rewrite v2_parse_numbers in E2; [done|unfold u64_max; lia..|done]. }
  split_and!; [done|done|]. pose proof (v2_parse_four v [] Hw Ht ltac:(by left)) as E.
  rewrite app_nil_r in E. by rewrite E, v1_print_parse.
Qed.

Lemma version_parse_v2 s v : version_parse s default_options = Ok (isV2 v) ->
  exists w, wf_version w /\ m_has_patch w = true /\ v = v2_of_semver w /\
  version_parse (v2_toString v) default_options = Ok (isV2 v).
Proof using Hq.
  unfold version_parse, default_options. cbn [strict fallback negb].
  destruct (v2_parse s true) eqn:E2; [|by repeat case_match]. intros [= ->].
  apply v2_strict_inv in E2 as (w & Hw & Hh & -> & _). exists w. split_and!; [done..|].
  rewrite v2_toString_of_semver by done. by rewrite v2_print_parse.
Qed.

(** A version that [Version::parse] accepts as [VersionV1] or [VersionV2]
    prints to a text that it parses to the same version again; a [VersionV1]
    parsed this way always has a tweak number (three numbers are semantic). *)
Theorem version_parse_print s v : version_parse s default_options = Ok v ->
  match v with
  | isV1 v1 => hasTweak v = true /\ version_parse (ver_toString v) default_options = Ok v
  | isV2 _ => version_parse (ver_toString v) default_options = Ok v
  | isFb f => f = mkFb (split_skip "." s)
  end.
Proof using Hq.
  intros H. destruct v as [v|v|v].
  - by apply version_parse_v2 in H as (w & _ & _ & _ & H).
  - apply version_parse_v1 in H as (_ & Ht & H). split; [|done]. simpl.
    apply bool_decide_true. by apply not_eq_None_Some.
  - unfold version_parse in H. cbn [strict fallback default_options negb] in H.
    repeat case_match; simplify_eq. unfold fb_parse in *. case_bool_decide; by simplify_eq.
Qed.

End v1_parsing.

(** ** Ordering *)

Section ordering.
Context {q : Qt}.

Definition v2_sem (v : VersionV2) : version :=
  match v2_semver v with Ok s => s | Err _ => mkVersion 0 0 0 pre_empty [] 0 false end.

Definition ver_triple (v : Version) : list Z :=
  match v with isV1 v => v1_triple v | isV2 v => v2_triple v | isFb _ => [] end.

(** Versions with the same three numbers: semantic versions come first, by
    pre-release and security number, then the four-number ones by tweak. *)
Definition ver_rest (a b : Version) : Z :=
  match a, b with
  | isV2 a, isV2 b =>
      lex_cmp (on_cmp m_prerelease pre_step) (on_cmp m_security z_cmp) (v2_sem a) (v2_sem b)
  | isV1 a, isV1 b => z_cmp (default 0 (v1_tweak a)) (default 0 (v1_tweak b))
  | isFb _, isFb _ => 0
  | isFb _, _ => -1
  | _, isFb _ => 1
  | isV2 _, isV1 _ => -1
  | isV1 _, isV2 _ => 1
  end.

Definition ver_cmp : Version -> Version -> Z :=
  lex_cmp (on_cmp ver_triple (list_cmp z_cmp)) ver_rest.

Lemma tw_ver_rest : three_way ver_rest.
Proof.
  pose proof tw_z as Hz.
  assert (H2 : three_way (lex_cmp (on_cmp m_prerelease pre_step) (on_cmp m_security z_cmp)))
    by auto using tw_lex, tw_on, tw_z, tw_pre_step.
  split.
  - intros [a|a|a] [b|b|b]; simpl; auto; [apply H2|apply Hz].
  - intros [a|a|a] [b|b|b]; simpl; auto; [apply H2|apply Hz].
  - intros [a|a|a] [b|b|b] [d|d|d]; simpl; try lia; [apply (tw_trans _ H2)|apply (tw_trans _ Hz)].
Qed.

Lemma tw_ver : three_way ver_cmp.
Proof. apply tw_lex; [apply tw_on, tw_list, tw_z|apply tw_ver_rest]. Qed.

(** What [Version::parse] gives, fallback versions aside, when every number is
    below [2^63] and so keeps its sign in the signed fields of [VersionV2].  The
    parser takes numbers up to [2^64 - 1]; those are left out. *)
Definition parsed63 (v : Version) : Prop :=
  match v with
  | isV1 v => wf_v1 v /\ v1_tweak v <> None
  | isV2 v => exists w, wf_version w /\ v = v2_of_semver w /\
      m_major w <= i64_max /\ m_minor w <= i64_max /\ m_patch w <= i64_max /\ m_security w <= i64_max
  | isFb _ => False
  end.

Lemma z_cmp_shape a b : z_cmp a b = -1 /\ a < b \/ z_cmp a b = 0 /\ a = b \/ z_cmp a b = 1 /\ b < a.
Proof. unfold z_cmp. zcase; lia. Qed.

Lemma v2_cmp_sem a b : parsed63 (isV2 a) -> parsed63 (isV2 b) ->
  exists x y, v2_semver a = Ok x /\ v2_semver b = Ok y /\ ver_cmp (isV2 a) (isV2 b) = compare x y.
Proof.
  intros (x & Hx & -> & Rx) (y & Hy & -> & Ry). exists (forget_patch x), (forget_patch y).
  pose proof (v2_semver_of_semver x Hx) as Ex. pose proof (v2_semver_of_semver y Hy) as Ey.
  split_and!; [done|done|]. rewrite compare_lex. unfold ver_cmp, version_cmp, lex_cmp, on_cmp. cbn [ver_rest].
  unfold v2_sem. rewrite Ex, Ey. unfold lex_cmp, on_cmp. destruct Hx as (? & ? & ? & _), Hy as (? & ? & ? & _).
  cbn [ver_triple v2_triple v2_of_semver v2_major v2_minor v2_patch list_cmp forget_patch m_major m_minor m_patch].
  unfold i64_max in *. rewrite !i64_small by (unfold i64_max; lia).
  destruct (z_cmp_shape (m_major x) (m_major y)) as [[-> ?]|[[-> ?]|[-> ?]]]; try done.
  destruct (z_cmp_shape (m_minor x) (m_minor y)) as [[-> ?]|[[-> ?]|[-> ?]]]; try done.
  destruct (z_cmp_shape (m_patch x) (m_patch y)) as [[-> ?]|[[-> ?]|[-> ?]]]; done.
Qed.

Lemma ver_ops a b : parsed63 a -> parsed63 b ->
  ver_lt a b = (ver_cmp a b =? -1) /\ ver_eq a b = (ver_cmp a b =? 0).
Proof.
  destruct a as [a|a|a], b as [b|b|b]; intros Ha Hb; try done.
  - destruct (v2_cmp_sem a b Ha Hb) as (x & y & Ex & Ey & ->). simpl. unfold v2_lt, v2_eq, v2_test.
    by rewrite Ex, Ey.
  - destruct Hb as [_ Ht]. simpl. unfold v21_lt, v21_eq, v12_gt, v12_eq, v12_lt, ver_cmp, lex_cmp, on_cmp.
    cbn [ver_triple ver_rest]. rewrite (tw_anti _ (tw_list _ tw_z) (v2_triple a) (v1_triple b)).
    rewrite (bool_decide_false (v1_tweak b = None)) by done.
    destruct (tw_range _ (tw_list _ tw_z) (v2_triple a) (v1_triple b)) as [->|[->| ->]]; done.
  - destruct Ha as [_ Ht]. simpl. unfold v12_eq, v12_lt, ver_cmp, lex_cmp, on_cmp. cbn [ver_triple ver_rest].
    rewrite (bool_decide_false (v1_tweak a = None)) by done.
    destruct (tw_range _ (tw_list _ tw_z) (v1_triple a) (v2_triple b)) as [->|[->| ->]]; done.
  - destruct Ha as [_ Ha], Hb as [_ Hb]. simpl. unfold v1_lt, v1_eq, ver_cmp, lex_cmp, on_cmp.
    cbn [ver_triple ver_rest v1_triple v1_tuple list_cmp].
    rewrite !(bool_decide_true (is_Some _)) by (by apply not_eq_None_Some). simpl.
    destruct (z_cmp_shape (v1_major a) (v1_major b)) as [[-> ?]|[[-> ?]|[-> ?]]]; try done.
    destruct (z_cmp_shape (v1_minor a) (v1_minor b)) as [[-> ?]|[[-> ?]|[-> ?]]]; try done.
    destruct (z_cmp_shape (v1_patch a) (v1_patch b)) as [[-> ?]|[[-> ?]|[-> ?]]]; try done. simpl.
    destruct (z_cmp_shape (default 0 (v1_tweak a)) (default 0 (v1_tweak b))) as [[-> ?]|[[-> ?]|[-> ?]]]; done.
Qed.

Lemma ver_gt_cmp a b : parsed63 a -> parsed63 b -> ver_gt a b = (ver_cmp b a =? -1).
Proof.
  intros Ha Hb. unfold ver_gt. destruct (ver_ops a b Ha Hb) as [-> ->].
  pose proof (tw_range _ tw_ver a b). rewrite (tw_anti _ tw_ver a b). zcase; simpl; try done; lia.
Qed.

(** C31: on the versions the parser gives whose numbers are all below [2^63]
    (fallback versions aside) the operators are a strict weak order: [<] is
    transitive and asymmetric, [==] holds exactly when neither is smaller and is
    transitive, and the other operators agree.  The bound is needed: the parser
    takes numbers up to [2^64 - 1], and with one of [2^63] the operator [<] is not
    transitive ([large_number_order]). *)
Theorem version_order a b d : parsed63 a -> parsed63 b -> parsed63 d ->
  (ver_lt a b = true -> ver_lt b d = true -> ver_lt a d = true) /\
  (ver_lt a b = true -> ver_lt b a = false) /\
  (ver_eq a b = negb (ver_lt a b) && negb (ver_lt b a)) /\
  (ver_eq a b = true -> ver_eq b d = true -> ver_eq a d = true) /\
  ver_gt a b = ver_lt b a /\ ver_le a b = negb (ver_lt b a) /\ ver_ge a b = negb (ver_lt a b).
Proof.
  intros Ha Hb Hd. unfold ver_gt, ver_le, ver_ge.
  destruct (ver_ops a b Ha Hb) as [-> ->], (ver_ops b a Hb Ha) as [-> _],
    (ver_ops b d Hb Hd) as [-> ->], (ver_ops a d Ha Hd) as [-> ->].
  pose proof (tw_range _ tw_ver a b). pose proof (tw_range _ tw_ver b d).
  pose proof (tw_range _ tw_ver a d). pose proof (tw_anti _ tw_ver a b).
  pose proof (tw_lt_le _ tw_ver a b d). pose proof (tw_eq_trans _ tw_ver a b d).
  zcase; simpl; split_and!; intros; try done; try lia.
Qed.

End ordering.

(** ** Fuzzy matching and fallback versions *)

Lemma filterByFuzzyVersion_filter `{Qt} l f :
  filterByFuzzyVersion l f =
    List.filter (fun it => match version_parse (pi_version it) default_options with
                           | Ok v => semanticMatch v f
                           | Err _ => false
                           end) l.
Proof.
  induction l as [|it l IH]; [done|]. simpl. rewrite IH.
  destruct (version_parse _ _) as [v|]; [|done]. by destruct (semanticMatch v f).
Qed.

(** A part [FallbackVersion::compare] reads as a number. *)
Definition numeric_part (p : str) : Prop := p <> [] /\ forallb is_digit p = true /\ undec p <= i32_max.

Section fallback.
Context {q : Qt} {Hq : QtOk q}.

Lemma fb_from_cons n i x y l l' :
  fb_compare_from n (S i) (x :: l) (y :: l') = fb_compare_from n i l l'.
Proof. revert i. induction n as [|n IH]; intros i; [done|]. simpl. rewrite IH. done. Qed.

Lemma numeric_toInt p : numeric_part p -> q_toInt p = Some (undec p) /\ 0 <= undec p <= i32_max.
Proof using Hq.
  intros (Hne & Hd & Hm). rewrite q_toInt_digits by done.
  destruct (Z.leb_spec (undec p) i32_max); [|lia]. pose proof (undec_nonneg p Hd). auto.
Qed.

Lemma fb_compare_numeric a b : Forall numeric_part (fb_list a) -> Forall numeric_part (fb_list b) ->
  Z.sgn (fb_compare a b) = list_cmp z_cmp (undec <$> fb_list a) (undec <$> fb_list b).
Proof using Hq.
  unfold fb_compare. destruct a as [l], b as [l']. simpl. intros H. revert l'.
  induction H as [|x l Hx H IH]; intros l' H'; destruct H' as [|y l' Hy H']; [done| | |].
  - cbn. unfold fb_compare_part. rewrite q_toInt_empty. destruct Hy as (Hne & _).
    rewrite bool_decide_false by done. by destruct y.
  - cbn. unfold fb_compare_part. rewrite q_toInt_empty. destruct Hx as (Hne & _).
    destruct (q_toInt x); rewrite bool_decide_false by done; by destruct x.
  - cbn [length Nat.max fb_compare_from lookup list_lookup default fmap list_fmap list_cmp id].
    unfold fb_compare_part. destruct (numeric_toInt x Hx) as [-> ?], (numeric_toInt y Hy) as [-> ?].
    cbn. unfold i32_max in *. destruct (Z.eqb_spec (undec x) (undec y)) as [E|E]; cbn [negb].
    + rewrite E, (tw_refl _ tw_z). cbn. rewrite fb_from_cons. by apply IH.
    + rewrite i32_small by (unfold i32_max; lia). unfold z_cmp. zcase; simpl; lia.
Qed.

(** On fallback versions made of numbers the comparison is the
    lexicographic one of the numbers, a missing part being smaller than any. *)
Theorem fb_numeric_order a b :
  Forall numeric_part (fb_list a) -> Forall numeric_part (fb_list b) ->
  let c := list_cmp z_cmp (undec <$> fb_list a) (undec <$> fb_list b) in
  fb_lt a b = (c =? -1) /\ fb_gt a b = (c =? 1).
Proof using Hq.
  intros Ha Hb c. unfold fb_lt, fb_gt. pose proof (fb_compare_numeric a b Ha Hb) as E. fold c in E.
  zcase; split; try done; lia.
Qed.

(** The operator [<] of package versions is not an order: the parser gives
    three fallback versions of which each is smaller than the next, cyclically. *)
Theorem fallback_order_cycle :
  exists a b c,
    version_parse (lit "2") default_options = Ok a /\
    version_parse (lit "10") default_options = Ok b /\
    version_parse (lit "1a") default_options = Ok c /\
    ver_lt a b = true /\ ver_lt b c = true /\ ver_lt c a = true.
Proof using Hq.
  exists (isFb (mkFb [lit "2"])), (isFb (mkFb [lit "10"])), (isFb (mkFb [lit "1a"])).
  assert (N : q_toInt ["1"%char; "a"%char] = None) by (by apply q_toInt_invalid).
  assert (P : forall s, rsearch version_pattern s = None -> rsearch re_v1 s = None ->
    version_parse s default_options = match fb_parse s with Ok v => Ok (isFb v) | Err _ => Err err_default end).
  { intros s H1 H2. unfold version_parse, v2_parse, semver_parse, v1_parse.
    cbn [strict fallback default_options]. by rewrite !re_match_spec, H1, H2. }
  rewrite !P by done. split_and!; [done..| | |].
  - cbn. unfold fb_lt, fb_compare. cbn. unfold fb_compare_part. by rewrite !q_toInt_digits.
  - cbn. unfold fb_lt, fb_compare. cbn. unfold fb_compare_part. by rewrite N, q_toInt_digits.
  - cbn. unfold fb_lt, fb_compare. cbn. unfold fb_compare_part. by rewrite N.
Qed.

Lemma v1_match_pair a b : 0 <= a -> 0 <= b -> v1_parse (dec a ++ "."%char :: dec b) = Err err_default.
Proof using Hq.
  intros Ha Hb. unfold v1_parse. destruct (re_match re_v1 _) as [c|] eqn:E; [|done]. exfalso.
  apply v1_match in E as (M & m & p & t & u & E & Hu & (HM & Hm & Hp & Ht) & ->).
  unfold v1_text in E. revert E. lassoc. intros E.
  apply cut_digits in E as [_ E]; [|by apply dec_canon|done|by intros ?? [= <- _]..]. injection E as E.
  rewrite <- (app_nil_r (dec b)) in E.
  apply cut_digits in E as [_ E]; [|by apply dec_canon|done|by intros|by intros ?? [= <- _]]. done.
Qed.

(** A fuzzy version [a.b] or [a.b.c] selects the semantic versions with these
    numbers (any patch number for [a.b]); it selects a four-number version when
    all three numbers are given and equal. *)
Theorem fuzzy_numbers v a b oc : parsed63 v -> 0 <= a <= i64_max -> 0 <= b <= i64_max ->
  (forall c, oc = Some c -> 0 <= c <= i64_max) ->
  semanticMatch v (dec a ++ "."%char :: dec b ++ opt_text "." (dec <$> oc)) =
  match v with
  | isV2 v => (a =? v2_major v) && (b =? v2_minor v) &&
              match oc with Some c => c =? v2_patch v | None => true end
  | isV1 v => match oc with
              | Some c => (a =? v1_major v) && (b =? v1_minor v) && (c =? v1_patch v)
              | None => false
              end
  | isFb _ => false
  end.
Proof using Hq.
  intros Hv Ha Hb Hc. unfold i64_max in *. destruct v as [v|v|v]; [| |done]; cbn [semanticMatch].
  - unfold v2_semanticMatch, v2_parse. rewrite loose_parse_numbers; unfold u64_max; try lia.
    2: intros c E; specialize (Hc c E); lia.
    unfold v2_of_semver. cbn. unfold i64_max in *. rewrite !(i64_small a), !(i64_small b) by (unfold i64_max; lia).
    destruct oc as [c|]; cbn.
    + specialize (Hc c eq_refl). rewrite i64_small by (unfold i64_max; lia).
      by destruct (c =? v2_patch v).
    + done.
  - unfold v1_semanticMatch. destruct oc as [c|].
    + specialize (Hc c eq_refl).
      assert (E : v1_parse (v1_toString (mkV1 a b c None)) = Ok (mkV1 a b c None)).
      { apply v1_print_parse. unfold wf_v1, i64_max. cbn. lia. }
      rewrite v1_toString_text in E. unfold v1_text in E. cbn in E. rewrite app_nil_r in E.
      cbn. rewrite E. cbn. by rewrite andb_true_r.
    + cbn. rewrite app_nil_r, v1_match_pair by lia. done.
Qed.
End fallback.

(** ** Concrete versions *)

#[local] Existing Instance qt_model.
#[local] Existing Instance qt_model_ok.

Lemma version_parse_print_witness :
  version_parse (lit "1.2.3.4") default_options = Ok (isV1 (mkV1 1 2 3 (Some 4))) /\
  (hasTweak (isV1 (mkV1 1 2 3 (Some 4))) = true /\
   version_parse (ver_toString (isV1 (mkV1 1 2 3 (Some 4)))) default_options = Ok (isV1 (mkV1 1 2 3 (Some 4)))).
Proof.
  assert (H : version_parse (lit "1.2.3.4") default_options = Ok (isV1 (mkV1 1 2 3 (Some 4))))
    by (vm_compute; reflexivity).
  split; [exact H|]. exact (version_parse_print _ _ H).
Defined.

Definition example_v1 : Version := isV1 (mkV1 1 2 3 (Some 4)).
Definition example_v2 : Version := isV2 (v2_of_semver example_version).
Definition example_v2' : Version := isV2 (mkV2 1 2 4 [] [] 0 true).

Lemma example_parsed : parsed63 example_v1 /\ parsed63 example_v2 /\ parsed63 example_v2'.
Proof.
  split; [|split].
  - unfold example_v1, parsed63, wf_v1, i64_max. cbn. by split; [lia|].
  - exists example_version. unfold i64_max. cbn. split_and!; try lia; [apply example_wf|done].
  - exists (mkVersion 1 2 4 pre_empty [] 0 true). unfold i64_max. cbn. split_and!; try lia; [|by vm_compute].
    unfold wf_version, u64_max. cbn. split_and!; try lia; [by split|by left].
Qed.

Lemma version_order_witness :
  (ver_lt example_v2 example_v1 = true /\ ver_lt example_v1 example_v2' = true) /\
  ver_lt example_v2 example_v2' = true.
Proof.
  assert (H : ver_lt example_v2 example_v1 = true /\ ver_lt example_v1 example_v2' = true)
    by (vm_compute; split; reflexivity).
  split; [exact H|]. destruct example_parsed as (P1 & P2 & P3).
  exact (proj1 (version_order example_v2 example_v1 example_v2' P2 P1 P3) (proj1 H) (proj2 H)).
Defined.

(** A number of [2^63] is large among semantic versions, and negative beside
    a version of four numbers. *)
Example large_number_order :
  match version_parse (lit "2.0.0") default_options, version_parse (lit "9223372036854775808.0.0") default_options,
        version_parse (lit "1.0.0.0") default_options with
  | Ok a, Ok b, Ok d => ver_lt a b = true /\ ver_lt b d = true /\ ver_lt a d = false
  | _, _, _ => False
  end.
Proof. vm_compute. done. Qed.

Lemma fb_numeric_order_witness :
  Forall numeric_part [lit "1"; lit "10"] /\
  fb_lt (mkFb [lit "1"; lit "9"]) (mkFb [lit "1"; lit "10"]) = true.
Proof.
  assert (H : Forall numeric_part [lit "1"; lit "10"]) by (repeat constructor; by vm_compute).
  split; [exact H|].
  exact (proj1 (fb_numeric_order (mkFb [lit "1"; lit "9"]) (mkFb [lit "1"; lit "10"])
    ltac:(repeat constructor; by vm_compute) H)).
Defined.

Lemma fallback_order_cycle_witness : exists a b c,
  version_parse (lit "2") default_options = Ok a /\
  version_parse (lit "10") default_options = Ok b /\
  version_parse (lit "1a") default_options = Ok c /\
  ver_lt a b = true /\ ver_lt b c = true /\ ver_lt c a = true.
Proof. exact (@fallback_order_cycle qt_model qt_model_ok). Defined.

Lemma fuzzy_numbers_witness :
  parsed63 example_v2 /\ semanticMatch example_v2 (lit "1.2") = true.
Proof.
  split; [exact (proj1 (proj2 example_parsed))|].
  exact (fuzzy_numbers example_v2 1 2 None (proj1 (proj2 example_parsed))
    ltac:(unfold i64_max; lia) ltac:(unfold i64_max; lia) ltac:(done)).
Defined.
