(* ===== verification/Reference.v ===== *)
(** * References ([package/architecture], [reference], [fuzzy_reference])

    [Architecture] is the enumeration with its names, [Reference] a full
    [channel:id/version/architecture] and [FuzzyReference] one whose channel,
    version and architecture may be missing. *)
From S2P Require Import Prelude Qt Types Semver Version.

(** ** [Architecture] *)

Inductive Architecture := UNKNOW | X86_64 | ARM64 | LOONGARCH64 | LOONG64 | SW64 | MIPS64.

#[export] Instance Architecture_eq_dec : EqDecision Architecture.
Proof. solve_decision. Defined.

Definition arch_toStdString (a : Architecture) : str :=
  match a with
  | X86_64 => lit "x86_64"
  | ARM64 => lit "arm64"
  | LOONGARCH64 => lit "loongarch64"
  | LOONG64 => lit "loong64"
  | SW64 => lit "sw64"
  | MIPS64 => lit "mips64"
  | UNKNOW => lit "unknown"
  end.

Definition getTriplet (a : Architecture) : str :=
  match a with
  | UNKNOW => lit "unknown"
  | X86_64 => lit "x86_64-linux-gnu"
  | ARM64 => lit "aarch64-linux-gnu"
  | LOONG64 => lit "loongarch64-linux-gnu"
  | SW64 => lit "sw_64-linux-gnu"
  | LOONGARCH64 => lit "loongarch64-linux-gnu"
  | MIPS64 => lit "mips64el-linux-gnuabi64"
  end.

Definition arch_parse (raw : str) : result Architecture :=
  if bool_decide (raw = lit "x86_64") then Ok X86_64
  else if bool_decide (raw = lit "arm64") then Ok ARM64
  else if bool_decide (raw = lit "loongarch64") then Ok LOONGARCH64
  else if bool_decide (raw = lit "loong64") then Ok LOONG64
  else if bool_decide (raw = lit "sw64") then Ok SW64
  else if bool_decide (raw = lit "mips64") then Ok MIPS64
  else Err err_default.

(** [e_flags] of the running executable; [None] when it cannot be read or is
    no ELF file. *)
Definition isNewWorldLoongArch (e_flags : option Z) : bool :=
  match e_flags with
  | Some flags => Z.land (Z.shiftr flags 6) 1 =? 1
  | None => false
  end.

(** [cpu] is what [QSysInfo::currentCpuArchitecture] says. *)
Definition currentCPUArchitecture (cpu : str) (e_flags : option Z) : result Architecture :=
  let arch := if bool_decide (cpu = lit "sw_64") then lit "sw64" else cpu in
  let arch :=
    if bool_decide (arch = lit "loongarch64") || bool_decide (arch = lit "loong64")
    then if isNewWorldLoongArch e_flags then lit "loong64" else lit "loongarch64"
    else arch in
  arch_parse arch.

(** ** [Reference] *)

Record Reference := mkRef {
  ref_channel : str;
  ref_id : str;
  ref_version : Version;
  ref_arch : Architecture
}.

Definition ref_create (channel id : str) (version : Version) (arch : Architecture) : result Reference :=
  if bool_decide (channel = []) then Err err_default
  else if bool_decide (id = []) then Err err_default
  else Ok (mkRef channel id version arch).

Definition ref_toString (r : Reference) : str :=
  ref_channel r ++ lit ":" ++ ref_id r ++ lit "/" ++ ver_toString (ref_version r) ++ lit "/"
  ++ arch_toStdString (ref_arch r).

(** [([^:]+):([^\/]+)\/([^\/]+)\/([^\/]+)], neither end anchored *)
Definition re_reference : regex :=
  rcat [RGroup 1 (RPlus (RChr (not_chr ":"))); chr ":"; RGroup 2 (RPlus (RChr (not_chr "/"))); chr "/";
        RGroup 3 (RPlus (RChr (not_chr "/"))); chr "/"; RGroup 4 (RPlus (RChr (not_chr "/")))].

(** Anchored: an optional channel (anything but colons) and a colon, an id, an
    optional slash and version, after it an optional slash and architecture;
    the last three are anything but slashes and may be empty. *)
Definition re_fuzzy_body : regex :=
  rcat [RGroup 2 (RStar (RChr (not_chr "/")));
        ROpt (RSeq (chr "/") (RSeq (RGroup 3 (RStar (RChr (not_chr "/"))))
          (ROpt (RSeq (chr "/") (RGroup 4 (RStar (RChr (not_chr "/"))))))));
        REol].
Definition re_fuzzy : regex :=
  RSeq RBol (RSeq (ROpt (RSeq (RGroup 1 (RStar (RChr (not_chr ":")))) (chr ":"))) re_fuzzy_body).

Record BuilderProjectPackage := mkBuilderPackage {
  bp_architecture : option str;
  bp_channel : option str;
  bp_id : str;
  bp_version : str
}.

(** ** [FuzzyReference] *)

Record FuzzyReference := mkFuzzy {
  fz_channel : option str;
  fz_id : str;
  fz_version : option str;
  fz_arch : option Architecture
}.

Definition fuzzy_create (channel : option str) (id : str) (version : option str)
    (arch : option Architecture) : result FuzzyReference :=
  if bool_decide (channel = Some []) then Err ec_Unknown
  else if bool_decide (id = []) then Err ec_Unknown
  else Ok (mkFuzzy channel id version arch).

Definition fuzzy_toString (f : FuzzyReference) : str :=
  default (lit "unknown") (fz_channel f) ++ lit ":" ++ fz_id f ++ lit "/"
  ++ default (lit "unknown") (fz_version f) ++ lit "/"
  ++ match fz_arch f with Some a => arch_toStdString a | None => lit "unknown" end.

(** A captured text that is missing, empty or ["unknown"] stands for nothing. *)
Definition known (s : str) : option str :=
  if bool_decide (s = []) || bool_decide (s = lit "unknown") then None else Some s.

Section references.
Context `{Qt}.

Definition ref_parse (raw : str) : result Reference :=
  match re_match re_reference raw with
  | None => Err err_default
  | Some m =>
      let cap i := default [] (captured m i) in
      version <-r version_parse (cap 3%nat) default_options ;;
      arch <-r arch_parse (cap 4%nat) ;;
      ref_create (cap 1%nat) (cap 2%nat) version arch
  end.

(** [info.arch[0]] of an empty list is undefined. *)
Definition ref_fromPackageInfo (info : PackageInfoV2) : result Reference :=
  version <-r version_parse (pi_version info) default_options ;;
  if isVersionV1 version && negb (hasTweak version) then Err err_default
  else
    architecture <-r (match pi_arch info with
                      | a :: _ => arch_parse a
                      | [] => Err terminated
                      end) ;;
    ref_create (pi_channel info) (pi_id info) version architecture.

(** [operator!=] and [operator==] *)
Definition ref_ne (lhs rhs : Reference) : bool :=
  negb (bool_decide (ref_channel lhs = ref_channel rhs)) ||
  negb (bool_decide (ref_id lhs = ref_id rhs)) ||
  negb (ver_eq (ref_version lhs) (ref_version rhs)) ||
  negb (bool_decide (ref_arch lhs = ref_arch rhs)).
Definition ref_eq (lhs rhs : Reference) : bool := negb (ref_ne lhs rhs).

(** A [QVariantMap] of strings. *)
Definition toVariantMap (r : Reference) : list (str * str) :=
  [(lit "arch", arch_toStdString (ref_arch r)); (lit "channel", ref_channel r);
   (lit "id", ref_id r); (lit "version", ver_toString (ref_version r))].

(** A missing key reads as JSON null, whose conversion to a string throws. *)
Definition fromVariantMap (data : list (str * str)) : result Reference :=
  let get k := res_of_option terminated (snd <$> List.find (fun p => bool_decide (fst p = k)) data) in
  rawVersion <-r get (lit "version") ;;
  version <-r version_parse rawVersion default_options ;;
  rawArch <-r get (lit "arch") ;;
  arch <-r arch_parse rawArch ;;
  channel <-r get (lit "channel") ;;
  id <-r get (lit "id") ;;
  ref_create channel id version arch.

(** [current] is [Architecture::currentCPUArchitecture()]. *)
Definition fromBuilderProject (current : result Architecture) (p : BuilderProjectPackage) : result Reference :=
  version <-r version_parse (bp_version p) default_options ;;
  architecture <-r (match bp_architecture p with
                    | Some a => arch_parse a
                    | None => current
                    end) ;;
  let channel := match bp_channel p with Some c => c | None => lit "main" end in
  ref_create channel (bp_id p) version architecture.

Definition fuzzy_parse (raw : str) : result FuzzyReference :=
  match re_match re_fuzzy raw with
  | None => Err ec_InvalidFuzzyReference
  | Some m =>
      let cap i := default [] (captured m i) in
      let channel := known (cap 1%nat) in
      let version := known (cap 3%nat) in
      let architectureStr := cap 4%nat in
      if negb (bool_decide (architectureStr = [])) && negb (bool_decide (architectureStr = lit "unknown")) then
        match arch_parse architectureStr with
        | Ok a => fuzzy_create channel (cap 2%nat) version (Some a)
        | Err _ => Err ec_UnknownArchitecture
        end
      else fuzzy_create channel (cap 2%nat) version None
  end.

End references.

(** ** Architectures *)

Lemma arch_parse_print a : a <> UNKNOW -> arch_parse (arch_toStdString a) = Ok a.
Proof. by destruct a. Qed.

Lemma arch_parse_inv s a : arch_parse s = Ok a -> s = arch_toStdString a /\ a <> UNKNOW.
Proof. unfold arch_parse. repeat case_bool_decide; intros; by simplify_eq. Qed.

Lemma arch_noslash a : "/"%char ∉ arch_toStdString a.
Proof. apply (bool_decide_unpack _). by destruct a. Qed.

Lemma arch_nonempty a : arch_toStdString a <> [].
Proof. by destruct a. Qed.

(** ** Printed versions *)

Section texts.
Context {q : Qt} {Hq : QtOk q}.

Lemma parsed_text s v : version_parse s default_options = Ok v -> (forall f, v <> isFb f) ->
  version_parse (ver_toString v) default_options = Ok v /\ exists u, s = ver_toString v ++ u.
Proof using Hq.
  intros H Hf. destruct v as [v|v|v]; [| |by destruct (Hf v)].
  - destruct (version_parse_v2 s v H) as (w & Hw & Hh & -> & Hp). split; [done|].
    unfold version_parse, default_options in H. cbn [strict fallback negb] in H.
    destruct (v2_parse s true) eqn:E; [|by repeat case_match].
    apply v2_strict_inv in E as (w' & Hw' & _ & -> & u & _ & ->). assert (E : v2_of_semver w' = v2_of_semver w) by congruence.
    exists u. simpl. rewrite <- E. by rewrite v2_toString_of_semver.
  - destruct (version_parse_v1 s v H) as (Hw & Ht & Hp). split; [done|].
    unfold version_parse, default_options in H. cbn [strict fallback negb] in H.
    destruct (v2_parse s true); [done|]. destruct (v1_parse s) eqn:E; [|by repeat case_match].
    injection H as ->. apply v1_parse_inv in E as (_ & u & _ & ->). by exists u.
Qed.

Lemma version_parse_empty : version_parse [] default_options = Err err_default.
Proof using Hq.
  unfold version_parse, v2_parse, semver_parse, v1_parse. cbn [strict fallback default_options].
  by rewrite !re_match_spec.
Qed.
End texts.

(** ** Parsing references *)

Definition slash_stop (s : str) : Prop := s = [] \/ exists t, s = "/"%char :: t.

Lemma slash_stop_spec s x t : slash_stop s -> s = x :: t -> not_chr "/" x = false.
Proof. intros [->|[u ->]]; [done|]. by intros [= <- _]. Qed.

Section reference_parsing.
Context {q : Qt} {Hq : QtOk q}.

Lemma ref_match ch id v a rest :
  ch <> [] -> ":"%char ∉ ch -> id <> [] -> "/"%char ∉ id -> v <> [] -> "/"%char ∉ v ->
  a <> [] -> "/"%char ∉ a -> slash_stop rest ->
  re_match re_reference (ch ++ ":"%char :: id ++ "/"%char :: v ++ "/"%char :: a ++ rest) =
  Some [(4%nat, a); (3%nat, v); (2%nat, id); (1%nat, ch)].
Proof using Hq.
  intros Hch Fch Hid Fid Hv Fv Ha Fa Hr. rewrite re_match_spec.
  rewrite <- not_chr_free in Fch, Fid, Fv, Fa.
  set (s := ch ++ _). assert (E : bt re_reference (length s) s [] bt_done =
    Some [(4%nat, a); (3%nat, v); (2%nat, id); (1%nat, ch)]).
  { unfold s at 2, re_reference, rcat.
    rewrite bt_seq. apply bt_group_plus; [done|done|by intros ?? [= <- _]|]. rewrite bt_seq, bt_lit.
    rewrite bt_seq. apply bt_group_plus; [done|done|by intros ?? [= <- _]|]. rewrite bt_seq, bt_lit.
    rewrite bt_seq. apply bt_group_plus; [done|done|by intros ?? [= <- _]|]. rewrite bt_seq, bt_lit.
    apply bt_group_plus; [done|done| |done]. intros x t. by apply slash_stop_spec. }
  rewrite rsearch_start; [exact E|by rewrite E].
Qed.

Definition piece (d : ascii) (w : str) : Prop := w <> [] /\ d ∉ w.

Lemma rm_piece n i d r s c s' c' :
  rm n (RSeq (RGroup i (RPlus (RChr (not_chr d)))) r) s c s' c' ->
  exists w s1, s = w ++ s1 /\ piece d w /\ rm n r s1 ((i, w) :: c) s' c'.
Proof.
  intros (s1 & c1 & H1 & H)%rm_seq_iff. apply rm_group_iff in H1 as (w & -> & -> & Hw); [|done].
  apply lang_plus_class in Hw as [Hne Hw]. apply not_chr_free in Hw. exists w, s1. done.
Qed.

Lemma ref_match_inv s c : re_match re_reference s = Some c ->
  exists ch id v a, c = [(4%nat, a); (3%nat, v); (2%nat, id); (1%nat, ch)] /\
    piece ":" ch /\ piece "/" id /\ piece "/" v /\ piece "/" a.
Proof using Hq.
  rewrite re_match_spec. intros (p & s0 & s' & -> & H)%rsearch_sound. revert H.
  generalize (length (p ++ s0)) as n. intros n H. unfold re_reference, rcat in H.
  apply rm_piece in H as (ch & s1 & -> & Hch & H). apply rm_lit_seq in H as (s2 & -> & H).
  apply rm_piece in H as (id & s3 & -> & Hid & H). apply rm_lit_seq in H as (s4 & -> & H).
  apply rm_piece in H as (v & s5 & -> & Hv & H). apply rm_lit_seq in H as (s6 & -> & H).
  apply rm_group_iff in H as (a & -> & -> & Ha); [|done].
  apply lang_plus_class in Ha as [Hne Ha]. apply not_chr_free in Ha. by exists ch, id, v, a.
Qed.

Definition wf_reference (r : Reference) : Prop :=
  piece ":" (ref_channel r) /\ piece "/" (ref_id r) /\ piece "/" (ver_toString (ref_version r)) /\
  version_parse (ver_toString (ref_version r)) default_options = Ok (ref_version r) /\
  ref_arch r <> UNKNOW.

Lemma ref_parse_print r rest : wf_reference r -> slash_stop rest ->
  ref_parse (ref_toString r ++ rest) = Ok r.
Proof using Hq.
  intros ([Hch Fch] & [Hid Fid] & [Hv Fv] & Hp & Ha) Hr. unfold ref_parse, ref_toString. lassoc.
  rewrite ref_match; try done; [|apply arch_nonempty|apply arch_noslash].
  cbn. rewrite Hp. cbn. rewrite arch_parse_print by done. cbn. unfold ref_create.
  rewrite !bool_decide_false by done. by destruct r.
Qed.

Lemma ref_parse_wf s r : ref_parse s = Ok r -> (forall f, ref_version r <> isFb f) -> wf_reference r.
Proof using Hq.
  unfold ref_parse. destruct (re_match re_reference s) as [c|] eqn:E; [|done].
  apply ref_match_inv in E as (ch & id & v & a & -> & Hch & Hid & Hv & Ha). cbn.
  destruct (version_parse v default_options) as [ver|] eqn:Ev; [|done]. cbn.
  destruct (arch_parse a) as [ar|] eqn:Ea; [|done]. cbn. unfold ref_create.
  case_bool_decide; [done|]. case_bool_decide; [done|]. intros [= <-] Hf. cbn in Hf.
  destruct (parsed_text v ver Ev Hf) as [Hp [u ->]]. apply arch_parse_inv in Ea as [_ Ea].
  unfold wf_reference. cbn. split_and!; try done. destruct Hv as [Hne Hv]. split; [|set_solver].
  intros E. rewrite E in Hp. by rewrite version_parse_empty in Hp.
Qed.

(** C39: a parsed reference (with a semantic or four-number version) prints to a
    text that parses to it again, and so does that text followed by a slash
    and anything: the pattern is not anchored at the end. *)
Theorem reference_parse_print s r rest : ref_parse s = Ok r -> (forall f, ref_version r <> isFb f) ->
  rest = [] \/ (exists junk, rest = "/"%char :: junk) -> ref_parse (ref_toString r ++ rest) = Ok r.
Proof using Hq. intros H Hf Hr. apply ref_parse_print; [by apply (ref_parse_wf s)|exact Hr]. Qed.

(** A reference survives every way the code stores it: the string map, and
    the version, channel, id and architecture of a package record. *)
Theorem reference_stored s r info : ref_parse s = Ok r -> (forall f, ref_version r <> isFb f) ->
  pi_channel info = ref_channel r -> pi_id info = ref_id r ->
  pi_version info = ver_toString (ref_version r) ->
  head (pi_arch info) = Some (arch_toStdString (ref_arch r)) ->
  fromVariantMap (toVariantMap r) = Ok r /\ ref_fromPackageInfo info = Ok r.
Proof using Hq.
  intros H Hf Hc Hi Hv Ha. pose proof (ref_parse_wf s r H Hf) as ([Hch _] & [Hid _] & _ & Hp & Har).
  assert (Hcr : ref_create (ref_channel r) (ref_id r) (ref_version r) (ref_arch r) = Ok r).
  { unfold ref_create. rewrite !bool_decide_false by done. by destruct r. }
  split.
  - change (fromVariantMap (toVariantMap r)) with
      (version <-r version_parse (ver_toString (ref_version r)) default_options ;;
       arch <-r arch_parse (arch_toStdString (ref_arch r)) ;;
       ref_create (ref_channel r) (ref_id r) version arch).
    rewrite Hp. cbn. by rewrite arch_parse_print.
  - unfold ref_fromPackageInfo. rewrite Hv, Hp. cbn [res_bind].
    assert (Ht : isVersionV1 (ref_version r) && negb (hasTweak (ref_version r)) = false).
    { destruct (ref_version r) as [|v|]; [done| |done].
      apply version_parse_v1 in Hp as (_ & Ht & _). simpl.
      by rewrite bool_decide_true by (by apply not_eq_None_Some). }
    rewrite Ht. destruct (pi_arch info) as [|a l]; [done|]. injection Ha as ->.
    rewrite arch_parse_print by done. cbn. by rewrite Hc, Hi.
Qed.

End reference_parsing.

(** ** Fuzzy references *)

(** The text before the first [d] and the one after it. *)
Definition cut_at (d : ascii) (s : str) : option (str * str) :=
  match find_char d s with
  | Some i => Some (take i s, drop (S i) s)
  | None => None
  end.

Lemma cut_at_some d s a b : cut_at d s = Some (a, b) -> s = a ++ d :: b /\ d ∉ a.
Proof.
  unfold cut_at. destruct (find_char d s) as [i|] eqn:E; [|done]. intros [= <- <-]. revert i E.
  induction s as [|x s IH]; intros i E; [done|]. simpl in E. case_decide as Hx.
  - injection E as <-. subst. split; [done|]. apply not_elem_of_nil.
  - destruct (find_char d s) as [j|]; [|done]. injection E as <-. destruct (IH j eq_refl) as [E Hn].
    simpl. rewrite E at 1. split; [done|]. apply not_elem_of_cons. auto.
Qed.

Lemma cut_at_none d s : cut_at d s = None -> d ∉ s.
Proof.
  unfold cut_at. destruct (find_char d s) as [i|] eqn:E; [done|]. intros _.
  induction s as [|x s IH]; [apply not_elem_of_nil|]. simpl in E. case_decide; [done|].
  destruct (find_char d s); [done|]. apply not_elem_of_cons. auto.
Qed.

Lemma cut_at_app d a b : d ∉ a -> cut_at d (a ++ d :: b) = Some (a, b).
Proof.
  intros H. destruct (cut_at d (a ++ d :: b)) as [[a' b']|] eqn:E.
  - apply cut_at_some in E as [E H']. apply not_chr_free in H, H'.
    apply (cut_unique (not_chr d)) in E as [-> E]; [by injection E as ->|done|done|..];
      intros x t [= <- _]; unfold not_chr; by rewrite bool_decide_true.
  - apply cut_at_none in E. set_solver.
Qed.

(** The groups of id, version and architecture, when there are at most three pieces. *)
Definition piece_caps (ps : list str) : option caps :=
  match ps with
  | [i] => Some [(2%nat, i)]
  | [i; v] => Some [(3%nat, v); (2%nat, i)]
  | [i; v; a] => Some [(4%nat, a); (3%nat, v); (2%nat, i)]
  | _ => None
  end.

Lemma fuzzy_body_bt n s c cs : piece_caps (split_on "/" s) = Some cs ->
  bt re_fuzzy_body n s c bt_done = Some (cs ++ c).
Proof.
  intros H. pose proof (join_split "/" s) as E. pose proof (split_on_free "/" s) as F.
  unfold re_fuzzy_body, rcat.
  destruct (split_on "/" s) as [|i [|v [|a [|]]]]; try done; injection H as <-; simpl in E; subst s;
    rewrite !Forall_cons in F; rewrite <- ?not_chr_free in F; rewrite bt_seq.
  - rewrite <- (app_nil_r i) at 1. apply bt_group_star; [apply F|done|]. done.
  - apply bt_group_star; [apply F|by intros ?? [= <- _]|]. rewrite bt_seq. apply bt_opt_some.
    rewrite bt_seq, bt_lit, bt_seq. rewrite <- (app_nil_r v) at 1. apply bt_group_star; [apply F|done|]. done.
  - apply bt_group_star; [apply F|by intros ?? [= <- _]|]. rewrite bt_seq. apply bt_opt_some.
    rewrite bt_seq, bt_lit, bt_seq. apply bt_group_star; [apply F|by intros ?? [= <- _]|].
    apply bt_opt_some. rewrite bt_seq, bt_lit. rewrite <- (app_nil_r a) at 1.
    apply bt_group_star; [apply F|done|]. done.
Qed.

Lemma split_on_length d s : length (split_on d s) = S (length (filter (fun x => x = d) s)).
Proof.
  induction s as [|x s IH]; [done|]. cbn [split_on]. rewrite filter_cons. case_decide; simpl.
  - by rewrite IH.
  - destruct (split_on d s) as [|p ps] eqn:E; [by destruct (split_on_nonempty d s)|]. done.
Qed.

Lemma filter_free d (w : str) : d ∉ w -> filter (fun x => x = d) w = [].
Proof.
  induction w as [|x w IH]; [done|]. intros [Hx Hw]%not_elem_of_cons.
  rewrite filter_cons_False by done. auto.
Qed.

Lemma slashes_free (w s : str) : "/"%char ∉ w -> length (split_on "/" (w ++ s)) = length (split_on "/" s).
Proof. intros H. by rewrite !split_on_length, filter_app, filter_free. Qed.

(** A text the id, version and architecture part matches has at most three pieces. *)
Lemma fuzzy_body_pieces n s c s' c' : rm n re_fuzzy_body s c s' c' ->
  (length (split_on "/" s) <= 3)%nat.
Proof.
  assert (Eol : forall u c1, rm n REol u c1 s' c' -> length (split_on "/" u) = 1%nat).
  { intros u c1 H. by apply rm_eol_iff in H as ([->| ->] & _). }
  assert (Grp : forall i r u c1 u' c2, rm n (RSeq (RGroup i (RStar (RChr (not_chr "/")))) r) u c1 u' c2 ->
    exists w u1 c3, length (split_on "/" u) = length (split_on "/" u1) /\ u = w ++ u1 /\ rm n r u1 c3 u' c2).
  { intros i r u c1 u' c2 (u1 & c3 & H1 & H)%rm_seq_iff. apply rm_group_iff in H1 as (w & -> & -> & Hw); [|done].
    apply lang_star_class, not_chr_free in Hw. exists w, u1. eexists. by rewrite slashes_free. }
  assert (Sl : forall u, length (split_on "/" ("/"%char :: u)) = S (length (split_on "/" u))) by done.
  unfold re_fuzzy_body, rcat. intros (w & u1 & c1 & -> & _ & H)%Grp.
  apply rm_seq_iff in H as (u2 & c2 & Ho & H). apply Eol in H.
  apply rm_opt_iff in Ho as [Ho|[-> ->]]; [|lia]. apply rm_lit_seq in Ho as (u3 & -> & Ho).
  apply Grp in Ho as (w' & u4 & c4 & E & _ & Ho). rewrite Sl, E.
  apply rm_opt_iff in Ho as [Ho|[-> ->]]; [|lia]. apply rm_lit_seq in Ho as (u5 & -> & Ho).
  apply rm_group_iff in Ho as (w5 & -> & -> & Hw); [|done]. apply lang_star_class, not_chr_free in Hw.
  rewrite Sl, slashes_free by done. lia.
Qed.

Section fuzzy_parsing.
Context {q : Qt} {Hq : QtOk q}.

(** The channel and what follows it. *)
Definition fuzzy_cut (s : str) : str * str := default ([], s) (cut_at ":" s).

Lemma fuzzy_match s :
  match piece_caps (split_on "/" (snd (fuzzy_cut s))) with
  | Some cs => exists m, re_match re_fuzzy s = Some m /\ captured m 2 = captured cs 2 /\
      captured m 3 = captured cs 3 /\ captured m 4 = captured cs 4 /\
      default [] (captured m 1) = fst (fuzzy_cut s)
  | None => re_match re_fuzzy s = None
  end.
Proof using Hq.
  rewrite re_match_spec. destruct (piece_caps _) as [cs|] eqn:E.
  - assert (Hcs : forall c0, captured (cs ++ c0) 2 = captured cs 2 /\
      (captured c0 3 = None -> captured (cs ++ c0) 3 = captured cs 3) /\
      (captured c0 4 = None -> captured (cs ++ c0) 4 = captured cs 4) /\ captured (cs ++ c0) 1 = captured c0 1).
    { intros c0. destruct (split_on _ _) as [|i [|v [|a [|]]]]; try done; by injection E as <-. }
    unfold fuzzy_cut in *. destruct (cut_at ":" s) as [[ch rest]|] eqn:Ec; cbn [default fst snd] in *.
    + apply cut_at_some in Ec as [-> Hch]. apply not_chr_free in Hch. exists (cs ++ [(1%nat, ch)]).
      destruct (Hcs [(1%nat, ch)]) as (-> & H3 & H4 & ->). rewrite H3, H4 by done. split_and!; try done.
      set (s := ch ++ ":"%char :: rest).
      assert (B : bt re_fuzzy (length s) s [] bt_done = Some (cs ++ [(1%nat, ch)])).
      { unfold re_fuzzy. rewrite bt_seq, bt_bol, bt_seq. apply bt_opt_some. rewrite bt_seq.
        unfold s at 2. apply bt_group_star; [done|by intros ?? [= <- _]|].
        rewrite bt_lit. by apply fuzzy_body_bt. }
      rewrite rsearch_start; [exact B|by rewrite B].
    + apply cut_at_none in Ec. exists (cs ++ []).
      destruct (Hcs []) as (-> & H3 & H4 & ->). rewrite H3, H4 by done. split_and!; try done.
      assert (B : bt re_fuzzy (length s) s [] bt_done = Some (cs ++ [])).
      { unfold re_fuzzy. rewrite bt_seq, bt_bol, bt_seq. rewrite bt_opt_none; [by apply fuzzy_body_bt|].
        intros s' c' (s1 & c1 & H1 & H2)%rm_seq_iff. apply rm_lit_iff in H2 as [-> _].
        apply rm_group_iff in H1 as (w & -> & _); [|done]. apply Ec, elem_of_app. right. apply list_elem_of_here. }
      rewrite rsearch_start; [exact B|by rewrite B].
  - destruct (rsearch re_fuzzy s) as [c|] eqn:Em; [exfalso|done].
    apply rsearch_anchored in Em as (s' & Hm). apply rm_seq_iff in Hm as (s1 & c1 & Ho & Hm).
    assert (Hlen : (length (split_on "/" (snd (fuzzy_cut s))) <= length (split_on "/" s1))%nat).
    { apply rm_opt_iff in Ho as [Ho|[-> ->]].
      - apply rm_seq_iff in Ho as (s2 & c2 & Hg & Hl). apply rm_lit_iff in Hl as [-> ->].
        apply rm_group_iff in Hg as (w & -> & -> & Hw); [|done]. apply lang_star_class, not_chr_free in Hw.
        unfold fuzzy_cut. by rewrite cut_at_app.
      - unfold fuzzy_cut. destruct (cut_at ":" s) as [[a b]|] eqn:Ec; [|done]. cbn.
        apply cut_at_some in Ec as [-> _]. rewrite !split_on_length, filter_app, filter_cons, length_app.
        case_decide; simpl; lia. }
    apply fuzzy_body_pieces in Hm. pose proof (split_on_nonempty "/" (snd (fuzzy_cut s))).
    destruct (split_on "/" (snd _)) as [|i [|v [|a [|]]]]; try done. simpl in Hlen. lia.
Qed.

Lemma fuzzy_parse_eq s :
  fuzzy_parse s =
  let '(ch, rest) := fuzzy_cut s in
  let finish i v a :=
    match known a with
    | Some a' => match arch_parse a' with
                 | Ok ar => fuzzy_create (known ch) i (known v) (Some ar)
                 | Err _ => Err ec_UnknownArchitecture
                 end
    | None => fuzzy_create (known ch) i (known v) None
    end in
  match split_on "/" rest with
  | [i] => finish i [] []
  | [i; v] => finish i v []
  | [i; v; a] => finish i v a
  | _ => Err ec_InvalidFuzzyReference
  end.
Proof using Hq.
  pose proof (fuzzy_match s) as H. destruct (fuzzy_cut s) as [ch rest]. cbn [fst snd] in H.
  assert (K : forall a (f : Architecture -> result FuzzyReference) e x,
    (if negb (bool_decide (a = [])) && negb (bool_decide (a = lit "unknown"))
     then match arch_parse a with Ok ar => f ar | Err _ => e end else x) =
    match known a with
    | Some a' => match arch_parse a' with Ok ar => f ar | Err _ => e end
    | None => x
    end).
  { intros a f e x. unfold known. by destruct (bool_decide (a = [])), (bool_decide (a = lit "unknown")). }
  unfold fuzzy_parse. destruct (piece_caps _) as [cs|] eqn:E.
  - destruct H as (m & -> & H2 & H3 & H4 & ->). rewrite H2, H3, H4, K.
    destruct (split_on _ _) as [|i [|v [|a [|]]]]; try done; by injection E as <-.
  - rewrite H. destruct (split_on _ _) as [|i [|v [|a [|]]]]; done.
Qed.
(** Parsing a fuzzy reference is: cut the channel off at the first colon,
    split the rest at slashes into one, two or three pieces, read empty and
    ["unknown"] pieces as absent, and look the architecture up. *)
Theorem fuzzy_parse_spec s :
  fuzzy_parse s =
  let '(ch, rest) := fuzzy_cut s in
  let finish i v a :=
    match known a with
    | Some a' => match arch_parse a' with
                 | Ok ar => fuzzy_create (known ch) i (known v) (Some ar)
                 | Err _ => Err ec_UnknownArchitecture
                 end
    | None => fuzzy_create (known ch) i (known v) None
    end in
  match split_on "/" rest with
  | [i] => finish i [] []
  | [i; v] => finish i v []
  | [i; v; a] => finish i v a
  | _ => Err ec_InvalidFuzzyReference
  end.
Proof using Hq. apply fuzzy_parse_eq. Qed.

Definition wf_fuzzy (f : FuzzyReference) : Prop :=
  opt_all (fun c => piece ":" c /\ c <> lit "unknown") (fz_channel f) /\
  piece "/" (fz_id f) /\
  opt_all (fun v => piece "/" v /\ v <> lit "unknown") (fz_version f) /\
  fz_arch f <> Some UNKNOW.

Lemma known_default (P : str -> Prop) o : opt_all (fun s => (s <> [] /\ P s) /\ s <> lit "unknown") o ->
  known (default (lit "unknown") o) = o.
Proof.
  destruct o as [s|]; simpl; [|done]. intros [[Hne _] Hu]. unfold known.
  by rewrite !bool_decide_false by done.
Qed.

(** A fuzzy reference prints ["unknown"] for what it lacks and the text
    parses back to it. *)
Theorem fuzzy_parse_print f : wf_fuzzy f -> fuzzy_parse (fuzzy_toString f) = Ok f.
Proof using Hq.
  intros (Hch & [Hid Fid] & Hv & Ha). rewrite fuzzy_parse_eq. unfold fuzzy_toString.
  set (ch := default _ (fz_channel f)). set (v := default _ (fz_version f)).
  set (a := match fz_arch f with Some _ => _ | None => _ end).
  assert (Fch : ":"%char ∉ ch).
  { unfold ch. destruct (fz_channel f) as [c|]; [apply Hch|]. apply (bool_decide_unpack _). done. }
  assert (Fv : "/"%char ∉ v).
  { unfold v. destruct (fz_version f) as [w|]; [apply Hv|]. apply (bool_decide_unpack _). done. }
  assert (Fa : "/"%char ∉ a).
  { unfold a. destruct (fz_arch f); [apply arch_noslash|]. apply (bool_decide_unpack _). done. }
  lassoc. unfold fuzzy_cut. rewrite cut_at_app by done. cbn [default fz_channel from_option id]. cbv beta iota zeta.
  rewrite split_on_app, split_on_app, (split_on_none _ a) by done.
  unfold v, ch. rewrite (known_default _ _ Hch), (known_default _ _ Hv).
  assert (Hc : forall ar, ar = fz_arch f -> fuzzy_create (fz_channel f) (fz_id f) (fz_version f) ar = Ok f).
  { intros ar ->. unfold fuzzy_create. rewrite !bool_decide_false; [by destruct f|done|].
    intros E. rewrite E in Hch. by destruct Hch as [[? _] _]. }
  unfold a. destruct (fz_arch f) as [ar|] eqn:Ear; [|by apply Hc].
  destruct (decide (ar = UNKNOW)) as [->|Hne]; [done|].
  assert (E : known (arch_toStdString ar) = Some (arch_toStdString ar)) by (by destruct ar).
  rewrite E, arch_parse_print by done. by apply Hc.
Qed.
End fuzzy_parsing.

(** ** Concrete references *)

#[local] Existing Instance qt_model.
#[local] Existing Instance qt_model_ok.

Definition example_ref : Reference := mkRef (lit "main") (lit "org.deepin.demo") example_v1 X86_64.

Lemma reference_parse_print_witness :
  ref_parse (lit "main:org.deepin.demo/1.2.3.4/x86_64") = Ok example_ref /\
  ref_parse (ref_toString example_ref ++ lit "/junk") = Ok example_ref.
Proof.
  assert (H : ref_parse (lit "main:org.deepin.demo/1.2.3.4/x86_64") = Ok example_ref)
    by (vm_compute; reflexivity).
  split; [exact H|].
  exact (reference_parse_print _ _ (lit "/junk") H ltac:(done) ltac:(right; by eexists)).
Defined.

Definition example_info : PackageInfoV2 :=
  mkInfo [lit "x86_64"] (lit "main:org.deepin.base/25.2.0/x86_64") (lit "main") None None None None None
    (lit "org.deepin.demo") (lit "app") (lit "binary") (lit "demo") None (lit "1.0") 0 None (lit "1.2.3.4").

Lemma reference_stored_witness :
  ref_parse (lit "main:org.deepin.demo/1.2.3.4/x86_64") = Ok example_ref /\
  (fromVariantMap (toVariantMap example_ref) = Ok example_ref /\
   ref_fromPackageInfo example_info = Ok example_ref).
Proof.
  assert (H : ref_parse (lit "main:org.deepin.demo/1.2.3.4/x86_64") = Ok example_ref)
    by (vm_compute; reflexivity).
  split; [exact H|].
  exact (reference_stored _ _ example_info H ltac:(done) eq_refl eq_refl ltac:(vm_compute; reflexivity) eq_refl).
Defined.

Lemma fuzzy_parse_spec_witness :
  fuzzy_parse (lit "main:org.deepin.demo/1.2") =
  Ok (mkFuzzy (Some (lit "main")) (lit "org.deepin.demo") (Some (lit "1.2")) None).
Proof. exact (fuzzy_parse_spec (lit "main:org.deepin.demo/1.2")). Defined.

Definition example_fuzzy : FuzzyReference :=
  mkFuzzy None (lit "org.deepin.demo") (Some (lit "1.2")) (Some ARM64).

Lemma fuzzy_parse_print_witness :
  wf_fuzzy example_fuzzy /\ fuzzy_parse (fuzzy_toString example_fuzzy) = Ok example_fuzzy.
Proof.
  assert (H : wf_fuzzy example_fuzzy).
  { split; [done|]. split; [split; [done|by apply (bool_decide_unpack _)]|].
    split; [|done]. split; [split; [done|by apply (bool_decide_unpack _)]|done]. }
  split; [exact H|exact (fuzzy_parse_print _ H)].
Defined.
