(* ===== verification/RepoConfig.v ===== *)
(** * Repository configuration ([repo/config.cpp])

    Loading (with conversion of version-1 files), saving and querying the list
    of configured repositories.  YAML parsing and printing are library code and
    parameters here.  Dereferencing the end iterator of a failed search is
    undefined; the model says [terminated] (or [None]) there. *)
From S2P Require Import Prelude Types.

(** [repo.alias.value_or(repo.name)] *)
Definition repo_alias (r : Repo) : str := default (r_name r) (r_alias r).

Definition is_default (cfg : RepoConfigV2) (r : Repo) : bool :=
  bool_decide (repo_alias r = c2_defaultRepo cfg).

Definition getDefaultRepo (cfg : RepoConfigV2) : option Repo :=
  List.find (is_default cfg) (c2_repos cfg).

(** The loop of [convertToV2] over the other repositories. *)
Fixpoint convert_rest (defaultRepo : str) (priority : Z) (repos : list (str * str)) : list Repo :=
  match repos with
  | [] => []
  | (name, url) :: rest =>
      if bool_decide (name = defaultRepo) then convert_rest defaultRepo priority rest
      else mkRepo None None name priority url :: convert_rest defaultRepo (priority - 100) rest
  end.

Definition convertToV2 (cfg : RepoConfig) : result RepoConfigV2 :=
  match List.find (fun r => bool_decide (fst r = c1_defaultRepo cfg)) (c1_repos cfg) with
  | None => Err terminated
  | Some (name, url) =>
      let priority := 0 in
      let first := mkRepo None None name priority url in
      Ok (mkRepoConfigV2 (c1_defaultRepo cfg)
            (first :: convert_rest (c1_defaultRepo cfg) (priority - 100) (c1_repos cfg)) 2)
  end.

(** [std::min_element] and [std::max_element] by priority. *)
Fixpoint min_element (best : Repo) (l : list Repo) : Repo :=
  match l with
  | [] => best
  | r :: l' => min_element (if r_priority r <? r_priority best then r else best) l'
  end.

Fixpoint max_element (best : Repo) (l : list Repo) : Repo :=
  match l with
  | [] => best
  | r :: l' => max_element (if r_priority best <? r_priority r then r else best) l'
  end.

Definition getRepoMinPriority (cfg : RepoConfigV2) : option Z :=
  match c2_repos cfg with [] => None | r :: l => Some (r_priority (min_element r l)) end.

Definition getRepoMaxPriority (cfg : RepoConfigV2) : option Z :=
  match c2_repos cfg with [] => None | r :: l => Some (r_priority (max_element r l)) end.

(** The YAML library: [None] is a failed parse. *)
Class Yaml := {
  load_v2 : str -> option RepoConfigV2;
  load_v1 : str -> option RepoConfig;
  to_yaml : RepoConfigV2 -> str
}.

Section files.
Context `{Yaml}.

(** The files of the system; [None] when the file cannot be opened. *)
Definition files := str -> option str.

Definition loadConfig (fs : files) (file : str) : result RepoConfigV2 :=
  match fs file with
  | None => Err err_default
  | Some text =>
      match load_v2 text with
      | Some c => Ok c
      | None => match load_v1 text with
                | Some c1 => convertToV2 c1
                | None => Err err_default
                end
      end
  end.

(** The overload on a list of files: the first that loads. *)
Fixpoint loadConfig_list (fs : files) (l : list str) : result RepoConfigV2 :=
  match l with
  | [] => Err err_default
  | f :: l' =>
      match loadConfig fs f with
      | Ok c => Ok c
      | Err e => if e =? terminated then Err terminated else loadConfig_list fs l'
      end
  end.

(** The end of a save: the file cannot be opened; an exception, which is caught,
    comes when [n] characters are in the file; or the write has ended, with all
    of the text ([None]) or a part of it in the file, which the code does not look
    at. *)
Inductive save_end := NotOpened | Thrown (n : nat) | Saved (n : option nat).

Definition put_file (fs : files) (path text : str) : files := fun p => if decide (p = path) then Some text else fs p.
Definition part_of (n : option nat) (text : str) : str := match n with None => text | Some n => take n text end.

Definition saveConfig (fs : files) (cfg : RepoConfigV2) (path : str) (e : save_end) : files * result unit :=
  if negb (existsb (is_default cfg) (c2_repos cfg)) then (fs, Err err_default)
  else
    match e with
    | NotOpened => (fs, Err err_default)
    | Thrown n => (put_file fs path (take n (to_yaml cfg)), Err err_default)
    | Saved n => (put_file fs path (part_of n (to_yaml cfg)), Ok tt)
    end.

End files.

(** ** Conversion *)

Lemma convert_rest_repos d l k :
  (fun r => (r_name r, r_url r)) <$> convert_rest d k l = filter (fun p => fst p <> d) l.
Proof.
  revert k. induction l as [|[name url] l IH]; intros k; [done|]. cbn [convert_rest].
  destruct (bool_decide_reflect (name = d)) as [E|E].
  - rewrite filter_cons_False by (intros F; by apply F). apply IH.
  - rewrite filter_cons_True by done. rewrite fmap_cons. simpl. f_equal. apply IH.
Qed.

Lemma convert_rest_priority d l k :
  r_priority <$> convert_rest d k l = imap (fun i _ => k - 100 * Z.of_nat i) (convert_rest d k l).
Proof.
  revert k. induction l as [|[name url] l IH]; intros k; [done|]. cbn [convert_rest].
  destruct (bool_decide (name = d)); [apply IH|]. rewrite fmap_cons, imap_cons, IH. cbn [r_priority].
  f_equal; [lia|]. apply imap_ext. intros i x _. cbn. lia.
Qed.

Lemma convert_rest_max d l k b : r_priority b = 0 -> k < 0 ->
  r_priority (max_element b (convert_rest d k l)) = 0.
Proof.
  revert k b. induction l as [|[name url] l IH]; intros k b Hb Hk; [done|]. cbn [convert_rest].
  destruct (bool_decide (name = d)); [by apply IH|]. cbn [max_element r_priority]. rewrite Hb.
  destruct (Z.ltb_spec 0 k); [lia|]. apply IH; [done|lia].
Qed.

Lemma find_unique (l : list (str * str)) d url : NoDup l.*1 -> (d, url) ∈ l ->
  List.find (fun r => bool_decide (fst r = d)) l = Some (d, url).
Proof.
  induction l as [|[n u] l IH]; [by intros _ ?%not_elem_of_nil|].
  rewrite fmap_cons. intros [Hn Hl]%NoDup_cons [E|E]%elem_of_cons; simpl.
  - injection E as <- <-. by rewrite bool_decide_true.
  - rewrite bool_decide_false; [by apply IH|]. intros ->. apply Hn. by apply (list_elem_of_fmap_2 fst _ (d, url)).
Qed.

Lemma remove_default_perm (l : list (str * str)) d url : NoDup l.*1 -> (d, url) ∈ l ->
  (d, url) :: filter (fun p => fst p <> d) l ≡ₚ l.
Proof.
  induction l as [|[n u] l IH]; [by intros _ ?%not_elem_of_nil|].
  rewrite fmap_cons. intros [Hn Hl]%NoDup_cons [E|E]%elem_of_cons.
  - injection E as <- <-. rewrite filter_cons_False by (simpl; intros F; by apply F).
    f_equiv. assert (F : Forall (fun p : str * str => fst p <> d) l).
    { apply Forall_forall. intros p Hp E. apply Hn. simpl. rewrite <- E. by apply list_elem_of_fmap_2. }
    clear -F. induction F as [|p l Hp F IH]; [done|].
    rewrite filter_cons_True by done. by f_equiv.
  - rewrite filter_cons_True.
    + rewrite Permutation_swap. f_equiv. by apply IH.
    + simpl. intros ->. apply Hn. by apply (list_elem_of_fmap_2 fst _ (d, url)).
Qed.

(** Converting a version-1 configuration whose default repository exists
    keeps every repository exactly once with its name and url, puts the default
    one first with priority 0 and gives the others priorities -100, -200, ...;
    the result is one that [saveConfig] accepts and [getDefaultRepo] answers. *)
Theorem convertToV2_spec cfg url : NoDup (c1_repos cfg).*1 -> (c1_defaultRepo cfg, url) ∈ c1_repos cfg ->
  exists cfg2, convertToV2 cfg = Ok cfg2 /\
    c2_version cfg2 = 2 /\ c2_defaultRepo cfg2 = c1_defaultRepo cfg /\
    (fun r => (r_name r, r_url r)) <$> c2_repos cfg2 ≡ₚ c1_repos cfg /\
    r_priority <$> c2_repos cfg2 = imap (fun i _ => - 100 * Z.of_nat i) (c2_repos cfg2) /\
    getDefaultRepo cfg2 = Some (mkRepo None None (c1_defaultRepo cfg) 0 url) /\
    getRepoMaxPriority cfg2 = Some 0.
Proof.
  intros Hd Hin. unfold convertToV2. rewrite (find_unique _ _ _ Hd Hin).
  eexists. split; [done|].
  cbn [c2_version c2_defaultRepo c2_repos]. split_and!; [done|done| | | |].
  - rewrite fmap_cons, convert_rest_repos. by apply remove_default_perm.
  - rewrite fmap_cons, imap_cons, convert_rest_priority. cbn [r_priority]. f_equal.
    apply imap_ext. intros i x _. unfold compose. lia.
  - unfold getDefaultRepo, is_default, repo_alias. simpl. by rewrite bool_decide_true.
  - unfold getRepoMaxPriority. cbn [c2_repos]. f_equal. by apply convert_rest_max.
Qed.

Definition example_config : RepoConfig :=
  mkRepoConfig (lit "stable") [(lit "beta", lit "https://b"); (lit "stable", lit "https://s"); (lit "test", lit "https://t")] 1.

Lemma convertToV2_spec_witness :
  (lit "stable", lit "https://s") ∈ c1_repos example_config /\
  exists cfg2, convertToV2 example_config = Ok cfg2 /\
    c2_version cfg2 = 2 /\ c2_defaultRepo cfg2 = lit "stable" /\
    (fun r => (r_name r, r_url r)) <$> c2_repos cfg2 ≡ₚ c1_repos example_config /\
    r_priority <$> c2_repos cfg2 = imap (fun i _ => - 100 * Z.of_nat i) (c2_repos cfg2) /\
    getDefaultRepo cfg2 = Some (mkRepo None None (lit "stable") 0 (lit "https://s")) /\
    getRepoMaxPriority cfg2 = Some 0.
Proof.
  assert (H : (lit "stable", lit "https://s") ∈ c1_repos example_config)
    by (apply (bool_decide_unpack _); vm_compute; exact I).
  split; [exact H|].
  exact (convertToV2_spec example_config (lit "https://s") ltac:(apply (bool_decide_unpack _); vm_compute; exact I) H).
Defined.
