(* ===== verification/RepoCache.v ===== *)
(** * The repository cache ([repo/repo_cache])

    [RepoCache] keeps the list of installed layers in memory and mirrors it in
    the file [states.json].  The JSON library, the OSTree repository and the
    outcomes of file operations are parameters. *)
From S2P Require Import Prelude Qt Types Semver Version.

(** ** Parameters *)

(** The JSON library: its texts, printing, the first characters of a text, and
    parsing what was printed. *)
Class Json := {
  json_text : Type;
  json_dump : RepositoryCache -> json_text;
  json_take : nat -> json_text -> json_text;
  json_load : json_text -> option RepositoryCache;
  json_load_dump : forall c, json_load (json_dump c) = Some c
}.

(** The outcomes of the file operations of one [writeToDisk]; [we_data]: how much
    of the text gets into the file ([None]: all of it), which the code does not
    look at. *)
Record write_env := mkEnv {
  we_parent_exists : bool;
  we_open_tmp : bool;
  we_data : option nat;
  we_rename : bool;
  we_open_tag : bool
}.

Definition all_good : write_env := mkEnv true true None true true.

(** What the OSTree library says of the repository: its refs, and for a ref its
    commit and the parsed [info.json] of it. *)
Record ostree := mkOstree {
  os_refs : result (list str);
  os_commit : str -> option (str * option PackageInfoV2)
}.

(** ** State *)

(** The object and the two files it writes. *)
Record RepoCache `{Json} := mkRC {
  cache : RepositoryCache;
  states_json : option json_text;
  version_tag : option str
}.
Arguments mkRC {_} cache states_json version_tag.

Definition set_cache `{Json} (c : RepositoryCache) (s : RepoCache) : RepoCache :=
  mkRC c (states_json s) (version_tag s).

Definition with_layers (c : RepositoryCache) (l : list RepositoryCacheLayersItem) : RepositoryCache :=
  mkRepositoryCache (rc_config c) l (rc_llVersion c) (rc_merged c) (rc_version c).

Record repoCacheQuery := mkQuery {
  q_id : option str;
  q_repo : option str;
  q_channel : option str;
  q_version : option str;
  q_module : option str;
  q_uuid : option str;
  q_deleted : option bool
}.

(** ** Matching and querying *)

(** [arch.front()] of an empty list is undefined; here it is [None]. *)
Definition same_item (item val : RepositoryCacheLayersItem) : bool :=
  bool_decide (l_commit item = l_commit val) && bool_decide (l_repo item = l_repo val) &&
  bool_decide (pi_channel (l_info item) = pi_channel (l_info val)) &&
  bool_decide (pi_id (l_info item) = pi_id (l_info val)) &&
  bool_decide (pi_version (l_info item) = pi_version (l_info val)) &&
  bool_decide (head (pi_arch (l_info item)) = head (pi_arch (l_info val))) &&
  bool_decide (packageInfoV2Module (l_info item) = packageInfoV2Module (l_info val)).

(** The iterator is an index. *)
Fixpoint find_index {A} (f : A -> bool) (l : list A) : option nat :=
  match l with
  | [] => None
  | x :: l' => if f x then Some O else S <$> find_index f l'
  end.

Definition findMatchingItem `{Json} (s : RepoCache) (item : RepositoryCacheLayersItem) : result nat :=
  res_of_option err_default (find_index (same_item item) (rc_layers (cache s))).

Definition opt_ok {A} `{EqDecision A} (query : option A) (value : A) : bool :=
  match query with Some v => bool_decide (v = value) | None => true end.

(** A layer without the field does not match a query that asks for it. *)
Definition opt_ok2 {A} `{EqDecision A} (query value : option A) : bool :=
  match query with
  | Some v => match value with Some w => bool_decide (v = w) | None => false end
  | None => true
  end.

Definition query_match (query : repoCacheQuery) (layer : RepositoryCacheLayersItem) : bool :=
  opt_ok (q_id query) (pi_id (l_info layer)) && opt_ok (q_repo query) (l_repo layer) &&
  opt_ok (q_channel query) (pi_channel (l_info layer)) &&
  opt_ok (q_version query) (pi_version (l_info layer)) &&
  opt_ok (q_module query) (packageInfoV2Module (l_info layer)) &&
  opt_ok2 (q_deleted query) (l_deleted layer) && opt_ok2 (q_uuid query) (pi_uuid (l_info layer)).

Section repo_cache.
Context `{Qt} `{StdSort} `{Json}.

(** The version of the package manager itself ([LINGLONG_VERSION]). *)
Variable ll_version : str.

Definition cacheFileVersion : str := lit "2".

(** The comparator of [std::sort]: newest first. *)
Definition newer (lhs rhs : RepositoryCacheLayersItem) : bool :=
  match version_parse (pi_version (l_info lhs)) default_options with
  | Err _ => false
  | Ok lhsVersion =>
      match version_parse (pi_version (l_info rhs)) default_options with
      | Err _ => false
      | Ok rhsVersion => ver_gt lhsVersion rhsVersion
      end
  end.

Definition queryLayerItem (s : RepoCache) (query : repoCacheQuery) : list RepositoryCacheLayersItem :=
  std_sort newer (List.filter (query_match query) (rc_layers (cache s))).

Definition queryExistingLayerItem (s : RepoCache) : list RepositoryCacheLayersItem :=
  List.filter (fun item => negb (default false (l_deleted item))) (rc_layers (cache s)).

Definition queryMergedItems (s : RepoCache) : option (list RepositoryCacheMergedItem) :=
  rc_merged (cache s).

(** ** Writing *)

(** What gets into the file. *)
Definition written (e : write_env) (text : json_text) : json_text :=
  match we_data e with None => text | Some n => json_take n text end.

Definition writeToDisk (e : write_env) (s : RepoCache) : RepoCache * result unit :=
  if negb (we_parent_exists e) then (s, Err err_default)
  else if negb (we_open_tmp e) then (s, Err err_default)
  else if negb (we_rename e) then (s, Err err_default)
  else
    let s := mkRC (cache s) (Some (written e (json_dump (cache s)))) (version_tag s) in
    if negb (we_open_tag e) then (s, Ok tt)
    else (mkRC (cache s) (states_json s) (Some ll_version), Ok tt).

Definition addLayerItem (e : write_env) (s : RepoCache) (item : RepositoryCacheLayersItem) : RepoCache * result unit :=
  match findMatchingItem s item with
  | Ok _ => (s, Err err_default)
  | Err _ => writeToDisk e (set_cache (with_layers (cache s) (rc_layers (cache s) ++ [item])) s)
  end.

Definition deleteLayerItem (e : write_env) (s : RepoCache) (item : RepositoryCacheLayersItem) : RepoCache * result unit :=
  match findMatchingItem s item with
  | Err c => (s, Err c)
  | Ok it => writeToDisk e (set_cache (with_layers (cache s) (delete it (rc_layers (cache s)))) s)
  end.

Definition updateMergedItems (e : write_env) (s : RepoCache) (items : list RepositoryCacheMergedItem) : RepoCache * result unit :=
  let c := cache s in
  writeToDisk e (set_cache
    (mkRepositoryCache (rc_config c) (rc_layers c) (rc_llVersion c) (Some items) (rc_version c)) s).

(** ** Building *)

Fixpoint rebuild_layers (repo : ostree) (refs : list str) : list RepositoryCacheLayersItem :=
  match refs with
  | [] => []
  | ref :: rest =>
      match find_char ":" ref with
      | None => rebuild_layers repo rest
      | Some pos =>
          match os_commit repo ref with
          | None => rebuild_layers repo rest
          | Some (_, None) => rebuild_layers repo rest
          | Some (commit, Some info) =>
              mkLayer commit None info (take pos ref) :: rebuild_layers repo rest
          end
      end
  end.

(** [is_root]: [getuid() == 0].  The merged items stay as they are. *)
Definition rebuildCache (e : write_env) (is_root : bool) (repoConfig : RepoConfigV2) (repo : ostree)
    (s : RepoCache) : RepoCache * result unit :=
  let start := mkRepositoryCache repoConfig [] ll_version (rc_merged (cache s)) cacheFileVersion in
  match os_refs repo with
  | Err c => (set_cache start s, Err c)
  | Ok refs =>
      let s := set_cache (with_layers start (rebuild_layers repo refs)) s in
      if is_root then (s, Ok tt) else writeToDisk e s
  end.

(** A default-constructed cache. *)
Definition empty_cache : RepositoryCache :=
  mkRepositoryCache (mkRepoConfigV2 [] [] 0) [] [] None [].

(** [exists_]: the answer of [std::filesystem::exists] on the cache file. *)
Definition create (e : write_env) (is_root : bool) (exists_ : result bool) (states : option json_text) (tag : option str)
    (repoConfig : RepoConfigV2) (repo : ostree) : RepoCache * result unit :=
  let s := mkRC empty_cache states tag in
  match exists_ with
  | Err c => (s, Err c)
  | Ok false => rebuildCache e is_root repoConfig repo s
  | Ok true =>
      match states ≫= json_load with
      | None => rebuildCache e is_root repoConfig repo s
      | Some c =>
          let s := set_cache c s in
          if negb (bool_decide (rc_version c = cacheFileVersion)) || negb (bool_decide (rc_llVersion c = ll_version))
          then rebuildCache e is_root repoConfig repo s
          else (set_cache (mkRepositoryCache repoConfig (rc_layers c) (rc_llVersion c) (rc_merged c) (rc_version c)) s, Ok tt)
      end
  end.

End repo_cache.

(** ** Identity of layers *)

(** What two records must share to be the same layer. *)
Definition item_key (l : RepositoryCacheLayersItem) : str * str * str * str * str * option str * str :=
  (l_commit l, l_repo l, pi_channel (l_info l), pi_id (l_info l), pi_version (l_info l),
   head (pi_arch (l_info l)), packageInfoV2Module (l_info l)).

Lemma same_item_key a b : same_item a b = bool_decide (item_key a = item_key b).
Proof.
  unfold same_item, item_key. symmetry. case_bool_decide as E.
  - injection E as -> -> -> -> -> -> ->. by rewrite !bool_decide_true.
  - symmetry. apply not_true_is_false. intros Ht. apply E. bsplit. congruence.
Qed.

Definition unique_layers (c : RepositoryCache) : Prop := NoDup (item_key <$> rc_layers c).

Lemma find_index_some {A} (f : A -> bool) l i : find_index f l = Some i ->
  exists l1 x l2, l = l1 ++ x :: l2 /\ length l1 = i /\ f x = true /\ Forall (fun y => f y = false) l1.
Proof.
  revert i. induction l as [|y l IH]; intros i H; [done|]. simpl in H. destruct (f y) eqn:E.
  - injection H as <-. by exists [], y, l.
  - destruct (find_index f l) as [j|]; [|done]. injection H as <-.
    destruct (IH j eq_refl) as (l1 & x & l2 & -> & <- & Hx & Hl). exists (y :: l1), x, l2. auto.
Qed.

Lemma find_index_none {A} (f : A -> bool) l : find_index f l = None -> Forall (fun y => f y = false) l.
Proof.
  induction l as [|y l IH]; [done|]. simpl. destruct (f y) eqn:E; [done|].
  destruct (find_index f l); [done|]. auto.
Qed.

Lemma find_matching `{Json} s item :
  match findMatchingItem s item with
  | Ok i => exists l1 x l2, rc_layers (cache s) = l1 ++ x :: l2 /\ length l1 = i /\ item_key x = item_key item
  | Err c => c = err_default /\ item_key item ∉ item_key <$> rc_layers (cache s)
  end.
Proof.
  unfold findMatchingItem. destruct (find_index _ _) as [i|] eqn:E; simpl.
  - apply find_index_some in E as (l1 & x & l2 & E & El & Hx & _). rewrite same_item_key in Hx. bsplit.
    exists l1, x, l2. auto.
  - split; [done|]. apply find_index_none in E. intros (x & Ex & Hx)%list_elem_of_fmap.
    rewrite Forall_forall in E. specialize (E x Hx). rewrite same_item_key, Ex in E.
    by rewrite bool_decide_true in E.
Qed.

Lemma delete_middle {A} (l1 : list A) x l2 : delete (length l1) (l1 ++ x :: l2) = l1 ++ l2.
Proof. induction l1 as [|y l1 IH]; simpl; [done|]. by f_equal. Qed.

Section cache_facts.
Context `{Qt} `{StdSort} {J : Json}.
Variable ll_version : str.

(** A write that is reported as a success, and one that is one: all of the data
    is there. *)
Definition write_ok (e : write_env) : bool := we_parent_exists e && we_open_tmp e && we_rename e.
Definition complete (e : write_env) : Prop := we_data e = None.

(** The file holds a cache without duplicates; it holds this very cache. *)
Definition disk_valid (s : RepoCache) : Prop :=
  exists c, (states_json s ≫= json_load) = Some c /\ unique_layers c.
Definition coherent (s : RepoCache) : Prop := (states_json s ≫= json_load) = Some (cache s).

Lemma write_cases e s :
  let '(s', r) := writeToDisk ll_version e s in
  cache s' = cache s /\
  (write_ok e = true /\ r = Ok tt /\ states_json s' = Some (written e (json_dump (cache s))) \/
   write_ok e = false /\ r = Err err_default /\ s' = s).
Proof.
  unfold writeToDisk, write_ok. destruct (we_parent_exists e), (we_open_tmp e), (we_rename e); simpl; auto.
  destruct (we_open_tag e); simpl; auto.
Qed.

(** ** The invariant *)

(** The operations that change a cache. *)
Inductive cache_op :=
| OpAdd (item : RepositoryCacheLayersItem)
| OpDelete (item : RepositoryCacheLayersItem)
| OpMerge (items : list RepositoryCacheMergedItem).

Definition run_op (e : write_env) (s : RepoCache) (op : cache_op) : RepoCache * result unit :=
  match op with
  | OpAdd i => addLayerItem ll_version e s i
  | OpDelete i => deleteLayerItem ll_version e s i
  | OpMerge l => updateMergedItems ll_version e s l
  end.

(** States reachable by operations whose writes end as [P] says. *)
Inductive reachable (P : write_env -> Prop) : RepoCache -> Prop :=
| reach_start s : unique_layers (cache s) -> disk_valid s -> reachable P s
| reach_step s e op : reachable P s -> P e -> reachable P (fst (run_op e s op)).

(** What one operation does to the layers in memory, and when it fails. *)
Lemma run_op_cases e s op :
  let '(s', r) := run_op e s op in
  (r = Err err_default /\ s' = s /\ match op with
     | OpAdd i => item_key i ∈ item_key <$> rc_layers (cache s)
     | OpDelete i => item_key i ∉ item_key <$> rc_layers (cache s)
     | OpMerge _ => write_ok e = false
     end \/
   exists c, cache s' = c /\ match op with
     | OpAdd i => (item_key i ∉ item_key <$> rc_layers (cache s)) /\ rc_layers c = rc_layers (cache s) ++ [i] /\
                  rc_merged c = rc_merged (cache s)
     | OpDelete i => (exists l1 x l2, rc_layers (cache s) = l1 ++ x :: l2 /\ item_key x = item_key i /\
                  rc_layers c = l1 ++ l2) /\ rc_merged c = rc_merged (cache s)
     | OpMerge l => rc_layers c = rc_layers (cache s) /\ rc_merged c = Some l
     end /\
     (write_ok e = true /\ r = Ok tt /\ states_json s' = Some (written e (json_dump c)) \/
      write_ok e = false /\ r = Err err_default /\ states_json s' = states_json s)).
Proof.
  assert (W : forall c, let '(s', r) := writeToDisk ll_version e (set_cache c s) in
    cache s' = c /\ (write_ok e = true /\ r = Ok tt /\ states_json s' = Some (written e (json_dump c)) \/
      write_ok e = false /\ r = Err err_default /\ states_json s' = states_json s)).
  { intros c. pose proof (write_cases e (set_cache c s)) as Hw. destruct (writeToDisk _ _ _) as [s' r].
    destruct Hw as [Hc [?|(? & ? & ->)]]; auto. }
  destruct op as [i|i|l]; cbn [run_op].
  - unfold addLayerItem. pose proof (find_matching s i) as Hf. destruct (findMatchingItem s i).
    + left. destruct Hf as (l1 & x & l2 & -> & _ & <-). split_and!; [done..|].
      rewrite fmap_app, fmap_cons. set_solver.
    + pose proof (W (with_layers (cache s) (rc_layers (cache s) ++ [i]))) as Hw.
      destruct (writeToDisk _ _ _) as [s' r]. right. eexists. split; [apply Hw|].
      split; [by destruct Hf as [_ Hf]|apply Hw].
  - unfold deleteLayerItem. pose proof (find_matching s i) as Hf. destruct (findMatchingItem s i) as [k|c].
    + pose proof (W (with_layers (cache s) (delete k (rc_layers (cache s))))) as Hw.
      destruct (writeToDisk _ _ _) as [s' r]. right. eexists. split; [apply Hw|].
      split; [|apply Hw]. destruct Hf as (l1 & x & l2 & E & <- & Hx). split; [|done].
      exists l1, x, l2. split_and!; [done|done|]. cbn. by rewrite E, delete_middle.
    + destruct Hf as [-> Hf]. by left.
  - unfold updateMergedItems. pose proof (W (mkRepositoryCache (rc_config (cache s)) (rc_layers (cache s))
      (rc_llVersion (cache s)) (Some l) (rc_version (cache s)))) as Hw.
    destruct (writeToDisk _ _ _) as [s' r]. right. eexists. split; [apply Hw|]. split; [done|apply Hw].
Qed.

Lemma run_op_unique e s op : unique_layers (cache s) -> unique_layers (cache (fst (run_op e s op))).
Proof.
  intros Hu. pose proof (run_op_cases e s op) as Hc. destruct (run_op e s op) as [s' r]. cbn [fst].
  destruct Hc as [(_ & -> & _)|(c & -> & Hop & _)]; [done|]. unfold unique_layers in *.
  destruct op as [i|i|l].
  - destruct Hop as (Hn & -> & _). rewrite fmap_app. apply NoDup_app. split; [done|]. split.
    + intros k Hk ->%list_elem_of_singleton. done.
    + apply NoDup_singleton.
  - destruct Hop as ((l1 & x & l2 & E & _ & ->) & _). rewrite E, fmap_app, fmap_cons in Hu.
    rewrite fmap_app. apply NoDup_app in Hu as (H1 & H2 & [_ H3]%NoDup_cons). apply NoDup_app.
    split_and!; [done| |done]. intros k Hk Hk'. apply (H2 k Hk). by right.
  - by destruct Hop as [-> _].
Qed.

(** C1: layers are added, deleted and merged, and writes of the file fail in any
    way.  The layers in memory are always free of duplicates.  An operation that
    reports success has put the text of the cache in memory into the file, as far
    as it got there: the write itself is not checked.  When none is cut short,
    the file always is readable and free of duplicates, and after a success it
    holds exactly the cache in memory. *)
Theorem cache_invariant P s e op : reachable P s ->
  let '(s', r) := run_op e s op in
  unique_layers (cache s) /\ unique_layers (cache s') /\
  (r = Ok tt -> states_json s' = Some (written e (json_dump (cache s')))) /\
  (r <> Ok tt -> states_json s' = states_json s) /\
  ((forall e', P e' -> complete e') -> disk_valid s /\ (complete e -> disk_valid s' /\ (r = Ok tt -> coherent s'))).
Proof.
  intros Hr. assert (Hu : unique_layers (cache s)).
  { induction Hr as [s Hu Hd|s e' op' Hr IH _]; [done|by apply run_op_unique]. }
  assert (Hstep : forall s e op, unique_layers (cache s) -> disk_valid s -> complete e -> disk_valid (fst (run_op e s op))).
  { clear. intros s e op Hu Hd Hc. pose proof (run_op_unique e s op Hu) as Hu'. pose proof (run_op_cases e s op) as Hop.
    destruct (run_op e s op) as [s' r]. cbn [fst] in *.
    destruct Hop as [(_ & -> & _)|(c & Ec & _ & [(_ & _ & E)|(_ & _ & E)])]; [done| |].
    - exists c. rewrite E. unfold written. rewrite Hc. cbn. rewrite json_load_dump. by rewrite <- Ec.
    - destruct Hd as (c' & E' & ?). exists c'. by rewrite E. }
  pose proof (run_op_unique e s op Hu) as Hu'. pose proof (run_op_cases e s op) as Hop.
  pose proof (Hstep s e op Hu) as Hse. destruct (run_op e s op) as [s' r]. cbn [fst] in *. split_and!; [done..| | |].
  - intros ->. destruct Hop as [(F & _)|(c & <- & _ & [(_ & _ & E)|(_ & F & _)])]; [done|exact E|done].
  - intros Hn. destruct Hop as [(_ & -> & _)|(c & <- & _ & [(_ & E & _)|(_ & _ & E)])]; [done|by destruct Hn|exact E].
  - intros HP. assert (Hd : disk_valid s).
    { clear -Hr HP Hstep. induction Hr as [s Hu Hd|s e' op' Hr IH HPe]; [done|]. apply Hstep; [|exact IH|by apply HP].
      clear -Hr. induction Hr as [s Hu Hd|s e op Hr IH _]; [done|by apply run_op_unique]. }
    split; [done|]. intros Hc. split; [by apply Hse|]. intros ->. unfold coherent.
    destruct Hop as [(F & _)|(c & <- & _ & [(_ & _ & E)|(_ & F & _)])]; [done| |done].
    rewrite E. unfold written. rewrite Hc. cbn. apply json_load_dump.
Qed.

(** Adding a new layer and deleting it again gives the old list of layers
    back; an operation whose write fails reports an error and leaves the file
    as it was, but keeps its change in memory. *)
Theorem cache_add_delete s item e : unique_layers (cache s) -> write_ok e = true ->
  item_key item ∉ item_key <$> rc_layers (cache s) ->
  let '(s1, r1) := addLayerItem ll_version e s item in
  let '(s2, r2) := deleteLayerItem ll_version e s1 item in
  r1 = Ok tt /\ r2 = Ok tt /\ rc_layers (cache s2) = rc_layers (cache s) /\
  (forall e', write_ok e' = false ->
     let '(s', r') := addLayerItem ll_version e' s item in
     r' = Err err_default /\ states_json s' = states_json s /\
     rc_layers (cache s') = rc_layers (cache s) ++ [item]).
Proof.
  intros Hu He Hn. pose proof (run_op_cases e s (OpAdd item)) as Ha. cbn [run_op] in Ha.
  destruct (addLayerItem ll_version e s item) as [s1 r1].
  pose proof (run_op_cases e s1 (OpDelete item)) as Hd. cbn [run_op] in Hd.
  destruct (deleteLayerItem ll_version e s1 item) as [s2 r2].
  destruct Ha as [(_ & _ & Hin)|(c & Ec & (_ & El & _) & [(_ & -> & _)|(F & _)])]; [done| |congruence].
  subst c. destruct Hd as [(_ & _ & Hin)|(c & Ec & ((l1 & x & l2 & E & Ex & El') & _) & [(_ & -> & _)|(F & _)])];
    [|subst c|congruence].
  { destruct Hin. rewrite El, fmap_app. set_solver. }
  split_and!; [done|done| |].
  - rewrite El'. rewrite El in E. destruct l2 as [|y l2 _] using rev_ind.
    + apply app_inj_tail in E as [-> _]. apply app_nil_r.
    + exfalso. change (l1 ++ x :: l2 ++ [y]) with (l1 ++ (x :: l2) ++ [y]) in E. rewrite app_assoc in E.
      apply app_inj_tail in E as [E ->]. apply Hn. rewrite E, <- Ex, fmap_app, fmap_cons. set_solver.
  - intros e' He'. pose proof (run_op_cases e' s (OpAdd item)) as Ha. cbn [run_op] in Ha.
    destruct (addLayerItem ll_version e' s item) as [s' r'].
    destruct Ha as [(_ & _ & Hin)|(c & Ec & (_ & El1 & _) & [(F & _)|(_ & -> & Es)])]; [done|congruence|].
    subst c. done.
Qed.

(** ** Queries *)

(** The version of a layer, when it is one that compares well. *)
Definition layer_version (l : RepositoryCacheLayersItem) (v : Version) : Prop :=
  version_parse (pi_version (l_info l)) default_options = Ok v /\ parsed63 v.

Definition comparable (l : list RepositoryCacheLayersItem) : Prop :=
  Forall (fun x => exists v, layer_version x v) l.

Lemma newer_cmp a b va vb : layer_version a va -> layer_version b vb ->
  newer a b = (ver_cmp vb va =? -1).
Proof. intros [Ea Pa] [Eb Pb]. unfold newer. rewrite Ea, Eb. by apply ver_gt_cmp. Qed.

Lemma newer_strict_weak l : comparable l -> strict_weak newer l.
Proof.
  unfold comparable. rewrite Forall_forall. intros H2. split.
  - intros x y Hx Hy. destruct (H2 x Hx) as [vx Ex], (H2 y Hy) as [vy Ey].
    rewrite (newer_cmp _ _ _ _ Ex Ey), (newer_cmp _ _ _ _ Ey Ex). rewrite (tw_anti _ tw_ver vy vx).
    zcase; (done || lia).
  - intros x y z Hx Hy Hz. destruct (H2 x Hx) as [vx Ex], (H2 y Hy) as [vy Ey], (H2 z Hz) as [vz Ez].
    rewrite (newer_cmp _ _ _ _ Ex Ey), (newer_cmp _ _ _ _ Ey Ez), (newer_cmp _ _ _ _ Ex Ez).
    pose proof (tw_trans _ tw_ver vx vy vz). rewrite (tw_anti _ tw_ver vx vy), (tw_anti _ tw_ver vy vz) in *.
    rewrite (tw_anti _ tw_ver vx vz) in *.
    pose proof (tw_range _ tw_ver vx vy). pose proof (tw_range _ tw_ver vy vz).
    pose proof (tw_range _ tw_ver vx vz). zcase; (done || lia).
Qed.

Lemma filter_comparable f l : comparable l -> comparable (List.filter f l).
Proof.
  unfold comparable. rewrite !Forall_forall. intros H2 x Hx. apply H2.
  apply list_elem_of_In, filter_In in Hx as [Hx _]. by apply list_elem_of_In.
Qed.

Lemma query_sorted s query : comparable (rc_layers (cache s)) ->
  queryLayerItem s query ≡ₚ List.filter (query_match query) (rc_layers (cache s)) /\
  StronglySorted (fun a b => newer b a = false) (queryLayerItem s query).
Proof.
  intros Hc. pose proof (newer_strict_weak _ (filter_comparable (query_match query) _ Hc)) as Hsw.
  split; [by apply std_sort_perm|by apply std_sort_sorted].
Qed.

(** What a query asks for, field by field. *)
Record asked_for (query : repoCacheQuery) (x : RepositoryCacheLayersItem) : Prop := {
  ask_id : forall v, q_id query = Some v -> pi_id (l_info x) = v;
  ask_repo : forall v, q_repo query = Some v -> l_repo x = v;
  ask_channel : forall v, q_channel query = Some v -> pi_channel (l_info x) = v;
  ask_version : forall v, q_version query = Some v -> pi_version (l_info x) = v;
  ask_module : forall v, q_module query = Some v -> packageInfoV2Module (l_info x) = v;
  ask_deleted : forall v, q_deleted query = Some v -> l_deleted x = Some v;
  ask_uuid : forall v, q_uuid query = Some v -> pi_uuid (l_info x) = Some v
}.

Lemma opt_ok_spec {A} `{EqDecision A} (query : option A) value : opt_ok query value = true <-> forall v, query = Some v -> value = v.
Proof. unfold opt_ok. destruct query as [v|]; [rewrite bool_decide_eq_true|]; naive_solver. Qed.

Lemma opt_ok2_spec {A} `{EqDecision A} (query value : option A) : opt_ok2 query value = true <-> forall v, query = Some v -> value = Some v.
Proof. unfold opt_ok2. destruct query as [v|], value as [w|]; rewrite ?bool_decide_eq_true; naive_solver. Qed.

Lemma query_match_spec query x : query_match query x = true <-> asked_for query x.
Proof.
  unfold query_match. rewrite !andb_true_iff, !opt_ok_spec, !opt_ok2_spec. split; [intros ((((((? & ?) & ?) & ?) & ?) & ?) & ?); by split|].
  intros []. tauto.
Qed.


(** Opening the cache again after an operation that reported success gives
    the same layers and merged items, with the configuration of the caller,
    when the file was written by the same version of the program. *)
Theorem cache_reopen e is_root s tag cfg repo : coherent s ->
  rc_version (cache s) = cacheFileVersion -> rc_llVersion (cache s) = ll_version ->
  let '(s', r) := create ll_version e is_root (Ok true) (states_json s) tag cfg repo in
  r = Ok tt /\ rc_layers (cache s') = rc_layers (cache s) /\
  rc_merged (cache s') = rc_merged (cache s) /\ rc_config (cache s') = cfg /\
  states_json s' = states_json s.
Proof.
  unfold coherent, create. intros -> Hv Hl. by rewrite Hv, Hl, !bool_decide_true.
Qed.

(** Rebuilding records the layers of the readable refs, in the order of the refs. *)
Definition ref_layer (repo : ostree) (ref : str) : option RepositoryCacheLayersItem :=
  match find_char ":" ref, os_commit repo ref with
  | Some pos, Some (commit, Some info) => Some (mkLayer commit None info (take pos ref))
  | _, _ => None
  end.

Lemma rebuild_layers_omap repo refs : rebuild_layers repo refs = omap (ref_layer repo) refs.
Proof.
  induction refs as [|ref refs IH]; [done|]. simpl. unfold ref_layer at 1.
  destruct (find_char ":" ref); [|done]. destruct (os_commit repo ref) as [[c [i|]]|]; simpl; by rewrite ?IH.
Qed.

(** An outdated, unreadable or missing file makes [create] rebuild: the layers
    are those of the readable refs, none marked deleted, and the merged items
    of an outdated file are kept although they may no longer fit. *)
Theorem cache_rebuild e exists_ states tag cfg repo refs : os_refs repo = Ok refs ->
  match exists_ with
  | Ok false => True
  | Ok true => match states ≫= json_load with
               | None => True
               | Some c => rc_version c <> cacheFileVersion \/ rc_llVersion c <> ll_version
               end
  | Err _ => False
  end ->
  let '(s', r) := create ll_version e true exists_ states tag cfg repo in
  r = Ok tt /\ rc_layers (cache s') = omap (ref_layer repo) refs /\
  Forall (fun l => l_deleted l = None) (rc_layers (cache s')) /\
  rc_llVersion (cache s') = ll_version /\ rc_config (cache s') = cfg /\
  rc_merged (cache s') =
    match exists_, (states ≫= json_load) with Ok true, Some c => rc_merged c | _, _ => None end.
Proof.
  intros Hr Hx. rewrite <- rebuild_layers_omap.
  assert (Hd : Forall (fun l => l_deleted l = None) (rebuild_layers repo refs)).
  { clear. induction refs as [|ref refs IH]; [constructor|]. simpl.
    destruct (find_char ":" ref); [|done]. destruct (os_commit repo ref) as [[c [i|]]|]; auto. }
  unfold create, rebuildCache. rewrite Hr. destruct exists_ as [[]|]; [|by split_and!|done].
  destruct (states ≫= json_load) as [c|]; [|by split_and!].
  assert (E : negb (bool_decide (rc_version c = cacheFileVersion)) || negb (bool_decide (rc_llVersion c = ll_version)) = true).
  { destruct Hx as [Hx|Hx]; rewrite (bool_decide_false _ Hx); [done|apply orb_true_r]. }
  rewrite E. by split_and!.
Qed.
End cache_facts.

(** ** Concrete caches

    A text is what it stands for; one that has been cut stands for nothing. *)

#[local] Existing Instance qt_model.
#[local] Existing Instance std_sort_model.

Definition json_model : Json := {|
  json_text := option RepositoryCache;
  json_dump := Some;
  json_take := fun _ _ => None;
  json_load := fun text => text;
  json_load_dump := fun c => eq_refl
|}.
#[local] Existing Instance json_model.

Definition layer_of (commit version : str) : RepositoryCacheLayersItem :=
  mkLayer commit None
    (mkInfo [lit "x86_64"] [] (lit "main") None None None None None
       (lit "org.deepin.demo") (lit "app") (lit "binary") (lit "demo") None (lit "1.0") 0 None version)
    (lit "stable").

Definition example_layers : list RepositoryCacheLayersItem :=
  [layer_of (lit "c1") (lit "1.0.0.1"); layer_of (lit "c2") (lit "1.2.3"); layer_of (lit "c3") (lit "1.0.0.2")].

Definition example_cache : RepositoryCache :=
  mkRepositoryCache (mkRepoConfigV2 (lit "stable") [] 2) example_layers (lit "1.9") (Some []) cacheFileVersion.

Definition example_state : RepoCache := mkRC example_cache (Some (Some example_cache)) None.

Definition example_query : repoCacheQuery :=
  mkQuery (Some (lit "org.deepin.demo")) None None None (Some (lit "binary")) None None.

Lemma example_comparable : comparable (rc_layers (cache example_state)).
Proof.
  repeat constructor.
  - exists (isV1 (mkV1 1 0 0 (Some 1))). split; [by vm_compute|]. unfold parsed63, wf_v1, i64_max. cbn. by split; [lia|].
  - exists (isV2 (mkV2 1 2 3 [] [] 0 true)). split; [by vm_compute|].
    exists (mkVersion 1 2 3 pre_empty [] 0 true). unfold i64_max. cbn. split_and!; try lia; [|by vm_compute].
    unfold wf_version, u64_max. cbn. split_and!; try lia; [by split|by left].
  - exists (isV1 (mkV1 1 0 0 (Some 2))). split; [by vm_compute|]. unfold parsed63, wf_v1, i64_max. cbn. by split; [lia|].
Qed.


Lemma example_unique : unique_layers example_cache.
Proof. apply (bool_decide_unpack _). by vm_compute. Qed.

Lemma example_reachable : reachable (lit "1.9") complete example_state.
Proof. apply reach_start; [exact example_unique|]. exists example_cache. split; [done|exact example_unique]. Qed.

Lemma cache_invariant_witness :
  reachable (lit "1.9") complete example_state /\
  coherent (fst (run_op (lit "1.9") all_good example_state (OpDelete (layer_of (lit "c2") (lit "1.2.3"))))).
Proof.
  split; [exact example_reachable|].
  pose proof (cache_invariant (lit "1.9") complete example_state all_good (OpDelete (layer_of (lit "c2") (lit "1.2.3")))
    example_reachable) as Hi.
  assert (E : snd (run_op (lit "1.9") all_good example_state (OpDelete (layer_of (lit "c2") (lit "1.2.3")))) = Ok tt)
    by (vm_compute; reflexivity).
  destruct (run_op _ _ _ _) as [s' r]. cbn [fst snd] in *. destruct Hi as (_ & _ & _ & _ & Hd).
  exact (proj2 (proj2 (Hd (fun e He => He)) eq_refl) E).
Defined.

(** A full disk: the operation succeeds, and the file cannot be read any more. *)
Example cut_short :
  let '(s, r) := run_op (lit "1.9") (mkEnv true true (Some 7%nat) true true) example_state (OpDelete (layer_of (lit "c2") (lit "1.2.3"))) in
  r = Ok tt /\ length (rc_layers (cache s)) = 2%nat /\ (states_json s ≫= json_load) = None.
Proof. vm_compute. split_and!; reflexivity. Qed.

Lemma cache_add_delete_witness :
  let new := layer_of (lit "c4") (lit "2.0.0") in
  (item_key new ∉ item_key <$> rc_layers (cache example_state)) /\
  let '(s1, r1) := addLayerItem (lit "1.9") all_good example_state new in
  let '(s2, r2) := deleteLayerItem (lit "1.9") all_good s1 new in
  r1 = Ok tt /\ r2 = Ok tt /\ rc_layers (cache s2) = rc_layers (cache example_state) /\
  (forall e', write_ok e' = false ->
     let '(s', r') := addLayerItem (lit "1.9") e' example_state new in
     r' = Err err_default /\ states_json s' = states_json example_state /\
     rc_layers (cache s') = rc_layers (cache example_state) ++ [new]).
Proof.
  assert (H : item_key (layer_of (lit "c4") (lit "2.0.0")) ∉ item_key <$> rc_layers (cache example_state))
    by (apply (bool_decide_unpack _); vm_compute; exact I).
  split; [exact H|].
  exact (cache_add_delete (lit "1.9") example_state (layer_of (lit "c4") (lit "2.0.0")) all_good
    example_unique eq_refl H).
Defined.

Definition example_ostree : ostree :=
  mkOstree (Ok [lit "stable:main/org.deepin.demo/1.0.0.1/x86_64/binary"; lit "noremote"])
    (fun _ => Some (lit "c1", Some (l_info (layer_of (lit "c1") (lit "1.0.0.1"))))).

Lemma cache_reopen_witness :
  coherent example_state /\
  let '(s', r) := create (lit "1.9") all_good false (Ok true) (states_json example_state) None
    (mkRepoConfigV2 (lit "beta") [] 2) example_ostree in
  r = Ok tt /\ rc_layers (cache s') = rc_layers (cache example_state) /\
  rc_merged (cache s') = rc_merged (cache example_state) /\
  rc_config (cache s') = mkRepoConfigV2 (lit "beta") [] 2 /\ states_json s' = states_json example_state.
Proof.
  split; [reflexivity|].
  exact (cache_reopen (lit "1.9") all_good false example_state None (mkRepoConfigV2 (lit "beta") [] 2)
    example_ostree eq_refl eq_refl eq_refl).
Defined.

Lemma cache_rebuild_witness :
  os_refs example_ostree = Ok [lit "stable:main/org.deepin.demo/1.0.0.1/x86_64/binary"; lit "noremote"] /\
  let '(s', r) := create (lit "1.10") all_good true (Ok true) (states_json example_state) None
    (mkRepoConfigV2 (lit "beta") [] 2) example_ostree in
  r = Ok tt /\
  rc_layers (cache s') = omap (ref_layer example_ostree) [lit "stable:main/org.deepin.demo/1.0.0.1/x86_64/binary"; lit "noremote"] /\
  Forall (fun l => l_deleted l = None) (rc_layers (cache s')) /\
  rc_llVersion (cache s') = lit "1.10" /\ rc_config (cache s') = mkRepoConfigV2 (lit "beta") [] 2 /\
  rc_merged (cache s') = Some [].
Proof.
  assert (Hv : rc_version example_cache <> cacheFileVersion \/ rc_llVersion example_cache <> lit "1.10")
    by (right; discriminate).
  split; [reflexivity|].
  exact (cache_rebuild (lit "1.10") all_good (Ok true) (states_json example_state) None
    (mkRepoConfigV2 (lit "beta") [] 2) example_ostree
    [lit "stable:main/org.deepin.demo/1.0.0.1/x86_64/binary"; lit "noremote"] eq_refl Hv).
Defined.
