(* ===== verification/OstreeRepo.v ===== *)
(** * The package repository ([repo/ostree_repo.cpp])

    [OSTreeRepo] resolves references to installed and remote packages, keeps
    the cache of installed layers and the repository configuration.  The state
    is the configuration in memory, the configuration file, the remotes of the
    OSTree repository, the server of the web client and the cache.  OSTree, the
    web client and the file system are parameters. *)
From S2P Require Import Prelude Qt Types Semver Version Reference RepoConfig RepoCache.

(** ** Names of OSTree refs *)

Definition slash_join (l : list str) : str := join (lit "/") l.

Definition ostreeRefFromLayerItem (layer : RepositoryCacheLayersItem) : str :=
  slash_join [pi_channel (l_info layer); pi_id (l_info layer); pi_version (l_info layer);
              default [] (head (pi_arch (l_info layer))); packageInfoV2Module (l_info layer)].

Definition ostreeRefSpecFromLayerItem (layer : RepositoryCacheLayersItem) : str :=
  l_repo layer ++ lit ":" ++ ostreeRefFromLayerItem layer.

Definition ref_spec (ref : Reference) (module : str) : str :=
  slash_join [ref_channel ref; ref_id ref; ver_toString (ref_version ref);
              arch_toStdString (ref_arch ref); module].

Definition with_repo (repo : option str) (spec : str) : str :=
  match repo with Some r => r ++ lit ":" ++ spec | None => spec end.

Definition ostreeSpecFromReference (ref : Reference) (repo : option str) (module : str) : str :=
  let module := if bool_decide (module = lit "binary") then lit "runtime" else module in
  with_repo repo (ref_spec ref module).

Definition ostreeSpecFromReferenceV2 (ref : Reference) (repo : option str) (module : str)
    (subRef : option str) : str :=
  let module := if bool_decide (module = lit "runtime") then lit "binary" else module in
  let ret := with_repo repo (ref_spec ref module) in
  match subRef with Some s => ret ++ lit "_" ++ s | None => ret end.

(** ** Configuration: order and priorities *)

(** [std::stable_sort] by descending priority. *)
Definition stable_sort {A} : (A -> A -> bool) -> list A -> list A := insertion_sort.

Definition higher (r1 r2 : Repo) : bool := r_priority r2 <? r_priority r1.

Definition getOrderedConfig (cfg : RepoConfigV2) : RepoConfigV2 :=
  mkRepoConfigV2 (c2_defaultRepo cfg) (stable_sort higher (c2_repos cfg)) (c2_version cfg).

(** [front()] of an empty list is undefined: [None]. *)
Definition getHighestPriorityRepos (cfg : RepoConfigV2) : option (list Repo) :=
  let orderCfg := getOrderedConfig cfg in
  match c2_repos orderCfg with
  | [] => None
  | first :: _ =>
      let highestPriority := r_priority first in
      Some (List.filter (fun r => r_priority r =? highestPriority) (c2_repos orderCfg))
  end.

Definition has_alias (alias : str) (r : Repo) : bool := bool_decide (repo_alias r = alias).

Definition getRepoByAlias (cfg : RepoConfigV2) (alias : str) : result Repo :=
  res_of_option err_default (List.find (has_alias alias) (c2_repos cfg)).

Definition set_priority (p : Z) (r : Repo) : Repo :=
  mkRepo (r_alias r) (r_mirrorEnabled r) (r_name r) p (r_url r).

(** Change the first repository with the alias; [None] when there is none (the
    code asserts that there is). *)
Fixpoint update_alias (alias : str) (p : Z) (l : list Repo) : option (Z * list Repo) :=
  match l with
  | [] => None
  | r :: l' =>
      if has_alias alias r then Some (r_priority r, set_priority p r :: l')
      else match update_alias alias p l' with
           | Some (old, l'') => Some (old, r :: l'')
           | None => None
           end
  end.

Definition with_repos (cfg : RepoConfigV2) (l : list Repo) : RepoConfigV2 :=
  mkRepoConfigV2 (c2_defaultRepo cfg) l (c2_version cfg).

(** The new configuration and the original priority. *)
Definition promotePriority (cfg : RepoConfigV2) (alias : str) : option (RepoConfigV2 * Z) :=
  match update_alias alias i64_max (c2_repos cfg) with
  | Some (old, l) => Some (with_repos cfg l, old)
  | None => None
  end.

Definition recoverPriority (cfg : RepoConfigV2) (alias : str) (priority : Z) : option RepoConfigV2 :=
  match update_alias alias priority (c2_repos cfg) with
  | Some (_, l) => Some (with_repos cfg l)
  | None => None
  end.

(** ** Configuration: transactions *)

(** A remote of the OSTree repository: its name, url and mirror list. *)
Abbreviation remote := (str * (str * option str))%type.

Definition remote_of (r : Repo) : remote :=
  (repo_alias r,
   (r_url r ++ lit "/repos/" ++ r_name r,
    if default false (r_mirrorEnabled r)
    then Some (lit "mirrorlist=" ++ r_url r ++ lit "/api/v2/mirrors/stable") else None)).

(** Which library call fails, counted from zero, and with what error. *)
Abbreviation fault := (option (nat * Z)).

(** Delete the remotes one by one, then add the configured ones, then write. *)
Fixpoint delete_remotes (fail : fault) (l : list remote) : list remote * fault * result unit :=
  match l with
  | [] => ([], fail, Ok tt)
  | r :: l' =>
      match fail with
      | Some (O, code) => (l, fail, Err code)
      | Some (S n, code) => delete_remotes (Some (n, code)) l'
      | None => delete_remotes None l'
      end
  end.

Fixpoint add_remotes (fail : fault) (have : list remote) (l : list Repo) : list remote * fault * result unit :=
  match l with
  | [] => (have, fail, Ok tt)
  | r :: l' =>
      match fail with
      | Some (O, code) => (have, fail, Err code)
      | Some (S n, code) => add_remotes (Some (n, code)) (have ++ [remote_of r]) l'
      | None => add_remotes None (have ++ [remote_of r]) l'
      end
  end.

Definition updateOstreeRepoConfig (fail : fault) (remotes : list remote) (config : RepoConfigV2)
    : list remote * result unit :=
  match delete_remotes fail remotes with
  | (rest, _, Err code) => (rest, Err code)
  | (rest, fail, Ok _) =>
      match add_remotes fail rest (c2_repos config) with
      | (now, _, Err code) => (now, Err code)
      | (now, Some (O, code), Ok _) => (now, Err code)
      | (now, _, Ok _) => (now, Ok tt)
      end
  end.

(** ** The web client *)

(** A search request and what the server answers. *)
Record search_req := mkReq {
  rq_app_id : str;
  rq_repo_name : str;
  rq_channel : option str;
  rq_version : option str;
  rq_arch : str
}.

Record register_item := mkItem {
  it_arch : str;
  it_channel : str;
  it_description : str;
  it_app_id : str;
  it_kind : str;
  it_module : str;
  it_name : str;
  it_runtime : str;
  it_size : Z;
  it_version : str
}.

Record search_response := mkResponse {
  rs_code : Z;
  rs_msg : option str;
  rs_data : option (list register_item)
}.

(** [ClientAPI_fuzzySearchApp] at a server; [None] is a request that failed. *)
Class Client := { fuzzySearchApp : str -> search_req -> option search_response }.

(** ** Options *)

Record clearReferenceOption := mkClearOpt {
  forceRemote : bool;
  fallbackToRemote : bool;
  semanticMatching : bool
}.

Record getRemoteReferenceByPriorityOption := mkPriorityOpt {
  onlyClearHighestPriority : bool;
  po_semanticMatching : bool
}.

(** [Repo] and [Reference] of a remote package. *)
Abbreviation ReferenceWithRepo := (Repo * Reference)%type.

Definition str_lt (a b : str) : bool := str_cmp a b =? -1.

(** [std::unique]: of equal neighbours the first. *)
Fixpoint unique (l : list str) : list str :=
  match l with
  | [] => []
  | x :: l' => match unique l' with
               | y :: r => if decide (x = y) then x :: r else x :: y :: r
               | [] => [x]
               end
  end.

Definition include (arr : list str) (item : str) : bool := existsb (fun x => bool_decide (x = item)) arr.

Section ostree_repo.
Context `{Client} `{Qt} `{StdSort} `{Json} `{Yaml}.

Record OSTreeRepo := mkOR {
  cfg : RepoConfigV2;
  yaml_files : files;
  remotes : list remote;
  server : str;
  rcache : RepoCache
}.

(** The path of [config.yaml]. *)
Variable config_yaml : str.
Variable ll_version : str.

(** The outcomes of the external calls of one configuration change, the ones of
    the rollbacks included. *)
Record config_env := mkConfigEnv {
  ce_save : save_end;
  ce_ostree : fault;
  ce_rollback_save : save_end;
  ce_rollback_ostree : fault;
  ce_root : bool;
  ce_cache : write_env
}.

Definition set_yaml (f : files) (s : OSTreeRepo) : OSTreeRepo :=
  mkOR (cfg s) f (remotes s) (server s) (rcache s).
Definition set_remotes (r : list remote) (s : OSTreeRepo) : OSTreeRepo :=
  mkOR (cfg s) (yaml_files s) r (server s) (rcache s).
Definition set_rcache (c : RepoCache) (s : OSTreeRepo) : OSTreeRepo :=
  mkOR (cfg s) (yaml_files s) (remotes s) (server s) c.

(** The rollback functions; their errors are only logged. *)
Definition rollback_ostree (e : config_env) (s : OSTreeRepo) : OSTreeRepo :=
  set_remotes (fst (updateOstreeRepoConfig (ce_rollback_ostree e) (remotes s) (cfg s))) s.
Definition rollback_yaml (e : config_env) (s : OSTreeRepo) : OSTreeRepo :=
  set_yaml (fst (saveConfig (yaml_files s) (cfg s) config_yaml (ce_rollback_save e))) s.

(** [saveConfig] has made sure that there is a default repository. *)
Definition adopt (newCfg : RepoConfigV2) (s : OSTreeRepo) : OSTreeRepo * result unit :=
  match getDefaultRepo newCfg with
  | Some newRepo => (mkOR newCfg (yaml_files s) (remotes s) (r_url newRepo) (rcache s), Ok tt)
  | None => (s, Err terminated)
  end.

Definition updateConfig (e : config_env) (newCfg : RepoConfigV2) (s : OSTreeRepo) : OSTreeRepo * result unit :=
  match saveConfig (yaml_files s) newCfg config_yaml (ce_save e) with
  | (f, Err code) => (set_yaml f s, Err code)
  | (f, Ok _) =>
      let s := set_yaml f s in
      match updateOstreeRepoConfig (ce_ostree e) (remotes s) newCfg with
      | (r, Err code) => (rollback_ostree e (set_remotes r s), Err code)
      | (r, Ok _) => adopt newCfg (set_remotes r s)
      end
  end.

Definition setConfig (e : config_env) (repo : ostree) (newCfg : RepoConfigV2) (s : OSTreeRepo) : OSTreeRepo * result unit :=
  match saveConfig (yaml_files s) newCfg config_yaml (ce_save e) with
  | (f, Err code) => (set_yaml f s, Err code)
  | (f, Ok _) =>
      let s := set_yaml f s in
      match updateOstreeRepoConfig (ce_ostree e) (remotes s) newCfg with
      | (r, Err code) => (rollback_yaml e (set_remotes r s), Err code)
      | (r, Ok _) =>
          let s := set_remotes r s in
          match rebuildCache ll_version (ce_cache e) (ce_root e) newCfg repo (rcache s) with
          | (c, Err code) => (rollback_yaml e (rollback_ostree e (set_rcache c s)), Err code)
          | (c, Ok _) => adopt newCfg (set_rcache c s)
          end
      end
  end.

(** ** Looking references up locally *)

(** What [Architecture::currentCPUArchitecture()] says. *)
Variable curArch : result Architecture.

(** The loop over the layers of the id, newest first. *)
Fixpoint find_local (semanticMatching : bool) (version : option Version)
    (layers : list RepositoryCacheLayersItem) : result RepositoryCacheLayersItem :=
  match layers with
  | [] => Err ec_LayerCompatibilityError
  | ref :: rest =>
      if default false (l_deleted ref) then find_local semanticMatching version rest
      else
        match version_parse (pi_version (l_info ref)) default_options with
        | Err _ => Err terminated
        | Ok pkgVer =>
            match version with
            | Some v =>
                if semanticMatching && semanticMatch pkgVer (ver_toString v) then Ok ref
                else if ver_eq pkgVer v then Ok ref
                else find_local semanticMatching version rest
            | None => Ok ref
            end
        end
  end.

(** The version asked for; an empty text asks for none. *)
Definition asked_version (fuzzy : FuzzyReference) : result (option Version) :=
  match fz_version fuzzy with
  | Some v => if bool_decide (v = []) then Ok None
              else ver <-r version_parse v default_options ;; Ok (Some ver)
  | None => Ok None
  end.

Definition arch_matches (fuzzy : FuzzyReference) : result unit :=
  match fz_arch fuzzy with
  | Some a => match curArch with
              | Err _ => Err ec_Unknown
              | Ok c => if bool_decide (c = a) then Ok tt else Err ec_Unknown
              end
  | None => Ok tt
  end.

Definition id_query (id : str) : repoCacheQuery := mkQuery (Some id) None None None None None None.

Definition clearReferenceLocal (cache : RepoCache) (fuzzy : FuzzyReference) (semanticMatching : bool) : result Reference :=
  arch_matches fuzzy ;;r
  let availablePackage := queryLayerItem cache (id_query (fz_id fuzzy)) in
  if bool_decide (availablePackage = []) then Err ec_AppNotFoundFromLocal
  else
    version <-r asked_version fuzzy ;;
    foundRef <-r find_local semanticMatching version availablePackage ;;
    ref_fromPackageInfo (l_info foundRef).

(** ** Looking references up remotely *)

Definition matchReference (record : PackageInfoV2) (fuzzy : FuzzyReference) (module : str) : option Reference :=
  if match fz_channel fuzzy with Some c => negb (bool_decide (c = pi_channel record)) | None => false end then None
  else if negb (bool_decide (fz_id fuzzy = pi_id record)) then None
  else
    match version_parse (pi_version record) default_options with
    | Err _ => None
    | Ok version =>
        match pi_arch record with
        | [] => None
        | arch0 :: _ =>
            let m := packageInfoV2Module record in
            let wrong_module :=
              if bool_decide (module = lit "binary")
              then negb (bool_decide (m = lit "binary")) && negb (bool_decide (m = lit "runtime"))
              else negb (bool_decide (m = module)) in
            if wrong_module then None
            else
              match arch_parse arch0 with
              | Err _ => None
              | Ok arch =>
                  match ref_create (pi_channel record) (fz_id fuzzy) version arch with
                  | Ok r => Some r
                  | Err _ => None
                  end
              end
        end
    end.

Definition item_info (item : register_item) : PackageInfoV2 :=
  mkInfo [it_arch item] [] (it_channel item) None None (Some (it_description item)) None None
    (it_app_id item) (it_kind item) (it_module item) (it_name item) (Some (it_runtime item)) []
    (it_size item) None (it_version item).

Definition set_server (url : str) (s : OSTreeRepo) : OSTreeRepo :=
  mkOR (cfg s) (yaml_files s) (remotes s) url (rcache s).

Definition listRemote (s : OSTreeRepo) (fuzzyRef : FuzzyReference) (repo : option Repo)
    : OSTreeRepo * result (list PackageInfoV2) :=
  let s := match repo with Some r => set_server (r_url r) s | None => s end in
  match getDefaultRepo (cfg s) with
  | None => (s, Err terminated)
  | Some defaultRepo =>
      let done_ := set_server (r_url defaultRepo) s in
      match curArch with
      | Err c => (done_, Err c)
      | Ok defaultArch =>
          let req := mkReq (fz_id fuzzyRef)
            (match repo with Some r => r_name r | None => r_name defaultRepo end)
            (fz_channel fuzzyRef) (fz_version fuzzyRef)
            (arch_toStdString (default defaultArch (fz_arch fuzzyRef))) in
          (done_,
           match fuzzySearchApp (server s) req with
           | None => Err ec_NetworkError
           | Some response =>
               if negb (rs_code response =? 200)
               then Err (if bool_decide (is_Some (rs_msg response)) then ec_Failed else ec_NetworkError)
               else Ok (match rs_data response with Some l => item_info <$> l | None => [] end)
           end)
      end
  end.

Definition newest (reference : option Reference) (cur : Reference) : option Reference :=
  match reference with
  | None => Some cur
  | Some r => if ver_gt (ref_version cur) (ref_version r) then Some cur else Some r
  end.

(** The loop over the records of the server. *)
Fixpoint pick_remote (fuzzy : FuzzyReference) (module : str) (semantic : bool) (fuzzyVersion : option Version)
    (reference : option Reference) (list : Datatypes.list PackageInfoV2) : option Reference :=
  match list with
  | [] => reference
  | record :: rest =>
      match matchReference record fuzzy module with
      | None => pick_remote fuzzy module semantic fuzzyVersion reference rest
      | Some cur =>
          match fuzzyVersion with
          | Some v =>
              if semantic then pick_remote fuzzy module semantic fuzzyVersion (newest reference cur) rest
              else if ver_eq (ref_version cur) v then Some cur
              else pick_remote fuzzy module semantic fuzzyVersion reference rest
          | None => pick_remote fuzzy module semantic fuzzyVersion (newest reference cur) rest
          end
      end
  end.

Definition select_remote (fuzzy : FuzzyReference) (module : str) (semantic : bool)
    (list : Datatypes.list PackageInfoV2) : result Reference :=
  lv <-r (match fz_version fuzzy with
     | Some v =>
         let list := filterByFuzzyVersion list v in
         ver <-r version_parse v default_options ;; Ok (list, Some ver)
     | None => Ok (list, None)
     end) ;;
  let '(list, fuzzyVersion) := lv in
  res_of_option ec_AppNotFoundFromRemote (pick_remote fuzzy module semantic fuzzyVersion None list).

Definition clearReferenceRemote (s : OSTreeRepo) (fuzzy : FuzzyReference) (opts : clearReferenceOption)
    (module : str) (repo : option str) : OSTreeRepo * result Reference :=
  match getDefaultRepo (cfg s) with
  | None => (s, Err terminated)
  | Some d =>
      match (match repo with Some alias => getRepoByAlias (cfg s) alias | None => Ok d end) with
      | Err c => (s, Err c)
      | Ok remoteRepo =>
          match listRemote s fuzzy (Some remoteRepo) with
          | (s, Err c) => (s, Err c)
          | (s, Ok list) => (s, select_remote fuzzy module (semanticMatching opts) list)
          end
      end
  end.

Definition clearReference (s : OSTreeRepo) (fuzzy : FuzzyReference) (opts : clearReferenceOption)
    (module : str) (repo : option str) : OSTreeRepo * result Reference :=
  if forceRemote opts then clearReferenceRemote s fuzzy opts module repo
  else
    match clearReferenceLocal (rcache s) fuzzy (semanticMatching opts) with
    | Ok r => (s, Ok r)
    | Err c =>
        if negb (fallbackToRemote opts) || (c =? terminated) then (s, Err c)
        else clearReferenceRemote s fuzzy opts module repo
    end.

(** [std::max_element] by version: the first of the greatest. *)
Fixpoint max_version (best : ReferenceWithRepo) (l : list ReferenceWithRepo) : ReferenceWithRepo :=
  match l with
  | [] => best
  | r :: l' =>
      max_version (if ver_lt (ref_version (snd best)) (ref_version (snd r)) then r else best) l'
  end.

(** The loop over the repositories: those without the package are skipped. *)
Fixpoint search_repos (s : OSTreeRepo) (fuzzy : FuzzyReference) (opts : clearReferenceOption) (module : str)
    (repos : list Repo) (results : list ReferenceWithRepo) : OSTreeRepo * result (list ReferenceWithRepo) :=
  match repos with
  | [] => (s, Ok results)
  | repo :: rest =>
      match clearReference s fuzzy opts module (Some (repo_alias repo)) with
      | (s, Ok r) => search_repos s fuzzy opts module rest (results ++ [(repo, r)])
      | (s, Err c) =>
          if c =? ec_AppNotFoundFromRemote then search_repos s fuzzy opts module rest results
          else (s, Err c)
      end
  end.

Definition getRemoteReferenceByPriority (s : OSTreeRepo) (fuzzy : FuzzyReference)
    (opts : getRemoteReferenceByPriorityOption) (module : str) : OSTreeRepo * result ReferenceWithRepo :=
  let copts := mkClearOpt true true (po_semanticMatching opts) in
  match getHighestPriorityRepos (cfg s) with
  | None => (s, Err terminated)
  | Some repos =>
      if onlyClearHighestPriority opts then
        match repos with
        | [] => (s, Err ec_AppInstallNotFoundFromRemote)
        | highestPriorityRepo :: _ =>
            match clearReference s fuzzy copts module (Some (repo_alias highestPriorityRepo)) with
            | (s, Err c) => (s, Err c)
            | (s, Ok r) => (s, Ok (highestPriorityRepo, r))
            end
        end
      else
        match search_repos s fuzzy copts module repos [] with
        | (s, Err c) => (s, Err c)
        | (s, Ok []) => (s, Err ec_AppInstallNotFoundFromRemote)
        | (s, Ok (r :: rs)) => (s, Ok (max_version r rs))
        end
  end.

(** ** Listing *)

Definition listLocal (c : RepoCache) : list PackageInfoV2 := l_info <$> queryExistingLayerItem c.

Definition listLayerItem (c : RepoCache) : list RepositoryCacheLayersItem := queryExistingLayerItem c.

(** One round of the loop of [listLocalLatest]. *)
Definition latest_step (pkgInfos : list PackageInfoV2) (item : PackageInfoV2) : result (list PackageInfoV2) :=
  match find_index (fun info => bool_decide (pi_id item = pi_id info)) pkgInfos with
  | None => Ok (pkgInfos ++ [item])
  | Some i =>
      match pkgInfos !! i with
      | None => Err terminated
      | Some it =>
          pkgInfoVersion <-r version_parse (pi_version it) default_options ;;
          itemVersion <-r version_parse (pi_version item) default_options ;;
          if ver_le itemVersion pkgInfoVersion then Ok pkgInfos
          else Ok (delete i pkgInfos ++ [item])
      end
  end.

Fixpoint latest_loop (pkgInfos : list PackageInfoV2) (items : list PackageInfoV2) : result (list PackageInfoV2) :=
  match items with
  | [] => Ok pkgInfos
  | item :: rest => next <-r latest_step pkgInfos item ;; latest_loop next rest
  end.

Definition listLocalLatest (c : RepoCache) : result (list PackageInfoV2) :=
  latest_loop [] (l_info <$> queryExistingLayerItem c).

(** ** Layers of a reference *)

Definition layer_query (ref : Reference) (repo : option str) (module : str) (subRef : option str) : repoCacheQuery :=
  mkQuery (Some (ref_id ref)) repo (Some (ref_channel ref)) (Some (ver_toString (ref_version ref)))
    (Some module) subRef None.

Definition getLayerItem (cfg : RepoConfigV2) (c : RepoCache) (ref : Reference) (module : str)
    (subRef : option str) : result RepositoryCacheLayersItem :=
  let module := if bool_decide (module = lit "runtime") then lit "binary" else module in
  match getDefaultRepo cfg with
  | None => Err terminated
  | Some defaultRepo =>
      match queryLayerItem c (layer_query ref (Some (repo_alias defaultRepo)) module subRef) with
      | [item] => Ok item
      | _ :: _ :: _ => Err err_default
      | [] =>
          match queryLayerItem c (layer_query ref None module subRef) with
          | item :: _ => Ok item
          | [] =>
              if negb (bool_decide (module = lit "binary")) then Err err_default
              else match queryLayerItem c (layer_query ref None (lit "runtime") subRef) with
                   | item :: _ => Ok item
                   | [] => Err err_default
                   end
          end
      end
  end.

(** The directory of the repository and the directories that exist. *)
Variable repoDir : str.
Variable dir_exists : str -> bool.

Definition getLayerDir (layer : RepositoryCacheLayersItem) : result str :=
  let dir := repoDir ++ lit "/layers/" ++ l_commit layer in
  if dir_exists dir then Ok dir else Err err_default.

Fixpoint find_merged (layer : RepositoryCacheLayersItem) (items : list RepositoryCacheMergedItem) : option str :=
  match items with
  | [] => None
  | item :: rest =>
      if bool_decide (mi_binaryCommit item = Some (l_commit layer)) then
        let dir := repoDir ++ lit "/merged/" ++ mi_id item in
        if dir_exists dir then Some dir else find_merged layer rest
      else find_merged layer rest
  end.

Definition getMergedModuleDir_layer (c : RepoCache) (layer : RepositoryCacheLayersItem) (fallbackLayerDir : bool) : result str :=
  match queryMergedItems c with
  | None => if fallbackLayerDir then getLayerDir layer else Err err_default
  | Some items =>
      match find_merged layer items with
      | Some dir => Ok dir
      | None => if fallbackLayerDir then getLayerDir layer else Err err_default
      end
  end.

Definition getMergedModuleDir (cfg : RepoConfigV2) (c : RepoCache) (ref : Reference) (fallbackLayerDir : bool) : result str :=
  layer <-r getLayerItem cfg c ref (lit "binary") None ;;
  getMergedModuleDir_layer c layer fallbackLayerDir.

Definition getModuleList (c : RepoCache) (ref : Reference) : list str :=
  let layers := queryLayerItem c
    (mkQuery (Some (ref_id ref)) None (Some (ref_channel ref)) (Some (ver_toString (ref_version ref))) None None None) in
  (fun l => packageInfoV2Module (l_info l)) <$>
    std_sort (fun a b => str_lt (packageInfoV2Module (l_info a)) (packageInfoV2Module (l_info b))) layers.

(** ** Modules on the server *)

Definition wanted_module (filter : option (list str)) (remoteModule : str) : bool :=
  match filter with
  | None => true
  | Some f => include f remoteModule ||
              (bool_decide (remoteModule = lit "binary") && include f (lit "runtime"))
  end.

(** [filter.value()] of no filter throws, and wrapping the error of [fuzzy],
    which has none, is undefined. *)
Definition getRemoteModuleList (s : OSTreeRepo) (ref : Reference) (filter : option (list str)) (repo : Repo)
    : OSTreeRepo * result (list str) :=
  match fuzzy_create (Some (ref_channel ref)) (ref_id ref) (Some (ver_toString (ref_version ref))) (Some (ref_arch ref)) with
  | Err c => (s, Err c)
  | Ok fuzzy =>
      match listRemote s fuzzy (Some repo) with
      | (s, Err _) => (s, Err terminated)
      | (s, Ok []) => (s, Ok [])
      | (s, Ok list) =>
          let modules := List.filter (wanted_module filter) (packageInfoV2Module <$> list) in
          match filter with
          | None => (s, Err terminated)
          | Some f =>
              let modules := if include f (lit "binary") && negb (include modules (lit "binary"))
                             then modules ++ [lit "runtime"] else modules in
              (s, Ok (unique (std_sort str_lt modules)))
          end
      end
  end.

Fixpoint first_modules (s : OSTreeRepo) (ref : Reference) (filter : option (list str)) (repos : list Repo)
    : OSTreeRepo * result (Repo * list str) :=
  match repos with
  | [] => (s, Err err_default)
  | repo :: rest =>
      match getRemoteModuleList s ref filter repo with
      | (s, Err c) => (s, Err c)
      | (s, Ok []) => first_modules s ref filter rest
      | (s, Ok l) => (s, Ok (repo, l))
      end
  end.

Definition getRemoteModuleListByPriority (s : OSTreeRepo) (ref : Reference) (filter : option (list str))
    (onlyHighest : bool) (repo : option Repo) : OSTreeRepo * result (Repo * list str) :=
  let one r :=
    match getRemoteModuleList s ref filter r with
    | (s, Err c) => (s, Err c)
    | (s, Ok l) => (s, Ok (r, l))
    end in
  match repo with
  | Some r => one r
  | None =>
      match getHighestPriorityRepos (cfg s) with
      | None => (s, Err terminated)
      | Some repos =>
          if onlyHighest then match repos with r :: _ => one r | [] => (s, Err terminated) end
          else first_modules s ref filter repos
      end
  end.

(** ** Changing the installed layers *)

(** The outcomes of resolving the ref, removing it and writing the cache. *)
Record remove_env := mkRemoveEnv {
  re_resolves : bool;
  re_set_ref : result unit;
  re_cache : write_env
}.

Definition removeOstreeRef (e : remove_env) (c : RepoCache) (layer : RepositoryCacheLayersItem) : RepoCache * result unit :=
  match (if re_resolves e then re_set_ref e else Ok tt) with
  | Err code => (c, Err code)
  | Ok _ => deleteLayerItem ll_version (re_cache e) c layer
  end.

(** The files of the layer are removed afterwards; errors there are only logged. *)
Definition remove (e : remove_env) (cfg : RepoConfigV2) (c : RepoCache) (ref : Reference) (module : str)
    (subRef : option str) : RepoCache * result unit :=
  if bool_decide (module = []) then (c, Err err_default)
  else
    match getLayerItem cfg c ref module subRef with
    | Err code => (c, Err code)
    | Ok layer => removeOstreeRef e c layer
    end.

Definition set_deleted (d : option bool) (l : RepositoryCacheLayersItem) : RepositoryCacheLayersItem :=
  mkLayer (l_commit l) d (l_info l) (l_repo l).

(** The rollback puts the original value back. *)
Definition markDeleted (e : write_env) (cfg : RepoConfigV2) (c : RepoCache) (ref : Reference) (deleted : bool)
    (module : str) (subRef : option str) : RepoCache * result unit :=
  match getLayerItem cfg c ref module subRef with
  | Err code => (c, Err code)
  | Ok item =>
      match findMatchingItem c item with
      | Err code => (c, Err code)
      | Ok it =>
          let originalValue := match rc_layers (cache c) !! it with Some l => l_deleted l | None => None end in
          let deletedOpt := if deleted then Some true else None in
          let put d c := set_cache (with_layers (cache c) (alter (set_deleted d) it (rc_layers (cache c)))) c in
          match writeToDisk ll_version e (put deletedOpt c) with
          | (c, Err code) => (put originalValue c, Err code)
          | (c, Ok _) => (c, Ok tt)
          end
      end
  end.

End ostree_repo.

(** ** Priorities *)

Lemma insert_sorted_filter {A} (lt : A -> A -> bool) (f : A -> bool) x l :
  (forall y, f x = true -> f y = true -> lt y x = false) ->
  List.filter f (insert_sorted lt x l) = List.filter f (x :: l).
Proof.
  intros H. induction l as [|y l IH]; [done|]. cbn [insert_sorted]. destruct (lt y x) eqn:E; [|done].
  cbn [List.filter] in *. rewrite IH. destruct (f x) eqn:Ex, (f y) eqn:Ey; try done.
  by rewrite (H y eq_refl Ey) in E.
Qed.

(** A class of equivalent elements keeps its order. *)
Lemma stable_sort_filter {A} (lt : A -> A -> bool) (f : A -> bool) l :
  (forall x y, f x = true -> f y = true -> lt y x = false) ->
  List.filter f (stable_sort lt l) = List.filter f l.
Proof.
  intros H. unfold stable_sort. induction l as [|x l IH]; [done|]. cbn [insertion_sort].
  rewrite insert_sorted_filter by (intros; by apply H). simpl. by rewrite IH.
Qed.

Lemma higher_strict_weak l : strict_weak higher l.
Proof.
  split; unfold higher; intros; bsplit; [apply Z.ltb_ge; lia|].
  repeat match goal with H : (_ <? _) = false |- _ => apply Z.ltb_ge in H end. apply Z.ltb_ge. lia.
Qed.

Lemma max_element_spec b l :
  max_element b l ∈ b :: l /\ forall r, r ∈ b :: l -> r_priority r <= r_priority (max_element b l).
Proof.
  revert b. induction l as [|x l IH]; intros b; cbn [max_element].
  - split; [set_solver|]. intros r ->%list_elem_of_singleton. lia.
  - destruct (IH (if r_priority b <? r_priority x then x else b)) as [Hin Hmax]. split.
    + destruct (r_priority b <? r_priority x); set_solver.
    + intros r Hr. destruct (Z.ltb_spec (r_priority b) (r_priority x)).
      * apply elem_of_cons in Hr as [->|Hr]; [|by apply Hmax].
        etrans; [|apply (Hmax x); set_solver]. lia.
      * apply elem_of_cons in Hr as [->|[->|Hr]%elem_of_cons]; [apply Hmax; set_solver| |apply Hmax; set_solver].
        etrans; [|apply (Hmax b); set_solver]. lia.
Qed.

Lemma highest_repos cfg p : getRepoMaxPriority cfg = Some p ->
  getHighestPriorityRepos cfg = Some (List.filter (fun r => r_priority r =? p) (c2_repos cfg)).
Proof.
  unfold getRepoMaxPriority, getHighestPriorityRepos, getOrderedConfig. cbn [c2_repos].
  destruct (c2_repos cfg) as [|b l] eqn:El; [done|]. intros [= <-].
  destruct (max_element_spec b l) as [Hin Hmax]. rewrite <- El in *.
  pose proof (insertion_sort_perm higher (c2_repos cfg)) as Hp.
  pose proof (insertion_sort_sorted higher (c2_repos cfg) (higher_strict_weak _)) as Hs.
  unfold stable_sort at 1. destruct (insertion_sort higher (c2_repos cfg)) as [|first rest] eqn:E.
  { exfalso. rewrite El in Hp. by apply Permutation_nil_cons in Hp. }
  assert (Ep : r_priority first = r_priority (max_element b l)).
  { assert (Hf : first ∈ c2_repos cfg) by (rewrite <- Hp; set_solver). apply Hmax in Hf.
    rewrite <- Hp in Hin. apply elem_of_cons in Hin as [->|Hin]; [done|].
    inversion Hs as [|?? _ Hall]; subst. rewrite Forall_forall in Hall. specialize (Hall _ Hin).
    unfold higher in Hall. apply Z.ltb_ge in Hall. lia. }
  rewrite Ep. f_equal. apply stable_sort_filter. unfold higher. intros. bsplit.
  repeat match goal with H : (_ =? _) = true |- _ => apply Z.eqb_eq in H end. apply Z.ltb_ge. lia.
Qed.

Lemma update_alias_spec alias p l old l' : update_alias alias p l = Some (old, l') ->
  exists l1 r l2, l = l1 ++ r :: l2 /\ has_alias alias r = true /\ Forall (fun x => has_alias alias x = false) l1 /\
    old = r_priority r /\ l' = l1 ++ set_priority p r :: l2.
Proof.
  revert old l'. induction l as [|x l IH]; intros old l' H; [done|]. cbn [update_alias] in H.
  destruct (has_alias alias x) eqn:E.
  - injection H as <- <-. by exists [], x, l.
  - destruct (update_alias alias p l) as [[old' l'']|]; [|done]. injection H as -> <-.
    destruct (IH _ _ eq_refl) as (l1 & r & l2 & -> & Hr & Hl & -> & ->).
    exists (x :: l1), r, l2. split_and!; auto.
Qed.

Lemma update_alias_app alias p l1 r l2 : Forall (fun x => has_alias alias x = false) l1 ->
  has_alias alias r = true ->
  update_alias alias p (l1 ++ r :: l2) = Some (r_priority r, l1 ++ set_priority p r :: l2).
Proof.
  intros Hl Hr. induction Hl as [|x l1 Hx Hl IH]; cbn [app update_alias]; [by rewrite Hr|].
  by rewrite Hx, IH.
Qed.

Lemma recover_promoted cfg alias cfg' old : promotePriority cfg alias = Some (cfg', old) ->
  recoverPriority cfg' alias old = Some cfg.
Proof.
  unfold promotePriority, recoverPriority. intros H.
  destruct (update_alias alias i64_max (c2_repos cfg)) as [[o l]|] eqn:E; [|done]. injection H as <- ->.
  apply update_alias_spec in E as (l1 & r & l2 & El & Hr & Hl & -> & ->).
  cbn [c2_repos with_repos]. rewrite update_alias_app by done.
  unfold with_repos. cbn. f_equal. destruct cfg as [d repos v]. cbn in *. f_equal. subst repos. by destruct r.
Qed.

(** Promoting a repository makes it (with any other of the maximal priority)
    the one that is searched, and recovering restores the configuration. *)
Theorem promote_recover cfg alias cfg' old : promotePriority cfg alias = Some (cfg', old) ->
  Forall (fun r => r_priority r < i64_max) (c2_repos cfg) ->
  recoverPriority cfg' alias old = Some cfg /\
  exists r, List.find (has_alias alias) (c2_repos cfg) = Some r /\ r_priority r = old /\
    getHighestPriorityRepos cfg' = Some [set_priority i64_max r].
Proof.
  intros H Hlt. split; [by apply recover_promoted|]. unfold promotePriority in H.
  destruct (update_alias alias i64_max (c2_repos cfg)) as [[o l]|] eqn:E; [|done]. injection H as <- ->.
  apply update_alias_spec in E as (l1 & r & l2 & El & Hr & Hl & -> & ->).
  - exists r. split_and!; [|done|].
    + rewrite El. clear -Hr Hl. induction Hl as [|x l1 Hx Hl IH]; simpl; [by rewrite Hr|by rewrite Hx].
    + rewrite El in Hlt. apply Forall_app in Hlt as [H1 H2]. apply Forall_cons in H2 as [_ H2].
      assert (Hno : forall l, Forall (fun x => r_priority x < i64_max) l ->
        List.filter (fun x => r_priority x =? i64_max) l = []).
      { clear. intros l H. induction H as [|x l Hx H IH]; [done|]. simpl.
        destruct (Z.eqb_spec (r_priority x) i64_max); [lia|done]. }
      rewrite (highest_repos _ i64_max).
      * cbn [with_repos c2_repos]. rewrite List.filter_app. simpl. by rewrite !Hno.
      * unfold getRepoMaxPriority. cbn [with_repos c2_repos].
        assert (Hm : forall b l, (forall x, x ∈ b :: l -> r_priority x <= i64_max) ->
          set_priority i64_max r ∈ b :: l -> r_priority (max_element b l) = i64_max).
        { intros b l Hle Hin. destruct (max_element_spec b l) as [Hi Hm]. apply Hm in Hin. apply Hle in Hi.
          cbn in Hin. lia. }
        rewrite Forall_forall in H1, H2.
        assert (Hle : forall x, x ∈ l1 ++ set_priority i64_max r :: l2 -> r_priority x <= i64_max).
        { intros x [Hx|[->|Hx]%elem_of_cons]%elem_of_app; [apply H1 in Hx; lia|done|apply H2 in Hx; lia]. }
        destruct l1 as [|b l1]; cbn [app] in *; f_equal; apply Hm; set_solver.
Qed.

(** ** Configuration changes *)

Lemma delete_remotes_ok fail l fail' rest u : delete_remotes fail l = (rest, fail', Ok u) -> rest = [].
Proof.
  revert fail. induction l as [|r l IH]; intros fail H; simpl in H; [by injection H as <- _|].
  destruct fail as [[[|n] c]|]; [done|eauto|eauto].
Qed.

Lemma add_remotes_ok fail have l fail' now u : add_remotes fail have l = (now, fail', Ok u) ->
  now = have ++ (remote_of <$> l).
Proof.
  revert fail have. induction l as [|r l IH]; intros fail have H; simpl in H.
  - injection H as <- _. by rewrite app_nil_r.
  - rewrite fmap_cons, cons_middle, app_assoc. destruct fail as [[[|n] c]|]; [done|eauto|eauto].
Qed.

Lemma no_fault_ok remotes config : updateOstreeRepoConfig None remotes config = (remote_of <$> c2_repos config, Ok tt).
Proof.
  unfold updateOstreeRepoConfig.
  assert (D : forall l, delete_remotes None l = ([], None, Ok tt)) by (induction l; simpl; auto).
  assert (A : forall have l, add_remotes None have l = (have ++ (remote_of <$> l), None, Ok tt)).
  { intros have l. revert have. induction l as [|r l IH]; intros have; simpl; [by rewrite app_nil_r|].
    rewrite IH. by rewrite <- app_assoc. }
  by rewrite D, A.
Qed.

Lemma updateOstree_ok fail remotes config now u : updateOstreeRepoConfig fail remotes config = (now, Ok u) ->
  now = remote_of <$> c2_repos config.
Proof.
  unfold updateOstreeRepoConfig. destruct (delete_remotes fail remotes) as [[rest f] [u1|c]] eqn:D; [|done].
  apply delete_remotes_ok in D as ->.
  destruct (add_remotes f [] (c2_repos config)) as [[now' [[[|n] c1]|]] [u2|c]] eqn:A; intros E; simplify_eq/=;
    by apply add_remotes_ok in A.
Qed.

Section config_changes.
Context `{Client} `{Qt} `{StdSort} `{Json} `{Yaml}.
Variable config_yaml ll_version : str.

(** The file and the remotes agree with the configuration in memory. *)
Definition config_coherent (s : OSTreeRepo) : Prop :=
  yaml_files s config_yaml = Some (to_yaml (cfg s)) /\ remotes s = remote_of <$> c2_repos (cfg s).

Definition rollback_works (e : config_env) : Prop :=
  ce_rollback_save e = Saved None /\ ce_rollback_ostree e = None.

Lemma save_cases f cfg w :
  match saveConfig f cfg config_yaml w with
  | (f', Ok _) => (exists n, w = Saved n /\ f' config_yaml = Some (part_of n (to_yaml cfg))) /\ exists r, getDefaultRepo cfg = Some r
  | (f', Err c) => c = err_default /\ (f' = f \/ exists n, w = Thrown n /\ f' config_yaml = Some (take n (to_yaml cfg)))
  end.
Proof.
  unfold saveConfig. destruct (existsb (is_default cfg) (c2_repos cfg)) eqn:E; simpl; [|by split; [|left]].
  destruct w as [|n|n]; unfold put_file.
  - by split; [|left].
  - split; [done|]. right. exists n. by rewrite decide_True by done.
  - split; [exists n; by rewrite decide_True by done|].
    unfold getDefaultRepo. apply existsb_exists in E as (x & Hx & Ex). induction (c2_repos cfg) as [|y l IH]; [done|].
    simpl. destruct (is_default cfg y) eqn:Ey; [eauto|]. destruct Hx as [->|Hx]; [congruence|auto].
Qed.

Lemma save_default f cfg r : getDefaultRepo cfg = Some r ->
  fst (saveConfig f cfg config_yaml (Saved None)) config_yaml = Some (to_yaml cfg).
Proof.
  unfold getDefaultRepo, saveConfig. intros Hr. apply find_some in Hr as [Hin Hd].
  assert (E : existsb (is_default cfg) (c2_repos cfg) = true) by (apply existsb_exists; eauto).
  rewrite E. simpl. unfold put_file. by rewrite decide_True.
Qed.

(** C11: when [setConfig] succeeds, memory, remotes and server have the new
    configuration, and so has the file unless its write, which is not checked,
    was cut short.  When it fails and its rollbacks succeed, memory and server
    have the old configuration; so has the file, unless saving the new one was
    interrupted by an exception, which is not rolled back; and so have the
    remotes, unless their own change failed, which is not rolled back either. *)
Theorem setConfig_transaction e repo new s : config_coherent s -> (exists r, getDefaultRepo (cfg s) = Some r) ->
  rollback_works e ->
  let '(s', r) := setConfig config_yaml ll_version e repo new s in
  match r with
  | Ok _ =>
      cfg s' = new /\ remotes s' = remote_of <$> c2_repos new /\ Some (server s') = r_url <$> getDefaultRepo new /\
      exists n, ce_save e = Saved n /\ yaml_files s' config_yaml = Some (part_of n (to_yaml new)) /\ (n = None -> config_coherent s')
  | Err _ =>
      cfg s' = cfg s /\ server s' = server s /\
      (yaml_files s' config_yaml = Some (to_yaml (cfg s)) \/
       exists n, ce_save e = Thrown n /\ yaml_files s' config_yaml = Some (take n (to_yaml new))) /\
      (remotes s' = remotes s \/ exists c, snd (updateOstreeRepoConfig (ce_ostree e) (remotes s) new) = Err c)
  end.
Proof.
  intros [Hy Hr] [d Hd] [Hw Ho]. unfold setConfig.
  pose proof (save_cases (yaml_files s) new (ce_save e)) as Hs.
  destruct (saveConfig _ _ _ _) as [f [u|c]].
  2: { destruct Hs as (_ & [-> |(n & -> & Hf)]); cbn; split_and!; try done; try (by left). right. by exists n. }
  destruct Hs as [(n & Hn & Hf) [r Hdef]]. cbn [set_yaml remotes].
  destruct (updateOstreeRepoConfig (ce_ostree e) (remotes s) new) as [now [u1|c]] eqn:Eu.
  - pose proof Eu as Eu'. apply updateOstree_ok in Eu' as ->.
    cbn [set_remotes rcache yaml_files cfg server set_yaml].
    destruct (rebuildCache _ _ _ _ _ _) as [rc [u2|c]].
    + unfold adopt. cbn [set_rcache yaml_files remotes rcache]. rewrite Hdef. simpl.
      split_and!; [done..|]. exists n. split_and!; [done..|]. intros ->. by split.
    + unfold rollback_yaml, rollback_ostree. rewrite Hw, Ho. cbn [set_yaml set_remotes set_rcache cfg server yaml_files remotes].
      rewrite no_fault_ok. cbn [fst]. split_and!; [done|done|left; by eapply save_default|by left].
  - unfold rollback_yaml. rewrite Hw. cbn [set_yaml set_remotes cfg server yaml_files remotes].
    split_and!; [done|done|left; by eapply save_default|by right; exists c].
Qed.

(** [updateConfig] is not: when changing the remotes fails, the remotes are
    restored but the file already has, and keeps, the new configuration. *)
Theorem updateConfig_failure e new s c : config_coherent s -> rollback_works e -> ce_save e = Saved None ->
  snd (saveConfig (yaml_files s) new config_yaml (ce_save e)) = Ok tt ->
  snd (updateOstreeRepoConfig (ce_ostree e) (remotes s) new) = Err c ->
  let '(s', r) := updateConfig config_yaml e new s in
  r = Err c /\ cfg s' = cfg s /\ remotes s' = remotes s /\
  yaml_files s' config_yaml = Some (to_yaml new).
Proof.
  intros [Hy Hr] [Hw Ho] Hsv Hsave Hu. unfold updateConfig.
  pose proof (save_cases (yaml_files s) new (ce_save e)) as Hs.
  destruct (saveConfig _ _ _ _) as [f [u|c']]; [|done]. destruct Hs as [(n & Hn & Hf) _].
  rewrite Hsv in Hn. injection Hn as <-. cbn [part_of] in Hf.
  cbn [set_yaml remotes]. destruct (updateOstreeRepoConfig (ce_ostree e) (remotes s) new) as [now [u1|c1]]; [done|].
  simpl in Hu. injection Hu as ->. unfold rollback_ostree. rewrite Ho.
  cbn [set_yaml set_remotes cfg server yaml_files remotes]. rewrite no_fault_ok. by split_and!.
Qed.
End config_changes.

(** ** Resolving references *)

Section resolving.
Context `{Client} `{Qt} `{StdSort} `{Json} `{Yaml}.
Variable curArch : result Architecture.

(** The layers [clearReferenceLocal] may choose from. *)
Definition wanted (semantic : bool) (version : option Version) (layer : RepositoryCacheLayersItem) : bool :=
  negb (default false (l_deleted layer)) &&
  match version_parse (pi_version (l_info layer)) default_options with
  | Ok v => match version with
            | Some w => (semantic && semanticMatch v (ver_toString w)) || ver_eq v w
            | None => true
            end
  | Err _ => false
  end.

Lemma find_local_find semantic version layers : comparable layers ->
  find_local semantic version layers =
  match List.find (wanted semantic version) layers with
  | Some x => Ok x
  | None => Err ec_LayerCompatibilityError
  end.
Proof.
  intros Hc. induction Hc as [|x l [v [Ev _]] Hc IH]; [done|]. cbn [find_local List.find]. unfold wanted at 1.
  rewrite Ev. destruct (default false (l_deleted x)); simpl; [apply IH|]. destruct version as [w|]; [|done].
  destruct (semantic && semanticMatch v (ver_toString w)); [done|]. by destruct (ver_eq v w).
Qed.

Lemma find_local_elem semantic version layers x : find_local semantic version layers = Ok x -> x ∈ layers.
Proof.
  induction layers as [|y l IH]; cbn [find_local]; [done|].
  destruct (default false (l_deleted y)); [intros ?%IH; by right|].
  destruct (version_parse _ _); [|done]. destruct version as [w|]; [|intros [= ->]; left].
  destruct (_ && _); [intros [= ->]; left|]. destruct (ver_eq _ _); [intros [= ->]; left|intros ?%IH; by right].
Qed.

Lemma find_first {A} (f : A -> bool) l x : List.find f l = Some x ->
  exists l1 l2, l = l1 ++ x :: l2 /\ f x = true /\ Forall (fun y => f y = false) l1.
Proof.
  induction l as [|y l IH]; [done|]. simpl. destruct (f y) eqn:E.
  - intros [= ->]. by exists [], l.
  - intros Hx. destruct (IH Hx) as (l1 & l2 & -> & ? & ?). exists (y :: l1), l2. auto.
Qed.

(** Of a list sorted newest first, the first element that passes is a newest one. *)
Lemma first_newest (f : RepositoryCacheLayersItem -> bool) l x :
  StronglySorted (fun a b => newer b a = false) l -> List.find f l = Some x ->
  x ∈ l /\ f x = true /\ forall y vx vy, y ∈ l -> f y = true -> layer_version x vx -> layer_version y vy ->
    ver_ge vx vy = true.
Proof.
  intros Hs (l1 & l2 & -> & Hx & Hl1)%find_first. split; [set_solver|]. split; [done|].
  intros y vx vy Hy Hf [Ex Px] [Ey Py]. unfold ver_ge.
  destruct (ver_ops vx vy Px Py) as [-> _].
  apply elem_of_app in Hy as [Hy|Hy].
  { rewrite Forall_forall in Hl1. apply Hl1 in Hy. congruence. }
  apply elem_of_cons in Hy as [->|Hy].
  - assert (vx = vy) as <- by congruence. by rewrite (tw_refl _ tw_ver).
  - apply StronglySorted_app_1_r in Hs. inversion Hs as [|?? _ Ha]; subst.
    rewrite Forall_forall in Ha. specialize (Ha y Hy). rewrite (newer_cmp y x vy vx) in Ha by done.
    by rewrite Ha.
Qed.

Lemma find_nil_filter {A} (f : A -> bool) l : List.find f l = None <-> List.filter f l = [].
Proof. induction l as [|x l IH]; simpl; [done|]. by destruct (f x). Qed.

Definition same_id (fuzzy : FuzzyReference) (layer : RepositoryCacheLayersItem) : bool :=
  bool_decide (fz_id fuzzy = pi_id (l_info layer)).

Lemma query_id_match fuzzy layer : query_match (id_query (fz_id fuzzy)) layer = same_id fuzzy layer.
Proof. unfold query_match, same_id, id_query. cbn. by rewrite !andb_true_r. Qed.

(** The layers a local search may answer with. *)
Definition local_candidates (c : RepoCache) (fuzzy : FuzzyReference) (semantic : bool) (version : option Version)
    : list RepositoryCacheLayersItem :=
  List.filter (fun l => same_id fuzzy l && wanted semantic version l) (rc_layers (cache c)).

Lemma id_layers c fuzzy x : comparable (rc_layers (cache c)) ->
  x ∈ queryLayerItem c (id_query (fz_id fuzzy)) <-> x ∈ rc_layers (cache c) /\ same_id fuzzy x = true.
Proof.
  intros Hc. destruct (query_sorted c (id_query (fz_id fuzzy)) Hc) as [Hp _]. rewrite Hp.
  by rewrite !list_elem_of_In, filter_In, query_id_match.
Qed.

Lemma local_candidates_elem c fuzzy semantic version x : comparable (rc_layers (cache c)) ->
  x ∈ local_candidates c fuzzy semantic version <->
  x ∈ queryLayerItem c (id_query (fz_id fuzzy)) /\ wanted semantic version x = true.
Proof.
  intros Hc. rewrite id_layers by done. unfold local_candidates.
  rewrite list_elem_of_In, filter_In, <- list_elem_of_In, andb_true_iff. tauto.
Qed.

Lemma id_layers_none c fuzzy : comparable (rc_layers (cache c)) ->
  bool_decide (queryLayerItem c (id_query (fz_id fuzzy)) = []) =
  negb (existsb (same_id fuzzy) (rc_layers (cache c))).
Proof.
  intros Hc. destruct (existsb (same_id fuzzy) (rc_layers (cache c))) eqn:Ex.
  - apply existsb_exists in Ex as (x & Hx%list_elem_of_In & Ex). apply bool_decide_false. intros E.
    assert (Hx' : x ∈ queryLayerItem c (id_query (fz_id fuzzy))) by by apply id_layers.
    rewrite E in Hx'. by apply not_elem_of_nil in Hx'.
  - apply bool_decide_true. destruct (queryLayerItem _ _) as [|x l] eqn:E; [done|]. exfalso.
    destruct (proj1 (id_layers c fuzzy x Hc)) as [Hx Hi]; [rewrite E; left|]. apply list_elem_of_In in Hx.
    apply not_true_iff_false in Ex. apply Ex, existsb_exists. eauto.
Qed.

Lemma id_layers_comparable c query : comparable (rc_layers (cache c)) -> comparable (queryLayerItem c query).
Proof.
  intros Hc. destruct (query_sorted c query Hc) as [Hp _]. unfold comparable in *. rewrite Forall_forall in *.
  intros x Hx. apply Hc. rewrite Hp, list_elem_of_In, filter_In, <- list_elem_of_In in Hx. tauto.
Qed.

(** Whatever is found has the id. *)
Lemma clearReferenceLocal_elem c fuzzy semantic r : comparable (rc_layers (cache c)) ->
  clearReferenceLocal curArch c fuzzy semantic = Ok r ->
  exists x, x ∈ rc_layers (cache c) /\ pi_id (l_info x) = fz_id fuzzy /\ ref_fromPackageInfo (l_info x) = Ok r.
Proof.
  intros Hc. unfold clearReferenceLocal. destruct (arch_matches curArch fuzzy); [|done]. cbn [res_bind].
  case_bool_decide; [done|]. destruct (asked_version fuzzy) as [v|]; [|done]. cbn [res_bind].
  destruct (find_local semantic v _) as [x|] eqn:E; [|done]. cbn [res_bind]. intros Hr.
  apply find_local_elem, id_layers in E as [Hx Hi]; [|done]. unfold same_id in Hi. apply bool_decide_eq_true in Hi.
  by exists x.
Qed.

Lemma clearReferenceLocal_find c fuzzy semantic version :
  comparable (rc_layers (cache c)) -> arch_matches curArch fuzzy = Ok tt -> asked_version fuzzy = Ok version ->
  clearReferenceLocal curArch c fuzzy semantic =
  match List.find (wanted semantic version) (queryLayerItem c (id_query (fz_id fuzzy))) with
  | Some x => ref_fromPackageInfo (l_info x)
  | None => Err (if existsb (same_id fuzzy) (rc_layers (cache c)) then ec_LayerCompatibilityError
                 else ec_AppNotFoundFromLocal)
  end.
Proof.
  intros Hc Ha Hv. unfold clearReferenceLocal. rewrite Ha. cbn [res_bind].
  pose proof (id_layers_none c fuzzy Hc) as Hn. destruct (existsb _ _); cbn [negb] in Hn; rewrite Hn.
  - rewrite Hv. cbn [res_bind]. rewrite find_local_find by by apply id_layers_comparable.
    by destruct (List.find _ _).
  - apply bool_decide_eq_true in Hn. by rewrite Hn.
Qed.

Lemma clearReferenceLocal_none c fuzzy semantic version :
  comparable (rc_layers (cache c)) -> arch_matches curArch fuzzy = Ok tt -> asked_version fuzzy = Ok version ->
  local_candidates c fuzzy semantic version = [] ->
  clearReferenceLocal curArch c fuzzy semantic =
  Err (if existsb (same_id fuzzy) (rc_layers (cache c)) then ec_LayerCompatibilityError
       else ec_AppNotFoundFromLocal).
Proof.
  intros Hc Ha Hv He. rewrite (clearReferenceLocal_find _ _ _ version) by done.
  destruct (List.find _ _) as [x|] eqn:E; [|done]. apply find_some in E as [Hx%list_elem_of_In Hw].
  assert (Hin : x ∈ local_candidates c fuzzy semantic version) by by apply local_candidates_elem.
  rewrite He in Hin. by apply not_elem_of_nil in Hin.
Qed.

Lemma clearReferenceLocal_best c fuzzy semantic version :
  comparable (rc_layers (cache c)) -> arch_matches curArch fuzzy = Ok tt -> asked_version fuzzy = Ok version ->
  local_candidates c fuzzy semantic version <> [] ->
  exists best, best ∈ local_candidates c fuzzy semantic version /\
    clearReferenceLocal curArch c fuzzy semantic = ref_fromPackageInfo (l_info best) /\
    forall other vb vo, other ∈ local_candidates c fuzzy semantic version ->
      layer_version best vb -> layer_version other vo -> ver_ge vb vo = true.
Proof.
  intros Hc Ha Hv Hne. rewrite (clearReferenceLocal_find _ _ _ version) by done.
  destruct (query_sorted c (id_query (fz_id fuzzy)) Hc) as [_ Hs].
  destruct (List.find _ _) as [x|] eqn:E.
  - destruct (first_newest _ _ _ Hs E) as (Hx & Hw & Hn). exists x.
    split_and!; [by apply local_candidates_elem|done|].
    intros other vb vo [Ho Hwo]%local_candidates_elem Hb Hvo; [by apply (Hn other)|done].
  - exfalso. destruct (local_candidates c fuzzy semantic version) as [|x l] eqn:Ec; [done|].
    destruct (proj1 (local_candidates_elem c fuzzy semantic version x Hc)) as [Hx%list_elem_of_In Hw];
      [rewrite Ec; left|]. apply find_none with (x := x) in E; [congruence|done].
Qed.

(** C2: looking a reference up locally chooses, among the installed layers of the
    id that are not marked deleted and whose version is the one asked for
    (exactly, or also semantically), one with the greatest version; it fails
    with "not found" when no layer has the id and with "not compatible" when
    none is left to choose from. *)
Theorem clearReferenceLocal_spec c fuzzy semantic version :
  comparable (rc_layers (cache c)) -> arch_matches curArch fuzzy = Ok tt -> asked_version fuzzy = Ok version ->
  let candidates := List.filter (fun l => same_id fuzzy l && wanted semantic version l) (rc_layers (cache c)) in
  (candidates = [] ->
     clearReferenceLocal curArch c fuzzy semantic =
     Err (if existsb (same_id fuzzy) (rc_layers (cache c)) then ec_LayerCompatibilityError
          else ec_AppNotFoundFromLocal)) /\
  (candidates <> [] ->
     exists best, best ∈ candidates /\ clearReferenceLocal curArch c fuzzy semantic = ref_fromPackageInfo (l_info best) /\
       forall other vb vo, other ∈ candidates -> layer_version best vb -> layer_version other vo -> ver_ge vb vo = true).
Proof.
  intros Hc Ha Hv candidates. split.
  - by apply clearReferenceLocal_none.
  - by apply clearReferenceLocal_best.
Qed.

(** *** Remote records *)

Definition candidates (fuzzy : FuzzyReference) (module : str) (list : Datatypes.list PackageInfoV2) : Datatypes.list Reference :=
  omap (fun record => matchReference record fuzzy module) list.

Definition newest_wins (semantic : bool) (version : option Version) : bool :=
  match version with Some _ => semantic | None => true end.

Lemma pick_newest fuzzy module semantic version init list : newest_wins semantic version = true ->
  pick_remote fuzzy module semantic version init list = fold_left newest (candidates fuzzy module list) init.
Proof.
  intros Hw. revert init. induction list as [|record list IH]; intros init; [done|]. cbn [pick_remote].
  unfold candidates. cbn [omap list_omap]. destruct (matchReference record fuzzy module) as [cur|]; [|apply IH].
  cbn [fold_left]. destruct version as [v|]; [|apply IH]. simpl in Hw. subst. apply IH.
Qed.

Lemma pick_exact fuzzy module v list :
  pick_remote fuzzy module false (Some v) None list =
  List.find (fun r => ver_eq (ref_version r) v) (candidates fuzzy module list).
Proof.
  induction list as [|record list IH]; [done|]. cbn [pick_remote]. unfold candidates. cbn [omap list_omap].
  destruct (matchReference record fuzzy module) as [cur|]; [|apply IH]. cbn [List.find].
  destruct (ver_eq (ref_version cur) v); [done|apply IH].
Qed.

Lemma fold_newest l r0 : Forall (fun r => parsed63 (ref_version r)) (r0 :: l) ->
  exists best, fold_left newest l (Some r0) = Some best /\ best ∈ r0 :: l /\
    forall r, r ∈ r0 :: l -> ver_ge (ref_version best) (ref_version r) = true.
Proof.
  assert (Ge : forall a b, parsed63 a -> parsed63 b -> ver_ge a b = (0 <=? ver_cmp a b)).
  { intros a b Ha Hb. unfold ver_ge. destruct (ver_ops a b Ha Hb) as [-> _].
    pose proof (tw_range _ tw_ver a b). zcase; simpl; (done || lia). }
  revert r0. induction l as [|x l IH]; intros r0 Hall.
  - exists r0. split_and!; [done|set_solver|]. intros r ->%list_elem_of_singleton.
    inversion Hall as [|?? Hp _]; subst. rewrite Ge, (tw_refl _ tw_ver) by done. done.
  - inversion Hall as [|?? Hp Hall']; subst. inversion Hall' as [|?? Hx Hl]; subst. cbn [fold_left].
    assert (En : newest (Some r0) x = Some (if ver_gt (ref_version x) (ref_version r0) then x else r0))
      by (unfold newest; by destruct (ver_gt _ _)).
    rewrite En, (ver_gt_cmp _ _ Hx Hp).
    destruct (Z.eqb_spec (ver_cmp (ref_version r0) (ref_version x)) (-1)) as [Ec|Ec].
    + destruct (IH x) as (best & -> & Hin & Hb); [by constructor|]. exists best.
      split_and!; [done|set_solver|]. intros r [->|Hr]%elem_of_cons; [|by apply Hb].
      assert (Pb : parsed63 (ref_version best)) by (rewrite Forall_forall in Hall'; by apply Hall').
      specialize (Hb x ltac:(set_solver)). rewrite Ge in Hb |- * by done. bsplit. apply Z.leb_le.
      pose proof (tw_trans _ tw_ver (ref_version r0) (ref_version x) (ref_version best)).
      pose proof (tw_anti _ tw_ver (ref_version x) (ref_version best)).
      pose proof (tw_anti _ tw_ver (ref_version r0) (ref_version best)). lia.
    + destruct (IH r0) as (best & -> & Hin & Hb); [by constructor|]. exists best.
      split_and!; [done|set_solver|]. intros r Hr. apply elem_of_cons in Hr as [->|[->|Hr]%elem_of_cons];
        [apply Hb; set_solver| |apply Hb; set_solver].
      assert (Pb : parsed63 (ref_version best)).
      { rewrite Forall_forall in Hall. apply Hall. set_solver. }
      specialize (Hb r0 ltac:(set_solver)). rewrite Ge in Hb |- * by done. bsplit. apply Z.leb_le.
      pose proof (tw_range _ tw_ver (ref_version r0) (ref_version x)).
      pose proof (tw_anti _ tw_ver (ref_version r0) (ref_version x)).
      pose proof (tw_trans _ tw_ver (ref_version x) (ref_version r0) (ref_version best)).
      pose proof (tw_anti _ tw_ver (ref_version r0) (ref_version best)).
      pose proof (tw_anti _ tw_ver (ref_version x) (ref_version best)). lia.
Qed.

(** C28: looking a reference up in the list a server sent: without a version, or
    semantically, a candidate of the greatest version is chosen; with an exact
    version, a candidate equal to it; "not found" is reported exactly when
    there is none. *)
Theorem select_remote_spec fuzzy module (semantic : bool) list version :
  asked_version fuzzy = Ok version -> (forall v, fz_version fuzzy = Some v -> v <> []) ->
  let list' := match fz_version fuzzy with Some v => filterByFuzzyVersion list v | None => list end in
  let all := candidates fuzzy module list' in
  let pool := match version with
              | Some v => if semantic then all else List.filter (fun r => ver_eq (ref_version r) v) all
              | None => all
              end in
  Forall (fun r => parsed63 (ref_version r)) all ->
  match select_remote fuzzy module semantic list with
  | Ok r => r ∈ pool /\ (newest_wins semantic version = true ->
              forall r', r' ∈ pool -> ver_ge (ref_version r) (ref_version r') = true)
  | Err c => c = ec_AppNotFoundFromRemote /\ pool = []
  end.
Proof.
  intros Hv Hne list' all pool Hall. unfold select_remote.
  assert (E : (match fz_version fuzzy with
     | Some v => ver <-r version_parse v default_options ;; Ok (filterByFuzzyVersion list v, Some ver)
     | None => Ok (list, None)
     end) = Ok (list', version)).
  { unfold list'. unfold asked_version in Hv. destruct (fz_version fuzzy) as [v|] eqn:Ef; [|by injection Hv as <-].
    rewrite bool_decide_false in Hv by (by apply Hne). destruct (version_parse v default_options); [|done].
    cbn [res_bind] in *. by injection Hv as <-. }
  cbv zeta. rewrite E. cbn [res_bind].
  destruct (newest_wins semantic version) eqn:Hw.
  - assert (Ep : pool = all) by (unfold pool, newest_wins in *; destruct version; [by rewrite Hw|done]).
    rewrite pick_newest by done. fold all. rewrite Ep. destruct all as [|r0 l]; [done|]. cbn [fold_left].
    destruct (fold_newest l r0 Hall) as (best & Eb & Hin & Hb). unfold newest at 2. rewrite Eb. cbn. auto.
  - destruct version as [v|]; [|done]. simpl in Hw. subst semantic. rewrite pick_exact. fold all. unfold pool.
    destruct (List.find _ all) as [r|] eqn:Ef; cbn.
    + split; [|done]. apply find_some in Ef as [Hi He]. apply list_elem_of_In, filter_In. done.
    + split; [done|]. by apply find_nil_filter.
Qed.
End resolving.

(** ** Listing the latest packages *)

Section listing.
Context `{Client} `{Qt} `{StdSort} `{Json} `{Yaml}.

Definition info_version (i : PackageInfoV2) (v : Version) : Prop :=
  version_parse (pi_version i) default_options = Ok v /\ parsed63 v.

Definition infos_comparable (l : list PackageInfoV2) : Prop :=
  Forall (fun i => exists v, info_version i v) l.

(** What has been selected after going through [seen]. *)
Definition latest_of (seen sel : list PackageInfoV2) : Prop :=
  NoDup (pi_id <$> sel) /\ (forall x, x ∈ sel -> x ∈ seen) /\
  forall x, x ∈ seen -> exists y, y ∈ sel /\ pi_id y = pi_id x /\
    forall vx vy, info_version x vx -> info_version y vy -> ver_ge vy vx = true.

Lemma ver_ge_cmp a b : parsed63 a -> parsed63 b -> ver_ge a b = (0 <=? ver_cmp a b).
Proof.
  intros Ha Hb. unfold ver_ge. destruct (ver_ops a b Ha Hb) as [-> _].
  pose proof (tw_range _ tw_ver a b). zcase; simpl; (done || lia).
Qed.

Lemma ver_ge_trans a b d : parsed63 a -> parsed63 b -> parsed63 d ->
  ver_ge a b = true -> ver_ge b d = true -> ver_ge a d = true.
Proof.
  intros Ha Hb Hd. rewrite !ver_ge_cmp by done. intros. bsplit. apply Z.leb_le.
  pose proof (tw_trans _ tw_ver d b a). pose proof (tw_anti _ tw_ver a b).
  pose proof (tw_anti _ tw_ver b d). pose proof (tw_anti _ tw_ver a d). lia.
Qed.

Lemma ver_ge_self a va vb : info_version a va -> info_version a vb -> ver_ge vb va = true.
Proof.
  intros [Ea Pa] [Eb Pb]. assert (va = vb) as <- by congruence.
  rewrite ver_ge_cmp, (tw_refl _ tw_ver) by done. done.
Qed.

(** Taking an element out and putting one of its key at the end. *)
Lemma nodup_moved {A B} (f : A -> B) it item l1 l2 : NoDup (f <$> l1 ++ it :: l2) -> f item = f it ->
  NoDup (f <$> (l1 ++ l2) ++ [item]).
Proof.
  intros Hd E. apply (NoDup_Permutation_proper (f <$> l1 ++ it :: l2)); [|done].
  rewrite !fmap_app, fmap_cons. cbn [fmap list_fmap]. rewrite E. solve_Permutation.
Qed.

Lemma latest_add seen sel item : Forall (fun y => pi_id y <> pi_id item) sel -> latest_of seen sel ->
  latest_of (seen ++ [item]) (sel ++ [item]).
Proof.
  intros Ei (Hd & Hsub & Hall). rewrite Forall_forall in Ei. split_and!.
  - rewrite fmap_app. apply NoDup_app. split_and!; [done| |apply NoDup_singleton].
    intros x (y & -> & Hy)%list_elem_of_fmap E%list_elem_of_singleton. by apply (Ei y).
  - intros x Hx. specialize (Hsub x). set_solver.
  - intros x [Hx| ->%list_elem_of_singleton]%elem_of_app.
    + destruct (Hall x Hx) as (y & Hy & ?). exists y. split; [set_solver|done].
    + exists item. split; [set_solver|]. split; [done|]. intros vx vy Hx Hy. by apply (ver_ge_self item vx vy).
Qed.

Lemma latest_step_spec seen sel item : infos_comparable (item :: seen) -> latest_of seen sel ->
  exists sel', latest_step sel item = Ok sel' /\ latest_of (seen ++ [item]) sel'.
Proof.
  intros Hc (Hd & Hsub & Hall). unfold infos_comparable in Hc. apply Forall_cons in Hc as [[v Hv] Hc].
  rewrite Forall_forall in Hc.
  unfold latest_step. destruct (find_index _ sel) as [i|] eqn:Ei.
  - apply find_index_some in Ei as (l1 & it & l2 & -> & <- & Hit & _). bsplit.
    rewrite list_lookup_middle by done. destruct (Hc it) as [w Hw]; [apply Hsub; set_solver|].
    rewrite (proj1 Hw), (proj1 Hv). cbn [res_bind].
    assert (Hle : ver_le v w = negb (ver_gt v w)).
    { unfold ver_le, ver_gt. destruct (ver_ops v w (proj2 Hv) (proj2 Hw)) as [-> ->].
      pose proof (tw_range _ tw_ver v w). zcase; simpl; (done || lia). }
    rewrite Hle. destruct (ver_gt v w) eqn:Eg; cbn [negb].
    + eexists. split; [done|]. rewrite delete_middle.
      assert (Hvw : ver_ge v w = true).
      { rewrite (ver_gt_cmp v w) in Eg by (apply Hv || apply Hw). rewrite ver_ge_cmp by (apply Hv || apply Hw).
        bsplit. apply Z.eqb_eq in Eg. apply Z.leb_le. pose proof (tw_anti _ tw_ver w v). lia. }
      split_and!.
      * by apply (nodup_moved pi_id it).
      * intros x Hx. specialize (Hsub x). set_solver.
      * intros x [Hx| ->%list_elem_of_singleton]%elem_of_app.
        -- destruct (Hall x Hx) as (y & Hy & Ey & Hge). apply elem_of_app in Hy as [Hy|[->|Hy]%elem_of_cons].
           ++ exists y. split; [set_solver|done].
           ++ exists item. split; [set_solver|]. split; [congruence|]. intros vx vy Hvx Hvy.
              assert (vy = v) as -> by (destruct Hvy, Hv; congruence).
              apply (ver_ge_trans v w vx); [apply Hv|apply Hw|apply Hvx|done|by apply Hge].
           ++ exists y. split; [set_solver|done].
        -- exists item. split; [set_solver|]. split; [done|]. intros vx vy Hx Hy. by apply (ver_ge_self item vx vy).
    + eexists. split; [done|]. split_and!; [done|intros x Hx; specialize (Hsub x); set_solver|].
      intros x [Hx| ->%list_elem_of_singleton]%elem_of_app; [by apply Hall|].
      exists it. split; [set_solver|]. split; [done|]. intros vx vy Hx Hy.
      assert (vx = v) as -> by (destruct Hx, Hv; congruence).
      assert (vy = w) as -> by (destruct Hy, Hw; congruence).
      rewrite (ver_gt_cmp v w) in Eg by (apply Hv || apply Hw). rewrite ver_ge_cmp by (apply Hv || apply Hw).
      apply Z.eqb_neq in Eg. apply Z.leb_le. pose proof (tw_range _ tw_ver w v). lia.
  - apply find_index_none in Ei. eexists. split; [done|]. apply latest_add; [|done..].
    eapply Forall_impl; [exact Ei|]. cbn beta. intros y Hy E. by bsplit.
Qed.

(** The list of the latest local packages has one entry per installed id, and
    that entry is an installed package of the id with the greatest version. *)
Theorem listLocalLatest_spec c : infos_comparable (listLocal c) ->
  exists sel, listLocalLatest c = Ok sel /\ latest_of (listLocal c) sel.
Proof.
  unfold listLocalLatest, listLocal. generalize (l_info <$> queryExistingLayerItem c). intros items Hc.
  assert (G : forall rest seen sel, infos_comparable (seen ++ rest) -> latest_of seen sel ->
    exists sel', latest_loop sel rest = Ok sel' /\ latest_of (seen ++ rest) sel').
  { clear. induction rest as [|x rest IH]; intros seen sel Hc Hl.
    - exists sel. by rewrite app_nil_r.
    - destruct (latest_step_spec seen sel x) as (sel1 & E1 & Hl1); [|done|].
      { unfold infos_comparable in *. rewrite Forall_forall in *. intros y Hy. apply Hc. set_solver. }
      destruct (IH (seen ++ [x]) sel1) as (sel2 & E2 & Hl2); [by rewrite <- app_assoc|done|].
      exists sel2. cbn [latest_loop]. rewrite E1. cbn [res_bind]. split; [done|].
      by rewrite <- app_assoc in Hl2. }
  apply (G items [] []); [done|]. split_and!; [constructor|set_solver|set_solver].
Qed.

(** ** Marking layers as deleted *)

Variable ll_version : str.

Lemma alter_alter_id (l : list RepositoryCacheLayersItem) i x d :
  l !! i = Some x -> alter (set_deleted (l_deleted x)) i (alter (set_deleted d) i l) = l.
Proof.
  revert i. induction l as [|y l IH]; intros [|i] E; simplify_eq/=; [by destruct x|]. f_equal. by apply IH.
Qed.

(** Marking a layer as deleted changes the flag of one recorded layer and
    nothing else, on disk too (when the write is not cut short); when it fails, cache and file are as before. *)
Theorem markDeleted_spec e cfg c ref deleted module subRef :
  let '(c', r) := markDeleted ll_version e cfg c ref deleted module subRef in
  match r with
  | Err _ => c' = c
  | Ok _ =>
      exists i x, rc_layers (cache c) !! i = Some x /\
        (exists item, getLayerItem cfg c ref module subRef = Ok item /\ item_key x = item_key item) /\
        rc_layers (cache c') = alter (set_deleted (if deleted then Some true else None)) i (rc_layers (cache c)) /\
        rc_merged (cache c') = rc_merged (cache c) /\ (complete e -> coherent c')
  end.
Proof.
  unfold markDeleted. destruct (getLayerItem cfg c ref module subRef) as [item|]; [|done].
  pose proof (find_matching c item) as Hf. destruct (findMatchingItem c item) as [i|]; [|done].
  destruct Hf as (l1 & x & l2 & El & <- & Hx).
  assert (Ex : rc_layers (cache c) !! length l1 = Some x) by (rewrite El; by apply list_lookup_middle).
  rewrite Ex. set (d := if deleted then Some true else None).
  set (c1 := set_cache _ _). pose proof (write_cases ll_version e c1) as Hw.
  destruct (writeToDisk ll_version e c1) as [c' r]. destruct Hw as [Hc [(_ & -> & Es)|(_ & -> & ->)]].
  - exists (length l1), x. split_and!; [done|by exists item| | |].
    + by rewrite Hc.
    + by rewrite Hc.
    + intros Hd. unfold coherent. rewrite Es, Hc. unfold written. rewrite Hd. cbn. apply json_load_dump.
  - unfold c1, set_cache, with_layers. cbn. rewrite alter_alter_id by done.
    by destruct c as [[] ? ?].
Qed.

(** ** The layer of a reference *)

Lemma layer_query_match ref repo module sub l :
  query_match (layer_query ref repo module sub) l = true ->
  pi_id (l_info l) = ref_id ref /\ pi_channel (l_info l) = ref_channel ref /\
  pi_version (l_info l) = ver_toString (ref_version ref) /\ packageInfoV2Module (l_info l) = module /\
  match repo with Some r => l_repo l = r | None => True end.
Proof.
  unfold query_match, layer_query, opt_ok. cbn. intros. bsplit. split_and!; try done. destruct repo; [by bsplit|done].
Qed.

Lemma query_elem c query l : comparable (rc_layers (cache c)) ->
  l ∈ queryLayerItem c query <-> l ∈ rc_layers (cache c) /\ query_match query l = true.
Proof.
  intros Hc. destruct (query_sorted c query Hc) as [E _]. rewrite E.
  rewrite !list_elem_of_In, filter_In. done.
Qed.

(** The layer found for a reference and a module is a recorded layer of that
    id, channel and version with that module ("runtime" stands for "binary"
    and is the fallback for it), and it comes from the default repository
    whenever that has one. *)
Theorem getLayerItem_spec cfg c ref module subRef d layer : comparable (rc_layers (cache c)) ->
  getDefaultRepo cfg = Some d -> getLayerItem cfg c ref module subRef = Ok layer ->
  layer ∈ rc_layers (cache c) /\ pi_id (l_info layer) = ref_id ref /\ pi_channel (l_info layer) = ref_channel ref /\
  pi_version (l_info layer) = ver_toString (ref_version ref) /\
  (let m := if bool_decide (module = lit "runtime") then lit "binary" else module in
   (packageInfoV2Module (l_info layer) = m \/ m = lit "binary" /\ packageInfoV2Module (l_info layer) = lit "runtime") /\
   (forall l, l ∈ rc_layers (cache c) -> query_match (layer_query ref (Some (repo_alias d)) m subRef) l = true -> layer = l)).
Proof.
  intros Hc Hd. unfold getLayerItem. rewrite Hd. set (m := if bool_decide (module = lit "runtime") then _ else _).
  assert (Q : forall repo m', match queryLayerItem c (layer_query ref repo m' subRef) with
    | item :: _ => item ∈ rc_layers (cache c) /\ query_match (layer_query ref repo m' subRef) item = true
    | [] => True end).
  { intros repo m'. pose proof (fun l => query_elem c (layer_query ref repo m' subRef) l Hc) as E.
    destruct (queryLayerItem _ _) as [|x l]; [done|]. apply E. set_solver. }
  pose proof (fun l => query_elem c (layer_query ref (Some (repo_alias d)) m subRef) l Hc) as E1.
  pose proof (Q (Some (repo_alias d)) m) as Q1. destruct (queryLayerItem c (layer_query ref (Some (repo_alias d)) m subRef)) as [|x [|y l]].
  - assert (Hno : forall l, l ∈ rc_layers (cache c) -> query_match (layer_query ref (Some (repo_alias d)) m subRef) l = true -> layer = l).
    { intros l Hl Hm. assert (F : l ∈ []) by (by apply E1). set_solver. }
    pose proof (Q None m) as Q2. destruct (queryLayerItem c (layer_query ref None m subRef)) as [|x l].
    + destruct (bool_decide_reflect (m = lit "binary")) as [Em|]; [|done]. cbn [negb].
      pose proof (Q None (lit "runtime")) as Q3. destruct (queryLayerItem c (layer_query ref None (lit "runtime") subRef)) as [|x l]; [done|].
      intros [= ->]. destruct Q3 as [Hin Hm]. apply layer_query_match in Hm as (? & ? & ? & ? & _). split_and!; auto.
    + intros [= ->]. destruct Q2 as [Hin Hm]. apply layer_query_match in Hm as (? & ? & ? & ? & _). split_and!; auto.
  - intros [= ->]. destruct Q1 as [Hin Hm]. apply layer_query_match in Hm as (? & ? & ? & ? & _).
    split_and!; auto. intros l Hl Hm'. assert (F : l ∈ [layer]) by (by apply E1). by apply list_elem_of_singleton in F.
  - done.
Qed.

(** *** Modules on the server *)

Lemma unique_cons x l : exists r, unique (x :: l) = x :: r.
Proof. cbn [unique]. destruct (unique l) as [|y r]; [eauto|]. case_decide; eauto. Qed.

Lemma unique_elem x l : x ∈ unique l <-> x ∈ l.
Proof.
  induction l as [|y l IH]; [done|]. cbn [unique]. rewrite elem_of_cons, <- IH.
  destruct (unique l) as [|z r]; [set_solver|]. case_decide; set_solver.
Qed.

Lemma str_lt_trans a b d : str_lt a b = true -> str_lt b d = true -> str_lt a d = true.
Proof.
  unfold str_lt. intros E1%Z.eqb_eq E2%Z.eqb_eq. apply Z.eqb_eq.
  pose proof (tw_lt_le _ tw_str a b d). pose proof (tw_range _ tw_str a d). lia.
Qed.

Lemma str_lt_weak l : strict_weak str_lt l.
Proof.
  unfold str_lt. split.
  - intros x y _ _ E1%Z.eqb_eq. apply Z.eqb_neq. pose proof (tw_anti _ tw_str x y). lia.
  - intros x y z _ _ _ E1%Z.eqb_neq E2%Z.eqb_neq. apply Z.eqb_neq. pose proof (tw_range _ tw_str x y). pose proof (tw_range _ tw_str y z).
    pose proof (tw_trans _ tw_str z y x). pose proof (tw_anti _ tw_str x y). pose proof (tw_anti _ tw_str y z).
    pose proof (tw_anti _ tw_str x z). lia.
Qed.

(** The entries of a [std::map]. *)
Definition ordered {A} (l : list (str * A)) : Prop := StronglySorted (fun a b => str_lt a.1 b.1 = true) l.

Lemma str_lt_irrefl a b : str_lt a b = true -> a <> b.
Proof. unfold str_lt. intros E ->. apply Z.eqb_eq in E. rewrite (tw_refl _ tw_str) in E. done. Qed.

Lemma str_lt_total a b : str_lt a b = false -> a <> b -> str_lt b a = true.
Proof.
  unfold str_lt. intros E Hn. apply Z.eqb_neq in E. apply Z.eqb_eq. pose proof (tw_range _ tw_str a b). pose proof (tw_anti _ tw_str a b).
  destruct (Z.eq_dec (str_cmp a b) 0) as [E0|]; [|lia]. by apply str_cmp_eq in E0.
Qed.

Lemma ordered_keys {A} (l : list (str * A)) k v w : ordered l -> (k, v) ∈ l -> (k, w) ∈ l -> v = w.
Proof.
  induction 1 as [|[k0 v0] l Hl IH Hx]; [by intros ?%elem_of_nil|]. rewrite Forall_forall in Hx.
  assert (Hk : forall u, (k0, u) ∈ l -> False) by (intros u Hu; by apply Hx, str_lt_irrefl in Hu).
  intros [E1|Hl1]%elem_of_cons [E2|Hl2]%elem_of_cons; simplify_eq; [done|..|by apply IH]; exfalso; by eapply Hk.
Qed.

Lemma unique_sorted l : StronglySorted (fun a b => str_lt b a = false) l ->
  StronglySorted (fun a b => str_lt a b = true) (unique l).
Proof.
  induction 1 as [|x l Hl IH Hx]; [constructor|]. cbn [unique].
  destruct (unique l) as [|y r] eqn:E; [repeat constructor|].
  assert (Hlt : forall z, z ∈ y :: r -> x <> z -> str_lt x z = true).
  { intros z Hz Hne. rewrite <- E, unique_elem in Hz. rewrite Forall_forall in Hx. specialize (Hx z Hz).
    unfold str_lt in *. apply Z.eqb_neq in Hx. apply Z.eqb_eq. pose proof (tw_range _ tw_str z x).
    pose proof (tw_anti _ tw_str x z). pose proof (str_cmp_eq x z). destruct (decide (str_cmp x z = 0)); [tauto|lia]. }
  inversion IH as [|?? Hr Hy]; subst. case_decide as Exy; [subst y; by constructor|].
  assert (Hxy : str_lt x y = true) by (apply Hlt; [set_solver|done]).
  constructor; [done|]. constructor; [done|]. rewrite Forall_forall in *. intros z Hz.
  by apply (str_lt_trans x y z), Hy.
Qed.

(** With a filter, the modules the server has that are wanted are listed once
    each in ascending order, "runtime" being added when "binary" is wanted and
    missing.  Without a filter the program ends as soon as the server knows
    the package: the code reads the absent filter. *)
Theorem getRemoteModuleList_spec curArch s ref filter repo f infos :
  fuzzy_create (Some (ref_channel ref)) (ref_id ref) (Some (ver_toString (ref_version ref))) (Some (ref_arch ref)) = Ok f ->
  snd (listRemote curArch s f (Some repo)) = Ok infos -> infos <> [] ->
  match filter with
  | None => snd (getRemoteModuleList curArch s ref None repo) = Err terminated
  | Some wanted_list =>
      exists l, snd (getRemoteModuleList curArch s ref filter repo) = Ok l /\
        StronglySorted (fun a b => str_lt a b = true) l /\
        forall m, m ∈ l <->
          (m ∈ packageInfoV2Module <$> infos) /\ wanted_module filter m = true \/
          m = lit "runtime" /\ include wanted_list (lit "binary") = true /\
            (lit "binary" ∉ packageInfoV2Module <$> infos)
  end.
Proof.
  intros Hf Hl Hne. unfold getRemoteModuleList. rewrite Hf.
  destruct (listRemote curArch s f (Some repo)) as [s' r]. cbn [snd] in Hl. subst r.
  destruct infos as [|i infos]; [done|]. destruct filter as [w|]; [|done]. cbn [snd]. eexists. split; [done|].
  set (ms := packageInfoV2Module <$> i :: infos). set (sel := List.filter _ ms).
  set (all := if include w (lit "binary") && _ then sel ++ [lit "runtime"] else sel).
  pose proof (std_sort_perm _ str_lt all (str_lt_weak all)) as Hp. split.
  { apply unique_sorted, std_sort_sorted, str_lt_weak. }
  assert (Hsel : forall m, m ∈ sel <-> m ∈ ms /\ wanted_module (Some w) m = true).
  { intros m. unfold sel. by rewrite !list_elem_of_In, filter_In. }
  assert (Hinc : forall l x, include l x = true <-> x ∈ l).
  { intros l x. unfold include. rewrite existsb_exists. setoid_rewrite bool_decide_eq_true.
    setoid_rewrite <- list_elem_of_In. split; [by intros (? & ? & ->)|eauto]. }
  intros m. rewrite unique_elem, Hp. unfold all. destruct (include w (lit "binary")) eqn:Ew; cbn [andb].
  - assert (Hb : lit "binary" ∈ sel <-> lit "binary" ∈ ms).
    { rewrite Hsel. split; [tauto|]. intros Hb. split; [done|]. unfold wanted_module. by rewrite Ew. }
    destruct (include sel (lit "binary")) eqn:Es; cbn [negb].
    + rewrite Hsel. apply Hinc, Hb in Es. tauto.
    + rewrite elem_of_app, list_elem_of_singleton, Hsel.
      assert (Hn : lit "binary" ∉ ms).
      { rewrite <- Hb, <- Hinc. congruence. }
      tauto.
  - rewrite Hsel. split; [auto|]. intros [?|(_ & ? & _)]; [done|done].
Qed.
End listing.

(** ** Concrete repositories *)

#[local] Existing Instance qt_model.
#[local] Existing Instance std_sort_model.
#[local] Existing Instance json_model.

Definition example_item (version module : str) : register_item :=
  mkItem (lit "x86_64") (lit "main") (lit "demo") (lit "org.deepin.demo") (lit "app") module (lit "demo") [] 1 version.

(** A server that always sends the same three records. *)
Definition client_model : Client :=
  {| fuzzySearchApp := fun _ _ => Some (mkResponse 200 None (Some
       [example_item (lit "1.0.0.1") (lit "binary"); example_item (lit "1.2.3") (lit "binary");
        example_item (lit "1.0.0.2") (lit "develop")])) |}.
#[local] Existing Instance client_model.

Definition yaml_model : Yaml :=
  {| load_v2 := fun _ => None; load_v1 := fun _ => None; to_yaml := c2_defaultRepo |}.
#[local] Existing Instance yaml_model.

Definition stable_repo : Repo := mkRepo None None (lit "stable") 0 (lit "https://s").
Definition test_repo : Repo := mkRepo (Some (lit "test")) (Some true) (lit "testing") (-100) (lit "https://t").
Definition example_cfg : RepoConfigV2 := mkRepoConfigV2 (lit "stable") [stable_repo; test_repo] 2.
Definition example_cfg' : RepoConfigV2 := mkRepoConfigV2 (lit "test") [stable_repo; test_repo] 2.

Lemma promote_recover_witness :
  promotePriority example_cfg (lit "test") =
    Some (with_repos example_cfg [stable_repo; set_priority i64_max test_repo], -100) /\
  recoverPriority (with_repos example_cfg [stable_repo; set_priority i64_max test_repo]) (lit "test") (-100) = Some example_cfg.
Proof.
  split; [vm_compute; reflexivity|].
  exact (proj1 (promote_recover example_cfg (lit "test") _ (-100) eq_refl
    ltac:(repeat constructor; vm_compute; reflexivity))).
Defined.

Definition example_repo_state : OSTreeRepo :=
  mkOR example_cfg (fun _ => Some (lit "stable")) (remote_of <$> c2_repos example_cfg) (lit "https://s") example_state.

Definition failing_env : config_env := mkConfigEnv (Saved None) (Some (2%nat, 5)) (Saved None) None true all_good.

Lemma setConfig_transaction_witness :
  config_coherent (lit "c.yaml") example_repo_state /\
  let '(s', r) := setConfig (lit "c.yaml") (lit "1.9") failing_env example_ostree example_cfg' example_repo_state in
  r = Err 5 /\ cfg s' = example_cfg /\ server s' = lit "https://s" /\ yaml_files s' (lit "c.yaml") = Some (to_yaml example_cfg).
Proof.
  split; [done|].
  pose proof (setConfig_transaction (lit "c.yaml") (lit "1.9") failing_env example_ostree example_cfg' example_repo_state
    (conj eq_refl eq_refl) (ex_intro _ stable_repo eq_refl) (conj eq_refl eq_refl)) as Hs.
  assert (E : snd (setConfig (lit "c.yaml") (lit "1.9") failing_env example_ostree example_cfg' example_repo_state) = Err 5)
    by (vm_compute; reflexivity).
  destruct (setConfig _ _ _ _ _ _) as [s' r]. cbn [snd] in E. subst r. destruct Hs as (Hc & Hv & Hf & _).
  split_and!; [done|exact Hc|exact Hv|]. destruct Hf as [Hf|(n & F & _)]; [exact Hf|discriminate F].
Defined.

(** A full disk: the change succeeds, and the file holds a part of the new text. *)
Example config_cut_short :
  let e := mkConfigEnv (Saved (Some 2%nat)) None (Saved None) None true all_good in
  let '(s', r) := setConfig (lit "c.yaml") (lit "1.9") e example_ostree example_cfg' example_repo_state in
  r = Ok tt /\ cfg s' = example_cfg' /\ yaml_files s' (lit "c.yaml") = Some (lit "te").
Proof. vm_compute. split_and!; reflexivity. Qed.

Lemma updateConfig_failure_witness :
  config_coherent (lit "c.yaml") example_repo_state /\
  let '(s', r) := updateConfig (lit "c.yaml") failing_env example_cfg' example_repo_state in
  r = Err 5 /\ cfg s' = example_cfg /\ remotes s' = remotes example_repo_state /\
  yaml_files s' (lit "c.yaml") = Some (to_yaml example_cfg').
Proof.
  split; [done|].
  exact (updateConfig_failure (lit "c.yaml") failing_env example_cfg' example_repo_state 5
    (conj eq_refl eq_refl) (conj eq_refl eq_refl) eq_refl eq_refl eq_refl).
Defined.

Definition demo_fuzzy : FuzzyReference := mkFuzzy None (lit "org.deepin.demo") None None.

Lemma clearReferenceLocal_spec_witness :
  comparable (rc_layers (cache example_state)) /\
  exists best, best ∈ List.filter (fun l => same_id demo_fuzzy l && wanted false None l) (rc_layers (cache example_state)) /\
    clearReferenceLocal (Ok X86_64) example_state demo_fuzzy false = ref_fromPackageInfo (l_info best) /\
    forall other vb vo,
      other ∈ List.filter (fun l => same_id demo_fuzzy l && wanted false None l) (rc_layers (cache example_state)) ->
      layer_version best vb -> layer_version other vo -> ver_ge vb vo = true.
Proof.
  split; [exact example_comparable|].
  exact (proj2 (clearReferenceLocal_spec (Ok X86_64) example_state demo_fuzzy false None
    example_comparable eq_refl eq_refl) ltac:(vm_compute; discriminate)).
Defined.

Definition example_infos : list PackageInfoV2 :=
  [item_info (example_item (lit "1.0.0.1") (lit "binary")); item_info (example_item (lit "1.2.3") (lit "binary"));
   item_info (example_item (lit "1.0.0.2") (lit "develop"))].

Lemma v2_example_parsed : parsed63 (isV2 (mkV2 1 2 3 [] [] 0 true)).
Proof.
  exists (mkVersion 1 2 3 pre_empty [] 0 true). unfold i64_max. cbn. split_and!; try lia; [|by vm_compute].
  unfold wf_version, u64_max. cbn. split_and!; try lia; [by split|by left].
Qed.

Lemma v1_example_parsed t : 0 <= t <= 9 -> parsed63 (isV1 (mkV1 1 0 0 (Some t))).
Proof. intros. unfold parsed63, wf_v1, i64_max. cbn. split; [lia|done]. Qed.

Lemma example_candidates :
  candidates demo_fuzzy (lit "binary") example_infos =
  [mkRef (lit "main") (lit "org.deepin.demo") (isV1 (mkV1 1 0 0 (Some 1))) X86_64;
   mkRef (lit "main") (lit "org.deepin.demo") (isV2 (mkV2 1 2 3 [] [] 0 true)) X86_64].
Proof. vm_compute. reflexivity. Qed.

Lemma select_remote_spec_witness :
  Forall (fun r => parsed63 (ref_version r)) (candidates demo_fuzzy (lit "binary") example_infos) /\
  match select_remote demo_fuzzy (lit "binary") false example_infos with
  | Ok r => (r ∈ candidates demo_fuzzy (lit "binary") example_infos) /\ (true = true ->
              forall r', r' ∈ candidates demo_fuzzy (lit "binary") example_infos ->
                ver_ge (ref_version r) (ref_version r') = true)
  | Err c => c = ec_AppNotFoundFromRemote /\ candidates demo_fuzzy (lit "binary") example_infos = []
  end.
Proof.
  assert (H : Forall (fun r => parsed63 (ref_version r)) (candidates demo_fuzzy (lit "binary") example_infos)).
  { rewrite example_candidates. apply Forall_cons. split; [apply (v1_example_parsed 1); lia|].
    apply Forall_cons. split; [exact v2_example_parsed|constructor]. }
  split; [exact H|].
  exact (select_remote_spec demo_fuzzy (lit "binary") false example_infos None eq_refl ltac:(discriminate) H).
Defined.

Lemma example_infos_comparable : infos_comparable (listLocal example_state).
Proof.
  repeat constructor.
  - exists (isV1 (mkV1 1 0 0 (Some 1))). split; [by vm_compute|]. apply (v1_example_parsed 1). lia.
  - exists (isV2 (mkV2 1 2 3 [] [] 0 true)). split; [by vm_compute|]. exact v2_example_parsed.
  - exists (isV1 (mkV1 1 0 0 (Some 2))). split; [by vm_compute|]. apply (v1_example_parsed 2). lia.
Qed.

Lemma listLocalLatest_spec_witness :
  infos_comparable (listLocal example_state) /\
  exists sel, listLocalLatest example_state = Ok sel /\ latest_of (listLocal example_state) sel.
Proof.
  split; [exact example_infos_comparable|].
  exact (listLocalLatest_spec example_state example_infos_comparable).
Defined.

Definition demo_ref : Reference :=
  mkRef (lit "main") (lit "org.deepin.demo") (isV2 (mkV2 1 2 3 [] [] 0 true)) X86_64.

Lemma getLayerItem_spec_witness :
  getLayerItem example_cfg example_state demo_ref (lit "runtime") None = Ok (layer_of (lit "c2") (lit "1.2.3")) /\
  layer_of (lit "c2") (lit "1.2.3") ∈ rc_layers (cache example_state).
Proof.
  assert (H : getLayerItem example_cfg example_state demo_ref (lit "runtime") None = Ok (layer_of (lit "c2") (lit "1.2.3")))
    by (vm_compute; reflexivity).
  split; [exact H|].
  exact (proj1 (getLayerItem_spec example_cfg example_state demo_ref (lit "runtime") None stable_repo _
    example_comparable eq_refl H)).
Defined.

Lemma getRemoteModuleList_spec_witness :
  snd (listRemote (Ok X86_64) example_repo_state
         (mkFuzzy (Some (lit "main")) (lit "org.deepin.demo") (Some (lit "1.2.3")) (Some X86_64)) (Some test_repo)) =
    Ok example_infos /\
  snd (getRemoteModuleList (Ok X86_64) example_repo_state demo_ref None test_repo) = Err terminated.
Proof.
  assert (H : snd (listRemote (Ok X86_64) example_repo_state
         (mkFuzzy (Some (lit "main")) (lit "org.deepin.demo") (Some (lit "1.2.3")) (Some X86_64)) (Some test_repo)) =
    Ok example_infos) by (vm_compute; reflexivity).
  split; [exact H|].
  exact (getRemoteModuleList_spec (Ok X86_64) example_repo_state demo_ref None test_repo _ example_infos
    ltac:(vm_compute; reflexivity) H ltac:(discriminate)).
Defined.
