(* ===== verification/MergeModules.v ===== *)
(** * Merging the modules of a package ([OSTreeRepo::mergeModules])

    Layers of the same id, version and architecture are merged into one
    directory under [merged/], named by a hash of their commits; the cache
    records what has been merged so that unchanged groups are left alone. *)
From S2P Require Import Prelude Qt Types Semver Version Reference RepoConfig RepoCache OstreeRepo.

(** ** Grouping *)

Definition group_key (layer : RepositoryCacheLayersItem) : str :=
  pi_id (l_info layer) ++ lit "/" ++ pi_version (l_info layer) ++ lit "/" ++
  default [] (head (pi_arch (l_info layer))).

(** [layerGroup[key].push_back(layer)] of a [std::map]: keys in ascending order. *)
Fixpoint group_push {A} (key : str) (x : A) (m : list (str * list A)) : list (str * list A) :=
  match m with
  | [] => [(key, [x])]
  | (k, l) :: m' =>
      if str_lt key k then (key, [x]) :: m
      else if bool_decide (key = k) then (k, l ++ [x]) :: m'
      else (k, l) :: group_push key x m'
  end.

Definition group_layers (layers : list RepositoryCacheLayersItem) : list (str * list RepositoryCacheLayersItem) :=
  fold_left (fun m l => group_push (group_key l) l m) layers [].

(** *** What grouping gives *)

Lemma filter_bool {A} (f : A -> bool) (P : A -> Prop) `{forall x, Decision (P x)} (l : list A) :
  (forall x, f x = true <-> P x) -> List.filter f l = filter P l.
Proof.
  intros Hf. induction l as [|x l IH]; [done|]. cbn [List.filter]. rewrite filter_cons, IH. specialize (Hf x).
  destruct (f x); case_decide; naive_solver.
Qed.

Lemma group_push_ordered {A} key (x : A) m : ordered m -> ordered (group_push key x m) /\
  forall k l, (k, l) ∈ group_push key x m <->
    (k <> key /\ (k, l) ∈ m) \/ (k = key /\ ((exists l0, (key, l0) ∈ m /\ l = l0 ++ [x]) \/ ((forall l0, (key, l0) ∉ m) /\ l = [x]))).
Proof.
  unfold ordered. induction 1 as [|[k0 l0] m Hm [IH1 IH2] Hx]; cbn [group_push].
  { split; [repeat constructor|]. intros k l. rewrite list_elem_of_singleton. split.
    - intros [= -> ->]. right. split; [done|right]. split; [|done]. intros l0. apply not_elem_of_nil.
    - intros [[_ Hin%elem_of_nil]|[-> [(l0 & Hin%elem_of_nil & _)|[_ ->]]]]; done. }
  rewrite Forall_forall in Hx. destruct (str_lt key k0) eqn:El.
  - assert (Hlt : forall y, y ∈ (k0, l0) :: m -> str_lt key y.1 = true).
    { intros y [->|Hy]%elem_of_cons; [done|]. apply (str_lt_trans key k0); [done|by apply Hx]. }
    assert (Hno : forall l1, (key, l1) ∉ (k0, l0) :: m).
    { intros l1 Hin. apply Hlt in Hin. by apply (str_lt_irrefl key key). }
    split; [constructor; [by constructor; [|apply Forall_forall]|by apply Forall_forall]|].
    intros k l. rewrite (elem_of_cons ((k0, l0) :: m)). split.
    + intros [[= -> ->]|Hin]; [right; auto|left]. split; [|done]. intros ->. by apply (Hno l).
    + intros [[_ Hin]|[-> [(l1 & Hin & _)|[_ ->]]]]; [by right|by apply Hno in Hin|by left].
  - case_bool_decide as E.
    + subst k0. assert (Hno : forall l1, (key, l1) ∉ m) by (intros l1 Hin; apply Hx in Hin; by apply (str_lt_irrefl key key)).
      split; [constructor; [done|by apply Forall_forall]|]. intros k l. rewrite !elem_of_cons. split.
      * intros [[= -> ->]|Hin]; [right; split; [done|left]; exists l0; split; [by left|done]|left].
        split; [intros ->; by apply (Hno l)|by right].
      * intros [[Hne [[= -> ->]|Hin]]|[-> [(l1 & [[= ->]|Hin]%elem_of_cons & ->)|[Hn ->]]]]; [done|by right|by left|by apply Hno in Hin|].
        destruct (Hn l0). by left.
    + split; [constructor; [done|]|].
      * apply Forall_forall. intros [k l] [[_ Hin]|[-> _]]%IH2; [by apply Hx|]. cbn. by apply str_lt_total.
      * intros k l. rewrite !elem_of_cons, IH2. setoid_rewrite elem_of_cons. split; [|naive_solver].
        intros [[= -> ->]|[Hin|[-> Hin]]]; [left; by split; [intros ->|left]|left; naive_solver|right]. split; [done|].
        destruct Hin as [(l1 & Hin & ->)|[Hn ->]]; [left; exists l1; naive_solver|right]. split; [|done].
        intros l1 [[= -> ->]|Hin]; [done|by apply (Hn l1)].
Qed.

Lemma group_layers_spec ls : ordered (group_layers ls) /\
  forall key l, (key, l) ∈ group_layers ls <-> l = filter (fun x => group_key x = key) ls /\ l <> [].
Proof.
  unfold group_layers. induction ls as [|x ls [IH1 IH2]] using rev_ind.
  { split; [constructor|]. intros key l. cbn. split; [by intros ?%elem_of_nil|naive_solver]. }
  rewrite fold_left_app. cbn [fold_left]. destruct (group_push_ordered (group_key x) x _ IH1) as [Ho Hin]. split; [exact Ho|].
  intros key l. rewrite Hin. setoid_rewrite IH2. rewrite filter_app.
  destruct (decide (group_key x = key)) as [<-|Hne].
  - rewrite (filter_cons_True _ x) by done. rewrite filter_nil. split.
    + intros [[? _]|[_ [(l0 & [-> _] & ->)|[Hn ->]]]]; [done|by split; [|by destruct (filter _ _)]|]. split; [|done].
      destruct (filter (fun y => group_key y = group_key x) ls) as [|y r] eqn:E; [done|]. by destruct (Hn (y :: r)).
    + intros [-> _]. right. split; [done|]. destruct (filter (fun y => group_key y = group_key x) ls) as [|y r] eqn:E; [right|left; by exists (y :: r)].
      split; [|done]. intros l0 [-> F]. done.
  - rewrite (filter_cons_False _ x), filter_nil, app_nil_r by done. naive_solver.
Qed.

(** The first element with a property is one. *)
Lemma first_unique {A} (P : A -> Prop) (l1 k1 l2 k2 : list A) x y : l1 ++ x :: l2 = k1 ++ y :: k2 ->
  P x -> P y -> Forall (fun z => ~ P z) l1 -> Forall (fun z => ~ P z) k1 -> x = y.
Proof.
  revert k1. induction l1 as [|a l1 IH]; intros [|b k1] E Hx Hy Hl Hk; cbn in E; simplify_eq; [done| | |].
  - by apply Forall_cons in Hk as [].
  - by apply Forall_cons in Hl as [].
  - apply Forall_cons in Hl as [_ Hl], Hk as [_ Hk]. by eapply IH.
Qed.

Definition is_binary (module : str) : bool :=
  bool_decide (module = lit "binary") || bool_decide (module = lit "runtime").

(** The commit of the last binary or runtime layer, empty when there is none. *)
Definition binary_commit (layers : list RepositoryCacheLayersItem) : str :=
  fold_left (fun acc l => if is_binary (packageInfoV2Module (l_info l)) then l_commit l else acc) layers [].

(** ** Outcomes of the file operations *)

Record merge_env := mkMergeEnv {
  me_clean_tmp : str -> result unit;
  me_create_tmp : str -> result unit;
  me_checkout : str -> str -> result unit;
  me_clean_out : str -> result unit;
  me_rename : str -> result unit;
  me_cache : write_env;
  me_read_dir : result unit;
  me_remove : str -> bool
}.

(** The entries of the directory [merged/]. *)
Definition tmp_name (id : str) : str := lit "tmp_" ++ id.
Definition rm_entry (name : str) (dirs : list str) : list str := List.filter (fun d => negb (bool_decide (d = name))) dirs.
Definition add_entry (name : str) (dirs : list str) : list str :=
  if include dirs name then dirs else name :: dirs.

Lemma include_elem l x : include l x = true <-> x ∈ l.
Proof.
  unfold include. rewrite existsb_exists. setoid_rewrite bool_decide_eq_true.
  setoid_rewrite <- list_elem_of_In. split; [by intros (? & ? & ->)|eauto].
Qed.

Lemma rm_entry_elem x n dirs : x ∈ rm_entry n dirs <-> x ∈ dirs /\ x <> n.
Proof.
  unfold rm_entry. rewrite !list_elem_of_In, filter_In, negb_true_iff, bool_decide_eq_false. done.
Qed.

Lemma add_entry_elem x n dirs : x ∈ add_entry n dirs <-> x ∈ dirs \/ x = n.
Proof.
  unfold add_entry. destruct (include dirs n) eqn:E; [|set_solver].
  apply include_elem in E. split; [auto|]. intros [?| ->]; done.
Qed.

Section merging.
Context `{Client} `{Qt} `{StdSort} `{Json} `{Yaml}.

(** [QCryptographicHash] (SHA-256, in hexadecimal) of the data added to it. *)
Variable sha256_hex : str -> str.
Variable ll_version : str.

Definition module_lt (a b : RepositoryCacheLayersItem) : bool :=
  str_lt (packageInfoV2Module (l_info a)) (packageInfoV2Module (l_info b)).

(** The record a group is merged to; [None] when it needs no merging. *)
Definition merge_item (g : str * list RepositoryCacheLayersItem) : option RepositoryCacheMergedItem :=
  let '(key, layers) := g in
  if bool_decide (length layers = 1%nat) then None
  else
    let layers := std_sort module_lt layers in
    let binaryCommit := binary_commit layers in
    if bool_decide (binaryCommit = []) then None
    else
      let commits := l_commit <$> layers in
      Some (mkMerged (Some binaryCommit) commits (sha256_hex (concat commits))
              ((fun l => packageInfoV2Module (l_info l)) <$> layers) (Some key)).

(** The recorded item that makes merging again unnecessary. *)
Definition unchanged (merged : option (list RepositoryCacheMergedItem)) (item : RepositoryCacheMergedItem) : option RepositoryCacheMergedItem :=
  match merged with
  | None => None
  | Some l =>
      match List.find (fun m => bool_decide (mi_id m = mi_id item)) l with
      | Some m => if bool_decide (mi_commits m = mi_commits item) then Some m else None
      | None => None
      end
  end.

Fixpoint checkout_all (e : merge_env) (id : str) (commits : list str) : result unit :=
  match commits with
  | [] => Ok tt
  | c :: l => me_checkout e id c ;;r checkout_all e id l
  end.

(** Build the directory of an item aside and rename it. *)
Definition build_dir (e : merge_env) (item : RepositoryCacheMergedItem) (dirs : list str) : list str * result unit :=
  let id := mi_id item in
  match me_clean_tmp e id with
  | Err c => (dirs, Err c)
  | Ok _ =>
      let dirs := rm_entry (tmp_name id) dirs in
      match me_create_tmp e id with
      | Err c => (dirs, Err c)
      | Ok _ =>
          let dirs := add_entry (tmp_name id) dirs in
          match checkout_all e id (mi_commits item) with
          | Err c => (dirs, Err c)
          | Ok _ =>
              match me_clean_out e id with
              | Err c => (dirs, Err c)
              | Ok _ =>
                  let dirs := rm_entry id dirs in
                  match me_rename e id with
                  | Err c => (dirs, Err c)
                  | Ok _ => (add_entry id (rm_entry (tmp_name id) dirs), Ok tt)
                  end
              end
          end
      end
  end.

(** The loop over the groups. *)
Fixpoint merge_groups (e : merge_env) (merged : option (list RepositoryCacheMergedItem))
    (groups : list (str * list RepositoryCacheLayersItem)) (dirs : list str)
    : list str * result (list RepositoryCacheMergedItem) :=
  match groups with
  | [] => (dirs, Ok [])
  | g :: rest =>
      match merge_item g with
      | None => merge_groups e merged rest dirs
      | Some item =>
          match unchanged merged item with
          | Some m =>
              match merge_groups e merged rest dirs with
              | (dirs, Ok l) => (dirs, Ok (m :: l))
              | (dirs, Err c) => (dirs, Err c)
              end
          | None =>
              match build_dir e item dirs with
              | (dirs, Err c) => (dirs, Err c)
              | (dirs, Ok _) =>
                  match merge_groups e merged rest dirs with
                  | (dirs, Ok l) => (dirs, Ok (item :: l))
                  | (dirs, Err c) => (dirs, Err c)
                  end
              end
          end
      end
  end.

(** Entries of [merged/] no item names are removed, where that succeeds. *)
Definition clean_dirs (e : merge_env) (items : list RepositoryCacheMergedItem) (dirs : list str) : list str :=
  List.filter (fun d => existsb (fun m => bool_decide (d = mi_id m)) items || negb (me_remove e d)) dirs.

Definition mergeModules (e : merge_env) (c : RepoCache) (dirs : list str) : RepoCache * list str * result unit :=
  match merge_groups e (queryMergedItems c) (group_layers (queryExistingLayerItem c)) dirs with
  | (dirs, Err code) => (c, dirs, Err code)
  | (dirs, Ok newMergedItems) =>
      match updateMergedItems ll_version (me_cache e) c newMergedItems with
      | (c, Err code) => (c, dirs, Err code)
      | (c, Ok _) =>
          match me_read_dir e with
          | Err code => (c, dirs, Err code)
          | Ok _ => (c, clean_dirs e newMergedItems dirs, Ok tt)
          end
      end
  end.

(** ** Facts *)

(** What the new list of merged items is. *)
Definition new_items (merged : option (list RepositoryCacheMergedItem)) (groups : list (str * list RepositoryCacheLayersItem)) : list RepositoryCacheMergedItem :=
  (fun item => default item (unchanged merged item)) <$> omap merge_item groups.

Lemma merge_groups_items e merged groups dirs :
  match merge_groups e merged groups dirs with
  | (_, Ok l) => l = new_items merged groups
  | (_, Err _) => True
  end.
Proof.
  unfold new_items. revert dirs. induction groups as [|g groups IH]; intros dirs; [done|]. simpl.
  destruct (merge_item g) as [item|]; [|apply IH]. rewrite fmap_cons.
  destruct (unchanged merged item) as [m|].
  - specialize (IH dirs). destruct (merge_groups e merged groups dirs) as [d [l|c]]; [|done]. by subst.
  - destruct (build_dir e item dirs) as [d [u|c]]; [|done]. specialize (IH d).
    destruct (merge_groups e merged groups d) as [d' [l|c]]; [|done]. by subst.
Qed.

(** Hash names never look like temporary ones. *)
Definition id_ok (id : str) : Prop := forall n, id <> tmp_name n.

Lemma build_dir_ok e item dirs dirs' : build_dir e item dirs = (dirs', Ok tt) -> id_ok (mi_id item) ->
  mi_id item ∈ dirs' /\ forall x, x ∈ dirs -> (forall n, x <> tmp_name n) -> x ∈ dirs'.
Proof.
  unfold build_dir. intros E Hid. destruct (me_clean_tmp e _); [|done]. destruct (me_create_tmp e _); [|done].
  destruct (checkout_all e _ _); [|done]. destruct (me_clean_out e _); [|done].
  destruct (me_rename e _); [|done]. injection E as <-. split.
  - apply add_entry_elem. by right.
  - intros x Hx Hn. apply add_entry_elem.
    destruct (decide (x = mi_id item)) as [->|Hne]; [by right|left].
    rewrite !rm_entry_elem, add_entry_elem, rm_entry_elem. specialize (Hn (mi_id item)). auto.
Qed.

(** Every item that is new has its directory afterwards. *)
Lemma merge_groups_dirs e merged groups dirs dirs' l :
  merge_groups e merged groups dirs = (dirs', Ok l) ->
  Forall (fun m => id_ok (mi_id m)) (omap merge_item groups) ->
  (forall x, x ∈ dirs -> (forall n, x <> tmp_name n) -> x ∈ dirs') /\
  (forall m, m ∈ omap merge_item groups -> unchanged merged m = None -> mi_id m ∈ dirs').
Proof.
  revert dirs dirs' l. induction groups as [|g groups IH]; intros dirs dirs' l E Hid; cbn [merge_groups] in E.
  { injection E as <- <-. split; [done|]. set_solver. }
  cbn [omap list_omap] in *. destruct (merge_item g) as [item|]; [|by eapply IH].
  apply Forall_cons in Hid as [Hi Hid]. destruct (unchanged merged item) as [m0|] eqn:Eu.
  - destruct (merge_groups e merged groups dirs) as [d [l'|c]] eqn:Em; [|done]. injection E as <- <-.
    destruct (IH _ _ _ Em Hid) as [H1' H2']. split; [done|].
    intros m [->|Hm]%elem_of_cons Hu; [congruence|by apply H2'].
  - destruct (build_dir e item dirs) as [d [u|c]] eqn:Eb; [|done]. destruct u.
    destruct (merge_groups e merged groups d) as [d' [l'|c]] eqn:Em; [|done]. injection E as <- <-.
    destruct (build_dir_ok _ _ _ _ Eb Hi) as [B1 B2]. destruct (IH _ _ _ Em Hid) as [H1' H2']. split.
    + intros x Hx Hn. apply H1'; [|done]. by apply B2.
    + intros m [->|Hm]%elem_of_cons Hu; [by apply H1'|by apply H2'].
Qed.

(** *** What merging is to do *)

(** The existing layers of a group, by module. *)
Definition of_group (c : RepoCache) (key : str) : list RepositoryCacheLayersItem :=
  filter (fun x => l_deleted x <> Some true /\ group_key x = key) (rc_layers (cache c)).
Definition module_order (ls : list RepositoryCacheLayersItem) : Prop :=
  StronglySorted (fun a b => str_lt (packageInfoV2Module (l_info b)) (packageInfoV2Module (l_info a)) = false) ls.

Definition binary_layer (x : RepositoryCacheLayersItem) : Prop :=
  packageInfoV2Module (l_info x) = lit "binary" \/ packageInfoV2Module (l_info x) = lit "runtime".
Definition last_binary (ls : list RepositoryCacheLayersItem) (commit : str) : Prop :=
  exists l1 x l2, ls = l1 ++ x :: l2 /\ binary_layer x /\ l_commit x = commit /\ Forall (fun y => ~ binary_layer y) l2.

(** A group that has to be merged. *)
Definition mergeable (c : RepoCache) (key : str) : Prop :=
  (2 <= length (of_group c key))%nat /\ exists x, x ∈ of_group c key /\ binary_layer x.

(** The first record with an id. *)
Definition recorded_as (c : RepoCache) (id : str) (m : RepositoryCacheMergedItem) : Prop :=
  exists l1 l2, rc_merged (cache c) = Some (l1 ++ m :: l2) /\ mi_id m = id /\ Forall (fun y => mi_id y <> id) l1.

(** The record a group gets: one it had for these very commits, or a new one, and
    then the directory has been made. *)
Definition merged_as (c : RepoCache) (dirs : list str) (key : str) (item : RepositoryCacheMergedItem) : Prop :=
  exists ls, ls ≡ₚ of_group c key /\ module_order ls /\
    mi_commits item = l_commit <$> ls /\ mi_id item = sha256_hex (concat (l_commit <$> ls)) /\
    (recorded_as c (mi_id item) item \/
     (forall m, recorded_as c (mi_id item) m -> mi_commits m <> mi_commits item) /\ mi_id item ∈ dirs /\
     mi_modules item = (fun x => packageInfoV2Module (l_info x)) <$> ls /\ mi_name item = Some key /\
     exists commit, last_binary ls commit /\ mi_binaryCommit item = Some commit).

Lemma existing_group c key :
  filter (fun x => group_key x = key) (queryExistingLayerItem c) = of_group c key.
Proof.
  unfold of_group, queryExistingLayerItem.
  rewrite (filter_bool _ (fun x => l_deleted x <> Some true)) by (intros x; destruct (l_deleted x) as [[]|]; cbn; split; congruence).
  rewrite list_filter_filter. apply list_filter_iff. intros x. split; intros [Hx Hy]; by split.
Qed.

Lemma is_binary_spec x : is_binary (packageInfoV2Module (l_info x)) = true <-> binary_layer x.
Proof. unfold is_binary. by rewrite orb_true_iff, !bool_decide_eq_true. Qed.

Lemma binary_commit_spec ls : Forall (fun x => l_commit x <> []) ls ->
  (binary_commit ls = [] /\ Forall (fun x => ~ binary_layer x) ls) \/ (binary_commit ls <> [] /\ last_binary ls (binary_commit ls)).
Proof.
  unfold binary_commit. induction ls as [|x ls IH] using rev_ind; [by left|]. rewrite fold_left_app. cbn [fold_left].
  intros [Hc Hx]%Forall_app. rewrite Forall_singleton in Hx. specialize (IH Hc). pose proof (is_binary_spec x) as Hb.
  destruct (is_binary _) eqn:Eb.
  - right. split; [done|]. exists ls, x, []. split_and!; [done|by apply Hb|done|constructor].
  - assert (Hnb : ~ binary_layer x) by (intros F; by apply Hb in F). destruct IH as [[-> Hf]|[Hne (l1 & y & l2 & -> & Hy & Ey & Hl)]].
    + left. split; [done|]. apply Forall_app. by rewrite Forall_singleton.
    + right. split; [done|]. exists l1, y, (l2 ++ [x]). split_and!; [by rewrite <- app_assoc|done..|].
      apply Forall_app. by rewrite Forall_singleton.
Qed.

Lemma module_sorted ls : std_sort module_lt ls ≡ₚ ls /\ module_order (std_sort module_lt ls).
Proof.
  assert (Hw : strict_weak module_lt ls).
  { pose (f := fun x : RepositoryCacheLayersItem => packageInfoV2Module (l_info x)).
    destruct (str_lt_weak (f <$> ls)) as [Ha Hn]. split.
    - intros x y Hx Hy. apply (Ha (f x) (f y)); by apply list_elem_of_fmap_2.
    - intros x y z Hx Hy Hz. apply (Hn (f x) (f y) (f z)); by apply list_elem_of_fmap_2. }
  split; [by apply std_sort_perm|by apply std_sort_sorted].
Qed.

(** A group is merged when it has to be. *)
Lemma merge_item_spec c key : Forall (fun x => l_commit x <> []) (rc_layers (cache c)) ->
  match merge_item (key, of_group c key) with
  | None => ~ mergeable c key
  | Some item => mergeable c key /\ exists ls commit, ls ≡ₚ of_group c key /\ module_order ls /\ last_binary ls commit /\
      item = mkMerged (Some commit) (l_commit <$> ls) (sha256_hex (concat (l_commit <$> ls)))
               ((fun x => packageInfoV2Module (l_info x)) <$> ls) (Some key)
  end.
Proof.
  intros Hc. unfold merge_item, mergeable. case_bool_decide as El; [by rewrite El; intros [? _]; lia|].
  destruct (module_sorted (of_group c key)) as [Hp Hs]. set (ls := std_sort module_lt (of_group c key)) in *.
  assert (Hcl : Forall (fun x => l_commit x <> []) ls).
  { apply Forall_forall. intros x. rewrite Hp. unfold of_group. intros [_ Hx]%list_elem_of_filter. rewrite Forall_forall in Hc. by apply Hc. }
  destruct (binary_commit_spec ls Hcl) as [[-> Hf]|[Hne Hb]].
  - rewrite bool_decide_true by done. intros [_ (x & Hx & Hbx)]. rewrite Forall_forall in Hf. apply (Hf x); [by rewrite Hp|done].
  - rewrite bool_decide_false by done. split; [|by eexists ls, _].
    destruct Hb as (l1 & x & l2 & E & Hx & _). assert (Hin : x ∈ of_group c key) by (rewrite <- Hp, E; set_solver).
    split; [|by exists x]. destruct (of_group c key) as [|a [|b r]]; [by apply not_elem_of_nil in Hin|by destruct El|cbn; lia].
Qed.

Lemma unchanged_spec c item :
  match unchanged (queryMergedItems c) item with
  | Some m => recorded_as c (mi_id item) m /\ mi_id m = mi_id item /\ mi_commits m = mi_commits item
  | None => forall m, recorded_as c (mi_id item) m -> mi_commits m <> mi_commits item
  end.
Proof.
  unfold unchanged, queryMergedItems, recorded_as. destruct (rc_merged (cache c)) as [l|]; [|by intros m (l1 & l2 & F & _)].
  destruct (List.find _ l) as [m|] eqn:E.
  - apply find_first in E as (l1 & l2 & -> & Em & Hl). bsplit.
    assert (Hl' : Forall (fun y => mi_id y <> mi_id item) l1).
    { eapply Forall_impl; [exact Hl|]. intros y Hy. cbn in Hy. by apply bool_decide_eq_false in Hy. }
    case_bool_decide as Ec; [split; [by exists l1, l2|done]|]. intros m' (k1 & k2 & [= Ek] & Em' & Hk).
    by rewrite <- (first_unique (fun y => mi_id y = mi_id item) l1 k1 l2 k2 m m').
  - intros m (l1 & l2 & [= ->] & Em & _). pose proof (List.find_none _ _ E m) as Hn.
    rewrite in_app_iff in Hn. cbn in Hn. rewrite bool_decide_true in Hn by done. discriminate Hn. auto.
Qed.

(** The loop over groups of their own keys. *)
Lemma merged_groups (P : str -> RepositoryCacheMergedItem -> Prop) old groups :
  (forall g item, g ∈ groups -> merge_item g = Some item -> P g.1 (default item (unchanged old item))) ->
  Forall2 P (fst <$> filter (fun g => is_Some (merge_item g)) groups) (new_items old groups).
Proof.
  unfold new_items. intros HP. induction groups as [|g groups IH]; [constructor|]. rewrite filter_cons. cbn [omap list_omap].
  assert (IH' := IH ltac:(intros; apply HP; [by right|done])). destruct (merge_item g) as [item|] eqn:E.
  - rewrite decide_True by by eexists. constructor; [|exact IH']. apply HP; [by left|done].
  - rewrite decide_False by by intros [? ?]. exact IH'.
Qed.

(** C13: after a successful merge the records are one for each group of at least
    two existing layers of one id, version and architecture, a binary one among
    them, and no others; each is the one the group had for the same commits, or a
    new one of these layers whose directory has been made.  Layers stay, the
    cache has been written, and where removal works no directory is left that
    has no record. *)
Theorem mergeModules_spec e c dirs c' dirs' : (forall data, id_ok (sha256_hex data)) ->
  Forall (fun x => l_commit x <> []) (rc_layers (cache c)) -> (forall d, me_remove e d = true) ->
  mergeModules e c dirs = (c', dirs', Ok tt) ->
  exists keys items, rc_merged (cache c') = Some items /\ Forall2 (merged_as c dirs') keys items /\
    NoDup keys /\ (forall key, key ∈ keys <-> mergeable c key) /\
    rc_layers (cache c') = rc_layers (cache c) /\ states_json c' = Some (written (me_cache e) (json_dump (cache c'))) /\
    forall d, d ∈ dirs' -> exists item, item ∈ items /\ d = mi_id item.
Proof.
  intros Hid Hcom Hrm E. unfold mergeModules in E. set (groups := group_layers (queryExistingLayerItem c)) in *.
  destruct (group_layers_spec (queryExistingLayerItem c)) as [Hord Hg]. fold groups in Hord, Hg. setoid_rewrite existing_group in Hg.
  pose proof (merge_groups_items e (queryMergedItems c) groups dirs) as Hi.
  destruct (merge_groups e (queryMergedItems c) groups dirs) as [d [l|]] eqn:Em; [|done]. subst l.
  set (items := new_items (queryMergedItems c) groups) in *.
  assert (Hids : Forall (fun m => id_ok (mi_id m)) (omap merge_item groups)).
  { apply Forall_forall. intros m ([key ls] & Hin & Hm)%list_elem_of_omap. apply Hg in Hin as [-> _].
    pose proof (merge_item_spec c key Hcom) as Hs. rewrite Hm in Hs. destruct Hs as (_ & ls' & commit & _ & _ & _ & ->). apply Hid. }
  destruct (merge_groups_dirs _ _ _ _ _ _ Em Hids) as [_ Hnew].
  pose proof (run_op_cases ll_version (me_cache e) c (OpMerge items)) as Hc.
  cbn [run_op] in Hc. destruct (updateMergedItems _ _ _ _) as [c1 r]. destruct r as [u|]; [|done].
  destruct (me_read_dir e); [|done]. injection E as -> <-.
  destruct Hc as [(F & _)|(cc & <- & (El & Emg) & [(_ & _ & Es)|(_ & F & _)])]; [done| |done].
  exists (fst <$> filter (fun g => is_Some (merge_item g)) groups), items. split_and!; [done| | | |done|done|].
  - apply merged_groups. intros [key ls] item Hin Hm. apply Hg in Hin as Hin'. destruct Hin' as [-> _].
    pose proof (merge_item_spec c key Hcom) as Hs. rewrite Hm in Hs. destruct Hs as (_ & ls & commit & Hp & Ho & Hb & ->).
    match goal with |- merged_as _ _ _ (default ?x _) => set (item := x) in * end.
    pose proof (unchanged_spec c item) as Hu. exists ls. destruct (unchanged (queryMergedItems c) item) as [m|] eqn:Eu; cbn [default].
    + destruct Hu as (Hr & Hi1 & Hi2). unfold default, from_option, id. rewrite Hi1, Hi2. split_and!; [done..|]. by left.
    + assert (Hin' : item ∈ omap merge_item groups) by (apply list_elem_of_omap; by eexists).
      split_and!; [done..|]. right. split_and!; [done| |done|done|by exists commit].
      unfold clean_dirs. apply list_elem_of_In, filter_In. split; [by apply list_elem_of_In, Hnew|].
      apply orb_true_iff. left. apply existsb_exists. exists item. split; [|by apply bool_decide_eq_true_2].
      apply list_elem_of_In. unfold items, new_items. apply list_elem_of_fmap. exists item. by rewrite Eu.
  - unfold ordered in Hord. clear -Hord. induction Hord as [|g groups Hl IH Hx]; [constructor|]. rewrite filter_cons.
    case_decide; [|done]. rewrite fmap_cons. constructor; [|done]. rewrite list_elem_of_fmap. intros (h & Eh & [_ Hh]%list_elem_of_filter).
    rewrite Forall_forall in Hx. apply Hx, str_lt_irrefl in Hh. congruence.
  - intros key. rewrite list_elem_of_fmap. pose proof (merge_item_spec c key Hcom) as Hs. split.
    + intros ([k ls] & -> & [[item Hm] Hin]%list_elem_of_filter). apply Hg in Hin as [-> _]. cbn in *. rewrite Hm in Hs. apply Hs.
    + intros Hk. exists (key, of_group c key). split; [done|]. apply list_elem_of_filter. split.
      * destruct (merge_item _); [by eexists|done].
      * apply Hg. split; [done|]. destruct Hk as [Hk _]. by destruct (of_group c key); cbn in Hk; [lia|].
  - intros x Hx. unfold clean_dirs in Hx. apply list_elem_of_In, filter_In in Hx as [_ Hx].
    rewrite Hrm in Hx. rewrite orb_false_r in Hx. apply existsb_exists in Hx as (m & Hm & Hx). bsplit.
    exists m. split; [by apply list_elem_of_In|done].
Qed.

(** Merging again when nothing has changed keeps the records and does no work
    on the directories, as long as different groups hash differently. *)
Theorem mergeModules_idempotent e e' c dirs c' dirs' :
  let groups := group_layers (queryExistingLayerItem c) in
  mergeModules e c dirs = (c', dirs', Ok tt) -> NoDup (mi_id <$> omap merge_item groups) ->
  write_ok (me_cache e') = true -> me_read_dir e' = Ok tt ->
  let '(c2, dirs2, r) := mergeModules e' c' dirs' in
  r = Ok tt /\ queryMergedItems c2 = queryMergedItems c' /\
  dirs2 = clean_dirs e' (new_items (queryMergedItems c) groups) dirs'.
Proof.
  intros groups E Hd Hw Hr. unfold mergeModules in E. fold groups in E.
  pose proof (merge_groups_items e (queryMergedItems c) groups dirs) as Hi.
  destruct (merge_groups e (queryMergedItems c) groups dirs) as [d [l|]] eqn:Em; [|done]. subst l.
  set (items := new_items (queryMergedItems c) groups) in *.
  pose proof (run_op_cases ll_version (me_cache e) c (OpMerge items)) as Hc.
  cbn [run_op] in Hc. destruct (updateMergedItems ll_version (me_cache e) c items) as [c1 r].
  destruct r as [u|]; [|done]. destruct (me_read_dir e); [|done]. injection E as -> <-.
  destruct Hc as [(F & _)|(cc & Ec & (El & Emg) & [(_ & _ & Es)|(_ & F & _)])]; [done| |done].
  assert (Eg : group_layers (queryExistingLayerItem c') = groups).
  { unfold groups, queryExistingLayerItem. by rewrite Ec, El. }
  assert (Eq : queryMergedItems c' = Some items) by (unfold queryMergedItems; by rewrite Ec).
  assert (Hkeep : forall m, m ∈ omap merge_item groups ->
    unchanged (Some items) m = Some (default m (unchanged (queryMergedItems c) m))).
  { assert (Hprop : forall m, mi_id (default m (unchanged (queryMergedItems c) m)) = mi_id m /\
      mi_commits (default m (unchanged (queryMergedItems c) m)) = mi_commits m).
    { intros m. unfold unchanged. destruct (queryMergedItems c) as [l|]; [|done].
      destruct (List.find _ l) as [x|] eqn:Ex; [|done]. apply find_some in Ex as [_ Ex]. bsplit.
      case_bool_decide; done. }
    intros m Hm. unfold unchanged at 1. unfold items, new_items. clear -Hd Hm Hprop.
    revert Hd Hm. generalize (omap merge_item groups). clear groups. intros l Hd Hm.
    assert (Ef : List.find (fun x => bool_decide (mi_id x = mi_id m))
        ((fun item => default item (unchanged (queryMergedItems c) item)) <$> l) =
      Some (default m (unchanged (queryMergedItems c) m))).
    { induction l as [|x l IH]; [set_solver|]. rewrite fmap_cons. rewrite fmap_cons in Hd. apply NoDup_cons in Hd as [Hx Hd].
      cbn [List.find]. rewrite (proj1 (Hprop x)). apply elem_of_cons in Hm as [->|Hm].
      - by rewrite bool_decide_true.
      - rewrite bool_decide_false; [by apply IH|]. intros Eid. apply Hx. rewrite Eid.
        by apply list_elem_of_fmap_2. }
    rewrite Ef. by rewrite bool_decide_true by apply Hprop. }
  assert (Hrun : forall gs, (forall m, m ∈ omap merge_item gs -> m ∈ omap merge_item groups) -> forall dd,
    merge_groups e' (Some items) gs dd = (dd, Ok (new_items (queryMergedItems c) gs))).
  { unfold new_items. induction gs as [|g gs IH]; intros Hsub dd; [done|]. cbn [merge_groups omap list_omap] in *.
    destruct (merge_item g) as [m|]; [|by apply IH]. rewrite Hkeep by (apply Hsub; set_solver).
    rewrite IH by (intros; apply Hsub; set_solver). done. }
  unfold mergeModules. rewrite Eg, Eq, Hrun by done. fold items.
  pose proof (run_op_cases ll_version (me_cache e') c' (OpMerge items)) as Hc2. cbn [run_op] in Hc2.
  destruct (updateMergedItems ll_version (me_cache e') c' items) as [c2 r2]. rewrite Hr.
  destruct Hc2 as [(_ & _ & F)|(cc2 & Ec2 & (_ & Emg2) & [(_ & -> & _)|(F & _)])]; [congruence| |congruence].
  split_and!; [done| |done]. unfold queryMergedItems. by rewrite Ec2.
Qed.
End merging.

(** ** A concrete merge *)

#[local] Existing Instance qt_model.
#[local] Existing Instance std_sort_model.
#[local] Existing Instance json_model.
#[local] Existing Instance client_model.
#[local] Existing Instance yaml_model.

Definition module_layer (commit module : str) : RepositoryCacheLayersItem :=
  mkLayer commit None
    (mkInfo [lit "x86_64"] [] (lit "main") None None None None None
       (lit "org.deepin.demo") (lit "app") module (lit "demo") None (lit "1.0") 0 None (lit "1.2.3"))
    (lit "stable").

Definition merge_state : RepoCache :=
  mkRC (mkRepositoryCache example_cfg [module_layer (lit "c2") (lit "develop"); module_layer (lit "c1") (lit "binary")]
          (lit "1.9") None cacheFileVersion) None None.

Definition good_merge : merge_env :=
  mkMergeEnv (fun _ => Ok tt) (fun _ => Ok tt) (fun _ _ => Ok tt) (fun _ => Ok tt) (fun _ => Ok tt)
    all_good (Ok tt) (fun _ => true).

(** A stand-in for the hash. *)
Definition example_hash (s : str) : str := "h"%char :: s.

Definition merged_item : RepositoryCacheMergedItem :=
  mkMerged (Some (lit "c1")) [lit "c1"; lit "c2"] (lit "hc1c2") [lit "binary"; lit "develop"]
    (Some (lit "org.deepin.demo/1.2.3/x86_64")).

Lemma example_groups :
  omap (merge_item example_hash) (group_layers (queryExistingLayerItem merge_state)) = [merged_item].
Proof. vm_compute. reflexivity. Qed.

Definition merge_state' : RepoCache :=
  fst (fst (mergeModules example_hash (lit "1.9") good_merge merge_state [lit "old"])).

Lemma example_merge : mergeModules example_hash (lit "1.9") good_merge merge_state [lit "old"] =
  (merge_state', [lit "hc1c2"], Ok tt).
Proof. vm_compute. reflexivity. Qed.

Lemma mergeModules_spec_witness :
  mergeModules example_hash (lit "1.9") good_merge merge_state [lit "old"] = (merge_state', [lit "hc1c2"], Ok tt) /\
  exists keys items, rc_merged (cache merge_state') = Some items /\
    Forall2 (merged_as example_hash merge_state [lit "hc1c2"]) keys items.
Proof.
  split; [exact example_merge|].
  destruct (mergeModules_spec example_hash (lit "1.9") good_merge merge_state [lit "old"] _ _
    ltac:(intros data n; discriminate) ltac:(repeat constructor; discriminate) (fun _ => eq_refl) example_merge)
    as (keys & items & Hm & Hf & _).
  exists keys, items. exact (conj Hm Hf).
Defined.

Lemma mergeModules_idempotent_witness :
  mergeModules example_hash (lit "1.9") good_merge merge_state [lit "old"] = (merge_state', [lit "hc1c2"], Ok tt) /\
  let '(c2, dirs2, r) := mergeModules example_hash (lit "1.9") good_merge merge_state' [lit "hc1c2"] in
  r = Ok tt /\ queryMergedItems c2 = queryMergedItems merge_state' /\
  dirs2 = clean_dirs good_merge
    (new_items example_hash (queryMergedItems merge_state) (group_layers (queryExistingLayerItem merge_state))) [lit "hc1c2"].
Proof.
  split; [exact example_merge|].
  exact (mergeModules_idempotent example_hash (lit "1.9") good_merge good_merge merge_state [lit "old"] _ _ example_merge
    ltac:(rewrite example_groups; apply NoDup_singleton) eq_refl eq_refl).
Defined.
