(* ===== verification/Extension.v ===== *)
(** * Extensions ([extension/extension.cpp])

    An extension of a package is looked up by its name; the factory gives the
    object that decides whether it is enabled on this host and under which
    name.  The version file of the NVIDIA kernel module is an argument. *)
From S2P Require Import Prelude.

Definition Identify : str := lit "org.deepin.driver.display.nvidia".

(** [stream >> word]: leading white space is skipped. *)
Fixpoint skip_space (s : str) : str :=
  match s with
  | c :: s' => if is_space c then skip_space s' else s
  | [] => []
  end.
Fixpoint until_space (s : str) : str :=
  match s with
  | c :: s' => if is_space c then [] else c :: until_space s'
  | [] => []
  end.

(** [versionFile]: the text of [/sys/module/nvidia/version], if it can be read. *)
Definition hostDriverEnable (versionFile : option str) : str :=
  match versionFile with
  | Some text =>
      (fun c => if decide (c = "."%char) then "-"%char else c) <$> until_space (skip_space text)
  | None => []
  end.

(** The classes that implement [ExtensionIf]. *)
Inductive ExtensionIf :=
| ExtensionImplNVIDIADisplayDriver (driverName : str)
| ExtensionImplDummy.

Definition makeExtension (versionFile : option str) (name : str) : ExtensionIf :=
  if bool_decide (name = Identify)
  then ExtensionImplNVIDIADisplayDriver (hostDriverEnable versionFile)
  else ExtensionImplDummy.

(** The name is taken by reference: the new name comes with the answer. *)
Definition shouldEnable (ext : ExtensionIf) (extensionName : str) : bool * str :=
  match ext with
  | ExtensionImplDummy => (true, extensionName)
  | ExtensionImplNVIDIADisplayDriver driverName =>
      if negb (bool_decide (extensionName = Identify)) then (false, extensionName)
      else if negb (bool_decide (driverName = [])) then (true, Identify ++ lit "." ++ driverName)
      else (false, extensionName)
  end.

Example nvidia_name :
  let name := Identify in
  shouldEnable (makeExtension (Some (lit " 550.54.14 ")) name) name
  = (true, lit "org.deepin.driver.display.nvidia.550-54-14").
Proof. reflexivity. Qed.
