(* ===== verification/Prune.v ===== *)
(** * Removing unused packages ([PackageManager::Prune])

    [Prune] counts, for every installed runtime, base or extension, how many
    installed applications use it, and removes those nobody uses.  The map from
    references to counts is an association list; the order in which a hash map
    is walked is an argument. *)
From S2P Require Import Prelude Qt Types Semver Version Reference RepoConfig RepoCache.
From S2P Require Import OstreeRepo MergeModules Extension.

(** An error that is only logged; the end of the program is not an error. *)
Definition logged {A} (r : result A) : result (option A) :=
  match r with
  | Ok a => Ok (Some a)
  | Err c => if c =? terminated then Err terminated else Ok None
  end.

Abbreviation counts := (list (Reference * Z)).

Section prune.
Context `{Client} `{Qt} `{StdSort} `{Json} `{Yaml}.

(** ** The map of counts *)

(** Keys of [std::unordered_map<package::Reference, int>]: the hash is made of
    the texts, equality is [operator==]. *)
Definition same_key (a b : Reference) : bool :=
  ref_eq a b && bool_decide (ver_toString (ref_version a) = ver_toString (ref_version b)).

(** [target[ref] += 1] *)
Fixpoint bump (ref : Reference) (target : counts) : counts :=
  match target with
  | [] => [(ref, 1)]
  | (k, n) :: rest => if same_key k ref then (k, n + 1) :: rest else (k, n) :: bump ref rest
  end.

(** [target.try_emplace(ref, 0)] *)
Fixpoint try_emplace (ref : Reference) (target : counts) : counts :=
  match target with
  | [] => [(ref, 0)]
  | (k, n) :: rest => if same_key k ref then (k, n) :: rest else (k, n) :: try_emplace ref rest
  end.

Definition main_module (info : PackageInfoV2) : bool :=
  bool_decide (packageInfoV2Module info = lit "binary") ||
  bool_decide (packageInfoV2Module info = lit "runtime").

Variable ll_version : str.
Variable curArch : result Architecture.
Variable sha256_hex : str -> str.
Variable repoDir : str.
(** The version file of the NVIDIA driver. *)
Variable driver : option str.

(** ** Counting *)

(** [{ .forceRemote = false, .fallbackToRemote = false, .semanticMatching = true }] *)
Definition local_semantic : clearReferenceOption := mkClearOpt false false true.

Definition resolve_local (s : OSTreeRepo) (fuzzy : FuzzyReference) : result (option Reference) :=
  logged (snd (clearReference curArch s fuzzy local_semantic (lit "binary") None)).

(** A reference that cannot be made out of an extension is dereferenced all the
    same, which is undefined. *)
Fixpoint scanExtensions (s : OSTreeRepo) (channel : str) (extensions : list ExtensionDefine)
    (target : counts) : result counts :=
  match extensions with
  | [] => Ok target
  | extension :: rest =>
      let '(enabled, name) := shouldEnable (makeExtension driver (ed_name extension)) (ed_name extension) in
      if negb enabled then scanExtensions s channel rest target
      else
        match fuzzy_create (Some channel) name (Some (ed_version extension)) None with
        | Err _ => Err terminated
        | Ok fuzzyRef =>
            ref <-r resolve_local s fuzzyRef ;;
            scanExtensions s channel rest (match ref with Some r => bump r target | None => target end)
        end
  end.

Definition scanExtensionsByInfo (s : OSTreeRepo) (info : PackageInfoV2) (target : counts) : result counts :=
  match pi_extensions info with
  | Some extensions => scanExtensions s (pi_channel info) extensions target
  | None => Ok target
  end.

Definition scanExtensionsByRef (s : OSTreeRepo) (ref : Reference) (target : counts) : result counts :=
  item <-r logged (getLayerItem (cfg s) (rcache s) ref (lit "binary") None) ;;
  match item with
  | Some item => scanExtensionsByInfo s (l_info item) target
  | None => Ok target
  end.

(** From the base on; nothing is counted when the base cannot be resolved. *)
Definition scan_base (s : OSTreeRepo) (info : PackageInfoV2) (target : counts) : result counts :=
  baseFuzzyRef <-r logged (fuzzy_parse (pi_base info)) ;;
  match baseFuzzyRef with
  | None => Ok target
  | Some fuzzy =>
      baseRef <-r resolve_local s fuzzy ;;
      match baseRef with
      | None => Ok target
      | Some ref =>
          target <-r scanExtensionsByRef s ref (bump ref target) ;;
          scanExtensionsByInfo s info target
      end
  end.

(** One round of the loop over the installed packages. *)
Definition scan_info (s : OSTreeRepo) (info : PackageInfoV2) (target : counts) : result counts :=
  if negb (main_module info) then Ok target
  else if negb (bool_decide (pi_kind info = lit "app")) then
    ref <-r logged (ref_fromPackageInfo info) ;;
    Ok (match ref with Some r => try_emplace r target | None => target end)
  else
    match pi_runtime info with
    | None => scan_base s info target
    | Some runtime =>
        runtimeFuzzyRef <-r logged (fuzzy_parse runtime) ;;
        match runtimeFuzzyRef with
        | None => Ok target
        | Some fuzzy =>
            runtimeRef <-r resolve_local s fuzzy ;;
            match runtimeRef with
            | None => Ok target
            | Some ref =>
                target <-r scanExtensionsByRef s ref (bump ref target) ;;
                scan_base s info target
            end
        end
    end.

Fixpoint scan_infos (s : OSTreeRepo) (pkgsInfo : list PackageInfoV2) (target : counts) : result counts :=
  match pkgsInfo with
  | [] => Ok target
  | info :: rest => target <-r scan_info s info target ;; scan_infos s rest target
  end.

(** ** Removing *)

(** What the outside answers: [info.json] of a layer directory, the removal of a
    layer from OSTree and the cache, of its files, the final calls. *)
Record prune_env := mkPruneEnv {
  pe_info : str -> result PackageInfoV2;
  pe_remove : Reference -> str -> remove_env;
  pe_rmdir : str -> bool;
  pe_merge : merge_env;
  pe_prune : result unit
}.

(** The cache, the layer directories, the directories of merged modules and the
    packages reported as removed. *)
Record prune_state := mkPrune {
  ps_cache : RepoCache;
  ps_dirs : str -> bool;
  ps_merged : list str;
  ps_removed : list PackageInfoV2
}.

Variable e : prune_env.
(** The order in which the hash map is walked. *)
Variable walk : counts -> counts.

Definition prune_module (config : RepoConfigV2) (ref : Reference) (module : str) (st : prune_state)
    : prune_state * result unit :=
  match (layer <-r getLayerItem config (ps_cache st) ref module None ;;
         getLayerDir repoDir (ps_dirs st) layer) with
  | Err c => (st, if c =? terminated then Err terminated else Ok tt)
  | Ok dir =>
      match pe_info e dir with
      | Err _ => (st, Ok tt)
      | Ok info =>
          let '(c, r) := remove ll_version (pe_remove e ref module) config (ps_cache st) ref module None in
          let dirs := match r with
                      | Ok _ => fun d => ps_dirs st d && negb (bool_decide (d = dir) && pe_rmdir e dir)
                      | Err _ => ps_dirs st
                      end in
          (mkPrune c dirs (ps_merged st) (ps_removed st ++ [info]), r)
      end
  end.

Fixpoint prune_modules (config : RepoConfigV2) (ref : Reference) (modules : list str) (st : prune_state)
    : prune_state * result unit :=
  match modules with
  | [] => (st, Ok tt)
  | module :: rest =>
      match prune_module config ref module st with
      | (st, Err c) => (st, Err c)
      | (st, Ok _) => prune_modules config ref rest st
      end
  end.

Fixpoint prune_refs (config : RepoConfigV2) (target : counts) (st : prune_state) : prune_state * result unit :=
  match target with
  | [] => (st, Ok tt)
  | (ref, n) :: rest =>
      if negb (n =? 0) then prune_refs config rest st
      else
        match prune_modules config ref (getModuleList (ps_cache st) ref) st with
        | (st, Err c) => (st, Err c)
        | (st, Ok _) => prune_refs config rest st
        end
  end.

(** Merging and pruning the OSTree repository at the end; an error of the merge
    is only logged. *)
Definition prune_finish (target : counts) (st : prune_state) : prune_state * result unit :=
  let st :=
    if bool_decide (target = []) then st
    else let '(c, merged, _) := mergeModules sha256_hex ll_version (pe_merge e) (ps_cache st) (ps_merged st) in
         mkPrune c (ps_dirs st) merged (ps_removed st) in
  (st, pe_prune e).

Definition Prune (s : OSTreeRepo) (dirs : str -> bool) (merged : list str) : prune_state * result unit :=
  let st := mkPrune (rcache s) dirs merged [] in
  match scan_infos s (listLocal (rcache s)) [] with
  | Err c => (st, Err c)
  | Ok target =>
      match prune_refs (cfg s) (walk target) st with
      | (st, Err c) => (st, Err c)
      | (st, Ok _) => prune_finish target st
      end
  end.

End prune.

(** ** References of installed layers *)

Section prune_facts.
Context `{Client} `{Qt} `{StdSort} `{Json} `{Yaml}.
Variable curArch : result Architecture.
Variable driver : option str.

(** Recorded versions compare and are stored the way they are printed; layers
    that agree in id, channel and version are built for one architecture. *)
Definition canonical (l : list RepositoryCacheLayersItem) : Prop :=
  Forall (fun x => exists v, layer_version x v /\ ver_toString v = pi_version (l_info x)) l.

Definition one_arch (l : list RepositoryCacheLayersItem) : Prop :=
  forall a b, a ∈ l -> b ∈ l -> pi_id (l_info a) = pi_id (l_info b) ->
    pi_channel (l_info a) = pi_channel (l_info b) -> pi_version (l_info a) = pi_version (l_info b) ->
    head (pi_arch (l_info a)) = head (pi_arch (l_info b)).

Definition installed (l : list RepositoryCacheLayersItem) (r : Reference) : Prop :=
  exists x, x ∈ l /\ ref_fromPackageInfo (l_info x) = Ok r.

Lemma canonical_comparable l : canonical l -> comparable l.
Proof. intros Hc. eapply Forall_impl; [exact Hc|]. intros x (v & Hv & _). by exists v. Qed.

Lemma fromPackageInfo_inv info r :
  ref_fromPackageInfo info = Ok r ->
  version_parse (pi_version info) default_options = Ok (ref_version r) /\
  ref_id r = pi_id info /\ ref_channel r = pi_channel info /\
  exists a, head (pi_arch info) = Some a /\ arch_parse a = Ok (ref_arch r).
Proof.
  unfold ref_fromPackageInfo, ref_create. destruct (version_parse _ _) as [v|]; [|done].
  cbn [res_bind]. destruct (_ && _); [done|]. destruct (pi_arch info) as [|a l]; [done|].
  destruct (arch_parse a) as [a'|] eqn:Ea; [|done]. cbn [res_bind].
  repeat case_bool_decide; try done. intros [= <-]. cbn. eauto 10.
Qed.

Lemma installed_inv l r : canonical l -> installed l r ->
  exists x, x ∈ l /\ pi_id (l_info x) = ref_id r /\ pi_channel (l_info x) = ref_channel r /\
    layer_version x (ref_version r) /\ ver_toString (ref_version r) = pi_version (l_info x) /\
    head (pi_arch (l_info x)) ≫= (fun a => match arch_parse a with Ok b => Some b | _ => None end)
    = Some (ref_arch r).
Proof.
  intros Hc (x & Hx & Hr). apply fromPackageInfo_inv in Hr as (Hv & Hi & Hch & a & Ha & Hp).
  unfold canonical in Hc. rewrite Forall_forall in Hc. destruct (Hc x Hx) as (v & Hv' & Ht).
  pose proof Hv' as [Hv'' _]. rewrite Hv'' in Hv. injection Hv as ->.
  exists x. rewrite Ha. cbn. rewrite Hp. auto 10.
Qed.

Lemma same_key_eq l a b : canonical l -> installed l a -> installed l b ->
  same_key a b = true <-> a = b.
Proof.
  intros Hc Ha Hb.
  destruct (installed_inv l a Hc Ha) as (x & _ & _ & _ & [Hxv Hxp] & Hxt & _).
  destruct (installed_inv l b Hc Hb) as (y & _ & _ & _ & [Hyv Hyp] & Hyt & _).
  unfold same_key, ref_eq, ref_ne. rewrite andb_true_iff, negb_true_iff, bool_decide_eq_true.
  split.
  - intros [E Ht]. bsplit. rewrite Hxt, Hyt in Ht. rewrite Ht, Hyv in Hxv. injection Hxv as Hv.
    destruct a, b. cbn in *. congruence.
  - intros ->. rewrite !bool_decide_true by done. cbn [negb orb].
    destruct (ver_ops (ref_version b) (ref_version b) Hyp Hyp) as [_ ->].
    by rewrite (tw_refl _ tw_ver).
Qed.

(** ** Counting *)

(** A map of counts with installed references as keys, each once. *)
Record counts_ok (l : list RepositoryCacheLayersItem) (t : counts) : Prop := {
  co_installed : forall k n, (k, n) ∈ t -> installed l k;
  co_nodup : NoDup (fst <$> t);
  co_nonneg : forall k n, (k, n) ∈ t -> 0 <= n
}.

Definition used (r : Reference) (t : counts) : Prop := exists n, (r, n) ∈ t /\ 1 <= n.

(** What a step of the count does to a well-formed map: [N] are the references it
    counts, [E] the ones it only enters. *)
Definition counted (l : list RepositoryCacheLayersItem) (N E : Reference -> Prop) (t t' : counts) : Prop :=
  counts_ok l t -> counts_ok l t' /\ (forall r, used r t' <-> used r t \/ N r) /\
    forall r, r ∈ fst <$> t' <-> r ∈ fst <$> t \/ N r \/ E r.

Definition nothing (r : Reference) : Prop := False.

Lemma counted_same l t : counted l nothing nothing t t.
Proof. unfold counted, nothing. intros Ht. split; [done|]. split; intros r; tauto. Qed.

Lemma counted_ext l (N N' E E' : Reference -> Prop) t t' : counted l N E t t' ->
  (forall r, N r <-> N' r) -> (forall r, E r <-> E' r) -> counted l N' E' t t'.
Proof.
  intros Hg HN HE Ht. destruct (Hg Ht) as (? & Hu & Hk).
  split; [done|]. split; intros r; [rewrite Hu|rewrite Hk]; rewrite ?HN, ?HE; done.
Qed.

Lemma counted_trans l N1 E1 N2 E2 t1 t2 t3 : counted l N1 E1 t1 t2 -> counted l N2 E2 t2 t3 ->
  counted l (fun r => N1 r \/ N2 r) (fun r => E1 r \/ E2 r) t1 t3.
Proof.
  intros Hg1 Hg2 Ht. destruct (Hg1 Ht) as (Ht2 & Hu & Hk). destruct (Hg2 Ht2) as (Ht3 & Hu' & Hk').
  split; [done|]. split; intros r; [rewrite Hu', Hu|rewrite Hk', Hk]; tauto.
Qed.

Lemma counts_nil l : counts_ok l [].
Proof. split; [intros k n Hk; by apply not_elem_of_nil in Hk|constructor|intros k n Hk; by apply not_elem_of_nil in Hk]. Qed.

Lemma count_unique l t k n m : counts_ok l t -> (k, n) ∈ t -> (k, m) ∈ t -> n = m.
Proof.
  intros [_ Hnd _] Hn Hm.
  apply list_elem_of_lookup in Hn as [i Hi]. apply list_elem_of_lookup in Hm as [j Hj].
  assert (i = j) as <-; [|congruence].
  eapply NoDup_lookup; [exact Hnd|..]; rewrite list_lookup_fmap; [by rewrite Hi|by rewrite Hj].
Qed.

(** Every step either changes the count of a key or adds a key. *)
Lemma key_split l r t : canonical l -> installed l r -> counts_ok l t ->
  (exists t1 n t2, t = t1 ++ (r, n) :: t2 /\ bump r t = t1 ++ (r, n + 1) :: t2 /\ try_emplace r t = t) \/
  (r ∉ fst <$> t) /\ bump r t = t ++ [(r, 1)] /\ try_emplace r t = t ++ [(r, 0)].
Proof.
  intros Hc Hr Ht. induction t as [|[k n] t IH].
  { right. split_and!; [apply not_elem_of_nil|done|done]. }
  destruct Ht as [Hi Hn Hp]. rewrite fmap_cons in Hn. apply NoDup_cons in Hn as [Hk Hn].
  cbn [bump try_emplace]. destruct (same_key k r) eqn:E.
  - apply (same_key_eq l) in E as ->; [|done|apply (Hi k n); set_solver|done].
    left. by exists [], n, t.
  - destruct IH as [(t1 & m & t2 & E1 & E2 & E3)|(Hnew & -> & ->)].
    { split; [intros k' n' ?; apply (Hi k' n'); set_solver|done|intros k' n' ?; apply (Hp k' n'); set_solver]. }
    + left. exists ((k, n) :: t1), m, t2. rewrite E2, E3. rewrite E1 at 1. done.
    + right. split_and!; try done. rewrite fmap_cons. intros [-> |?]%elem_of_cons; [|done].
      cbn in *. enough (same_key k k = true) by congruence. by apply (same_key_eq l).
Qed.

(** Adding a new key. *)
Lemma counted_new l r n t : installed l r -> r ∉ fst <$> t -> 0 <= n ->
  counted l (fun x => x = r /\ 1 <= n) (fun x => x = r) t (t ++ [(r, n)]).
Proof.
  intros Hr Hnew Hn [Hi Hnd Hp]. split; [split|split].
  - intros k m [?|[= -> ->]%list_elem_of_singleton]%elem_of_app; [by apply (Hi k m)|done].
  - rewrite fmap_app. apply NoDup_app. split_and!; [done| |apply NoDup_singleton].
    intros x Hx ->%list_elem_of_singleton. done.
  - intros k m [?|[= -> ->]%list_elem_of_singleton]%elem_of_app; [by apply (Hp k m)|done].
  - intros x. unfold used. setoid_rewrite elem_of_app. setoid_rewrite list_elem_of_singleton.
    split; [intros (m & [?|[= -> ->]] & ?); eauto|intros [(m & ? & ?)|[-> ?]]; eauto].
  - intros x. rewrite fmap_app, elem_of_app. cbn. rewrite list_elem_of_singleton. tauto.
Qed.

(** Counting a key that is there. *)
Lemma counted_more l r t1 n t2 :
  counted l (fun x => x = r) nothing (t1 ++ (r, n) :: t2) (t1 ++ (r, n + 1) :: t2).
Proof.
  intros [Hi Hnd Hp].
  assert (Hn : 0 <= n) by (apply (Hp r); set_solver).
  assert (Hk : forall k m, (k, m) ∈ t1 ++ (r, n + 1) :: t2 <->
    (k = r /\ m = n + 1) \/ (k, m) ∈ t1 ++ t2).
  { intros k m. rewrite !elem_of_app, !elem_of_cons. split; [intros [?|[[= -> ->]|?]]|intros [[-> ->]|[?|?]]]; auto. }
  assert (Hk' : forall k m, (k, m) ∈ t1 ++ t2 -> (k, m) ∈ t1 ++ (r, n) :: t2) by set_solver.
  split; [split|split].
  - intros k m [[-> _]|Hm]%Hk; [apply (Hi r n); set_solver|by apply (Hi k m), Hk'].
  - by rewrite fmap_app, fmap_cons in *.
  - intros k m [[-> ->]|Hm]%Hk; [lia|by apply (Hp k m), Hk'].
  - intros x. unfold used. setoid_rewrite Hk. split.
    + intros (m & [[-> _]|Hm] & ?); [by right|left; eauto].
    + intros [(m & Hm & ?)| ->]; [|exists (n + 1); split; [auto|lia]].
      rewrite elem_of_app, elem_of_cons in Hm.
      destruct Hm as [?|[[= -> ->]|?]]; [exists m|exists (n + 1)|exists m]; split; auto; try lia; set_solver.
  - intros x. rewrite !fmap_app, !fmap_cons. cbn. unfold nothing.
    rewrite !elem_of_app, !elem_of_cons. tauto.
Qed.

Lemma bump_spec l r t : canonical l -> installed l r -> counted l (fun x => x = r) nothing t (bump r t).
Proof.
  intros Hc Hr Ht.
  destruct (key_split l r t Hc Hr Ht) as [(t1 & n & t2 & E1 & E2 & _)|(Hnew & E & _)].
  - rewrite E2. rewrite E1 in *. by apply counted_more.
  - rewrite E. destruct (counted_new l r 1 t Hr Hnew ltac:(lia) Ht) as (? & Hu & Hk).
    split; [done|]. split; intros x; [rewrite Hu|rewrite Hk]; unfold nothing; assert (1 <= 1) by lia; tauto.
Qed.

Lemma try_emplace_spec l r t : canonical l -> installed l r ->
  counted l nothing (fun x => x = r) t (try_emplace r t).
Proof.
  intros Hc Hr Ht.
  destruct (key_split l r t Hc Hr Ht) as [(t1 & n & t2 & E1 & _ & E2)|(Hnew & _ & E)].
  - rewrite E2. split; [done|]. split; intros x; unfold nothing; [tauto|].
    split; [tauto|]. intros [?|[[]| ->]]; [done|].
    rewrite E1, fmap_app, fmap_cons, elem_of_app, elem_of_cons. auto.
  - rewrite E. destruct (counted_new l r 0 t Hr Hnew ltac:(lia) Ht) as (? & Hu & Hk).
    split; [done|]. split; intros x; [rewrite Hu|rewrite Hk]; unfold nothing; assert (~ 1 <= 0) by lia; tauto.
Qed.

(** ** Scanning *)

Abbreviation resolve := (resolve_local curArch).
Abbreviation layers s := (rc_layers (cache (rcache s))).

Lemma resolve_installed s fuzzy r :
  canonical (layers s) -> resolve s fuzzy = Ok (Some r) -> installed (layers s) r.
Proof.
  intros Hc. unfold resolve_local, clearReference. cbn [forceRemote fallbackToRemote local_semantic semanticMatching].
  destruct (clearReferenceLocal curArch (rcache s) fuzzy true) as [r'|c] eqn:E; cbn [negb orb snd logged];
    [|by destruct (c =? terminated)].
  intros [= ->]. apply clearReferenceLocal_elem in E as (x & Hx & _ & Hr); [by exists x|by apply canonical_comparable].
Qed.

(** What an application needs: its runtime, its base, and the enabled extensions
    of the runtime, of the base and of itself.  Without its runtime it cannot
    be run, so then it needs nothing; nor without its base, but for the runtime. *)
Definition resolves (s : OSTreeRepo) (text : str) (r : Reference) : Prop :=
  exists fuzzy, fuzzy_parse text = Ok fuzzy /\ resolve s fuzzy = Ok (Some r).

Definition extension_of (s : OSTreeRepo) (info : PackageInfoV2) (r : Reference) : Prop :=
  exists exts ext name fuzzy, pi_extensions info = Some exts /\ ext ∈ exts /\
    shouldEnable (makeExtension driver (ed_name ext)) (ed_name ext) = (true, name) /\
    fuzzy_create (Some (pi_channel info)) name (Some (ed_version ext)) None = Ok fuzzy /\
    resolve s fuzzy = Ok (Some r).

Definition layer_extension (s : OSTreeRepo) (dep r : Reference) : Prop :=
  exists item, getLayerItem (cfg s) (rcache s) dep (lit "binary") None = Ok item /\
    extension_of s (l_info item) r.

Definition runtime_found (s : OSTreeRepo) (info : PackageInfoV2) : Prop :=
  match pi_runtime info with Some t => exists r, resolves s t r | None => True end.

Inductive needs (s : OSTreeRepo) (info : PackageInfoV2) : Reference -> Prop :=
| needs_runtime t r : pi_runtime info = Some t -> resolves s t r -> needs s info r
| needs_runtime_extension t dep r : pi_runtime info = Some t -> resolves s t dep ->
    layer_extension s dep r -> needs s info r
| needs_base r : runtime_found s info -> resolves s (pi_base info) r -> needs s info r
| needs_base_extension dep r : runtime_found s info -> resolves s (pi_base info) dep ->
    layer_extension s dep r -> needs s info r
| needs_extension b r : runtime_found s info -> resolves s (pi_base info) b ->
    extension_of s info r -> needs s info r.

Abbreviation scan_exts := (scanExtensions curArch driver).

Section scanning.
Variable s : OSTreeRepo.
Hypothesis Hcanon : canonical (layers s).

Abbreviation counted' := (counted (layers s)).

(** Nothing is counted. *)
Lemma counted_none (N : Reference -> Prop) t :
  (forall r, ~ N r) -> counted' N nothing t t.
Proof using.
  intros HN. eapply counted_ext; [apply counted_same| |done].
  intros r. unfold nothing. specialize (HN r). tauto.
Qed.

(** The enabled extension [ext] of a package of [channel] is [r]. *)
Definition enabled_as (channel : str) (ext : ExtensionDefine) (r : Reference) : Prop :=
  exists name fuzzy,
    shouldEnable (makeExtension driver (ed_name ext)) (ed_name ext) = (true, name) /\
    fuzzy_create (Some channel) name (Some (ed_version ext)) None = Ok fuzzy /\
    resolve s fuzzy = Ok (Some r).

Lemma scanExtensions_spec channel exts t t' :
  scan_exts s channel exts t = Ok t' ->
  counted' (fun r => exists ext, ext ∈ exts /\ enabled_as channel ext r) nothing t t'.
Proof using Hcanon.
  revert t. induction exts as [|ext exts IH]; intros t; cbn [scanExtensions].
  { intros [= ->]. apply counted_none. intros r (x & Hx%not_elem_of_nil & _). done. }
  assert (Hcons : forall (N : Reference -> Prop), (forall r, N r <-> enabled_as channel ext r) ->
    forall r, (exists x, x ∈ ext :: exts /\ enabled_as channel x r) <->
      N r \/ exists x, x ∈ exts /\ enabled_as channel x r).
  { intros N HN r. setoid_rewrite elem_of_cons. rewrite HN. split; [|intros [?|(x & ? & ?)]; eauto].
    intros (x & [-> |?] & ?); eauto. }
  assert (Hnone : forall t1, scan_exts s channel exts t1 = Ok t' -> (forall r, ~ enabled_as channel ext r) ->
    counted' (fun r => exists x, x ∈ ext :: exts /\ enabled_as channel x r) nothing t1 t').
  { intros t1 Ht1 Hno. eapply counted_ext; [by apply IH| |done]. intros r.
    rewrite (Hcons nothing); [unfold nothing; tauto|]. intros r'. specialize (Hno r'). unfold nothing. tauto. }
  unfold enabled_as in Hnone, Hcons.
  destruct (shouldEnable _ _) as [[] name] eqn:Een; cbn [negb].
  2:{ intros Ht. apply Hnone; [done|]. intros r (? & ? & ? & _). congruence. }
  destruct (fuzzy_create _ _ _ _) as [fuzzy|] eqn:Ef; [|done].
  destruct (resolve s fuzzy) as [[ref|]|] eqn:Er; cbn [res_bind]; [| |done]; intros Ht.
  2:{ apply Hnone; [done|]. intros r (? & ? & [= <-] & ? & ?). congruence. }
  eapply counted_ext.
  - eapply counted_trans; [by apply bump_spec, (resolve_installed _ fuzzy)|by apply IH].
  - intros r. unfold enabled_as. symmetry. apply (Hcons (fun r => r = ref)). intros r'. split.
    + intros ->. by exists name, fuzzy.
    + intros (? & ? & [= <-] & ? & ?). congruence.
  - unfold nothing. tauto.
Qed.

Lemma scanInfo_spec info t t' :
  scanExtensionsByInfo curArch driver s info t = Ok t' ->
  counted' (extension_of s info) nothing t t'.
Proof using Hcanon.
  unfold scanExtensionsByInfo. destruct (pi_extensions info) as [exts|] eqn:Ee.
  - intros Ht%scanExtensions_spec. eapply counted_ext; [exact Ht| |done]. intros r.
    unfold extension_of, enabled_as. split.
    + intros (ext & Hx & name & fuzzy & ? & ? & ?). exists exts, ext, name, fuzzy. done.
    + intros (? & ext & name & fuzzy & E & ? & ? & ? & ?). rewrite Ee in E. injection E as <-. eauto 10.
  - intros [= ->]. apply counted_none. intros r (? & _ & _ & _ & ? & _). congruence.
Qed.

Lemma scanRef_spec ref t t' :
  scanExtensionsByRef curArch driver s ref t = Ok t' ->
  counted' (layer_extension s ref) nothing t t'.
Proof using Hcanon.
  unfold scanExtensionsByRef, layer_extension.
  destruct (getLayerItem _ _ _ _ _) as [item|c]; cbn [logged].
  - intros Ht%scanInfo_spec. eapply counted_ext; [exact Ht| |done]. intros r.
    split; [eauto|]. by intros (? & [= <-] & ?).
  - destruct (c =? terminated); [done|]. intros [= ->]. apply counted_none. by intros r (? & ? & _).
Qed.

(** A reference together with the extensions of its layer. *)
Lemma count_with_extensions ref t t' :
  installed (layers s) ref -> scanExtensionsByRef curArch driver s ref (bump ref t) = Ok t' ->
  counted' (fun r => r = ref \/ layer_extension s ref r) nothing t t'.
Proof using Hcanon.
  intros Hi Ht%scanRef_spec. eapply counted_ext.
  - eapply counted_trans; [by apply bump_spec|exact Ht].
  - done.
  - unfold nothing. tauto.
Qed.

Definition base_needs (info : PackageInfoV2) (r : Reference) : Prop :=
  exists b, resolves s (pi_base info) b /\
    (r = b \/ layer_extension s b r \/ extension_of s info r).

Lemma scan_base_spec info t t' :
  scan_base curArch driver s info t = Ok t' -> counted' (base_needs info) nothing t t'.
Proof using Hcanon.
  unfold scan_base, base_needs, resolves. destruct (fuzzy_parse (pi_base info)) as [fuzzy|c]; cbn [logged].
  2:{ destruct (c =? terminated); [done|]. intros [= ->]. apply counted_none.
      by intros r (b & (? & ? & _) & _). }
  cbn [res_bind]. destruct (resolve s fuzzy) as [[ref|]|c] eqn:Er; cbn [res_bind]; [| |done].
  - destruct (scanExtensionsByRef _ _ _ _ _) as [t1|] eqn:E1; [|done]. cbn [res_bind].
    intros Ht%scanInfo_spec. eapply counted_ext.
    + eapply counted_trans; [|exact Ht].
      apply (count_with_extensions ref); [by eapply resolve_installed|done].
    + intros r. cbn. split.
      * intros Hr. exists ref. split; [eauto|tauto].
      * intros (b & (? & [= <-] & Hb) & Hr). assert (b = ref) as -> by congruence. tauto.
    + unfold nothing. tauto.
  - intros [= ->]. apply counted_none. intros r (b & (? & [= <-] & Hb) & _). congruence.
Qed.

Lemma needs_cases info r : needs s info r <->
  (exists t dep, pi_runtime info = Some t /\ resolves s t dep /\ (r = dep \/ layer_extension s dep r)) \/
  (runtime_found s info /\ base_needs info r).
Proof using.
  unfold base_needs. split.
  - intros []; [left; eauto 10..|right; eauto 10|right; eauto 10|right; eauto 10].
  - intros [(t & dep & ? & ? & [-> |?])|(? & b & ? & [-> |[?|?]])].
    + by eapply needs_runtime.
    + by eapply needs_runtime_extension.
    + by apply needs_base.
    + by eapply needs_base_extension.
    + by eapply needs_extension.
Qed.

Definition is_app (info : PackageInfoV2) : Prop :=
  main_module info = true /\ pi_kind info = lit "app".
Definition is_shared (info : PackageInfoV2) (r : Reference) : Prop :=
  main_module info = true /\ pi_kind info <> lit "app" /\ ref_fromPackageInfo info = Ok r.

Lemma scan_app_spec info t t' :
  is_app info -> scan_info curArch driver s info t = Ok t' -> counted' (needs s info) nothing t t'.
Proof using Hcanon.
  intros [Hm Hk]. unfold scan_info. rewrite Hm, Hk, bool_decide_true by done. cbn [negb].
  intros Ht. eapply counted_ext; [|intros r; symmetry; apply needs_cases|done]. revert Ht.
  unfold runtime_found. destruct (pi_runtime info) as [text|].
  - unfold resolves at 1 2. destruct (fuzzy_parse text) as [fuzzy|c] eqn:Ef; cbn [logged res_bind].
    2:{ destruct (c =? terminated); [done|]. intros [= ->]. apply counted_none.
        intros r [(? & ? & [= <-] & (? & ? & _) & _)|[(? & ? & ? & _) _]]; congruence. }
    destruct (resolve s fuzzy) as [[ref|]|c] eqn:Er; cbn [res_bind]; [| |done].
    2:{ intros [= ->]. apply counted_none.
        intros r [(? & ? & [= <-] & (? & ? & ?) & _)|[(? & ? & ? & ?) _]]; congruence. }
    destruct (scanExtensionsByRef _ _ _ _ _) as [t1|] eqn:E1; [|done]. cbn [res_bind].
    intros Ht%scan_base_spec. eapply counted_ext.
    + eapply counted_trans; [|exact Ht].
      apply (count_with_extensions ref); [by eapply resolve_installed|done].
    + intros r. cbn. split.
      * intros [Hr|Hr]; [left; exists text, ref; eauto 10|right; eauto 10].
      * intros [(? & dep & [= <-] & (? & E & ?) & Hr)|[_ Hr]]; [left|by right].
        rewrite Ef in E. injection E as <-. assert (dep = ref) as -> by congruence. done.
    + unfold nothing. tauto.
  - intros Ht%scan_base_spec. eapply counted_ext; [exact Ht| |done]. intros r.
    split; [auto|]. intros [(? & ? & ? & _)|[_ ?]]; [done|done].
Qed.

Lemma scan_info_spec info t t' :
  info ∈ listLocal (rcache s) -> scan_info curArch driver s info t = Ok t' ->
  counted' (fun r => is_app info /\ needs s info r) (is_shared info) t t'.
Proof using Hcanon.
  intros Hin Ht. unfold is_shared. destruct (main_module info) eqn:Em.
  2:{ unfold scan_info in Ht. rewrite Em in Ht. injection Ht as <-.
      eapply counted_ext; [apply counted_same|..]; unfold nothing, is_app; intros r; [|intuition done].
      rewrite Em. intuition done. }
  destruct (decide (pi_kind info = lit "app")) as [Ek|Ek].
  { eapply counted_ext; [by apply scan_app_spec|unfold is_app; intros; tauto|].
    unfold nothing. intros r. tauto. }
  unfold scan_info in Ht. rewrite Em, bool_decide_false in Ht by done. cbn [negb] in Ht.
  assert (Hno : forall r, nothing r <-> is_app info /\ needs s info r) by (unfold is_app, nothing; tauto).
  destruct (ref_fromPackageInfo info) as [ref|c] eqn:Er; cbn [logged res_bind] in Ht.
  - injection Ht as <-. eapply counted_ext; [apply try_emplace_spec; [done|]|done|].
    + unfold listLocal in Hin. apply list_elem_of_fmap in Hin as (x & -> & Hx).
      apply list_elem_of_In, filter_In in Hx as [Hx _]. exists x. by split; [apply list_elem_of_In|].
    + intros r. split; [intros ->; done|]. intros (_ & _ & [= ->]). done.
  - destruct (c =? terminated); [done|]. injection Ht as <-.
    eapply counted_ext; [apply counted_same|done|]. unfold nothing. intros r. intuition done.
Qed.

Lemma scan_infos_spec infos t t' :
  (forall x, x ∈ infos -> x ∈ listLocal (rcache s)) ->
  scan_infos curArch driver s infos t = Ok t' ->
  counted' (fun r => exists info, info ∈ infos /\ is_app info /\ needs s info r)
           (fun r => exists info, info ∈ infos /\ is_shared info r) t t'.
Proof using Hcanon.
  revert t. induction infos as [|info infos IH]; intros t Hin; cbn [scan_infos].
  { intros [= ->]. eapply counted_ext; [apply counted_same|..]; intros r; unfold nothing;
      split; try done; by intros (x & Hx%not_elem_of_nil & _). }
  destruct (scan_info curArch driver s info t) as [t1|] eqn:E1; [|done]. cbn [res_bind]. intros Ht.
  eapply counted_ext.
  - eapply counted_trans; [apply scan_info_spec; [|exact E1]|apply IH; [|exact Ht]].
    + apply Hin. set_solver.
    + intros x Hx. apply Hin. set_solver.
  - intros r. cbn. setoid_rewrite elem_of_cons. split.
    + intros [[? ?]|(x & ? & ?)]; eauto.
    + intros (x & [-> |?] & ?); eauto.
  - intros r. cbn. setoid_rewrite elem_of_cons. split.
    + intros [?|(x & ? & ?)]; eauto.
    + intros (x & [-> |?] & ?); eauto.
Qed.

End scanning.

(** ** Removing *)

Lemma getLayerItem_texts config c ref module sub layer :
  comparable (rc_layers (cache c)) -> getLayerItem config c ref module sub = Ok layer ->
  layer ∈ rc_layers (cache c) /\ pi_id (l_info layer) = ref_id ref /\
  pi_channel (l_info layer) = ref_channel ref /\
  pi_version (l_info layer) = ver_toString (ref_version ref).
Proof.
  intros Hc. unfold getLayerItem. destruct (getDefaultRepo config) as [d|]; [|done].
  assert (Q : forall repo m x l, queryLayerItem c (layer_query ref repo m sub) = x :: l ->
    x ∈ rc_layers (cache c) /\ pi_id (l_info x) = ref_id ref /\
    pi_channel (l_info x) = ref_channel ref /\ pi_version (l_info x) = ver_toString (ref_version ref)).
  { intros repo m x l E. assert (Hx : x ∈ queryLayerItem c (layer_query ref repo m sub))
      by (rewrite E; set_solver).
    apply query_elem in Hx as [Hx Hm]; [|done]. by apply layer_query_match in Hm as (? & ? & ? & _). }
  destruct (queryLayerItem c (layer_query ref (Some _) _ sub)) as [|x [|]] eqn:E1; [| |done].
  - destruct (queryLayerItem c (layer_query ref None _ sub)) as [|x l] eqn:E2.
    + destruct (negb _); [done|].
      destruct (queryLayerItem c (layer_query ref None (lit "runtime") sub)) as [|x l] eqn:E3; [done|].
      intros [= <-]. by eapply Q.
    + intros [= <-]. by eapply Q.
  - intros [= <-]. by eapply Q.
Qed.

Lemma getLayerItem_main config c ref layer : comparable (rc_layers (cache c)) ->
  getLayerItem config c ref (lit "binary") None = Ok layer -> main_module (l_info layer) = true.
Proof.
  intros Hc. unfold getLayerItem, main_module. rewrite bool_decide_false by done. cbv zeta.
  destruct (getDefaultRepo config) as [d|]; [|done].
  assert (Q : forall repo m x l, queryLayerItem c (layer_query ref repo m None) = x :: l ->
    packageInfoV2Module (l_info x) = m).
  { intros repo m x l E. assert (Hx : x ∈ queryLayerItem c (layer_query ref repo m None)) by (rewrite E; left).
    apply query_elem in Hx as [_ Hm]; [|done]. by apply layer_query_match in Hm as (_ & _ & _ & Hm & _). }
  rewrite orb_true_iff, !bool_decide_eq_true.
  destruct (queryLayerItem c (layer_query ref (Some _) _ None)) as [|x [|]] eqn:E1; [| |done].
  - destruct (queryLayerItem c (layer_query ref None (lit "binary") None)) as [|x l] eqn:E2.
    + rewrite bool_decide_true by done. cbn [negb].
      destruct (queryLayerItem c (layer_query ref None (lit "runtime") None)) as [|x l] eqn:E3; [done|].
      intros [= <-]. right. by eapply Q.
    + intros [= <-]. left. by eapply Q.
  - intros [= <-]. left. by eapply Q.
Qed.

(** A layer has the texts a reference is queried by. *)
Definition texts_of (ref : Reference) (x : RepositoryCacheLayersItem) : Prop :=
  pi_id (l_info x) = ref_id ref /\ pi_channel (l_info x) = ref_channel ref /\
  pi_version (l_info x) = ver_toString (ref_version ref).

(** [l'] comes from [l] by removing layers of references that satisfy [P]. *)
Inductive pruned (P : Reference -> Prop) : list RepositoryCacheLayersItem ->
    list RepositoryCacheLayersItem -> Prop :=
| pruned_refl l : pruned P l l
| pruned_one l1 x l2 l' ref : P ref -> texts_of ref x -> pruned P (l1 ++ l2) l' ->
    pruned P (l1 ++ x :: l2) l'.

Lemma pruned_trans P l1 l2 l3 : pruned P l1 l2 -> pruned P l2 l3 -> pruned P l1 l3.
Proof. induction 1; [done|]. intros. by eapply pruned_one; eauto. Qed.

Lemma pruned_keeps P l l' x :
  pruned P l l' -> x ∈ l -> (forall ref, P ref -> ~ texts_of ref x) -> x ∈ l'.
Proof.
  induction 1 as [|l1 y l2 l' ref HP Ht _ IH]; [done|]. intros Hx Hn. apply IH; [|done].
  rewrite elem_of_app, elem_of_cons in Hx. destruct Hx as [?|[-> |?]]; [set_solver| |set_solver].
  by destruct (Hn ref).
Qed.

Lemma pruned_sub P l l' : pruned P l l' -> forall x, x ∈ l' -> x ∈ l.
Proof. induction 1; [done|]. intros z Hz%IHpruned. set_solver. Qed.

Lemma remove_pruned ll_version env config c ref module sub (P : Reference -> Prop) :
  comparable (rc_layers (cache c)) -> P ref ->
  let '(c', _) := remove ll_version env config c ref module sub in
  pruned P (rc_layers (cache c)) (rc_layers (cache c')).
Proof.
  intros Hc HP. unfold remove. case_bool_decide; [constructor|].
  destruct (getLayerItem _ _ _ _ _) as [layer|] eqn:E; [|constructor].
  apply getLayerItem_texts in E as (_ & Hi & Hch & Hv); [|done].
  unfold removeOstreeRef. destruct (if re_resolves env then _ else _); [|constructor].
  unfold deleteLayerItem. pose proof (find_matching c layer) as Hf.
  destruct (findMatchingItem c layer) as [i|]; [|constructor].
  destruct Hf as (l1 & x & l2 & El & <- & Hk).
  pose proof (write_cases ll_version (re_cache env)
    (set_cache (with_layers (cache c) (delete (length l1) (rc_layers (cache c)))) c)) as Hw.
  destruct (writeToDisk _ _ _) as [c' r]. destruct Hw as [-> _]. cbn.
  rewrite El, delete_middle. apply pruned_one with ref; [done| |constructor].
  unfold item_key in Hk. injection Hk. intros. unfold texts_of. split_and!; congruence.
Qed.

Section removing.
Variable ll_version : str.
Variable repoDir : str.
Variable e : prune_env.

Lemma prune_module_pruned config ref module st (P : Reference -> Prop) :
  comparable (rc_layers (cache (ps_cache st))) -> P ref ->
  let '(st', _) := prune_module ll_version repoDir e config ref module st in
  pruned P (rc_layers (cache (ps_cache st))) (rc_layers (cache (ps_cache st'))).
Proof.
  intros Hc HP. unfold prune_module.
  destruct (layer <-r _ ;; _) as [dir|c]; [|constructor].
  destruct (pe_info e dir) as [info|]; [|constructor].
  pose proof (remove_pruned ll_version (pe_remove e ref module) config (ps_cache st) ref module None P Hc HP) as Hr.
  by destruct (remove _ _ _ _ _ _ _) as [c' r].
Qed.

Lemma comparable_sub l l' : comparable l -> (forall x, x ∈ l' -> x ∈ l) -> comparable l'.
Proof. unfold comparable. rewrite !Forall_forall. auto. Qed.

Lemma prune_modules_pruned config ref modules st (P : Reference -> Prop) :
  comparable (rc_layers (cache (ps_cache st))) -> P ref ->
  let '(st', _) := prune_modules ll_version repoDir e config ref modules st in
  pruned P (rc_layers (cache (ps_cache st))) (rc_layers (cache (ps_cache st'))).
Proof.
  revert st. induction modules as [|module modules IH]; intros st Hc HP; cbn [prune_modules]; [constructor|].
  pose proof (prune_module_pruned config ref module st P Hc HP) as Hm.
  destruct (prune_module _ _ _ _ _ _ _) as [st1 [u|c]]; [|done].
  pose proof (IH st1 (comparable_sub _ _ Hc (pruned_sub _ _ _ Hm)) HP) as Hr.
  destruct (prune_modules _ _ _ _ _ _ _) as [st2 r]. by eapply pruned_trans.
Qed.

Lemma prune_refs_pruned config target st (P : Reference -> Prop) :
  comparable (rc_layers (cache (ps_cache st))) -> (forall ref, (ref, 0) ∈ target -> P ref) ->
  let '(st', _) := prune_refs ll_version repoDir e config target st in
  pruned P (rc_layers (cache (ps_cache st))) (rc_layers (cache (ps_cache st'))).
Proof.
  revert st. induction target as [|[ref n] target IH]; intros st Hc HP; cbn [prune_refs]; [constructor|].
  destruct (Z.eqb_spec n 0) as [-> |Hn]; cbn [negb]; [|apply IH; [done|set_solver]].
  pose proof (prune_modules_pruned config ref (getModuleList (ps_cache st) ref) st P Hc (HP ref ltac:(set_solver))) as Hm.
  destruct (prune_modules _ _ _ _ _ _ _) as [st1 [u|c]]; [|done].
  assert (HP' : forall r, (r, 0) ∈ target -> P r) by set_solver.
  pose proof (IH st1 (comparable_sub _ _ Hc (pruned_sub _ _ _ Hm)) HP') as Hr.
  destruct (prune_refs _ _ _ _ _ _) as [st2 r]. by eapply pruned_trans.
Qed.

(** Merging does not touch the layers. *)
Lemma mergeModules_layers hash me c dirs :
  let '(c', _, _) := mergeModules hash ll_version me c dirs in
  rc_layers (cache c') = rc_layers (cache c).
Proof.
  unfold mergeModules. destruct (merge_groups _ _ _ _ _) as [dirs' [items|]]; [|done].
  unfold updateMergedItems.
  match goal with |- context [writeToDisk ?v ?w ?x] => pose proof (write_cases v w x) as Hw end.
  destruct (writeToDisk _ _ _) as [c' [u|]]; destruct Hw as [Hw _]; [|by rewrite Hw].
  destruct (me_read_dir me); by rewrite Hw.
Qed.

Lemma prune_finish_layers hash target st x :
  x ∈ rc_layers (cache (ps_cache st)) <->
  let '(st', _) := prune_finish ll_version hash e target st in
  x ∈ rc_layers (cache (ps_cache st')).
Proof.
  unfold prune_finish. case_bool_decide; [done|].
  pose proof (mergeModules_layers hash (pe_merge e) (ps_cache st) (ps_merged st)) as Hm.
  destruct (mergeModules _ _ _ _ _) as [[c' m'] r']. cbn. by rewrite Hm.
Qed.

(** When everything works: every layer has its directory and its [info.json], and
    removals succeed.  A module of a package is installed once. *)
Definition module_key (x : RepositoryCacheLayersItem) : str * str * str * str :=
  (pi_id (l_info x), pi_channel (l_info x), pi_version (l_info x), packageInfoV2Module (l_info x)).

Definition layer_path (x : RepositoryCacheLayersItem) : str := repoDir ++ lit "/layers/" ++ l_commit x.

Record removable (st : prune_state) : Prop := {
  rm_comparable : comparable (rc_layers (cache (ps_cache st)));
  rm_modules : NoDup (module_key <$> rc_layers (cache (ps_cache st)));
  rm_main : forall x y, x ∈ rc_layers (cache (ps_cache st)) -> y ∈ rc_layers (cache (ps_cache st)) ->
    packageInfoV2Module (l_info x) = lit "binary" -> packageInfoV2Module (l_info y) = lit "runtime" ->
    (pi_id (l_info x), pi_channel (l_info x), pi_version (l_info x)) <>
    (pi_id (l_info y), pi_channel (l_info y), pi_version (l_info y));
  rm_named : forall x, x ∈ rc_layers (cache (ps_cache st)) -> packageInfoV2Module (l_info x) <> [];
  rm_commits : NoDup (l_commit <$> rc_layers (cache (ps_cache st)));
  rm_dirs : forall x, x ∈ rc_layers (cache (ps_cache st)) -> ps_dirs st (layer_path x) = true
}.

Record works : Prop := {
  wk_info : forall d, is_ok (pe_info e d) = true;
  wk_ref : forall ref module, re_set_ref (pe_remove e ref module) = Ok tt;
  wk_write : forall ref module, write_ok (re_cache (pe_remove e ref module)) = true
}.

Lemma all_same {A} (x : A) l : NoDup l -> (forall y, y ∈ l -> y = x) -> l = [] \/ l = [x].
Proof.
  destruct l as [|a [|b l]]; intros Hn Hx; [by left| |].
  - right. by rewrite (Hx a) by set_solver.
  - apply NoDup_cons in Hn as [Hn _]. rewrite (Hx a), (Hx b) in Hn by set_solver. set_solver.
Qed.

Lemma key_inj {A B} (f : A -> B) l x y : NoDup (f <$> l) -> x ∈ l -> y ∈ l -> f x = f y -> x = y.
Proof.
  intros Hn Hx Hy E. apply list_elem_of_lookup in Hx as [i Hi]. apply list_elem_of_lookup in Hy as [j Hj].
  assert (i = j) as <-; [|congruence].
  eapply NoDup_lookup; [exact Hn|..]; rewrite list_lookup_fmap; [by rewrite Hi|by rewrite Hj, E].
Qed.

Lemma nodup_middle {A B} (f : A -> B) l1 x l2 :
  NoDup (f <$> l1 ++ x :: l2) -> NoDup (f <$> l1 ++ l2) /\ f x ∉ f <$> l1 ++ l2.
Proof.
  intros Hn. assert (E : f <$> l1 ++ x :: l2 ≡ₚ f x :: (f <$> l1 ++ l2)).
  { rewrite !fmap_app, fmap_cons. by rewrite Permutation_middle. }
  rewrite E in Hn. apply NoDup_cons in Hn as [? ?]. done.
Qed.

Lemma query_texts ref repo m x :
  query_match (layer_query ref repo m None) x = true <->
  texts_of ref x /\ packageInfoV2Module (l_info x) = m /\ match repo with Some r => l_repo x = r | None => True end.
Proof.
  unfold query_match, layer_query, opt_ok, texts_of. cbn. rewrite !andb_true_r, !andb_true_iff, !bool_decide_eq_true.
  destruct repo; rewrite ?bool_decide_eq_true; intuition congruence.
Qed.

Lemma getLayerItem_removable st config d ref x :
  removable st -> getDefaultRepo config = Some d ->
  x ∈ rc_layers (cache (ps_cache st)) -> texts_of ref x ->
  getLayerItem config (ps_cache st) ref (packageInfoV2Module (l_info x)) None = Ok x.
Proof.
  intros [Hc Hk Hb _ _ _] Hd Hx Ht. unfold getLayerItem. rewrite Hd.
  assert (Hnd : forall q, NoDup (queryLayerItem (ps_cache st) q)).
  { intros q. destruct (query_sorted (ps_cache st) q Hc) as [E _]. rewrite E.
    apply NoDup_ListNoDup, List.NoDup_filter, NoDup_ListNoDup. by eapply NoDup_fmap_1. }
  assert (Hq : forall repo y m, y ∈ queryLayerItem (ps_cache st) (layer_query ref repo m None) <->
    y ∈ rc_layers (cache (ps_cache st)) /\ texts_of ref y /\ packageInfoV2Module (l_info y) = m /\
    match repo with Some r => l_repo y = r | None => True end).
  { intros. rewrite query_elem, query_texts by done. done. }
  assert (Hsame : forall repo, let q := queryLayerItem (ps_cache st)
      (layer_query ref repo (packageInfoV2Module (l_info x)) None) in q = [] \/ q = [x]).
  { intros repo q. apply all_same; [apply Hnd|]. intros y (Hy & (? & ? & ?) & ? & _)%Hq.
    destruct Ht as (? & ? & ?). apply (key_inj module_key _ _ _ Hk Hy Hx). unfold module_key. congruence. }
  assert (Hall : queryLayerItem (ps_cache st) (layer_query ref None (packageInfoV2Module (l_info x)) None) = [x]).
  { destruct (Hsame None) as [E|E]; [|done]. assert (F : x ∈ []) by (by rewrite <- E, Hq). set_solver. }
  case_bool_decide as Em.
  - assert (Hno : forall repo, queryLayerItem (ps_cache st) (layer_query ref repo (lit "binary") None) = []).
    { intros repo. destruct (queryLayerItem _ (layer_query ref repo (lit "binary") None)) as [|y l] eqn:E; [done|].
      destruct (proj1 (Hq repo y (lit "binary"))) as (Hy & (? & ? & ?) & Hm & _); [rewrite E; set_solver|].
      destruct (Hb y x Hy Hx Hm Em). destruct Ht as (? & ? & ?). congruence. }
    rewrite !Hno, bool_decide_true by done. cbn [negb]. rewrite <- Em, Hall. done.
  - destruct (Hsame (Some (repo_alias d))) as [E|E]; rewrite E; [by rewrite Hall|done].
Qed.

(** One layer goes, the others and their directories stay. *)
Lemma prune_module_works st config d ref x :
  works -> removable st -> getDefaultRepo config = Some d ->
  x ∈ rc_layers (cache (ps_cache st)) -> texts_of ref x ->
  exists st' l1 l2,
    prune_module ll_version repoDir e config ref (packageInfoV2Module (l_info x)) st = (st', Ok tt) /\
    removable st' /\ rc_layers (cache (ps_cache st)) = l1 ++ x :: l2 /\
    rc_layers (cache (ps_cache st')) = l1 ++ l2.
Proof.
  intros [Wi Wr Ww] Hrm Hd Hx Ht. pose proof (getLayerItem_removable st config d ref x Hrm Hd Hx Ht) as Hg.
  destruct Hrm as [Hc Hk Hb Hn Hco Hdirs].
  unfold prune_module, getLayerDir. rewrite Hg. cbn [res_bind]. fold (layer_path x). rewrite (Hdirs x Hx).
  specialize (Wi (layer_path x)). destruct (pe_info e (layer_path x)) as [info|]; [|done].
  unfold remove. rewrite bool_decide_false by (by apply Hn). rewrite Hg. unfold removeOstreeRef.
  rewrite Wr. replace (if re_resolves _ then Ok tt else Ok tt) with (@Ok unit tt) by (by destruct (re_resolves _)).
  unfold deleteLayerItem. pose proof (find_matching (ps_cache st) x) as Hf.
  destruct (findMatchingItem (ps_cache st) x) as [i|c].
  2:{ destruct Hf as [_ Hf]. destruct Hf. apply list_elem_of_fmap. by exists x. }
  destruct Hf as (l1 & y & l2 & El & <- & Hy).
  assert (y = x) as ->.
  { apply (key_inj module_key (rc_layers (cache (ps_cache st)))); [done|rewrite El; set_solver|done|].
    unfold item_key in Hy. injection Hy. intros. unfold module_key. congruence. }
  match goal with |- context [writeToDisk ?v ?w ?c] => pose proof (write_cases v w c) as Hw end.
  destruct (writeToDisk _ _ _) as [c' r]. destruct Hw as [Hw [(_ & -> & _)|(Hbad & _)]].
  2:{ by rewrite Ww in Hbad. }
  cbn in Hw. rewrite El, delete_middle in Hw.
  eexists _, l1, l2. split; [done|]. split; [|by cbn [ps_cache]; rewrite Hw].
  assert (Hsub : forall z, z ∈ l1 ++ l2 -> z ∈ rc_layers (cache (ps_cache st))) by (rewrite El; set_solver).
  split; cbn [ps_cache ps_dirs]; rewrite Hw; cbn [rc_layers with_layers].
  - by eapply comparable_sub.
  - rewrite El in Hk. by apply nodup_middle in Hk as [? _].
  - intros; apply Hb; auto.
  - auto.
  - rewrite El in Hco. by apply nodup_middle in Hco as [? _].
  - intros z Hz. rewrite (Hdirs z) by auto. cbn [andb]. rewrite bool_decide_false; [done|].
    intros E%(inj (app repoDir))%(inj (app (lit "/layers/"))).
    rewrite El in Hco. apply nodup_middle in Hco as [_ Hfresh]. apply Hfresh.
    rewrite <- E. by apply list_elem_of_fmap_2.
Qed.

Definition texts_ofb (ref : Reference) (x : RepositoryCacheLayersItem) : bool :=
  bool_decide (ref_id ref = pi_id (l_info x)) && bool_decide (ref_channel ref = pi_channel (l_info x)) &&
  bool_decide (ver_toString (ref_version ref) = pi_version (l_info x)).

Lemma texts_ofb_spec ref x : texts_ofb ref x = true <-> texts_of ref x.
Proof. unfold texts_ofb, texts_of. rewrite !andb_true_iff, !bool_decide_eq_true. intuition congruence. Qed.

Abbreviation module_of x := (packageInfoV2Module (l_info x)).

Lemma getModuleList_perm c ref : comparable (rc_layers (cache c)) ->
  getModuleList c ref ≡ₚ (fun x => module_of x) <$> List.filter (texts_ofb ref) (rc_layers (cache c)).
Proof.
  intros Hc. unfold getModuleList. apply fmap_Permutation.
  set (q := mkQuery _ _ _ _ _ _ _). rewrite std_sort_perm.
  - destruct (query_sorted c q Hc) as [E _]. rewrite E. rewrite (List.filter_ext _ (texts_ofb ref)); [done|].
    intros x. unfold query_match, q, texts_ofb, opt_ok. cbn. by rewrite !andb_true_r.
  - destruct (str_lt_weak ((fun x => module_of x) <$> queryLayerItem c q)) as [Has Hneg].
    set (f := fun x : RepositoryCacheLayersItem => module_of x) in *.
    assert (Hf : forall x, x ∈ queryLayerItem c q -> f x ∈ f <$> queryLayerItem c q)
      by (intros; by apply list_elem_of_fmap_2).
    split; [intros x y Hx Hy; by apply Has; apply Hf|].
    intros x y z Hx Hy Hz. apply Hneg; by apply Hf.
Qed.

(** Removing all modules of a package. *)
Lemma prune_modules_work config d ref ms st :
  works -> removable st -> getDefaultRepo config = Some d ->
  ms ≡ₚ (fun x => module_of x) <$> List.filter (texts_ofb ref) (rc_layers (cache (ps_cache st))) ->
  exists st', prune_modules ll_version repoDir e config ref ms st = (st', Ok tt) /\ removable st' /\
    (forall x, x ∈ rc_layers (cache (ps_cache st')) -> x ∈ rc_layers (cache (ps_cache st))) /\
    forall x, x ∈ rc_layers (cache (ps_cache st')) -> ~ texts_of ref x.
Proof.
  intros Hw. revert st. induction ms as [|m ms IH]; intros st Hrm Hd Hp; cbn [prune_modules].
  - exists st. split_and!; try done. intros x Hx Ht%texts_ofb_spec.
    apply Permutation_nil_l in Hp. symmetry in Hp. apply fmap_nil_inv in Hp.
    assert (F : x ∈ List.filter (texts_ofb ref) (rc_layers (cache (ps_cache st))))
      by (apply list_elem_of_In, filter_In; by rewrite <- list_elem_of_In).
    rewrite Hp in F. set_solver.
  - assert (Hm : m ∈ (fun x => module_of x) <$> List.filter (texts_ofb ref) (rc_layers (cache (ps_cache st))))
      by (rewrite <- Hp; set_solver).
    apply list_elem_of_fmap in Hm as (x & -> & Hx). apply list_elem_of_In, filter_In in Hx as [Hx Ht].
    apply list_elem_of_In in Hx. pose proof Ht as Htb. apply texts_ofb_spec in Ht.
    destruct (prune_module_works st config d ref x Hw Hrm Hd Hx Ht) as (st1 & l1 & l2 & -> & Hrm1 & El & El').
    destruct (IH st1 Hrm1 Hd) as (st' & -> & Hrm' & Hsub & Hno).
    { rewrite El in Hp. rewrite El'. rewrite List.filter_app in *. cbn [List.filter] in Hp. rewrite Htb in Hp.
      rewrite fmap_app, fmap_cons, <- Permutation_middle in Hp. apply Permutation_cons_inv in Hp.
      by rewrite fmap_app. }
    exists st'. split_and!; try done. intros y Hy%Hsub. rewrite El' in Hy. rewrite El. set_solver.
Qed.

Lemma prune_refs_work config d target st :
  works -> removable st -> getDefaultRepo config = Some d ->
  exists st', prune_refs ll_version repoDir e config target st = (st', Ok tt) /\ removable st' /\
    (forall x, x ∈ rc_layers (cache (ps_cache st')) -> x ∈ rc_layers (cache (ps_cache st))) /\
    forall ref x, (ref, 0) ∈ target -> x ∈ rc_layers (cache (ps_cache st')) -> ~ texts_of ref x.
Proof.
  intros Hw. revert st. induction target as [|[ref n] target IH]; intros st Hrm Hd; cbn [prune_refs].
  { exists st. split_and!; try done. by intros ? ? ?%not_elem_of_nil. }
  destruct (Z.eqb_spec n 0) as [->|Hn]; cbn [negb].
  - destruct (prune_modules_work config d ref (getModuleList (ps_cache st) ref) st Hw Hrm Hd)
      as (st1 & -> & Hrm1 & Hsub1 & Hno1); [by apply getModuleList_perm, rm_comparable|].
    destruct (IH st1 Hrm1 Hd) as (st' & -> & Hrm' & Hsub & Hno). exists st'. split_and!; auto.
    intros r x [[= ->]|?]%elem_of_cons Hx; [by apply Hno1, Hsub|by apply Hno].
  - destruct (IH st Hrm Hd) as (st' & -> & Hrm' & Hsub & Hno). exists st'. split_and!; auto.
    intros r x [[= ->]|?]%elem_of_cons; [done|by apply Hno].
Qed.

End removing.

(** A layer with the texts of [ref] that stands for [r]: the two are equal. *)
Lemma texts_ref l x r ref :
  canonical l -> one_arch l -> x ∈ l -> ref_fromPackageInfo (l_info x) = Ok r ->
  installed l ref -> texts_of ref x -> r = ref.
Proof.
  intros Hc Ha Hx Hr Hi (Ti & Tc & Tv).
  apply fromPackageInfo_inv in Hr as (Hv & Hid & Hch & a & Har & Hp).
  destruct (installed_inv l ref Hc Hi) as (y & Hy & Yi & Yc & [Yv _] & Yt & Ya).
  assert (Ev : pi_version (l_info x) = pi_version (l_info y)) by congruence.
  rewrite (Ha y x Hy Hx) in Ya by congruence. rewrite Har in Ya. cbn in Ya. rewrite Hp in Ya.
  rewrite Ev, Yv in Hv. destruct r, ref. cbn in *. congruence.
Qed.

End prune_facts.

(** A package nobody needs: an installed runtime, base or extension that no
    installed application needs. *)
Definition unused `{Client} `{Qt} `{StdSort} `{Json} `{Yaml} curArch driver (s : OSTreeRepo) (r : Reference) : Prop :=
  (exists info, info ∈ listLocal (rcache s) /\ is_shared info r) /\
  ~ exists app, app ∈ listLocal (rcache s) /\ is_app app /\ needs curArch driver s app r.

(** The count after the scan: the entries with count zero are the unused packages. *)
Lemma scan_unused `{Client} `{Qt} `{StdSort} `{Json} `{Yaml} curArch driver s target :
  canonical (rc_layers (cache (rcache s))) ->
  scan_infos curArch driver s (listLocal (rcache s)) [] = Ok target ->
  counts_ok (rc_layers (cache (rcache s))) target /\
  forall r, (r, 0) ∈ target <-> unused curArch driver s r.
Proof.
  intros Hc Ht. destruct (scan_infos_spec curArch driver s Hc _ _ _ (fun x Hx => Hx) Ht (counts_nil _))
    as (Hok & Hu & Hk). split; [done|]. intros r. unfold unused.
  assert (Hu' : used r target <-> exists app, app ∈ listLocal (rcache s) /\ is_app app /\ needs curArch driver s app r).
  { rewrite Hu. split; [intros [(n & Hn%not_elem_of_nil & _)|?]; done|by right]. }
  assert (Hk' : r ∈ fst <$> target <-> used r target \/ exists info, info ∈ listLocal (rcache s) /\ is_shared info r).
  { rewrite Hk, Hu'. split; [intros [Hn%not_elem_of_nil|[?|?]]; [done|auto..]|intros [?|?]; auto]. }
  rewrite <- Hu'. split.
  - intros Hr. assert (Hnu : ~ used r target).
    { intros (n & Hn & ?). assert (n = 0) by (by eapply count_unique). lia. }
    split; [|done]. destruct (proj1 Hk') as [?|?]; [apply list_elem_of_fmap; by exists (r, 0)|done|done].
  - intros [Hs Hnu]. pose proof (proj2 Hk' (or_intror Hs)) as Hr.
    apply list_elem_of_fmap in Hr as ([r' n] & -> & Hn).
    cbn in *. assert (0 <= n) by (by eapply co_nonneg).
    destruct (decide (n = 0)) as [-> |]; [done|]. destruct Hnu. exists n. split; [done|lia].
Qed.

Lemma prune_kept `{Client} `{Qt} `{StdSort} `{Json} `{Yaml}
    ll_version curArch hash repoDir driver e walk s dirs merged r x :
  canonical (rc_layers (cache (rcache s))) -> one_arch (rc_layers (cache (rcache s))) ->
  (forall t, walk t ≡ₚ t) ->
  x ∈ rc_layers (cache (rcache s)) -> ref_fromPackageInfo (l_info x) = Ok r ->
  ~ unused curArch driver s r ->
  let '(st, _) := Prune ll_version curArch hash repoDir driver e walk s dirs merged in
  x ∈ rc_layers (cache (ps_cache st)).
Proof.
  intros Hc Ha Hwalk Hx Hr Hused. unfold Prune.
  destruct (scan_infos _ _ _ _ _) as [target|c] eqn:Et; [|done].
  destruct (scan_unused curArch driver s target Hc Et) as [Hok Hz].
  pose proof (prune_refs_pruned ll_version repoDir e (cfg s) (walk target)
    (mkPrune (rcache s) dirs merged []) (fun ref => (ref, 0) ∈ target)
    (canonical_comparable _ Hc)) as Hp.
  destruct (prune_refs _ _ _ _ _ _) as [st res].
  assert (Hx' : x ∈ rc_layers (cache (ps_cache st))).
  { eapply pruned_keeps; [apply Hp; intros ref; by rewrite Hwalk|exact Hx|].
    intros ref Href Ht. apply Hused, Hz. assert (r = ref) as ->; [|done].
    eapply texts_ref; [exact Hc|exact Ha|exact Hx|exact Hr|exact (co_installed _ _ Hok _ _ Href)|exact Ht]. }
  destruct res as [u|]; [|done]. by apply prune_finish_layers.
Qed.

(** C5: whatever fails on the way, [Prune] leaves in the cache every layer whose
    package is not an unused one: the applications, and every runtime, base or
    extension that an installed application needs. *)
Theorem prune_safe `{Client} `{Qt} `{StdSort} `{Json} `{Yaml}
    ll_version curArch hash repoDir driver e walk s dirs merged r x :
  canonical (rc_layers (cache (rcache s))) -> one_arch (rc_layers (cache (rcache s))) ->
  (forall t, walk t ≡ₚ t) ->
  x ∈ rc_layers (cache (rcache s)) -> ref_fromPackageInfo (l_info x) = Ok r ->
  ~ unused curArch driver s r ->
  let '(st, _) := Prune ll_version curArch hash repoDir driver e walk s dirs merged in
  x ∈ rc_layers (cache (ps_cache st)).
Proof. apply prune_kept. Qed.

(** When every removal succeeds, [Prune] removes every layer of every unused
    package, and its own result is that of pruning the OSTree repository. *)
Theorem prune_complete `{Client} `{Qt} `{StdSort} `{Json} `{Yaml}
    ll_version curArch hash repoDir driver e walk s dirs merged d target r x :
  canonical (rc_layers (cache (rcache s))) -> getDefaultRepo (cfg s) = Some d ->
  (forall t, walk t ≡ₚ t) ->
  removable repoDir (mkPrune (rcache s) dirs merged []) -> works e ->
  scan_infos curArch driver s (listLocal (rcache s)) [] = Ok target ->
  unused curArch driver s r -> texts_of r x ->
  let '(st, res) := Prune ll_version curArch hash repoDir driver e walk s dirs merged in
  res = pe_prune e /\ x ∉ rc_layers (cache (ps_cache st)).
Proof.
  intros Hc Hd Hwalk Hrm Hw Et Hun Ht. unfold Prune. rewrite Et.
  destruct (scan_unused curArch driver s target Hc Et) as [_ Hz].
  destruct (prune_refs_work ll_version repoDir e (cfg s) d (walk target) _ Hw Hrm Hd)
    as (st & -> & _ & _ & Hno).
  pose proof (prune_finish_layers ll_version e hash target st x) as Hf. unfold prune_finish in *.
  destruct (bool_decide (target = [])).
  - split; [done|]. intros Hx. apply (Hno r x); [rewrite Hwalk; by apply Hz|done|done].
  - destruct (mergeModules _ _ _ _ _) as [[c' m'] r']. split; [done|]. intros Hx%Hf.
    apply (Hno r x); [rewrite Hwalk; by apply Hz|done|done].
Qed.

(** ** A concrete repository *)

#[local] Existing Instance qt_model.
#[local] Existing Instance std_sort_model.
#[local] Existing Instance json_model.
#[local] Existing Instance client_model.
#[local] Existing Instance yaml_model.

Definition package (id kind base version commit : str) : RepositoryCacheLayersItem :=
  mkLayer commit None
    (mkInfo [lit "x86_64"] base (lit "main") None None None None None
       id kind (lit "binary") id None (lit "1.0") 0 None version)
    (lit "stable").

Definition app_layer : RepositoryCacheLayersItem :=
  package (lit "org.demo") (lit "app") (lit "main:org.base/23.0.0.1/x86_64") (lit "1.0.0.1") (lit "c1").
Definition base_layer : RepositoryCacheLayersItem :=
  package (lit "org.base") (lit "base") [] (lit "23.0.0.1") (lit "c2").
Definition old_layer : RepositoryCacheLayersItem :=
  package (lit "org.old") (lit "base") [] (lit "22.0.0.1") (lit "c3").

Definition prune_repo : OSTreeRepo :=
  mkOR example_cfg (fun _ => None) [] (lit "https://s")
    (mkRC (with_layers example_cache [app_layer; base_layer; old_layer]) None None).

Definition working_env : prune_env :=
  mkPruneEnv (fun _ => Ok (l_info old_layer)) (fun _ _ => mkRemoveEnv true (Ok tt) all_good)
    (fun _ => true) good_merge (Ok tt).

Definition base_ref : Reference := mkRef (lit "main") (lit "org.base") (isV1 (mkV1 23 0 0 (Some 1))) X86_64.
Definition old_ref : Reference := mkRef (lit "main") (lit "org.old") (isV1 (mkV1 22 0 0 (Some 1))) X86_64.

Lemma prune_repo_canonical : canonical (rc_layers (cache (rcache prune_repo))).
Proof.
  repeat constructor; eexists; (split; [split; [by vm_compute|]|by vm_compute]);
    unfold parsed63, wf_v1, i64_max; cbn; (split; [lia|done]).
Qed.

Lemma prune_repo_one_arch : one_arch (rc_layers (cache (rcache prune_repo))).
Proof.
  intros a b Ha Hb _ _ _. cbn in Ha, Hb.
  rewrite !elem_of_cons in Ha, Hb.
  destruct Ha as [->|[->|[->|Ha%not_elem_of_nil]]], Hb as [->|[->|[->|Hb%not_elem_of_nil]]]; done.
Qed.

Lemma base_needed : needs (Ok X86_64) None prune_repo (l_info app_layer) base_ref.
Proof.
  apply needs_base; [done|].
  exists (mkFuzzy (Some (lit "main")) (lit "org.base") (Some (lit "23.0.0.1")) (Some X86_64)).
  split; vm_compute; reflexivity.
Qed.

Lemma prune_safe_witness :
  canonical (rc_layers (cache (rcache prune_repo))) /\
  base_layer ∈ rc_layers (cache (ps_cache
    (Prune (lit "1.9") (Ok X86_64) example_hash (lit "/r") None working_env (fun t => t) prune_repo
       (fun _ => true) []).1)).
Proof.
  split; [exact prune_repo_canonical|].
  pose proof (prune_safe (lit "1.9") (Ok X86_64) example_hash (lit "/r") None working_env (fun t => t)
    prune_repo (fun _ => true) [] base_ref base_layer prune_repo_canonical prune_repo_one_arch
    (fun t => Permutation_refl t)
    ltac:(right; left) ltac:(vm_compute; reflexivity)
    ltac:(intros [_ Hn]; apply Hn; exists (l_info app_layer);
          split; [left|split; [split; reflexivity|exact base_needed]])) as Hp.
  destruct (Prune _ _ _ _ _ _ _ _ _ _) as [st r]. exact Hp.
Defined.

Definition prune_target : counts := [(base_ref, 1); (old_ref, 0)].

Lemma prune_scanned :
  scan_infos (Ok X86_64) None prune_repo (listLocal (rcache prune_repo)) [] = Ok prune_target.
Proof. vm_compute. reflexivity. Qed.

Lemma prune_repo_removable :
  removable (lit "/r") (mkPrune (rcache prune_repo) (fun _ => true) [] []).
Proof.
  split.
  - apply canonical_comparable, prune_repo_canonical.
  - apply NoDup_ListNoDup. cbn. repeat (constructor; [vm_compute; naive_solver|]). constructor.
  - cbn. intros x y Hx Hy _ Hr. rewrite !elem_of_cons in Hy.
    destruct Hy as [->|[->|[->|Hy%not_elem_of_nil]]]; done.
  - cbn. intros x Hx. rewrite !elem_of_cons in Hx.
    destruct Hx as [->|[->|[->|Hx%not_elem_of_nil]]]; done.
  - apply NoDup_ListNoDup. cbn. repeat (constructor; [vm_compute; naive_solver|]). constructor.
  - done.
Qed.

Lemma prune_complete_witness :
  unused (Ok X86_64) None prune_repo old_ref /\
  let '(st, res) := Prune (lit "1.9") (Ok X86_64) example_hash (lit "/r") None working_env (fun t => t)
    prune_repo (fun _ => true) [] in
  res = Ok tt /\ old_layer ∉ rc_layers (cache (ps_cache st)).
Proof.
  assert (Hu : unused (Ok X86_64) None prune_repo old_ref).
  { apply (scan_unused (Ok X86_64) None prune_repo prune_target prune_repo_canonical prune_scanned).
    right. left. }
  split; [exact Hu|].
  exact (prune_complete (lit "1.9") (Ok X86_64) example_hash (lit "/r") None working_env (fun t => t)
    prune_repo (fun _ => true) [] stable_repo prune_target old_ref old_layer prune_repo_canonical
    eq_refl (fun t => Permutation_refl t) prune_repo_removable
    (Build_works working_env (fun _ => eq_refl) (fun _ _ => eq_refl) (fun _ _ => eq_refl))
    prune_scanned Hu (conj eq_refl (conj eq_refl eq_refl))).
Defined.
