(* ===== verification/PackageTask.v ===== *)
(** * Tasks and their queue ([package_manager/package_task])

    A [PackageTask] is the state of one install, update or uninstall job as it
    is shown on D-Bus; [PackageTaskQueue] runs the jobs one after another from
    the event loop.  Percentages are [double]s in the code and exact rationals
    here.  Messages are not modelled; the signals that are, are the percentages
    a call emits, in order. *)
From S2P Require Import Prelude Types.
From Stdlib Require Import QArith Lqa.
#[local] Open Scope Z_scope.

(** ** [PackageTask] *)

Record PackageTask := mkTask {
  m_state : State;
  m_subState : SubState;
  m_code : Z;
  m_totalPercentage : Q;
  m_curStagePercentage : Q;
  m_taskID : str;
  m_refs : list str;
  m_taskParts : Z;
  m_cancelled : bool
}.

Definition TASK_DONE : Q := 100.

(** The constructors. *)
Definition new_task (id : str) (refs : list str) : PackageTask :=
  mkTask Queued SubStateUnknown ec_Unknown 0 0 id refs 0 false.
Definition createTemporaryTask (id : str) : PackageTask :=
  mkTask Processing SubStateUnknown ec_Unknown 0 0 id [] 0 false.

(** [m_subStateMap]; a key that is missing is read as 0. *)
Definition m_subStateMap (s : SubState) : Q :=
  match s with
  | PreAction => 10
  | InstallBase | InstallRuntime | InstallApplication => 20
  | Uninstall => 80
  | PostAction => 5
  | AllDone | PackageManagerDone | SubStateUnknown => 0
  end.

Definition done_subState (s : SubState) : bool :=
  match s with AllDone | PackageManagerDone => true | _ => false end.

Definition getPercentage (t : PackageTask) : Q :=
  if done_subState (m_subState t) then 100
  else m_totalPercentage t + m_curStagePercentage t * m_subStateMap (m_subState t).

Definition set_state (s : State) (t : PackageTask) : PackageTask :=
  mkTask s (m_subState t) (m_code t) (m_totalPercentage t) (m_curStagePercentage t) (m_taskID t)
    (m_refs t) (m_taskParts t) (m_cancelled t).
Definition set_subState (s : SubState) (t : PackageTask) : PackageTask :=
  mkTask (m_state t) s (m_code t) (m_totalPercentage t) (m_curStagePercentage t) (m_taskID t)
    (m_refs t) (m_taskParts t) (m_cancelled t).
Definition set_code (c : Z) (t : PackageTask) : PackageTask :=
  mkTask (m_state t) (m_subState t) c (m_totalPercentage t) (m_curStagePercentage t) (m_taskID t)
    (m_refs t) (m_taskParts t) (m_cancelled t).
Definition set_progress (total stage : Q) (t : PackageTask) : PackageTask :=
  mkTask (m_state t) (m_subState t) (m_code t) total stage (m_taskID t)
    (m_refs t) (m_taskParts t) (m_cancelled t).
Definition set_parts (p : Z) (t : PackageTask) : PackageTask :=
  mkTask (m_state t) (m_subState t) (m_code t) (m_totalPercentage t) (m_curStagePercentage t) (m_taskID t)
    (m_refs t) p (m_cancelled t).
Definition set_cancelled (b : bool) (t : PackageTask) : PackageTask :=
  mkTask (m_state t) (m_subState t) (m_code t) (m_totalPercentage t) (m_curStagePercentage t) (m_taskID t)
    (m_refs t) (m_taskParts t) b.

(** [part] and [whole] are [uint]s. *)
Definition updateTask (part whole : Z) (t : PackageTask) : PackageTask * list Q :=
  if whole =? 0 then (t, [])
  else if whole <? part then (t, [])
  else
    let t := set_progress (m_totalPercentage t) (inject_Z part / inject_Z whole) t in
    (t, [getPercentage t]).

Definition updateSubState (newSubState : SubState) (t : PackageTask) : PackageTask * list Q :=
  let t := set_subState newSubState t in
  if done_subState (m_subState t) then
    let t := set_progress TASK_DONE (m_curStagePercentage t) t in
    (t, [getPercentage t])
  else
    let t := set_progress (m_totalPercentage t + m_subStateMap (m_subState t)) 0 t in
    (t, [getPercentage t]).

Definition final_state (s : State) : bool :=
  match s with Canceled | Failed | Succeed => true | _ => false end.

Definition part_completed (s : State) : bool :=
  match s with PartCompleted => true | _ => false end.

Definition updateState (newState : State) (optDone : option SubState) (t : PackageTask) : PackageTask * list Q :=
  let t := set_state newState t in
  let '(t, out) :=
    if part_completed (m_state t)
    then (set_progress 0 0 (set_parts (u32 (m_taskParts t + 1)) t), [TASK_DONE])
    else (t, []) in
  let t := if m_taskParts t =? Z.of_nat (length (m_refs t)) then set_state Succeed t else t in
  if final_state (m_state t) then
    let '(t, out') := updateSubState (default AllDone optDone) t in
    (t, out ++ out')
  else (t, out).

Definition reportError (code : Z) (t : PackageTask) : PackageTask * list Q :=
  let t := set_progress TASK_DONE 0 t in
  let out := [getPercentage t] in
  (set_code code (set_subState AllDone (set_state Failed t)), out).

Definition Cancel (t : PackageTask) : PackageTask * list Q :=
  if bool_decide (m_state t = Canceled) then (t, [])
  else
    let '(t, out) := updateState Canceled None t in
    (set_cancelled true t, out).

(** What a job, the object's user, may call on its task. *)
Inductive task_call :=
| CallTask (part whole : Z)
| CallState (s : State) (done : option SubState)
| CallSubState (s : SubState)
| CallError (code : Z)
| CallCancel.

Definition call (c : task_call) (t : PackageTask) : PackageTask * list Q :=
  match c with
  | CallTask p w => updateTask p w t
  | CallState s d => updateState s d t
  | CallSubState s => updateSubState s t
  | CallError e => reportError e t
  | CallCancel => Cancel t
  end.

(** ** [PackageTaskQueue] *)

(** The tasks, the number of posted [startTask] invocations that have not run,
    and the ids of the tasks whose job is on the stack, innermost first, each with
    whether the job waits in an event loop of its own ([QEventLoop::exec]). *)
Record PackageTaskQueue := mkQueue {
  m_taskQueue : list PackageTask;
  posted : nat;
  running : list (str * bool)
}.

(** The event loop has control: no job runs or the innermost one waits. *)
Definition in_loop (q : PackageTaskQueue) : bool :=
  match running q with [] => true | (_, waits) :: _ => waits end.

Definition on_task (id : str) (f : PackageTask -> PackageTask) (l : list PackageTask) : list PackageTask :=
  (fun t => if bool_decide (m_taskID t = id) then f t else t) <$> l.

(** [std::find_if] and [erase] by id. *)
Fixpoint find_task (id : str) (l : list PackageTask) : option PackageTask :=
  match l with
  | [] => None
  | t :: l' => if bool_decide (m_taskID t = id) then Some t else find_task id l'
  end.

Fixpoint erase_task (id : str) (l : list PackageTask) : list PackageTask :=
  match l with
  | [] => []
  | t :: l' => if bool_decide (m_taskID t = id) then l' else t :: erase_task id l'
  end.

(** The handler of [startTask], run by the event loop: the id of the task whose
    job is to run now. *)
Definition startTask (q : PackageTaskQueue) : option str :=
  match m_taskQueue q with
  | [] => None
  | task :: _ => if negb (bool_decide (m_state task = Queued)) then None else Some (m_taskID task)
  end.

(** The handler of [taskDone]. *)
Definition taskDone (id : str) (q : PackageTaskQueue) : PackageTaskQueue :=
  match find_task id (m_taskQueue q) with
  | None => q
  | Some task =>
      let isQueuedDone := bool_decide (m_state task = Queued) in
      mkQueue (erase_task id (m_taskQueue q))
        (if negb isQueuedDone then S (posted q) else posted q) (running q)
  end.

Definition addNewTask (t : PackageTask) (q : PackageTaskQueue) : PackageTaskQueue :=
  mkQueue (m_taskQueue q ++ [t]) (S (posted q)) (running q).

(** The events of the queue.  Requests, cancellations and started tasks come from
    the event loop; a job makes calls of its task, which stays [Queued] until one
    of them changes that, and may wait in an event loop of its own.  When the task
    of the innermost job has left the queue, what the job does with it is
    undefined in C++ (the reference dangles): there is no step. *)
Inductive queue_step : PackageTaskQueue -> PackageTaskQueue -> Prop :=
| q_add q id refs : in_loop q = true -> id ∉ m_taskID <$> m_taskQueue q -> id ∉ (running q).*1 ->
    queue_step q (addNewTask (new_task id refs) q)
| q_start_none q n : in_loop q = true -> posted q = S n -> startTask q = None ->
    queue_step q (mkQueue (m_taskQueue q) n (running q))
| q_start q n id : in_loop q = true -> posted q = S n -> startTask q = Some id ->
    queue_step q (mkQueue (m_taskQueue q) n ((id, false) :: running q))
| q_job q id rest c : running q = (id, false) :: rest -> id ∈ m_taskID <$> m_taskQueue q -> (forall d, c <> CallState Queued d) ->
    queue_step q (mkQueue (on_task id (fun t => fst (call c t)) (m_taskQueue q)) (posted q) (running q))
| q_wait q id rest : running q = (id, false) :: rest ->
    queue_step q (mkQueue (m_taskQueue q) (posted q) ((id, true) :: rest))
| q_resume q id rest : running q = (id, true) :: rest ->
    queue_step q (mkQueue (m_taskQueue q) (posted q) ((id, false) :: rest))
| q_cancel q id : in_loop q = true ->
    queue_step q (mkQueue (on_task id (fun t => fst (Cancel t)) (m_taskQueue q)) (posted q) (running q))
| q_finish q id rest : running q = (id, false) :: rest -> id ∈ m_taskID <$> m_taskQueue q ->
    queue_step q (taskDone id (mkQueue (m_taskQueue q) (posted q) rest)).

(** Executions whose states all have a property. *)
Inductive queue_steps (P : PackageTaskQueue -> Prop) : PackageTaskQueue -> PackageTaskQueue -> Prop :=
| qs_refl q : P q -> queue_steps P q q
| qs_step q q1 q2 : queue_steps P q q1 -> queue_step q1 q2 -> P q2 -> queue_steps P q q2.

(** No job waits while its task is still [Queued], as one that asks the user does. *)
Definition patient (q : PackageTaskQueue) : Prop :=
  forall id t, (id, true) ∈ running q -> t ∈ m_taskQueue q -> m_taskID t = id -> m_state t <> Queued.

Definition empty_queue : PackageTaskQueue := mkQueue [] 0 [].

(** ** Facts about tasks *)

Lemma call_id c t : m_taskID (fst (call c t)) = m_taskID t /\ m_refs (fst (call c t)) = m_refs t.
Proof.
  destruct c; cbn [call]; unfold updateTask, updateState, updateSubState, reportError, Cancel, updateState, updateSubState;
    repeat case_match; simplify_eq/=; done.
Qed.

Lemma updateSubState_state s t : m_state (fst (updateSubState s t)) = m_state t.
Proof. unfold updateSubState. by case_match. Qed.

Lemma updateState_state s d t :
  m_state (fst (updateState s d t)) =
  (if (if part_completed s then u32 (m_taskParts t + 1) else m_taskParts t) =? Z.of_nat (length (m_refs t))
   then Succeed else s).
Proof.
  unfold updateState. destruct s; cbn; destruct (_ =? _); cbn; try done; by destruct d as [[]|].
Qed.

(** [updateState] leaves the task in the state it is given, except that a task
    all of whose parts are complete has succeeded whatever it is given; a
    final state reports 100 percent. *)
Theorem updateState_spec s d t :
  let parts := if part_completed s then u32 (m_taskParts t + 1) else m_taskParts t in
  let t' := fst (updateState s d t) in
  m_state t' = (if parts =? Z.of_nat (length (m_refs t)) then Succeed else s) /\
  m_taskParts t' = parts /\
  (final_state (m_state t') = true -> d = None -> m_subState t' = AllDone /\ getPercentage t' == 100).
Proof.
  cbv zeta. split; [apply updateState_state|]. unfold updateState.
  destruct s; cbn; destruct (_ =? _); cbn; (split; [by destruct d as [[]|]|]); try done;
    intros Hf Hd; subst d; cbn in *; done.
Qed.

(** ** Percentages *)

Definition calls (cs : list task_call) (t : PackageTask) : PackageTask :=
  fold_left (fun t c => fst (call c t)) cs t.

Lemma fraction_bounds part whole : 0 <= part -> part <= whole -> 0 < whole ->
  (0 <= inject_Z part / inject_Z whole <= 1)%Q.
Proof.
  intros H0 H1 H2. assert (Hw : (0 < inject_Z whole)%Q) by (change 0%Q with (inject_Z 0); by rewrite <- Zlt_Qlt).
  split; [apply Qle_shift_div_l|apply Qle_shift_div_r]; try done.
  - rewrite Qmult_0_l. change 0%Q with (inject_Z 0). by rewrite <- Zle_Qle.
  - rewrite Qmult_1_l. by rewrite <- Zle_Qle.
Qed.

Lemma weight_nonneg s : (0 <= m_subStateMap s)%Q.
Proof. by destruct s. Qed.

(** Progress within a stage stays between the accumulated percentage and that
    plus the weight of the stage, and grows with the completed part. *)
Theorem updateTask_progress t part part' whole : 0 <= part -> part <= part' -> part' <= whole -> 0 < whole ->
  done_subState (m_subState t) = false ->
  let p := getPercentage (fst (updateTask part whole t)) in
  let p' := getPercentage (fst (updateTask part' whole t)) in
  (m_totalPercentage t <= p)%Q /\ (p <= p')%Q /\ (p' <= m_totalPercentage t + m_subStateMap (m_subState t))%Q.
Proof.
  intros H0 H1 H2 Hw Hd. unfold updateTask.
  destruct (Z.eqb_spec whole 0); [lia|]. destruct (Z.ltb_spec whole part); [lia|].
  destruct (Z.ltb_spec whole part'); [lia|]. unfold getPercentage. cbn. rewrite Hd.
  pose proof (fraction_bounds part whole H0 ltac:(lia) Hw) as [A1 A2].
  pose proof (fraction_bounds part' whole ltac:(lia) H2 Hw) as [B1 B2].
  pose proof (weight_nonneg (m_subState t)) as W.
  assert (Hle : (inject_Z part / inject_Z whole <= inject_Z part' / inject_Z whole)%Q).
  { unfold Qdiv. apply Qmult_le_compat_r; [by rewrite <- Zle_Qle|]. apply Qinv_le_0_compat.
    change 0%Q with (inject_Z 0). rewrite <- Zle_Qle. lia. }
  set (x := (inject_Z part / inject_Z whole)%Q) in *. set (y := (inject_Z part' / inject_Z whole)%Q) in *.
  set (w := m_subStateMap (m_subState t)) in *. set (tot := m_totalPercentage t) in *.
  assert (Hxw : (0 <= x * w)%Q) by (apply Qmult_le_0_compat; done).
  assert (Hxy : (x * w <= y * w)%Q) by (apply Qmult_le_compat_r; done).
  assert (Hyw : (y * w <= 1 * w)%Q) by (apply Qmult_le_compat_r; done).
  rewrite Qmult_1_l in Hyw. split_and!; lra.
Qed.

(** The percentage is not bounded by 100: entering a stage already adds its
    weight, so a whole uninstallation reports 170 before it is done. *)
Theorem percentage_exceeds id ref :
  getPercentage (calls [CallState Processing None; CallSubState PreAction; CallSubState Uninstall; CallTask 1 1]
                   (new_task id [ref])) == 170.
Proof. reflexivity. Qed.

(** A temporary task has no parts, so that any state it is given, and
    cancelling it too, makes it a task that has succeeded. *)
Theorem temporary_task_succeeds id s d :
  s <> PartCompleted -> m_state (fst (updateState s d (createTemporaryTask id))) = Succeed /\
  m_state (fst (Cancel (createTemporaryTask id))) = Succeed.
Proof.
  intros Hs. split; [rewrite updateState_state; destruct s; done|]. reflexivity.
Qed.

(** ** The queue *)

Lemma call_not_queued c t : m_state t <> Queued -> (forall d, c <> CallState Queued d) ->
  m_state (fst (call c t)) <> Queued.
Proof.
  intros Ht Hc. destruct c as [p w|s d|s|e|]; cbn [call].
  - unfold updateTask. by repeat case_match.
  - rewrite updateState_state. destruct (_ =? _); [done|]. intros ->. by apply (Hc d).
  - by rewrite updateSubState_state.
  - done.
  - unfold Cancel. case_bool_decide as E; [done|].
    pose proof (updateState_state Canceled None t) as Es. destruct (updateState Canceled None t) as [t' out].
    cbn in *. rewrite Es. by destruct (_ =? _).
Qed.

Lemma on_task_ids id f l : (forall t, m_taskID (f t) = m_taskID t) ->
  m_taskID <$> on_task id f l = m_taskID <$> l.
Proof.
  intros Hf. unfold on_task. rewrite <- list_fmap_compose. apply list_fmap_ext. intros i t _. simpl.
  case_bool_decide; [apply Hf|done].
Qed.

Lemma erase_task_ids id l : NoDup (m_taskID <$> l) ->
  NoDup (m_taskID <$> erase_task id l) /\ forall x, x ∈ m_taskID <$> erase_task id l -> x ∈ m_taskID <$> l.
Proof.
  induction l as [|t l IH]; [done|]. rewrite fmap_cons. intros [Hn Hd]%NoDup_cons. cbn [erase_task].
  case_bool_decide; [split; [done|set_solver]|]. destruct (IH Hd) as [IH1 IH2]. rewrite fmap_cons. split.
  - apply NoDup_cons. split; [|done]. intros Hin. by apply Hn, IH2.
  - intros x. rewrite !elem_of_cons. naive_solver.
Qed.

Lemma on_task_head id f t rest : on_task id f (t :: rest) =
  (if bool_decide (m_taskID t = id) then f t else t) :: on_task id f rest.
Proof. done. Qed.

(** Of the tasks in the queue only the first has jobs on the stack. *)
Definition front_runs (q : PackageTaskQueue) : Prop :=
  NoDup (m_taskID <$> m_taskQueue q) /\
  forall id, id ∈ (running q).*1 -> id ∈ m_taskID <$> m_taskQueue q -> head (m_taskID <$> m_taskQueue q) = Some id.

Lemma front_runs_ids q ids n running' : front_runs q -> m_taskID <$> ids = m_taskID <$> m_taskQueue q -> running'.*1 = (running q).*1 ->
  front_runs (mkQueue ids n running').
Proof. unfold front_runs. cbn [m_taskQueue running]. intros [Hd Hf] -> ->. by split. Qed.

Lemma front_runs_step q q' : front_runs q -> queue_step q q' -> front_runs q'.
Proof.
  intros Hq Hs. destruct Hs as [q id refs _ Hn Hr|q n _ Hp Hst|q n id _ Hp Hst|q id rest c Hrun Hin Hc|q id rest Hrun|q id rest Hrun|q id _|q id rest Hrun Hin].
  - destruct Hq as [Hd Hf]. split; cbn [m_taskQueue running addNewTask]; rewrite fmap_app.
    + apply NoDup_app. split_and!; [done| |apply NoDup_singleton]. intros x Hx ->%list_elem_of_singleton. done.
    + intros x Hx [Hin|Hin]%elem_of_app; [|apply list_elem_of_singleton in Hin as ->; by destruct Hr].
      specialize (Hf x Hx Hin). by destruct (m_taskID <$> m_taskQueue q).
  - by apply (front_runs_ids q).
  - destruct Hq as [Hd Hf]. split; [done|]. cbn [m_taskQueue running]. rewrite fmap_cons. intros x [->|Hx]%elem_of_cons Hin; [|by apply Hf].
    unfold startTask in Hst. destruct (m_taskQueue q) as [|t tl]; [done|]. destruct (negb _); [done|]. by injection Hst as <-.
  - apply (front_runs_ids q); [done| |done]. apply on_task_ids. intros. apply call_id.
  - apply (front_runs_ids q); [done..|]. by rewrite Hrun.
  - apply (front_runs_ids q); [done..|]. by rewrite Hrun.
  - apply (front_runs_ids q); [done| |done]. apply on_task_ids. intros. apply (call_id CallCancel).
  - destruct Hq as [Hd Hf]. rewrite Hrun in Hf. rewrite fmap_cons in Hf. pose proof (Hf id ltac:(left) Hin) as Hh.
    unfold taskDone. cbn [m_taskQueue posted running]. destruct (m_taskQueue q) as [|t tl] eqn:Eq; [done|]. injection Hh as <-.
    cbn [find_task erase_task]. rewrite bool_decide_true by done. rewrite fmap_cons in Hd. apply NoDup_cons in Hd as [Hnt Hd].
    split; cbn [m_taskQueue running]; [done|]. intros x Hx Hxl. pose proof (Hf x ltac:(by right) ltac:(by right)) as Hhx.
    cbn in Hhx. injection Hhx as <-. done.
Qed.

(** At most one job runs. *)
Definition one_job (q : PackageTaskQueue) : Prop :=
  running q = [] \/ exists t rest waits, m_taskQueue q = t :: rest /\ running q = [(m_taskID t, waits)].

Lemma one_job_head q f n : one_job q -> (forall t, m_taskID (f t) = m_taskID t) -> forall id,
  one_job (mkQueue (on_task id f (m_taskQueue q)) n (running q)).
Proof.
  intros [Hr|(t & rest & w & E & Hr)] Hf id; [by left|right]. cbn [m_taskQueue running]. rewrite E, on_task_head.
  eexists _, _, w. split; [done|]. rewrite Hr. case_bool_decide; by rewrite ?Hf.
Qed.

Lemma one_job_step q q' : patient q -> one_job q -> queue_step q q' -> one_job q'.
Proof.
  intros Hp Hq Hs. destruct Hs as [q id refs Hl Hn Hr|q n Hl Hpo Hst|q n id Hl Hpo Hst|q id rest c Hrun Hin Hc|q id rest Hrun|q id rest Hrun|q id Hl|q id rest Hrun Hin].
  - destruct Hq as [Hq|(t & rest & w & E & Hq)]; [by left|right]. cbn [addNewTask m_taskQueue running]. rewrite E. by eexists t, _, w.
  - exact Hq.
  - right. cbn [m_taskQueue running]. unfold startTask in Hst. destruct (m_taskQueue q) as [|t tl] eqn:E; [done|].
    destruct (bool_decide_reflect (m_state t = Queued)) as [Eq|]; [|done]. injection Hst as <-.
    destruct Hq as [->|(t' & rest & w & E' & Hq)]; [by exists t, tl, false|]. rewrite E in E'. injection E' as <- <-.
    exfalso. unfold in_loop in Hl. rewrite Hq in Hl. subst w. apply (Hp (m_taskID t) t); [rewrite Hq; left|rewrite E; left|done|done].
  - apply (one_job_head q (fun t => fst (call c t))); [done|]. intros. apply call_id.
  - destruct Hq as [Hq|(t & tl & w & E & Hq)]; [congruence|right]. rewrite Hrun in Hq. injection Hq as -> <- ->. by exists t, tl, true.
  - destruct Hq as [Hq|(t & tl & w & E & Hq)]; [congruence|right]. rewrite Hrun in Hq. injection Hq as -> <- ->. by exists t, tl, false.
  - apply (one_job_head q (fun t => fst (Cancel t))); [done|]. intros. apply (call_id CallCancel).
  - left. destruct Hq as [Hq|(t & tl & w & E & Hq)]; [congruence|]. rewrite Hrun in Hq. injection Hq as _ _ ->.
    unfold taskDone. cbn [m_taskQueue]. by destruct (find_task _ _).
Qed.

(** C3: whatever is added, started, cancelled and done, the ids of the tasks in the
    queue differ and only the first of these tasks has jobs on the stack: nothing
    starts before its turn.  As long as no job waits for the user while its task
    is still queued, at most one job is on the stack. *)
Theorem queue_exclusive P q : queue_steps P empty_queue q ->
  NoDup (m_taskID <$> m_taskQueue q) /\
  (forall id, id ∈ (running q).*1 -> id ∈ m_taskID <$> m_taskQueue q -> head (m_taskID <$> m_taskQueue q) = Some id) /\
  ((forall q, P q -> patient q) ->
   running q = [] \/ exists t rest waits, m_taskQueue q = t :: rest /\ running q = [(m_taskID t, waits)]).
Proof.
  intros Hs. remember empty_queue as q0 eqn:E0.
  assert (Hf : front_runs q).
  { induction Hs as [q|q q1 q2 _ IH Hs _]; subst; [split; [constructor|by intros ? ?%elem_of_nil]|by eapply front_runs_step; eauto]. }
  split_and!; [apply Hf..|]. intros HP. change (one_job q).
  assert (Hlast : forall q0 q, queue_steps P q0 q -> P q) by (by destruct 1).
  induction Hs as [q|q q1 q2 Hs1 IH Hs _]; subst; [by left|]. eapply one_job_step; [by eapply HP, Hlast| |exact Hs].
  apply IH; [done|]. clear -Hs1. remember empty_queue as q0 eqn:E0.
  induction Hs1 as [q|q q1 q2 _ IH Hs _]; subst; [split; [constructor|by intros ? ?%elem_of_nil]|by eapply front_runs_step; eauto].
Qed.

(** A task that is cancelled while it waits stays in the queue, and when it is
    the first one, nothing runs any more: no later event starts a job. *)
Theorem cancelled_blocks P q q' t rest : queue_steps P q q' ->
  m_taskQueue q = t :: rest -> m_state t <> Queued -> running q = [] ->
  running q' = [] /\ exists t' rest', m_taskQueue q' = t' :: rest' /\ m_taskID t' = m_taskID t /\ m_state t' <> Queued.
Proof.
  intros H E Ht Hr. induction H as [q|q q1 q2 H IH Hs _]; [by split; [|exists t, rest]|].
  destruct (IH E Hr) as (Hr1 & t1 & rest1 & E1 & Hid & Hq). clear IH.
  destruct Hs as [q1 id refs _ Hn _|q1 n _ Hp Hst|q1 n id _ Hp Hst|q1 id rest' c Hrun _ Hc|q1 id rest' Hrun|q1 id rest' Hrun|q1 id _|q1 id rest' Hrun _];
    try congruence.
  - split; [done|]. cbn. rewrite E1. cbn. eauto.
  - split; [done|]. cbn. eauto.
  - unfold startTask in Hst. rewrite E1, bool_decide_false in Hst by done. done.
  - split; [done|]. cbn [m_taskQueue]. rewrite E1, on_task_head. eexists _, _. split; [done|].
    case_bool_decide; [|done]. split; [rewrite <- Hid; apply (call_id CallCancel)|].
    by apply (call_not_queued CallCancel).
Qed.

(** ** Concrete tasks *)

Definition example_task : PackageTask := fst (updateSubState InstallBase (new_task (lit "t1") [lit "demo"])).

Lemma updateTask_progress_witness :
  (0 <= 3 /\ 3 <= 7 /\ 7 <= 10) /\
  (getPercentage (fst (updateTask 3 10 example_task)) <= getPercentage (fst (updateTask 7 10 example_task)))%Q.
Proof.
  split; [lia|].
  exact (proj1 (proj2 (updateTask_progress example_task 3 7 10 ltac:(lia) ltac:(lia) ltac:(lia) ltac:(lia) eq_refl))).
Defined.

Lemma temporary_task_succeeds_witness :
  Failed <> PartCompleted /\ m_state (fst (updateState Failed None (createTemporaryTask (lit "t")))) = Succeed.
Proof. split; [discriminate|]. exact (proj1 (temporary_task_succeeds (lit "t") Failed None ltac:(discriminate))). Defined.

(** Two tasks are added, the first runs and waits while the second is cancelled,
    the first ends. *)
Definition queue_a : PackageTaskQueue := addNewTask (new_task (lit "b") [lit "y"]) (addNewTask (new_task (lit "a") [lit "x"]) empty_queue).
Definition start_a (waits : bool) : PackageTaskQueue := mkQueue (m_taskQueue queue_a) 1 [(lit "a", waits)].
Definition queue_b (waits : bool) : PackageTaskQueue :=
  mkQueue (on_task (lit "a") (fun t => fst (call (CallState Processing None) t)) (m_taskQueue queue_a)) 1 [(lit "a", waits)].
Definition queue_c (waits : bool) : PackageTaskQueue :=
  mkQueue (on_task (lit "b") (fun t => fst (Cancel t)) (m_taskQueue (queue_b true))) 1 [(lit "a", waits)].
Definition queue_d : PackageTaskQueue := taskDone (lit "a") (mkQueue (m_taskQueue (queue_c false)) 1 []).

Lemma queue_a_reachable (P : PackageTaskQueue -> Prop) :
  (forall q, running q = [] -> P q) -> P (start_a false) -> queue_steps P empty_queue (start_a false).
Proof.
  intros HP Ha. apply (qs_step P _ queue_a); [|by apply (q_start queue_a 1 (lit "a"))|exact Ha].
  apply (qs_step P _ (addNewTask (new_task (lit "a") [lit "x"]) empty_queue)); [|apply q_add; [done| |apply not_elem_of_nil]|by apply HP].
  - apply (qs_step P _ empty_queue); [by apply qs_refl, HP| |by apply HP]. by apply q_add; [|apply not_elem_of_nil..].
  - apply (bool_decide_unpack _). by vm_compute.
Qed.

Definition patient_b (q : PackageTaskQueue) : bool :=
  forallb (fun r => negb r.2 || forallb (fun t => negb (bool_decide (m_taskID t = r.1)) || negb (bool_decide (m_state t = Queued)))
    (m_taskQueue q)) (running q).

Lemma patient_check q : patient_b q = true -> patient q.
Proof.
  unfold patient_b. rewrite forallb_forall. intros Hq id t Hin%list_elem_of_In Ht%list_elem_of_In Eid Es.
  apply Hq in Hin. cbn in Hin. rewrite forallb_forall in Hin. apply Hin in Ht. rewrite !bool_decide_true in Ht by done. done.
Qed.

Lemma queue_d_reachable : queue_steps patient empty_queue queue_d.
Proof.
  assert (Hin : forall q, In (lit "a") (m_taskID <$> m_taskQueue q) -> lit "a" ∈ m_taskID <$> m_taskQueue q) by (intros q; apply list_elem_of_In).
  apply (qs_step _ _ (queue_c false)); [|apply (q_finish (queue_c false) (lit "a") []); [done|apply Hin; by left]|by apply patient_check].
  apply (qs_step _ _ (queue_c true)); [|by apply (q_resume (queue_c true) (lit "a") [])|by apply patient_check].
  apply (qs_step _ _ (queue_b true)); [|by apply (q_cancel (queue_b true) (lit "b"))|by apply patient_check].
  apply (qs_step _ _ (queue_b false)); [|by apply (q_wait (queue_b false) (lit "a") [])|by apply patient_check].
  apply (qs_step _ _ (start_a false)); [|apply (q_job (start_a false) (lit "a") [] (CallState Processing None)); [done|apply Hin; by left|done]|by apply patient_check].
  apply queue_a_reachable; [|by apply patient_check]. intros q Hr id t Hw. rewrite Hr in Hw. by apply elem_of_nil in Hw.
Qed.

Lemma queue_exclusive_witness :
  queue_steps patient empty_queue queue_d /\
  (running queue_d = [] \/ exists t rest waits, m_taskQueue queue_d = t :: rest /\ running queue_d = [(m_taskID t, waits)]).
Proof.
  split; [exact queue_d_reachable|].
  exact (proj2 (proj2 (queue_exclusive patient _ queue_d_reachable)) (fun q Hq => Hq)).
Defined.

(** A job that asks the user before it changes its task is started again when the
    next task is added: both runs are on the stack. *)
Theorem queued_job_starts_again :
  queue_steps (fun _ => True) empty_queue (mkQueue (m_taskQueue queue_a) 0 [(lit "a", false); (lit "a", true)]).
Proof.
  apply (qs_step _ _ (start_a true)); [|by apply (q_start (start_a true) 0 (lit "a"))|done].
  apply (qs_step _ _ (start_a false)); [|by apply (q_wait (start_a false) (lit "a") [])|done].
  by apply queue_a_reachable.
Qed.

Lemma cancelled_blocks_witness :
  (posted queue_d = 2%nat /\ running queue_d = []) /\
  running (mkQueue (m_taskQueue queue_d) 1 []) = [].
Proof.
  split; [split; reflexivity|].
  exact (proj1 (cancelled_blocks (fun _ => True) queue_d (mkQueue (m_taskQueue queue_d) 1 [])
    (fst (Cancel (new_task (lit "b") [lit "y"]))) []
    (qs_step _ _ _ _ (qs_refl _ queue_d I) (q_start_none queue_d 1 eq_refl eq_refl eq_refl) I) eq_refl ltac:(discriminate) eq_refl)).
Defined.
