(* ===== verification/JobQueue.v ===== *)
(** * The queue of prune jobs ([class JobQueue] of [package_manager.h])

    Jobs run one at a time on the event loop: [runTask] appends a job and, when
    no run is under way, posts a call of [run]; [run] takes the first job,
    executes it and posts the next call.  A posted call is a pending event; a
    job may itself call [runTask]. *)
From S2P Require Import Prelude.

Section job_queue.
(** A job and the jobs it hands to the queue while it is executed. *)
Variable job : Type.
Variable spawns : job -> list job.

Record JobQueue := mkJobs {
  runningJobsCount : Z;
  runningJobsMax : Z;
  taskList : list job;
  events : nat;
  executed : list job
}.

Definition new_queue : JobQueue := mkJobs 0 1 [] 0 [].

Definition runTask (func : job) (q : JobQueue) : JobQueue :=
  let q := mkJobs (runningJobsCount q) (runningJobsMax q) (taskList q ++ [func]) (events q) (executed q) in
  if runningJobsCount q <? runningJobsMax q
  then mkJobs (u32 (runningJobsCount q + 1)) (runningJobsMax q) (taskList q) (S (events q)) (executed q)
  else q.

Definition execute (func : job) (q : JobQueue) : JobQueue :=
  fold_left (fun q f => runTask f q) (spawns func)
    (mkJobs (runningJobsCount q) (runningJobsMax q) (taskList q) (events q) (executed q ++ [func])).

(** The body of [run]. *)
Definition run (q : JobQueue) : JobQueue :=
  match taskList q with
  | [] => mkJobs (u32 (runningJobsCount q - 1)) (runningJobsMax q) [] (events q) (executed q)
  | func :: rest =>
      let q := execute func (mkJobs (runningJobsCount q) (runningJobsMax q) rest (events q) (executed q)) in
      if (0 <? length (taskList q))%nat
      then mkJobs (runningJobsCount q) (runningJobsMax q) (taskList q) (S (events q)) (executed q)
      else mkJobs (u32 (runningJobsCount q - 1)) (runningJobsMax q) (taskList q) (events q) (executed q)
  end.

(** What the event loop and the callers do. *)
Inductive job_step : JobQueue -> JobQueue -> Prop :=
| step_add q f : job_step q (runTask f q)
| step_event q n : events q = S n ->
    job_step q (run (mkJobs (runningJobsCount q) (runningJobsMax q) (taskList q) n (executed q))).

Inductive job_reachable : JobQueue -> Prop :=
| job_start : job_reachable new_queue
| job_next q q' : job_reachable q -> job_step q q' -> job_reachable q'.

(** One call of [run] is pending exactly while there are jobs. *)
Definition queue_inv (q : JobQueue) : Prop :=
  runningJobsMax q = 1 /\
  match taskList q with
  | [] => runningJobsCount q = 0 /\ events q = 0%nat
  | _ => runningJobsCount q = 1 /\ events q = 1%nat
  end.

(** While the count is one, adding a job only appends it. *)
Lemma runTask_busy l e ts d :
  fold_left (fun q f => runTask f q) l (mkJobs 1 1 ts e d) = mkJobs 1 1 (ts ++ l) e d.
Proof.
  revert ts. induction l as [|f l IH]; intros ts; cbn [fold_left]; [by rewrite app_nil_r|].
  unfold runTask at 2. cbn. rewrite IH. by rewrite <- app_assoc.
Qed.

(** The effect of handling the pending event. *)
Lemma run_busy f rest d :
  run (mkJobs 1 1 (f :: rest) 0 d) =
  match rest ++ spawns f with
  | [] => mkJobs 0 1 [] 0 (d ++ [f])
  | l => mkJobs 1 1 l 1 (d ++ [f])
  end.
Proof.
  unfold run, execute. cbn [taskList runningJobsCount runningJobsMax events executed].
  rewrite runTask_busy. cbn [taskList runningJobsCount runningJobsMax events executed].
  by destruct (rest ++ spawns f).
Qed.

Lemma reachable_inv q : job_reachable q -> queue_inv q.
Proof.
  induction 1 as [|q q' _ [Hm Hq] Hs]; [done|]. destruct Hs as [q f|q n He].
  - destruct q as [c mx ts ev d]. unfold runTask. cbn in *. subst mx.
    destruct ts as [|t ts]; destruct Hq as [-> ->]; done.
  - destruct q as [c mx ts ev d]. cbn in *. subst mx.
    destruct ts as [|f rest]; destruct Hq as [-> Hev]; [congruence|].
    assert (n = 0%nat) as -> by congruence. rewrite run_busy.
    by destruct (rest ++ spawns f).
Qed.

(** [n] rounds of the event loop. *)
Fixpoint rounds (n : nat) (q : JobQueue) : JobQueue :=
  match n with
  | O => q
  | S n' =>
      match events q with
      | O => q
      | S e => rounds n' (run (mkJobs (runningJobsCount q) (runningJobsMax q) (taskList q) e (executed q)))
      end
  end.

(** C33: every job that was handed to the queue is executed, in the order of the
    calls: the [i]-th waiting job has been executed after [i + 1] rounds of the
    event loop, whatever the jobs before it add to the queue; and at no time is
    more than one call of [run] pending. *)
Theorem jobs_executed q i f :
  job_reachable q -> taskList q !! i = Some f ->
  (events q <= 1)%nat /\ executed (rounds (S i) q) = executed q ++ take (S i) (taskList q).
Proof.
  intros Hr Hi. pose proof (reachable_inv q Hr) as Hq. clear Hr. revert q Hi Hq.
  induction i as [|i IH]; intros [c mx ts ev d] Hi [Hm Hq]; cbn in Hi, Hm, Hq; subst mx;
    destruct ts as [|g rest]; try done; destruct Hq as [-> ->]; (split; [done|]).
  - cbn [rounds events runningJobsCount runningJobsMax taskList executed]. rewrite run_busy.
    by destruct (rest ++ spawns g).
  - cbn [rounds events runningJobsCount runningJobsMax taskList executed]. rewrite run_busy.
    destruct rest as [|h rest]; [done|]. cbn [app].
    destruct (IH (mkJobs 1 1 (h :: rest ++ spawns g) 1 (d ++ [g]))) as [_ E].
    + cbn [taskList]. change (((h :: rest) ++ spawns g) !! i = Some f).
      rewrite lookup_app_l; [done|]. by eapply lookup_lt_Some.
    + done.
    + cbn [rounds] in E. rewrite E. cbn [executed taskList]. rewrite <- app_assoc. cbn [app take].
      do 2 f_equal. apply lookup_lt_Some in Hi. cbn in Hi. f_equal.
      rewrite take_app_le by lia. done.
Qed.

End job_queue.

Lemma jobs_executed_witness :
  let spawn (n : nat) := if bool_decide (n = 1%nat) then [7%nat] else [] in
  let q := runTask nat 2%nat (runTask nat 1%nat (new_queue nat)) in
  job_reachable nat spawn q /\ executed nat (rounds nat spawn 2 q) = [1%nat; 2%nat].
Proof.
  intros spawn q.
  assert (Hr : job_reachable nat spawn q).
  { eapply job_next; [|apply step_add]. eapply job_next; [apply job_start|apply step_add]. }
  split; [exact Hr|]. exact (proj2 (jobs_executed nat spawn q 1 2%nat Hr eq_refl)).
Defined.
