(* ===== verification/PackageManager.v ===== *)
(** * The package manager ([package_manager/package_manager.cpp])

    What the D-Bus methods [Install], [InstallFromFile], [Uninstall] and [Update]
    decide before they queue a job, and which packages count as in use.  The
    parameters are the parsed records; a method answers with an error code or
    with the job it queues. *)
From S2P Require Import Prelude Qt Types Semver Version Reference RepoConfig RepoCache.
From S2P Require Import OstreeRepo Prune.

(** ** Error codes *)

Definition ec_AppInstallModuleNoVersion : Z := 2005.
Definition ec_AppInstallModuleRequireAppFirst : Z := 2006.
Definition ec_AppInstallModuleAlreadyExists : Z := 2007.
Definition ec_AppInstallModuleNotFound : Z := 2009.
Definition ec_AppUninstallFailed : Z := 2101.
Definition ec_AppUninstallNotFoundFromLocal : Z := 2102.
Definition ec_AppUninstallAppIsRunning : Z := 2103.
Definition ec_AppUninstallMultipleVersions : Z := 2105.
Definition ec_AppUninstallBaseOrRuntime : Z := 2106.
Definition ec_AppUpgradeFailed : Z := 2201.
Definition ec_AppUpgradeNotFound : Z := 2202.
Definition ec_AppUpgradeLatestInstalled : Z := 2203.

(** ** Running containers *)

Record ContainerProcessStateInfo := mkContainer {
  ct_app : str;
  ct_base : str;
  ct_containerID : str;
  ct_extensions : option (list str);
  ct_runtime : option str
}.

(** The entries of [/run/linglong/<user>]: is it a regular file, does
    [/proc/<name>] exist, what does the file hold. *)
Record process_entry := mkProcess {
  pr_regular : bool;
  pr_exists : result bool;
  pr_load : result ContainerProcessStateInfo
}.

(** The entries of [/run/linglong]. *)
Record user_entry := mkUser {
  us_directory : bool;
  us_entries : result (list process_entry)
}.

Fixpoint read_processes (l : list process_entry) : result (list ContainerProcessStateInfo) :=
  match l with
  | [] => Ok []
  | p :: rest =>
      if negb (pr_regular p) then read_processes rest
      else
        match pr_exists p with
        | Err _ => Err err_default
        | Ok false => read_processes rest
        | Ok true =>
            match pr_load p with
            | Err _ => Err err_default
            | Ok info => infos <-r read_processes rest ;; Ok (info :: infos)
            end
        end
  end.

Fixpoint read_users (l : list user_entry) : result (list ContainerProcessStateInfo) :=
  match l with
  | [] => Ok []
  | u :: rest =>
      if negb (us_directory u) then read_users rest
      else
        match us_entries u with
        | Err _ => Err err_default
        | Ok entries =>
            infos <-r read_processes entries ;;
            more <-r read_users rest ;;
            Ok (infos ++ more)
        end
  end.

Definition getAllRunningContainers (run : result (list user_entry)) : result (list ContainerProcessStateInfo) :=
  match run with
  | Err _ => Err err_default
  | Ok users => read_users users
  end.

(** ** The lock of the repository *)

(** The descriptor the manager remembers and all its open descriptors of the
    lock file. *)
Record lock_state := mkLock {
  lockFd : option Z;
  open_fds : list Z
}.

(** The answers of [open], of [fcntl(F_WRLCK)] and of [fcntl(F_UNLCK)]. *)
Record lock_env := mkLockEnv {
  le_open : option Z;
  le_lock : bool;
  le_unlock : bool
}.

Definition lockRepo (e : lock_env) (st : lock_state) : lock_state * result unit :=
  match le_open e with
  | None => (mkLock None (open_fds st), Err err_default)
  | Some fd =>
      let st := mkLock (Some fd) (fd :: open_fds st) in
      if negb (le_lock e) then (st, Err err_default) else (st, Ok tt)
  end.

Definition unlockRepo (e : lock_env) (st : lock_state) : lock_state * result unit :=
  match lockFd st with
  | None => (st, Ok tt)
  | Some fd =>
      if negb (le_unlock e) then (st, Err err_default)
      else (mkLock None (List.filter (fun d => negb (d =? fd)) (open_fds st)), Ok tt)
  end.

(** ** Packages in use *)

Definition info_uses (refStr : str) (info : ContainerProcessStateInfo) : bool :=
  if bool_decide (ct_app info = refStr) || bool_decide (ct_base info = refStr) then true
  else if (match ct_runtime info with Some r => bool_decide (r = refStr) | None => false end) then true
  else match ct_extensions info with
       | Some l => existsb (fun extension => bool_decide (extension = refStr)) l
       | None => false
       end.

Definition isRefBusy (e : lock_env) (run : result (list user_entry)) (ref : Reference) (st : lock_state)
    : lock_state * result bool :=
  match lockRepo e st with
  | (st, Err _) => (st, Err err_default)
  | (st, Ok _) =>
      let r := match getAllRunningContainers run with
               | Err _ => Err err_default
               | Ok runningRef => Ok (existsb (info_uses (ref_toString ref)) runningRef)
               end in
      (fst (unlockRepo e st), r)
  end.

(** ** Requests *)

Record PackageManager1Package := mkPkg {
  pk_channel : option str;
  pk_id : str;
  pk_module : option str;
  pk_version : option str
}.

Record InstallParameters := mkInstall {
  ip_force : bool;
  ip_skipInteraction : bool;
  ip_channel : option str;
  ip_id : str;
  ip_modules : option (list str);
  ip_version : option str;
  ip_repo : option str
}.

Definition fuzzyReferenceFromPackage (pkg : PackageManager1Package) : result FuzzyReference :=
  fuzzy_create (pk_channel pkg) (pk_id pkg) (pk_version pkg) None.

(** The jobs that are queued, with what they captured. *)
Inductive job :=
| InstallModule (fuzzy : FuzzyReference) (module : str) (repo : option str)
| InstallApp (remoteRef : Reference) (localRef : option Reference) (modules : list str)
    (skipInteraction upgrade : bool) (originalRepo : Repo)
| InstallFile (packageRef : Reference) (localRef : option Reference) (module : str)
    (skipInteraction upgrade : bool)
| UninstallApp (mainRef : Reference) (module : str)
| UpdateApps (upgrades : list (Reference * ReferenceWithRepo)).

Inductive reply :=
| Refuse (code : Z)
| AddTask (refs : list str) (j : job).

Section package_manager.
Context `{Client} `{Qt} `{StdSort} `{Json} `{Yaml}.
Variable curArch : result Architecture.
Variable repoDir : str.
Variable dir_exists : str -> bool.

(** [{ .fallbackToRemote = false }] *)
Definition local_only : clearReferenceOption := mkClearOpt false false false.

Definition find_installed (s : OSTreeRepo) (fuzzy : FuzzyReference) : result Reference :=
  snd (clearReference curArch s fuzzy local_only (lit "binary") None).

Definition set_cfg (c : RepoConfigV2) (s : OSTreeRepo) : OSTreeRepo :=
  mkOR c (yaml_files s) (remotes s) (server s) (rcache s).

Definition refSpec_of (repo : str) (ref : Reference) (module : str) : str :=
  repo ++ lit ":" ++ ref_channel ref ++ lit "/" ++ ref_id ref ++ lit "/" ++
  arch_toStdString (ref_arch ref) ++ lit "/" ++ module.

(** *** [Install] *)

(** The package to install: from the repository that is asked for, whose
    priority is raised for the search, or from those of the highest priority. *)
Definition search_remote (s : OSTreeRepo) (fuzzy : FuzzyReference) (repo : option str) (module : str)
    : OSTreeRepo * result ReferenceWithRepo :=
  match repo with
  | None => getRemoteReferenceByPriority curArch s fuzzy (mkPriorityOpt false false) module
  | Some alias =>
      match promotePriority (cfg s) alias with
      | None => (s, Err terminated)
      | Some (c, originalPriority) =>
          let '(s, r) := getRemoteReferenceByPriority curArch (set_cfg c s) fuzzy (mkPriorityOpt true false) module in
          match recoverPriority (cfg s) alias originalPriority with
          | None => (s, Err terminated)
          | Some c => (set_cfg c s, r)
          end
      end
  end.

(** The comparison with the installed version: a refusal, or whether the
    installation is an upgrade.  [already] and [downgrade] are the codes the
    callers refuse with. *)
Definition weigh (already downgrade : Z) (force : bool) (local : option Reference) (ref : Reference) : result bool :=
  match local with
  | None => Ok false
  | Some localRef =>
      if ver_eq (ref_version ref) (ref_version localRef) then Err already
      else if ver_gt (ref_version ref) (ref_version localRef) then Ok true
      else if negb force then Err downgrade
      else Ok false
  end.

Definition only_module (p : InstallParameters) : str :=
  match ip_modules p with Some [m] => m | _ => lit "binary" end.

Definition Install (s : OSTreeRepo) (p : InstallParameters) : OSTreeRepo * reply :=
  match fuzzyReferenceFromPackage (mkPkg (ip_channel p) (ip_id p) None (ip_version p)) with
  | Err _ => (s, Refuse ec_AppInstallFailed)
  | Ok fuzzyRef =>
      let curModule := only_module p in
      let modules := default [curModule] (ip_modules p) in
      if negb (bool_decide (curModule = lit "binary")) then
        if bool_decide (is_Some (fz_version fuzzyRef)) then (s, Refuse ec_AppInstallModuleNoVersion)
        else (s, AddTask [fuzzy_toString fuzzyRef] (InstallModule fuzzyRef curModule (ip_repo p)))
      else
        match (if bool_decide (is_Some (fz_version fuzzyRef)) then logged (find_installed s fuzzyRef)
               else Ok None) with
        | Err c => (s, Refuse c)
        | Ok (Some _) => (s, Refuse ec_AppInstallAlreadyInstalled)
        | Ok None =>
            let any := mkFuzzy (fz_channel fuzzyRef) (fz_id fuzzyRef) None (fz_arch fuzzyRef) in
            match logged (find_installed s any) with
            | Err c => (s, Refuse c)
            | Ok localRef =>
                match search_remote s fuzzyRef (ip_repo p) curModule with
                | (s, Err c) =>
                    (s, Refuse (if c =? ec_AppNotFoundFromRemote then ec_AppInstallNotFoundFromRemote else c))
                | (s, Ok (repo, remoteRef)) =>
                    match weigh ec_AppInstallAlreadyInstalled ec_AppInstallNeedDowngrade (ip_force p)
                            localRef remoteRef with
                    | Err c => (s, Refuse c)
                    | Ok upgrade =>
                        (s, AddTask [refSpec_of (r_name repo) remoteRef curModule]
                              (InstallApp remoteRef localRef modules (ip_skipInteraction p) upgrade repo))
                    end
                end
            end
        end
  end.

(** The beginning of the job of a single module: what it installs, or the error
    it reports. *)
Definition install_module_job (s : OSTreeRepo) (fuzzy : FuzzyReference) (module : str) (repo : option str)
    : result (Reference * list str * option Repo) :=
  match find_installed s fuzzy with
  | Err c => Err (if c =? terminated then terminated else ec_AppInstallModuleRequireAppFirst)
  | Ok localRef =>
      if include (getModuleList (rcache s) localRef) module then Err ec_AppInstallModuleAlreadyExists
      else
        match repo with
        | None => Ok (localRef, [module], None)
        | Some alias =>
            match getRepoByAlias (cfg s) alias with
            | Err c => Err c
            | Ok remoteRepo => Ok (localRef, [module], Some remoteRepo)
            end
        end
  end.

(** *** [installFromLayer] and [installFromUAB] *)

(** What both decide from the record of the package: for a layer file the record
    it carries, for a bundle the record of its application layer.  [valid]: the
    directory of an installed layer holds a package. *)
Definition install_package (s : OSTreeRepo) (packageInfo : PackageInfoV2) (force skipInteraction : bool)
    (valid : str -> bool) : reply :=
  match pi_arch packageInfo with
  | [] => Refuse terminated
  | arch0 :: _ =>
      match arch_parse arch0, curArch with
      | Err c, _ => Refuse c
      | Ok _, Err c => Refuse c
      | Ok architecture, Ok currentArch =>
          if negb (bool_decide (architecture = currentArch)) then Refuse (-1)
          else
            match version_parse (pi_version packageInfo) default_options with
            | Err c => Refuse c
            | Ok _ =>
                match ref_fromPackageInfo packageInfo with
                | Err c => Refuse c
                | Ok packageRef =>
                    match fuzzy_parse (ref_id packageRef) with
                    | Err c => Refuse c
                    | Ok fuzzyRef =>
                        match logged (find_installed s fuzzyRef) with
                        | Err c => Refuse c
                        | Ok localRef =>
                            let installed :=
                              match localRef with
                              | Some l =>
                                  match (layer <-r getLayerItem (cfg s) (rcache s) l (packageInfoV2Module packageInfo) None ;;
                                         getLayerDir repoDir dir_exists layer) with
                                  | Ok dir => valid dir
                                  | Err _ => false
                                  end
                              | None => false
                              end in
                            match weigh (-1) (-1) force (if installed then localRef else None) packageRef with
                            | Err c => Refuse c
                            | Ok upgrade =>
                                AddTask [refSpec_of (lit "local") packageRef (packageInfoV2Module packageInfo)]
                                  (InstallFile packageRef localRef (packageInfoV2Module packageInfo) skipInteraction upgrade)
                            end
                        end
                    end
                end
            end
      end
  end.

(** *** [Uninstall] *)

(** The loop over the layers that match: the first main layer with a valid
    record, its kind, and how many main layers there are. *)
Fixpoint main_layers (l : list RepositoryCacheLayersItem) (mainRef : option (Reference * str)) (count : Z)
    : result (option (Reference * str) * Z) :=
  match l with
  | [] => Ok (mainRef, count)
  | item :: rest =>
      if main_module (l_info item) then
        match mainRef with
        | Some _ => main_layers rest mainRef (count + 1)
        | None =>
            ref <-r logged (ref_fromPackageInfo (l_info item)) ;;
            main_layers rest (match ref with Some r => Some (r, pi_kind (l_info item)) | None => None end) (count + 1)
        end
      else main_layers rest mainRef count
  end.

Definition Uninstall (s : OSTreeRepo) (e : lock_env) (run : result (list user_entry)) (st : lock_state)
    (p : PackageManager1Package) : lock_state * reply :=
  let query := mkQuery (Some (pk_id p)) None (pk_channel p) (pk_version p) None None None in
  let candidate := queryLayerItem (rcache s) query in
  match main_layers candidate None 0 with
  | Err c => (st, Refuse c)
  | Ok (mainRef, count) =>
      let mainKind := match mainRef with Some (_, k) => k | None => [] end in
      if bool_decide (mainKind = lit "base") || bool_decide (mainKind = lit "runtime")
      then (st, Refuse ec_AppUninstallBaseOrRuntime)
      else
        match mainRef with
        | None => (st, Refuse ec_AppUninstallNotFoundFromLocal)
        | Some (mainRef, _) =>
            if 1 <? count then (st, Refuse ec_AppUninstallMultipleVersions)
            else
              match isRefBusy e run mainRef st with
              | (st, Err _) => (st, Refuse ec_AppUninstallFailed)
              | (st, Ok true) => (st, Refuse ec_AppUninstallAppIsRunning)
              | (st, Ok false) =>
                  let curModule := default (lit "binary") (pk_module p) in
                  match getDefaultRepo (cfg s) with
                  | None => (st, Refuse terminated)
                  | Some defaultRepo =>
                      (st, AddTask [refSpec_of (r_name defaultRepo) mainRef curModule]
                             (UninstallApp mainRef curModule))
                  end
              end
        end
  end.

(** *** [Update] *)

(** [upgrades.emplace]: the first entry of a key stays. *)
Definition add_upgrade (ref : Reference) (new : ReferenceWithRepo) (l : list (Reference * ReferenceWithRepo))
    : list (Reference * ReferenceWithRepo) :=
  if existsb (fun x => same_key (fst x) ref) l then l else l ++ [(ref, new)].

Definition latestRemoteReference (s : OSTreeRepo) (fuzzyRef : FuzzyReference) : OSTreeRepo * result ReferenceWithRepo :=
  getRemoteReferenceByPriority curArch s (mkFuzzy (fz_channel fuzzyRef) (fz_id fuzzyRef) None (fz_arch fuzzyRef))
    (mkPriorityOpt false false) (lit "binary").

(** One package of the request: the installed reference and the newer one. *)
Definition find_upgrade (s : OSTreeRepo) (package : PackageManager1Package)
    : OSTreeRepo * result (Reference * ReferenceWithRepo) :=
  match fuzzyReferenceFromPackage package with
  | Err _ => (s, Err ec_AppUpgradeFailed)
  | Ok fuzzy =>
      match find_installed s fuzzy with
      | Err c => (s, Err (if c =? ec_AppNotFoundFromLocal then ec_AppUpgradeNotFound else c))
      | Ok ref =>
          match getLayerItem (cfg s) (rcache s) ref (lit "binary") None with
          | Err c => (s, Err (if c =? terminated then terminated else ec_AppUpgradeFailed))
          | Ok _ =>
              match latestRemoteReference s fuzzy with
              | (s, Err c) => (s, Err c)
              | (s, Ok newRef) =>
                  if ver_le (ref_version (snd newRef)) (ref_version ref)
                  then (s, Err ec_AppUpgradeLatestInstalled)
                  else (s, Ok (ref, newRef))
              end
          end
      end
  end.

Fixpoint find_upgrades (s : OSTreeRepo) (packages : list PackageManager1Package) (refSpecs : list str)
    (upgrades : list (Reference * ReferenceWithRepo)) : OSTreeRepo * reply :=
  match packages with
  | [] => (s, AddTask refSpecs (UpdateApps upgrades))
  | package :: rest =>
      match find_upgrade s package with
      | (s, Err c) => (s, Refuse c)
      | (s, Ok (ref, new)) =>
          find_upgrades s rest (refSpecs ++ [refSpec_of (r_name (fst new)) ref (lit "binary")])
            (add_upgrade ref new upgrades)
      end
  end.

Definition Update (s : OSTreeRepo) (packages : list PackageManager1Package) : OSTreeRepo * reply :=
  find_upgrades s packages [] [].

End package_manager.

(** ** The installed packages *)

Section installed_packages.
Context `{Client} `{Qt} `{StdSort} `{Json} `{Yaml}.
Variable curArch : result Architecture.

Abbreviation layers s := (rc_layers (cache (rcache s))).

(** Every record names a reference whose version compares. *)
Definition sound_records (s : OSTreeRepo) : Prop :=
  Forall (fun x => exists r, ref_fromPackageInfo (l_info x) = Ok r /\ parsed63 (ref_version r)) (layers s).

(** The references of an id with a layer that is not marked deleted. *)
Definition present (s : OSTreeRepo) (id : str) (r : Reference) : Prop :=
  exists x, x ∈ layers s /\ pi_id (l_info x) = id /\ default false (l_deleted x) = false /\
    ref_fromPackageInfo (l_info x) = Ok r.

Definition asks (version : option Version) (r : Reference) : Prop :=
  match version with Some v => ver_cmp (ref_version r) v = 0 | None => True end.

Lemma sound_comparable s : sound_records s -> comparable (layers s).
Proof.
  intros Hs. eapply Forall_impl; [exact Hs|]. intros x (r & Hr & Hp).
  apply fromPackageInfo_inv in Hr as [Hv _]. by exists (ref_version r).
Qed.

Lemma present_parsed s id r : sound_records s -> present s id r -> parsed63 (ref_version r).
Proof.
  unfold sound_records. rewrite Forall_forall. intros Hs (x & Hx & _ & _ & Hr).
  destruct (Hs x Hx) as (r' & Hr' & Hp). congruence.
Qed.

Lemma wanted_asks x r version : ref_fromPackageInfo (l_info x) = Ok r -> parsed63 (ref_version r) ->
  (forall v, version = Some v -> parsed63 v) ->
  wanted false version x = true <-> default false (l_deleted x) = false /\ asks version r.
Proof.
  intros (Hv & _)%fromPackageInfo_inv Hp Hq. unfold wanted, asks. rewrite Hv, andb_true_iff, negb_true_iff.
  destruct version as [v|]; [|tauto]. cbn [andb orb].
  destruct (ver_ops (ref_version r) v Hp (Hq v eq_refl)) as [_ ->]. by rewrite Z.eqb_eq.
Qed.

Lemma candidate_present s fuzzy version r : sound_records s -> (forall v, version = Some v -> parsed63 v) ->
  (exists x, x ∈ local_candidates (rcache s) fuzzy false version /\ ref_fromPackageInfo (l_info x) = Ok r) <->
  present s (fz_id fuzzy) r /\ asks version r.
Proof.
  intros Hs Hq. unfold local_candidates. split.
  - intros (x & Hx & Hr). rewrite list_elem_of_In, filter_In, <- list_elem_of_In, andb_true_iff in Hx.
    destruct Hx as (Hx & Hi & Hw). unfold same_id in Hi. apply bool_decide_eq_true in Hi.
    assert (Hp : parsed63 (ref_version r)).
    { unfold sound_records in Hs. rewrite Forall_forall in Hs. destruct (Hs x Hx) as (r' & Hr' & Hp). congruence. }
    apply (wanted_asks x r version Hr Hp Hq) in Hw as [Hd Ha]. split; [by exists x|done].
  - intros [Hpr Ha]. pose proof (present_parsed _ _ _ Hs Hpr) as Hp. destruct Hpr as (x & Hx & Hi & Hd & Hr).
    exists x. split; [|done]. rewrite list_elem_of_In, filter_In, <- list_elem_of_In, andb_true_iff.
    split; [done|]. split; [by apply bool_decide_eq_true|]. by apply (wanted_asks x r version Hr Hp Hq).
Qed.

(** A local search answers with a newest of the references present that have
    the version asked for. *)
Lemma find_installed_spec s fuzzy version : sound_records s -> arch_matches curArch fuzzy = Ok tt ->
  asked_version fuzzy = Ok version -> (forall v, version = Some v -> parsed63 v) ->
  match find_installed curArch s fuzzy with
  | Ok r => present s (fz_id fuzzy) r /\ asks version r /\
      forall r', present s (fz_id fuzzy) r' -> asks version r' -> ver_cmp (ref_version r') (ref_version r) <= 0
  | Err c => (c = ec_AppNotFoundFromLocal \/ c = ec_LayerCompatibilityError) /\
      forall r', present s (fz_id fuzzy) r' -> ~ asks version r'
  end.
Proof.
  intros Hs Ha Hv Hq. pose proof (sound_comparable s Hs) as Hc.
  unfold find_installed, clearReference. cbn [forceRemote fallbackToRemote semanticMatching local_only].
  destruct (decide (local_candidates (rcache s) fuzzy false version = [])) as [He|Hne].
  - rewrite (clearReferenceLocal_none _ _ _ _ version) by done. cbn [negb orb snd].
    split; [case_match; tauto|]. intros r' Hp Har.
    destruct (proj2 (candidate_present s fuzzy version r' Hs Hq) (conj Hp Har)) as (x & Hx & _).
    rewrite He in Hx. by apply not_elem_of_nil in Hx.
  - destruct (clearReferenceLocal_best curArch _ fuzzy false version Hc Ha Hv Hne) as (x & Hx & -> & Hbest).
    assert (Hr : exists r, ref_fromPackageInfo (l_info x) = Ok r /\ parsed63 (ref_version r)).
    { unfold sound_records in Hs. rewrite Forall_forall in Hs. apply Hs. unfold local_candidates in Hx.
      rewrite list_elem_of_In, filter_In, <- list_elem_of_In in Hx. tauto. }
    destruct Hr as (r & Hr & Hp). rewrite Hr. cbn [snd].
    destruct (proj1 (candidate_present s fuzzy version r Hs Hq)) as [Hpr Har]; [by exists x|].
    split_and!; [done|done|]. intros r' Hpr' Har'.
    pose proof (present_parsed _ _ _ Hs Hpr') as Hp'.
    destruct (proj2 (candidate_present s fuzzy version r' Hs Hq) (conj Hpr' Har')) as (x' & Hx' & Hr').
    apply fromPackageInfo_inv in Hr as [Hvr _], Hr' as [Hvr' _].
    specialize (Hbest x' (ref_version r) (ref_version r') Hx' (conj Hvr Hp) (conj Hvr' Hp')).
    rewrite ver_ge_cmp in Hbest by done. apply Z.leb_le in Hbest.
    pose proof (tw_anti _ tw_ver (ref_version r) (ref_version r')). lia.
Qed.

End installed_packages.

(** ** Installing: the verdict *)

Section installing.
Context `{Client} `{Qt} `{StdSort} `{Json} `{Yaml}.
Variable curArch : result Architecture.

(** Searching changes only the server that is talked to. *)
Definition framed (s s' : OSTreeRepo) : Prop :=
  cfg s' = cfg s /\ rcache s' = rcache s /\ yaml_files s' = yaml_files s /\ remotes s' = remotes s.

#[global] Instance framed_preorder : PreOrder framed.
Proof. split; unfold framed; [done|]. intros a b d. intuition congruence. Qed.

Lemma listRemote_framed s fuzzy repo : framed s (listRemote curArch s fuzzy repo).1.
Proof.
  unfold listRemote. destruct repo as [r|]; cbn [set_server cfg]; destruct (getDefaultRepo _), curArch; done.
Qed.

Lemma clearReference_framed s fuzzy opts module repo : framed s (clearReference curArch s fuzzy opts module repo).1.
Proof.
  unfold clearReference, clearReferenceRemote.
  assert (Hr : forall r, framed s (let '(s0, r0) := listRemote curArch s fuzzy (Some r) in
      match r0 with
      | Ok list => (s0, select_remote fuzzy module (semanticMatching opts) list)
      | Err c => (s0, Err c)
      end).1).
  { intros r. pose proof (listRemote_framed s fuzzy (Some r)) as Hl.
    destruct (listRemote curArch s fuzzy (Some r)) as [s0 [l|c]]; exact Hl. }
  repeat (case_match; try done); subst; repeat match goal with
    | E : listRemote _ _ _ (Some ?r) = _ |- _ => specialize (Hr r); rewrite E in Hr; clear E
    end; done.
Qed.

Lemma search_repos_framed s fuzzy opts module repos results :
  framed s (search_repos curArch s fuzzy opts module repos results).1.
Proof.
  revert s results. induction repos as [|repo repos IH]; intros s results; cbn [search_repos]; [done|].
  pose proof (clearReference_framed s fuzzy opts module (Some (repo_alias repo))) as Hc.
  destruct (clearReference _ _ _ _ _ _) as [s1 [r|c]]; [by etrans; [|apply IH]|].
  destruct (c =? _); [by etrans; [|apply IH]|done].
Qed.

Lemma byPriority_framed s fuzzy opts module : framed s (getRemoteReferenceByPriority curArch s fuzzy opts module).1.
Proof.
  unfold getRemoteReferenceByPriority. cbv zeta. destruct (getHighestPriorityRepos (cfg s)) as [repos|]; [|done].
  destruct (onlyClearHighestPriority opts).
  - destruct repos as [|repo rest]; [done|].
    pose proof (clearReference_framed s fuzzy (mkClearOpt true true (po_semanticMatching opts)) module
      (Some (repo_alias repo))) as Hc. destruct (clearReference _ _ _ _ _ _) as [s1 [r|c]]; done.
  - pose proof (search_repos_framed s fuzzy (mkClearOpt true true (po_semanticMatching opts)) module repos []) as Hc.
    destruct (search_repos _ _ _ _ _ _ _) as [s1 [[|r rs]|c]]; done.
Qed.

(** Raising a priority for the search leaves no trace in the configuration. *)
Lemma search_remote_framed s fuzzy repo module : framed s (search_remote curArch s fuzzy repo module).1.
Proof.
  unfold search_remote. destruct repo as [alias|]; [|apply byPriority_framed].
  destruct (promotePriority (cfg s) alias) as [[c old]|] eqn:Ep; [|done].
  pose proof (byPriority_framed (set_cfg c s) fuzzy (mkPriorityOpt true false) module) as Hf.
  destruct (getRemoteReferenceByPriority _ _ _ _ _) as [s1 r]. destruct Hf as (Hcfg & Hrc & Hy & Hre).
  cbn [fst cfg rcache yaml_files remotes set_cfg] in *. rewrite Hcfg, (recover_promoted _ _ _ _ Ep). done.
Qed.

(** *** The abstract verdict *)

(** What the version on offer means against the installed one. *)
Inductive relation_to_installed := Same | Newer | Older.

Definition relate (offered installed : Version) : relation_to_installed :=
  if ver_cmp offered installed =? 0 then Same else if ver_cmp offered installed =? 1 then Newer else Older.

Definition latest_present (s : OSTreeRepo) (id : str) (r : Reference) : Prop :=
  present s id r /\ forall r', present s id r' -> ver_cmp (ref_version r') (ref_version r) <= 0.

(** The answer to the request for an application: [version] is the version asked
    for, [found] what the repositories offer, [start] the answer that queues the
    installation. *)
Inductive verdict (s : OSTreeRepo) (id : str) (version : option Version) (force : bool)
    (found : result ReferenceWithRepo) (start : Repo -> Reference -> option Reference -> bool -> reply)
    : reply -> Prop :=
| verdict_exact v r : version = Some v -> present s id r -> ver_cmp (ref_version r) v = 0 ->
    verdict s id version force found start (Refuse ec_AppInstallAlreadyInstalled)
| verdict_missing c : (forall r v, version = Some v -> present s id r -> ver_cmp (ref_version r) v <> 0) ->
    found = Err c ->
    verdict s id version force found start
      (Refuse (if c =? ec_AppNotFoundFromRemote then ec_AppInstallNotFoundFromRemote else c))
| verdict_first repo r : (forall r', ~ present s id r') -> found = Ok (repo, r) ->
    verdict s id version force found start (start repo r None false)
| verdict_present repo r l :
    (forall r v, version = Some v -> present s id r -> ver_cmp (ref_version r) v <> 0) ->
    latest_present s id l -> found = Ok (repo, r) ->
    verdict s id version force found start
      match relate (ref_version r) (ref_version l) with
      | Same => Refuse ec_AppInstallAlreadyInstalled
      | Newer => start repo r (Some l) true
      | Older => if force then start repo r (Some l) false else Refuse ec_AppInstallNeedDowngrade
      end.

Lemma weigh_relate already downgrade force l r : parsed63 (ref_version r) -> parsed63 (ref_version l) ->
  weigh already downgrade force (Some l) r =
  match relate (ref_version r) (ref_version l) with
  | Same => Err already
  | Newer => Ok true
  | Older => if force then Ok false else Err downgrade
  end.
Proof.
  intros Hr Hl. unfold weigh, relate. rewrite ver_gt_cmp by done.
  destruct (ver_ops (ref_version r) (ref_version l) Hr Hl) as [_ ->].
  rewrite (tw_anti _ tw_ver (ref_version l) (ref_version r)).
  zcase; simpl; try done; try lia. by destruct force.
Qed.

(** The part of [Install] after the request is understood. *)
Lemma logged_installed s fuzzy version : sound_records s -> arch_matches curArch fuzzy = Ok tt ->
  asked_version fuzzy = Ok version -> (forall v, version = Some v -> parsed63 v) ->
  exists l, logged (find_installed curArch s fuzzy) = Ok l /\
    match l with
    | Some r => present s (fz_id fuzzy) r /\ asks version r /\
        forall r', present s (fz_id fuzzy) r' -> asks version r' -> ver_cmp (ref_version r') (ref_version r) <= 0
    | None => forall r', present s (fz_id fuzzy) r' -> ~ asks version r'
    end.
Proof.
  intros Hs Ha Hv Hq. pose proof (find_installed_spec curArch s fuzzy version Hs Ha Hv Hq) as Hf.
  destruct (find_installed curArch s fuzzy) as [r|c]; cbn [logged].
  - by exists (Some r).
  - destruct Hf as [[-> | ->] Hn]; by exists None.
Qed.

(** The check for the exact version. *)
Lemma exact_present s fuzzy version : sound_records s -> arch_matches curArch fuzzy = Ok tt ->
  asked_version fuzzy = Ok version -> (fz_version fuzzy = None <-> version = None) ->
  (forall v, version = Some v -> parsed63 v) ->
  exists e, (if bool_decide (is_Some (fz_version fuzzy)) then logged (find_installed curArch s fuzzy) else Ok None)
            = Ok e /\
    match e with
    | Some r => exists v, version = Some v /\ present s (fz_id fuzzy) r /\ ver_cmp (ref_version r) v = 0
    | None => forall r v, version = Some v -> present s (fz_id fuzzy) r -> ver_cmp (ref_version r) v <> 0
    end.
Proof.
  intros Hs Ha Hv Hnone Hq. destruct (logged_installed s fuzzy version Hs Ha Hv Hq) as (e & He & Hspec).
  destruct version as [v|].
  - rewrite bool_decide_true.
    + exists e. split; [done|]. destruct e as [r|].
      * destruct Hspec as (Hp & Har & _). by exists v.
      * intros r v' [= <-] Hp. exact (Hspec r Hp).
    + destruct (fz_version fuzzy); [by eexists|]. by pose proof (proj1 Hnone eq_refl).
  - rewrite (proj2 Hnone eq_refl), bool_decide_false by by intros [? ?]. by exists None.
Qed.

(** C6: an installation request decides as the verdict says -- the exact version
    is refused when it is there, a version equal to the newest one present is
    refused, a newer one is an upgrade, an older one needs force -- and it
    leaves the repository as it was, the priority it raised included. *)
Theorem install_verdict s p fuzzy version :
  sound_records s ->
  fuzzyReferenceFromPackage (mkPkg (ip_channel p) (ip_id p) None (ip_version p)) = Ok fuzzy ->
  only_module p = lit "binary" ->
  asked_version fuzzy = Ok version -> (fz_version fuzzy = None <-> version = None) ->
  (forall v, version = Some v -> parsed63 v) ->
  let found := snd (search_remote curArch s fuzzy (ip_repo p) (lit "binary")) in
  (forall repo r, found = Ok (repo, r) -> parsed63 (ref_version r)) ->
  let '(s', answer) := Install curArch s p in
  cfg s' = cfg s /\ rcache s' = rcache s /\
  verdict s (fz_id fuzzy) version (ip_force p) found
    (fun repo r l upgrade => AddTask [refSpec_of (r_name repo) r (lit "binary")]
       (InstallApp r l (default [lit "binary"] (ip_modules p)) (ip_skipInteraction p) upgrade repo)) answer.
Proof.
  intros Hs Hfz Hm Hv Hnone Hq found Hfound.
  pose (start := fun repo r l upgrade => AddTask [refSpec_of (r_name repo) r (lit "binary")]
    (InstallApp r l (default [lit "binary"] (ip_modules p)) (ip_skipInteraction p) upgrade repo)).
  assert (Harch : fz_arch fuzzy = None).
  { unfold fuzzyReferenceFromPackage, fuzzy_create in Hfz. repeat case_match; try done. by injection Hfz as <-. }
  assert (Ha : arch_matches curArch fuzzy = Ok tt) by by (unfold arch_matches; rewrite Harch).
  destruct (exact_present s fuzzy version Hs Ha Hv Hnone Hq) as (e & He & Hexact).
  set (any := mkFuzzy (fz_channel fuzzy) (fz_id fuzzy) None (fz_arch fuzzy)).
  destruct (logged_installed s any None Hs Ha eq_refl ltac:(done)) as (l & Hl & Hlatest).
  unfold Install. rewrite Hfz. cbv zeta. rewrite Hm, bool_decide_true by done. cbn [negb]. rewrite He.
  destruct e as [r|].
  { destruct Hexact as (v & Ev & Hp & Hc). split_and!; [done..|]. by apply (verdict_exact _ _ _ _ _ _ v r). }
  fold any. rewrite Hl.
  pose proof (search_remote_framed s fuzzy (ip_repo p) (lit "binary")) as Hf.
  unfold found in Hfound |- *. clear found.
  destruct (search_remote curArch s fuzzy (ip_repo p) (lit "binary")) as [s' [[repo r]|c]] eqn:Es;
    cbn [fst snd] in *; destruct Hf as (Hcfg & Hrc & _); [|by split_and!; [..|apply verdict_missing]].
  specialize (Hfound repo r eq_refl). destruct l as [l|].
  - destruct Hlatest as (Hpl & _ & Hmax).
    assert (Hlat : latest_present s (fz_id fuzzy) l) by (split; [done|intros r' Hr'; by apply Hmax]).
    pose proof (verdict_present s (fz_id fuzzy) version (ip_force p) (Ok (repo, r)) start
      repo r l Hexact Hlat eq_refl) as Hver.
    rewrite weigh_relate by eauto using present_parsed.
    destruct (relate (ref_version r) (ref_version l)), (ip_force p); done.
  - cbn [weigh]. split_and!; [done..|]. apply (verdict_first _ _ _ _ _ start repo r); [|done].
    intros r' Hr'. by apply (Hlatest r').
Qed.

End installing.

(** ** Packages in use *)

Section in_use.

(** A container whose process is alive, according to [/run/linglong]. *)
Definition live (run : result (list user_entry)) (info : ContainerProcessStateInfo) : Prop :=
  exists users u entries p, run = Ok users /\ u ∈ users /\ us_directory u = true /\ us_entries u = Ok entries /\
    p ∈ entries /\ pr_regular p = true /\ pr_exists p = Ok true /\ pr_load p = Ok info.

Definition uses (refStr : str) (info : ContainerProcessStateInfo) : Prop :=
  ct_app info = refStr \/ ct_base info = refStr \/ ct_runtime info = Some refStr \/
  exists l, ct_extensions info = Some l /\ refStr ∈ l.

Lemma info_uses_spec refStr info : info_uses refStr info = true <-> uses refStr info.
Proof.
  unfold info_uses, uses.
  assert (He : forall l, existsb (fun extension => bool_decide (extension = refStr)) l = true <-> refStr ∈ l).
  { intros l. rewrite existsb_exists. split.
    - by intros (x & Hx%list_elem_of_In & <-%bool_decide_eq_true).
    - intros Hx. exists refStr. by rewrite <- list_elem_of_In, bool_decide_eq_true. }
  destruct (bool_decide_reflect (ct_app info = refStr)) as [Ha|Ha]; [by split; [left|]|].
  destruct (bool_decide_reflect (ct_base info = refStr)) as [Hb|Hb]; [by split; [right; left|]|]. cbn [orb].
  destruct (ct_runtime info) as [r|]; [destruct (bool_decide_reflect (r = refStr)) as [Hr|Hr]|].
  - split; [|done]. intros _. do 2 right. left. by f_equal.
  - destruct (ct_extensions info) as [l|]; [rewrite He|]; naive_solver.
  - destruct (ct_extensions info) as [l|]; [rewrite He|]; naive_solver.
Qed.

Lemma exists_in_cons {A} (P : A -> Prop) x l :
  (exists y, y ∈ x :: l /\ P y) <-> P x \/ exists y, y ∈ l /\ P y.
Proof.
  split.
  - intros (y & [->|Hy]%elem_of_cons & HP); [by left|right; by exists y].
  - intros [HP|(y & Hy & HP)]; [exists x|exists y]; (split; [|done]); [left|by right].
Qed.

Definition live_process (info : ContainerProcessStateInfo) (p : process_entry) : Prop :=
  pr_regular p = true /\ pr_exists p = Ok true /\ pr_load p = Ok info.

Definition live_user (info : ContainerProcessStateInfo) (u : user_entry) : Prop :=
  us_directory u = true /\ exists entries, us_entries u = Ok entries /\ exists p, p ∈ entries /\ live_process info p.

Lemma live_users users info : live (Ok users) info <-> exists u, u ∈ users /\ live_user info u.
Proof. unfold live, live_user, live_process. naive_solver. Qed.

Lemma read_processes_elem l infos info : read_processes l = Ok infos ->
  info ∈ infos <-> exists p, p ∈ l /\ live_process info p.
Proof.
  revert infos. induction l as [|p l IH]; intros infos; cbn [read_processes].
  - intros [= <-]. split; [by intros ?%not_elem_of_nil|by intros (? & ?%not_elem_of_nil & _)].
  - rewrite exists_in_cons. unfold live_process at 1.
    destruct (pr_regular p); cbn [negb]; [|intros Hi; rewrite (IH infos Hi); naive_solver].
    destruct (pr_exists p) as [[|]|]; [|intros Hi; rewrite (IH infos Hi); naive_solver|done].
    destruct (pr_load p) as [i|]; [|done].
    destruct (read_processes l) as [infos'|]; [|done]. cbn [res_bind]. intros [= <-].
    rewrite elem_of_cons, (IH infos' eq_refl). naive_solver.
Qed.

Lemma read_users_elem l infos info : read_users l = Ok infos -> info ∈ infos <-> live (Ok l) info.
Proof.
  rewrite live_users. revert infos. induction l as [|u l IH]; intros infos; cbn [read_users].
  - intros [= <-]. split; [by intros ?%not_elem_of_nil|by intros (? & ?%not_elem_of_nil & _)].
  - rewrite exists_in_cons. unfold live_user at 1.
    destruct (us_directory u); cbn [negb]; [|intros Hi; rewrite (IH infos Hi); naive_solver].
    destruct (us_entries u) as [entries|]; [|done].
    destruct (read_processes entries) as [infos1|] eqn:E1; [|done]. cbn [res_bind].
    destruct (read_users l) as [infos2|]; [|done]. cbn [res_bind]. intros [= <-].
    rewrite elem_of_app, (read_processes_elem _ _ _ E1), (IH infos2 eq_refl). naive_solver.
Qed.

Lemma running_elem run infos info : getAllRunningContainers run = Ok infos -> info ∈ infos <-> live run info.
Proof. destruct run as [users|c]; [apply read_users_elem|done]. Qed.

Lemma busy_spec infos run ref : getAllRunningContainers run = Ok infos ->
  existsb (info_uses (ref_toString ref)) infos = true <->
  exists info, live run info /\ uses (ref_toString ref) info.
Proof.
  intros Hr. rewrite existsb_exists. setoid_rewrite <- list_elem_of_In.
  setoid_rewrite (running_elem run infos _ Hr). by setoid_rewrite info_uses_spec.
Qed.

(** Asking whether a package is in use answers yes exactly when the record of
    a living container names it as application, base, runtime or extension; the
    question fails exactly when the lock or a record cannot be had; and the lock
    is given back -- except that a lock that is refused leaves its descriptor
    open. *)
Theorem isRefBusy_spec e run ref st :
  let '(st', r) := isRefBusy e run ref st in
  match r with
  | Ok b => le_lock e = true /\ is_Some (le_open e) /\ (exists infos, getAllRunningContainers run = Ok infos) /\
      (b = true <-> exists info, live run info /\ uses (ref_toString ref) info)
  | Err _ => le_open e = None \/ le_lock e = false \/ exists c, getAllRunningContainers run = Err c
  end /\
  (forall fd, le_open e = Some fd -> fd ∉ open_fds st ->
     if le_lock e && le_unlock e then lockFd st' = None /\ open_fds st' = open_fds st
     else lockFd st' = Some fd /\ open_fds st' = fd :: open_fds st).
Proof.
  unfold isRefBusy, lockRepo, unlockRepo. destruct (le_open e) as [fd|]; [|split; [by left|done]].
  destruct (le_lock e) eqn:El; cbn [negb andb lockFd open_fds fst].
  2:{ split; [by right; left|]. by intros ? [= <-]. }
  split.
  - destruct (getAllRunningContainers run) as [infos|c] eqn:Er; [|by right; right; exists c].
    split_and!; [done|by eexists|by exists infos|]. by apply busy_spec.
  - intros ? [= <-] Hf. destruct (le_unlock e); cbn [negb fst lockFd open_fds]; [|done].
    split; [done|]. cbn [List.filter]. rewrite Z.eqb_refl. cbn [negb].
    clear -Hf. induction (open_fds st) as [|d l IH]; [done|]. cbn [List.filter].
    apply not_elem_of_cons in Hf as [Hn Hf].
    destruct (Z.eqb_spec d fd); [by subst|]. cbn [negb]. by rewrite IH.
Qed.

End in_use.

(** ** Uninstalling *)

Section uninstalling.
Context `{Client} `{Qt} `{StdSort} `{Json} `{Yaml}.

Definition uninstall_query (p : PackageManager1Package) : repoCacheQuery :=
  mkQuery (Some (pk_id p)) None (pk_channel p) (pk_version p) None None None.

(** The main layers that are recorded and that the request matches; those marked
    deleted are among them, as they are for [listLocalBy]. *)
Definition recorded_mains (s : OSTreeRepo) (p : PackageManager1Package) : list RepositoryCacheLayersItem :=
  List.filter (fun x => main_module (l_info x)) (queryLayerItem (rcache s) (uninstall_query p)).

Lemma recorded_mains_elem s p x : sound_records s ->
  x ∈ recorded_mains s p <-> x ∈ rc_layers (cache (rcache s)) /\ query_match (uninstall_query p) x = true /\
    main_module (l_info x) = true.
Proof.
  intros Hs%sound_comparable. unfold recorded_mains.
  rewrite list_elem_of_In, filter_In, <- list_elem_of_In, query_elem by done. tauto.
Qed.

Lemma main_layers_spec l mainRef count :
  Forall (fun x => exists r, ref_fromPackageInfo (l_info x) = Ok r /\ parsed63 (ref_version r)) l ->
  exists mainRef', main_layers l mainRef count =
    Ok (mainRef', count + Z.of_nat (length (List.filter (fun x => main_module (l_info x)) l))) /\
    match mainRef with
    | Some m => mainRef' = Some m
    | None => match List.filter (fun x => main_module (l_info x)) l with
              | [] => mainRef' = None
              | x :: _ => exists r, ref_fromPackageInfo (l_info x) = Ok r /\ mainRef' = Some (r, pi_kind (l_info x))
              end
    end.
Proof.
  intros Hs. revert mainRef count. induction Hs as [|x l (r & Hr & _) Hs IH]; intros mainRef count; cbn [main_layers].
  - exists mainRef. cbn. rewrite Z.add_0_r. by destruct mainRef.
  - cbn [List.filter]. destruct (main_module (l_info x)); [|apply IH]. cbn [length].
    replace (count + Z.of_nat (S _)) with (count + 1 +
      Z.of_nat (length (List.filter (fun x => main_module (l_info x)) l))) by lia.
    destruct mainRef as [m|]; [apply (IH (Some m))|]. rewrite Hr. cbn [logged res_bind].
    destruct (IH (Some (r, pi_kind (l_info x))) (count + 1)) as (m & -> & ->). eauto.
Qed.

Definition is_base (kind : str) : bool := bool_decide (kind = lit "base") || bool_decide (kind = lit "runtime").

(** What [Uninstall] does with the main layers. *)
Lemma uninstall_cases s e run st p : sound_records s ->
  Uninstall s e run st p =
  match recorded_mains s p with
  | [] => (st, Refuse ec_AppUninstallNotFoundFromLocal)
  | x :: rest =>
      if is_base (pi_kind (l_info x)) then (st, Refuse ec_AppUninstallBaseOrRuntime)
      else if bool_decide (rest <> []) then (st, Refuse ec_AppUninstallMultipleVersions)
      else match ref_fromPackageInfo (l_info x) with
           | Err c => (st, Refuse ec_AppUninstallNotFoundFromLocal)
           | Ok ref =>
               match isRefBusy e run ref st with
               | (st, Err _) => (st, Refuse ec_AppUninstallFailed)
               | (st, Ok true) => (st, Refuse ec_AppUninstallAppIsRunning)
               | (st, Ok false) =>
                   match getDefaultRepo (cfg s) with
                   | None => (st, Refuse terminated)
                   | Some d => (st, AddTask [refSpec_of (r_name d) ref (default (lit "binary") (pk_module p))]
                                      (UninstallApp ref (default (lit "binary") (pk_module p))))
                   end
               end
           end
  end.
Proof.
  intros Hs. unfold Uninstall. fold (uninstall_query p). cbv zeta.
  destruct (main_layers_spec (queryLayerItem (rcache s) (uninstall_query p)) None 0) as (m & -> & Hm).
  { unfold sound_records in Hs. rewrite Forall_forall in *. intros x Hx. apply Hs.
    by apply query_elem in Hx as [Hx _]; [|apply sound_comparable, Forall_forall]. }
  fold (recorded_mains s p) in *. rewrite Z.add_0_l. destruct (recorded_mains s p) as [|x rest].
  - subst m. by rewrite !bool_decide_false by done.
  - destruct Hm as (r & Hr & ->). rewrite Hr. fold (is_base (pi_kind (l_info x))).
    destruct (is_base _); [done|]. cbn [length]. destruct rest as [|y rest].
    + rewrite bool_decide_false by tauto. done.
    + rewrite bool_decide_true by done. cbn [length].
      replace (1 <? Z.of_nat (S (S (length rest)))) with true by (symmetry; apply Z.ltb_lt; lia). done.
Qed.

(** What the three answers of [isRefBusy] say. *)
Lemma busy_cases e run r st :
  match snd (isRefBusy e run r st) with
  | Ok true => exists info, live run info /\ uses (ref_toString r) info
  | Ok false => (is_Some (le_open e) /\ le_lock e = true) /\ is_ok (getAllRunningContainers run) = true /\
      ~ exists info, live run info /\ uses (ref_toString r) info
  | Err _ => (is_Some (le_open e) /\ le_lock e = true) -> is_ok (getAllRunningContainers run) = true -> False
  end.
Proof.
  unfold isRefBusy, lockRepo. destruct (le_open e) as [fd|] eqn:Ho; [|cbn; by intros [[? ?] _]].
  destruct (le_lock e) eqn:Hl; [|cbn; by intros [_ ?]]. cbn [negb].
  destruct (getAllRunningContainers run) as [infos|] eqn:Hi; [|done]. cbn [snd].
  pose proof (busy_spec infos run r Hi) as Hb. destruct (existsb _ infos).
  - by apply Hb.
  - split_and!; try done. intros Hu. by apply Hb in Hu.
Qed.

(** C27: on a host whose configuration has its default repository, a request to
    remove a package is queued exactly when one main layer is recorded that
    matches it (layers marked deleted count: with a second version that is only
    waiting to be removed the request is refused), that layer is of no base and no
    runtime and has a readable reference, the lock of the repository is taken,
    the states of the running containers can be read, and no living container
    uses the reference. *)
Theorem uninstall_safe s e run st p d ref m : sound_records s -> getDefaultRepo (cfg s) = Some d ->
  (exists specs, snd (Uninstall s e run st p) = AddTask specs (UninstallApp ref m)) <->
  m = default (lit "binary") (pk_module p) /\
  (exists x, recorded_mains s p = [x] /\ is_base (pi_kind (l_info x)) = false /\ ref_fromPackageInfo (l_info x) = Ok ref) /\
  (is_Some (le_open e) /\ le_lock e = true) /\ is_ok (getAllRunningContainers run) = true /\
  ~ exists info, live run info /\ uses (ref_toString ref) info.
Proof.
  intros Hs Hd. rewrite uninstall_cases by done. destruct (recorded_mains s p) as [|x [|y rest]].
  - split; [by intros [? ?]|by intros (_ & (? & ? & _) & _)].
  - destruct (is_base _) eqn:Eb; [split; [by intros [? ?]|intros (_ & (? & [= <-] & ? & _) & _); congruence]|].
    rewrite bool_decide_false by tauto.
    destruct (ref_fromPackageInfo (l_info x)) as [r|] eqn:Er;
      [|split; [by intros [? ?]|intros (_ & (? & [= <-] & _ & ?) & _); congruence]].
    pose proof (busy_cases e run r st) as Hb. destruct (isRefBusy e run r st) as [st' [[|]|c]].
    + split; [by intros [? ?]|]. intros (_ & (? & [= <-] & _ & ?) & _ & _ & Hno). destruct Hno. replace ref with r by congruence. apply Hb.
    + rewrite Hd. split.
      * intros (specs & [= _ <- <-]). destruct Hb as (? & ? & ?). eauto 10.
      * intros (-> & (? & [= <-] & _ & Er') & _). replace ref with r by congruence. by eexists.
    + split; [by intros [? ?]|]. intros (_ & _ & Hl & Hk & _). by destruct Hb.
  - destruct (is_base _); rewrite ?bool_decide_true by done;
      (split; [by intros [? ?]|by intros (_ & (? & ? & _) & _)]).
Qed.

End uninstalling.

(** ** Updating *)

Section updating.
Context `{Client} `{Qt} `{StdSort} `{Json} `{Yaml}.
Variable curArch : result Architecture.

(** What the repositories answer fits the request. *)
Definition fits (fuzzy : FuzzyReference) (r : Reference) : Prop :=
  ref_id r = fz_id fuzzy /\ forall c, fz_channel fuzzy = Some c -> ref_channel r = c.

Lemma matchReference_fits record fuzzy module r : matchReference record fuzzy module = Some r -> fits fuzzy r.
Proof.
  unfold matchReference, fits, ref_create. intros Hm.
  assert (Hc : forall c, fz_channel fuzzy = Some c -> c = pi_channel record).
  { intros c Hc. rewrite Hc in Hm. by case_bool_decide. }
  destruct (match fz_channel fuzzy with Some _ => _ | None => _ end); [done|].
  case_bool_decide; [cbn [negb] in Hm|done]. destruct (version_parse _ _); [|done].
  destruct (pi_arch record); [done|]. destruct (if bool_decide (module = _) then _ else _); [done|].
  destruct (arch_parse _); [|done]. do 2 (case_bool_decide; [done|]). injection Hm as <-.
  split; [done|]. intros c Ec. symmetry. by apply Hc.
Qed.

Lemma pick_remote_fits fuzzy module semantic version init list r : (forall i, init = Some i -> fits fuzzy i) ->
  pick_remote fuzzy module semantic version init list = Some r -> fits fuzzy r.
Proof.
  revert init. induction list as [|record list IH]; intros init Hi; cbn [pick_remote]; [apply Hi|].
  destruct (matchReference record fuzzy module) as [cur|] eqn:Em; [|by apply IH].
  apply matchReference_fits in Em.
  assert (Hn : forall i, newest init cur = Some i -> fits fuzzy i).
  { intros i. unfold newest. destruct init as [j|]; [destruct (ver_gt _ _)|]; naive_solver. }
  destruct version as [v|]; [|by apply IH]. destruct semantic; [by apply IH|].
  destruct (ver_eq _ _); [by intros [= <-]|by apply IH].
Qed.

Lemma clearReference_fits s fuzzy opts module repo s' r : forceRemote opts = true ->
  clearReference curArch s fuzzy opts module repo = (s', Ok r) -> fits fuzzy r.
Proof.
  intros Hf. unfold clearReference, clearReferenceRemote. rewrite Hf.
  destruct (getDefaultRepo (cfg s)); [|done]. destruct (match repo with Some _ => _ | None => _ end); [|done].
  destruct (listRemote _ _ _ _) as [s1 [l|]]; [|done]. intros [= _ E]. unfold select_remote in E.
  destruct (match fz_version fuzzy with Some _ => _ | None => _ end) as [[l' v]|]; [|done]. cbn [res_bind] in E.
  destruct (pick_remote _ _ _ _ _ _) as [r'|] eqn:Ep; [|done]. injection E as ->.
  by eapply pick_remote_fits; [|exact Ep].
Qed.

Lemma max_version_elem best l : max_version best l ∈ best :: l.
Proof.
  revert best. induction l as [|x l IH]; intros best; cbn [max_version]; [left|].
  destruct (ver_lt _ _); [right; apply IH|].
  destruct (proj1 (elem_of_cons _ _ _) (IH best)) as [->|Hin]; [left|by do 2 right].
Qed.

Lemma search_repos_fits s fuzzy opts module repos results s' l : forceRemote opts = true ->
  Forall (fun x => fits fuzzy (snd x)) results ->
  search_repos curArch s fuzzy opts module repos results = (s', Ok l) -> Forall (fun x => fits fuzzy (snd x)) l.
Proof.
  intros Hf. revert s results. induction repos as [|repo repos IH]; intros s results Hr; cbn [search_repos].
  - by intros [= _ <-].
  - destruct (clearReference _ _ _ _ _ _) as [s1 [r|c]] eqn:E.
    + apply IH. apply Forall_app. split; [done|]. constructor; [by eapply clearReference_fits|constructor].
    + destruct (c =? _); [by apply IH|done].
Qed.

Lemma byPriority_fits s fuzzy opts module s' repo r :
  getRemoteReferenceByPriority curArch s fuzzy opts module = (s', Ok (repo, r)) -> fits fuzzy r.
Proof.
  unfold getRemoteReferenceByPriority. cbv zeta. destruct (getHighestPriorityRepos (cfg s)) as [repos|]; [|done].
  destruct (onlyClearHighestPriority opts).
  - destruct repos as [|h rest]; [done|].
    destruct (clearReference _ _ _ _ _ _) as [s1 [r'|]] eqn:E; [|done]. intros [= _ _ <-].
    by eapply clearReference_fits; [|exact E].
  - destruct (search_repos _ _ _ _ _ _ _) as [s1 [[|x l]|]] eqn:E; [done| |done]. intros [= _ Em].
    apply search_repos_fits in E; [|done..]. rewrite Forall_forall in E. specialize (E _ (max_version_elem x l)).
    by rewrite Em in E.
Qed.

Abbreviation request_of package := (mkFuzzy (pk_channel package) (pk_id package) (pk_version package) None).

(** The installed reference a package of a request stands for: of those of its
    id, in whatever channel, with the version that is named, if one is, a newest
    one. *)
Definition installed_for (s : OSTreeRepo) (package : PackageManager1Package) (ref : Reference) : Prop :=
  exists version, asked_version (request_of package) = Ok version /\ present s (pk_id package) ref /\ asks version ref /\
    forall r', present s (pk_id package) r' -> asks version r' -> ver_cmp (ref_version r') (ref_version ref) <= 0.

(** What the repositories offer for a package, when it is their turn. *)
Definition offer_for (s : OSTreeRepo) (package : PackageManager1Package) (answer : result ReferenceWithRepo) : Prop :=
  exists s1, framed s s1 /\ snd (latestRemoteReference curArch s1 (request_of package)) = answer.

(** What the upgrade of one package of a request is. *)
Record upgrade_of (s : OSTreeRepo) (package : PackageManager1Package) (ref : Reference) (new : ReferenceWithRepo) : Prop := {
  up_installed : installed_for s package ref;
  up_offered : offer_for s package (Ok new);
  up_id : ref_id (snd new) = pk_id package;
  up_channel : forall c, pk_channel package = Some c -> ref_channel (snd new) = c;
  up_larger : ver_le (ref_version (snd new)) (ref_version ref) = false;
  up_newer : parsed63 (ref_version (snd new)) -> ver_cmp (ref_version (snd new)) (ref_version ref) = 1
}.

(** Why a package of a request has no upgrade, with the code that is answered. *)
Inductive no_upgrade (s : OSTreeRepo) (package : PackageManager1Package) : Z -> Prop :=
| no_request c : fuzzyReferenceFromPackage package = Err c -> no_upgrade s package ec_AppUpgradeFailed
| no_version c c' : asked_version (request_of package) = Err c -> no_upgrade s package c'
| no_installed version c : asked_version (request_of package) = Ok version ->
    (forall r, present s (pk_id package) r -> ~ asks version r) ->
    c = ec_AppUpgradeNotFound \/ c = ec_LayerCompatibilityError -> no_upgrade s package c
| no_record ref c c' : installed_for s package ref -> getLayerItem (cfg s) (rcache s) ref (lit "binary") None = Err c ->
    no_upgrade s package c'
| no_offer ref c : installed_for s package ref -> offer_for s package (Err c) -> no_upgrade s package c
| no_newer ref new : installed_for s package ref -> offer_for s package (Ok new) ->
    ver_le (ref_version (snd new)) (ref_version ref) = true -> no_upgrade s package ec_AppUpgradeLatestInstalled.

(** The versions a request names are ones that compare. *)
Definition asked_comparable (package : PackageManager1Package) : Prop :=
  forall v w, pk_version package = Some v -> version_parse v default_options = Ok w -> parsed63 w.

Lemma fuzzyReference_inv package fuzzy : fuzzyReferenceFromPackage package = Ok fuzzy ->
  fuzzy = mkFuzzy (pk_channel package) (pk_id package) (pk_version package) None.
Proof. unfold fuzzyReferenceFromPackage, fuzzy_create. repeat case_bool_decide; try done. by intros [= <-]. Qed.

Lemma find_installed_asked s fuzzy r : arch_matches curArch fuzzy = Ok tt ->
  find_installed curArch s fuzzy = Ok r -> exists version, asked_version fuzzy = Ok version.
Proof.
  intros Ha. unfold find_installed, clearReference, clearReferenceLocal.
  cbn [forceRemote fallbackToRemote semanticMatching local_only]. rewrite Ha. cbn [res_bind].
  case_bool_decide; [done|]. destruct (asked_version fuzzy) as [v|c]; [by eauto|]. done.
Qed.

Lemma find_installed_for s package : sound_records s -> asked_comparable package ->
  match find_installed curArch s (request_of package) with
  | Ok ref => installed_for s package ref
  | Err c => no_upgrade s package (if c =? ec_AppNotFoundFromLocal then ec_AppUpgradeNotFound else c)
  end.
Proof.
  intros Hs Hc. assert (Ha : arch_matches curArch (request_of package) = Ok tt) by done.
  destruct (asked_version (request_of package)) as [version|c0] eqn:Hv.
  - assert (Hq : forall v, version = Some v -> parsed63 v).
    { intros v ->. unfold asked_version in Hv. cbn [fz_version] in Hv.
      destruct (pk_version package) as [t|] eqn:Et; [|done]. case_bool_decide; [done|].
      destruct (version_parse t _) as [w|] eqn:Ew; [|done]. injection Hv as ->. by apply (Hc t v). }
    pose proof (find_installed_spec curArch s (request_of package) version Hs Ha Hv Hq) as Hi.
    destruct (find_installed _ _ _) as [ref|c]; [by exists version|]. destruct Hi as [Hcode Hno].
    apply (no_installed _ _ version); [done|done|]. destruct Hcode as [->| ->]; [by left|by right].
  - destruct (find_installed _ _ _) as [ref|c] eqn:Er; [|by apply (no_version _ _ c0)].
    destruct (find_installed_asked _ _ _ Ha Er) as [v Ev]. congruence.
Qed.

Lemma find_upgrade_spec s package : sound_records s -> asked_comparable package ->
  match snd (find_upgrade curArch s package) with
  | Ok (ref, new) => upgrade_of s package ref new
  | Err c => no_upgrade s package c
  end.
Proof.
  intros Hs Hc. unfold find_upgrade. destruct (fuzzyReferenceFromPackage package) as [fuzzy|] eqn:Ef; [|by eapply no_request].
  apply fuzzyReference_inv in Ef. subst fuzzy. pose proof (find_installed_for s package Hs Hc) as Hi.
  destruct (find_installed curArch s _) as [ref|c]; [|exact Hi].
  destruct (getLayerItem _ _ _ _ _) as [item|c] eqn:Eg; [|by eapply no_record].
  assert (Ho : offer_for s package (snd (latestRemoteReference curArch s (request_of package)))) by (by exists s).
  destruct (latestRemoteReference _ _ _) as [s1 [new|c]] eqn:El; cbn [snd] in Ho |- *; [|by eapply no_offer].
  destruct (ver_le _ _) eqn:Ele; [by eapply no_newer|]. cbn [snd].
  unfold latestRemoteReference in El. destruct new as [repo r']. apply byPriority_fits in El as [Hid Hch].
  split; try done. intros Hpn. cbn [snd] in *. destruct Hi as (version & _ & Hp & _).
  pose proof (present_parsed _ _ _ Hs Hp) as Hpr. unfold ver_le in Ele.
  destruct (ver_ops (ref_version r') (ref_version ref) Hpn Hpr) as [Hlt Heq].
  pose proof (tw_range _ tw_ver (ref_version r') (ref_version ref)).
  apply orb_false_iff in Ele as [E1 E2]. rewrite Heq in E1. rewrite Hlt in E2. apply Z.eqb_neq in E1, E2. lia.
Qed.

Lemma find_upgrade_framed s package : framed s (find_upgrade curArch s package).1.
Proof.
  unfold find_upgrade, latestRemoteReference. destruct (fuzzyReferenceFromPackage package) as [fuzzy|]; [|done].
  destruct (find_installed curArch s fuzzy); [|done]. destruct (getLayerItem _ _ _ _ _); [|done].
  pose proof (byPriority_framed curArch s (mkFuzzy (fz_channel fuzzy) (fz_id fuzzy) None (fz_arch fuzzy))
    (mkPriorityOpt false false) (lit "binary")) as Hf.
  destruct (getRemoteReferenceByPriority _ _ _ _ _) as [s1 [new|]]; [|done]. by destruct (ver_le _ _).
Qed.

Lemma framed_present s s' id r : framed s s' -> present s' id r <-> present s id r.
Proof. intros (_ & Hrc & _). unfold present. by rewrite Hrc. Qed.

Lemma framed_sound s s' : framed s s' -> sound_records s -> sound_records s'.
Proof. intros (_ & Hrc & _). unfold sound_records. by rewrite Hrc. Qed.

Lemma framed_installed s s' package ref : framed s s' -> installed_for s' package ref -> installed_for s package ref.
Proof.
  intros Hf (version & Hv & Hp & Ha & Hm). exists version. split_and!; [done|by apply (framed_present s s')|done|].
  intros r' Hr'. by apply Hm, (framed_present s s').
Qed.

Lemma framed_offer s s' package answer : framed s s' -> offer_for s' package answer -> offer_for s package answer.
Proof. intros Hf (s1 & Hs1 & Ha). exists s1. split; [by etrans|done]. Qed.

Lemma framed_upgrade s s' package ref new : framed s s' -> upgrade_of s' package ref new -> upgrade_of s package ref new.
Proof. intros Hf [Hi Ho Hid Hc Hl Hn]. split; try done; [by eapply framed_installed|by eapply framed_offer]. Qed.

Lemma framed_no_upgrade s s' package c : framed s s' -> no_upgrade s' package c -> no_upgrade s package c.
Proof.
  intros Hf [c0 E|c0 c' E|version c0 E Hn Hc|ref c0 c' Hi E|ref c0 Hi Ho|ref new Hi Ho Hle].
  - by eapply no_request.
  - by eapply no_version.
  - apply (no_installed _ _ version); [done| |done]. intros r Hr. apply Hn. by apply (framed_present s s').
  - apply (no_record _ _ ref c0); [by eapply framed_installed|]. destruct Hf as (Ec & Er & _). by rewrite Ec, Er in E.
  - apply (no_offer _ _ ref); [by eapply framed_installed|by eapply framed_offer].
  - apply (no_newer _ _ ref new); [by eapply framed_installed|by eapply framed_offer|done].
Qed.

(** Of the upgrades that were found each is taken, unless an earlier one is of the
    same installed reference; so no reference is upgraded twice. *)
Definition chosen (found ups : list (Reference * ReferenceWithRepo)) : Prop :=
  (forall x, x ∈ ups -> x ∈ found) /\
  (forall i x, found !! i = Some x -> x ∈ ups \/
     exists j y, (j < i)%nat /\ found !! j = Some y /\ y ∈ ups /\ same_key y.1 x.1 = true) /\
  StronglySorted (fun a b => same_key a.1 b.1 = false) ups.

Lemma add_upgrade_chosen found ups ref new : chosen found ups -> chosen (found ++ [(ref, new)]) (add_upgrade ref new ups).
Proof.
  intros (Hin & Hall & Hso). unfold add_upgrade. destruct (existsb _ ups) eqn:Ex; split_and!.
  - intros x Hx. apply elem_of_app. left. by apply Hin.
  - intros i x Hi. apply lookup_app_Some in Hi as [Hi|[Hlen Hi]].
    + destruct (Hall i x Hi) as [?|(j & y & Hj & Hy & ?)]; [by left|right]. exists j, y. split; [done|].
      by rewrite lookup_app_l by (by eapply lookup_lt_Some).
    + apply list_lookup_singleton_Some in Hi as [Hz <-]. right. apply existsb_exists in Ex as (y & Hy%list_elem_of_In & Hk).
      apply Hin in Hy as Hf. apply list_elem_of_lookup in Hf as (j & Hj). exists j, y.
      pose proof (lookup_lt_Some _ _ _ Hj). split; [lia|]. by rewrite lookup_app_l.
  - done.
  - intros x [Hx|Hx]%elem_of_app; apply elem_of_app; [left; by apply Hin|by right].
  - intros i x Hi. rewrite elem_of_app, list_elem_of_singleton. apply lookup_app_Some in Hi as [Hi|[Hlen Hi]].
    + destruct (Hall i x Hi) as [?|(j & y & Hj & Hy & Hu & ?)]; [by left; left|right]. exists j, y. split; [done|].
      split; [by rewrite lookup_app_l by (by eapply lookup_lt_Some)|]. split; [apply elem_of_app; by left|done].
    + apply list_lookup_singleton_Some in Hi as [_ <-]. left. by right.
  - clear Hall Hin. induction Hso as [|a l Hl IH Ha]; cbn; [repeat constructor|].
    cbn in Ex. apply orb_false_iff in Ex as [Ek Ex]. constructor; [by apply IH|]. apply Forall_app. split; [done|]. by constructor.
Qed.

Lemma find_upgrades_spec s0 s packages seen found ups : sound_records s0 -> framed s0 s ->
  Forall asked_comparable packages -> Forall2 (fun p x => upgrade_of s0 p x.1 x.2) seen found -> chosen found ups ->
  let spec x := refSpec_of (r_name (fst (snd x))) (fst x) (lit "binary") in
  let '(s', answer) := find_upgrades curArch s packages (spec <$> found) ups in
  framed s0 s' /\
  match answer with
  | AddTask specs (UpdateApps ups') => exists found',
      Forall2 (fun p x => upgrade_of s0 p x.1 x.2) (seen ++ packages) found' /\ specs = spec <$> found' /\ chosen found' ups'
  | AddTask _ _ => False
  | Refuse c => exists p, p ∈ packages /\ no_upgrade s0 p c
  end.
Proof.
  cbv zeta. intros Hs Hf Hc. revert s Hf seen found ups. induction Hc as [|p packages Hp Hc IH];
    intros s Hf seen found ups Hplan Hch; cbn [find_upgrades].
  - rewrite app_nil_r. split; [done|]. by exists found.
  - pose proof (find_upgrade_framed s p) as Hf1. pose proof (find_upgrade_spec s p (framed_sound _ _ Hf Hs) Hp) as Hu.
    destruct (find_upgrade curArch s p) as [s1 [[ref new]|c]]; cbn [fst snd] in Hf1, Hu.
    + apply (framed_upgrade s0 s) in Hu; [|done].
      specialize (IH s1 (transitivity Hf Hf1) (seen ++ [p]) (found ++ [(ref, new)]) (add_upgrade ref new ups)
        ltac:(apply Forall2_app; [done|by constructor]) ltac:(by apply add_upgrade_chosen)).
      rewrite fmap_app in IH. cbn [fmap list_fmap fst snd] in IH.
      destruct (find_upgrades _ _ _ _ _) as [s' answer]. destruct IH as [Hf' Ha]. split; [done|].
      rewrite <- app_assoc in Ha. destruct answer as [c|specs' [| | | |ups']]; try done.
      destruct Ha as (q & Hq & ?). exists q. split; [by right|done].
    + split; [by etrans|]. exists p. split; [left|]. by eapply framed_no_upgrade.
Qed.

(** C34: an update request queues one job for all its packages or is refused as a
    whole.  When it is queued, every package has an upgrade of its own: from
    the newest installed reference of its id (in whatever channel; with the
    version that is named, if one is) to what the repositories offer for it,
    which has its id, is in the channel that is named, if any, and is larger
    ([<=] does not hold; it is strictly newer when its version is no fallback
    version and has no number of [2^63]).  The job takes each of these upgrades,
    but of several for the same installed reference only the first.  When it is
    refused, some package has no upgrade, for one of six reasons: it is not a
    request, its version cannot be read, nothing installed fits, the installed
    record cannot be picked out, the repositories answer with an error (so they
    may just not have been asked), or what they offer is not larger.  The
    configuration and the cache stay as they were. *)
Theorem update_decision s packages : sound_records s -> Forall asked_comparable packages ->
  let '(s', answer) := Update curArch s packages in
  cfg s' = cfg s /\ rcache s' = rcache s /\
  match answer with
  | AddTask specs (UpdateApps ups) => exists found,
      Forall2 (fun p x => upgrade_of s p x.1 x.2) packages found /\
      specs = (fun x => refSpec_of (r_name (fst (snd x))) (fst x) (lit "binary")) <$> found /\ chosen found ups
  | AddTask _ _ => False
  | Refuse c => exists p, p ∈ packages /\ no_upgrade s p c
  end.
Proof.
  intros Hs Hc. unfold Update.
  assert (Hn : chosen [] []) by (split_and!; [done|done|constructor]).
  pose proof (find_upgrades_spec s s packages [] [] [] Hs ltac:(done) Hc ltac:(constructor) Hn) as Hspec. cbv zeta in Hspec.
  change ((fun x : Reference * ReferenceWithRepo => refSpec_of (r_name (fst (snd x))) (fst x) (lit "binary")) <$> []) with (@nil str) in Hspec.
  destruct (find_upgrades _ _ _ _ _) as [s' answer]. destruct Hspec as [(Hcfg & Hrc & _) Ha]. done.
Qed.

End updating.

(** ** Examples *)

#[local] Existing Instance qt_model.
#[local] Existing Instance std_sort_model.
#[local] Existing Instance json_model.
#[local] Existing Instance client_model.
#[local] Existing Instance yaml_model.

(** The demo application, installed as 1.0.0.1; the server has 1.2.3. *)
Definition demo_layer : RepositoryCacheLayersItem :=
  package (lit "org.deepin.demo") (lit "app") (lit "main:org.base/23.0.0.1/x86_64") (lit "1.0.0.1") (lit "c1").

Definition demo_repo : OSTreeRepo :=
  mkOR example_cfg (fun _ => None) [] (lit "https://s")
    (mkRC (with_layers example_cache [demo_layer; base_layer]) None None).

Definition demo_request : InstallParameters := mkInstall false true None (lit "org.deepin.demo") None None None.
Definition demo_ref : Reference :=
  mkRef (lit "main") (lit "org.deepin.demo") (isV1 (mkV1 1 0 0 (Some 1))) X86_64.
Definition demo_new : Reference :=
  mkRef (lit "main") (lit "org.deepin.demo") (isV2 (mkV2 1 2 3 [] [] 0 true)) X86_64.
Definition demo_found : ReferenceWithRepo := (stable_repo, demo_new).

Lemma demo_sound : sound_records demo_repo.
Proof.
  unfold sound_records. cbn. repeat constructor.
  - exists demo_ref. split; [by vm_compute|]. by apply v1_example_parsed.
  - exists base_ref. split; [by vm_compute|]. unfold parsed63, wf_v1, i64_max. cbn. split; [lia|done].
Qed.

Lemma demo_search repo r :
  snd (search_remote (Ok X86_64) demo_repo (mkFuzzy None (lit "org.deepin.demo") None None) (ip_repo demo_request)
         (lit "binary")) = Ok (repo, r) -> parsed63 (ref_version r).
Proof.
  assert (E : snd (search_remote (Ok X86_64) demo_repo (mkFuzzy None (lit "org.deepin.demo") None None)
    (ip_repo demo_request) (lit "binary")) = Ok demo_found) by by vm_compute.
  rewrite E. intros [= <- <-]. exact v2_example_parsed.
Qed.

Lemma install_verdict_witness :
  sound_records demo_repo /\
  snd (Install (Ok X86_64) demo_repo demo_request) =
    AddTask [lit "stable:main/org.deepin.demo/x86_64/binary"]
      (InstallApp demo_new (Some demo_ref) [lit "binary"] true true stable_repo) /\
  cfg (fst (Install (Ok X86_64) demo_repo demo_request)) = example_cfg.
Proof.
  pose proof (install_verdict (Ok X86_64) demo_repo demo_request (mkFuzzy None (lit "org.deepin.demo") None None) None
    demo_sound eq_refl ltac:(by vm_compute) eq_refl ltac:(done) ltac:(done)
    demo_search) as Hv.
  split; [exact demo_sound|]. split; [by vm_compute|].
  destruct (Install _ _ _) as [s' answer]. exact (proj1 Hv).
Defined.

(** A container of the base runs. *)
Definition running_info : ContainerProcessStateInfo :=
  mkContainer (lit "main:org.other/1.0.0.1/x86_64") (lit "main:org.base/23.0.0.1/x86_64") (lit "id") None None.
Definition running_users : result (list user_entry) :=
  Ok [mkUser true (Ok [mkProcess true (Ok true) (Ok running_info); mkProcess true (Ok false) (Err 1)])].
Definition free_lock : lock_env := mkLockEnv (Some 7) true true.

Lemma isRefBusy_spec_witness :
  snd (isRefBusy free_lock running_users base_ref (mkLock None [])) = Ok true /\
  exists info, live running_users info /\ uses (ref_toString base_ref) info.
Proof.
  split; [by vm_compute|].
  pose proof (isRefBusy_spec free_lock running_users base_ref (mkLock None [])) as [Hs _].
  exact (proj1 (proj2 (proj2 (proj2 Hs))) eq_refl).
Defined.

Lemma uninstall_safe_witness :
  sound_records demo_repo /\
  exists specs, snd (Uninstall demo_repo free_lock running_users (mkLock None [])
      (mkPkg None (lit "org.deepin.demo") None None)) = AddTask specs (UninstallApp demo_ref (lit "binary")).
Proof.
  split; [exact demo_sound|].
  apply (uninstall_safe demo_repo free_lock running_users (mkLock None []) (mkPkg None (lit "org.deepin.demo") None None)
    stable_repo demo_ref (lit "binary") demo_sound eq_refl).
  split; [done|]. split; [exists demo_layer; by vm_compute|]. split; [by split; [exists 7|]|]. split; [done|].
  intros (info & Hl & Hu). apply (running_elem running_users [running_info]) in Hl; [|done].
  apply list_elem_of_singleton in Hl. subst. apply info_uses_spec in Hu. by vm_compute in Hu.
Defined.

Definition demo_package : PackageManager1Package := mkPkg (Some (lit "main")) (lit "org.deepin.demo") None None.

Lemma update_decision_witness :
  sound_records demo_repo /\
  snd (Update (Ok X86_64) demo_repo [demo_package]) =
    AddTask [lit "stable:main/org.deepin.demo/x86_64/binary"] (UpdateApps [(demo_ref, demo_found)]) /\
  exists found, found = [(demo_ref, demo_found)] /\
    Forall2 (fun p x => upgrade_of (Ok X86_64) demo_repo p x.1 x.2) [demo_package] found.
Proof.
  assert (E : Update (Ok X86_64) demo_repo [demo_package] =
    (fst (Update (Ok X86_64) demo_repo [demo_package]),
     AddTask [lit "stable:main/org.deepin.demo/x86_64/binary"] (UpdateApps [(demo_ref, demo_found)]))) by by vm_compute.
  split; [exact demo_sound|].
  pose proof (update_decision (Ok X86_64) demo_repo [demo_package] demo_sound ltac:(by repeat constructor)) as Hu.
  rewrite E in Hu |- *. split; [done|].
  destruct Hu as (_ & _ & found & Hf & _ & _ & Hall & _). exists found. split; [|exact Hf].
  apply Forall2_length in Hf. destruct found as [|x [|]]; [discriminate Hf| |discriminate Hf].
  destruct (Hall 0%nat x eq_refl) as [Hx|(j & y & Hj & _)]; [|lia]. apply list_elem_of_singleton in Hx as ->. reflexivity.
Defined.
