(* ===== verification/PackageJobs.v ===== *)
(** * The jobs of the package manager ([package_manager/package_manager.cpp])

    What the queued jobs do: [Install], [InstallRef], [Uninstall],
    [UninstallRef], [Update], [removeAfterInstall], [pullDependency] and
    [OSTreeRepo::pull].  A job reads and changes the task it runs for, the
    repository and the exported files; what OSTree, the file system and the
    hooks answer is given by an oracle that is asked with the number of the
    question.  A job that would end the daemon (an exception out of a
    [noexcept] function, a value read from an error) yields [None]. *)
From S2P Require Import Prelude Qt Types Semver Version Reference RepoConfig RepoCache.
From S2P Require Import OstreeRepo MergeModules Prune PackageTask PackageManager.
From Stdlib Require Import QArith.
#[local] Open Scope Z_scope.

(** ** State, oracle and monad *)

Inductive job_event :=
| Exported (ref : Reference)
| Unexported (ref : Reference)
| CacheRemoved (commit : str)
| CacheGenerated (commit : str) (ok : bool)
| InstallHooks (ref : Reference)
| UninstallHooks (ref : Reference).

(** The end of an [ostree_repo_pull_with_options]. *)
Inductive pull_status := Pulled | NoSuchBranch | PullFailed (code : Z).

Record pull_env := mkPull {
  pl_ostree : str -> list task_call * pull_status;
  pl_commit : str -> result (str * result PackageInfoV2);
  pl_dir : result unit;
  pl_checkout : result unit;
  pl_write : write_env
}.

Record job_env := mkJobEnv {
  je_pull : nat -> pull_env;
  je_remove : nat -> remove_env;
  je_mark : nat -> write_env;
  je_merge : nat -> merge_env;
  je_exists : nat -> str -> bool;
  je_info : nat -> str -> result PackageInfoV2;
  je_cache_gone : nat -> result unit;
  je_cache_there : nat -> result bool;
  je_generate : nat -> bool;
  je_hooks : nat -> result unit;
  je_run_hooks : nat -> result unit;
  je_lock : nat -> lock_env;
  je_running : nat -> result (list user_entry)
}.

Section package_jobs.
Context `{Client} `{Qt} `{StdSort} `{Json} `{Yaml}.
Variable curArch : result Architecture.
Variable ll_version : str.
Variable sha256_hex : str -> str.
Variable repoDir : str.
Variable e : job_env.

Record job_state := mkJob {
  j_task : PackageTask;
  j_repo : OSTreeRepo;
  j_merged : list str;
  j_lock : lock_state;
  j_events : list job_event;
  j_time : nat
}.

Definition set_task (t : PackageTask) (s : job_state) : job_state :=
  mkJob t (j_repo s) (j_merged s) (j_lock s) (j_events s) (j_time s).
Definition set_repo (r : OSTreeRepo) (s : job_state) : job_state :=
  mkJob (j_task s) r (j_merged s) (j_lock s) (j_events s) (j_time s).

Definition J (A : Type) : Type := job_state -> job_state * option A.

Definition ret {A} (a : A) : J A := fun s => (s, Some a).
Definition bind {A B} (m : J A) (f : A -> J B) : J B := fun s =>
  match m s with
  | (s, None) => (s, None)
  | (s, Some a) => f a s
  end.
Definition die {A} : J A := fun s => (s, None).

Notation "x <-j m ;; k" := (bind m (fun x => k)) (at level 100, m at next level, right associativity).
Notation "m ;;j k" := (bind m (fun _ => k)) (at level 100, right associativity).

(** A question to the oracle. *)
Definition ask {A} (f : nat -> A) : J A := fun s =>
  (mkJob (j_task s) (j_repo s) (j_merged s) (j_lock s) (j_events s) (S (j_time s)), Some (f (j_time s))).

(** An error of the model that stands for the end of the daemon ends the job. *)
Definition try {A} (r : result A) : J (result A) :=
  match r with Err c => if c =? terminated then die else ret (Err c) | Ok a => ret (Ok a) end.

Definition gets {A} (f : job_state -> A) : J A := fun s => (s, Some (f s)).
Definition event (x : job_event) : J unit := fun s =>
  (mkJob (j_task s) (j_repo s) (j_merged s) (j_lock s) (j_events s ++ [x]) (j_time s), Some tt).
Definition on_task (f : PackageTask -> PackageTask * list Q) : J unit := fun s =>
  (set_task (fst (f (j_task s))) s, Some tt).
Definition taskContext (c : task_call) : J unit := on_task (call c).
Definition isTaskDone : J bool := gets (fun s => done_subState (m_subState (j_task s))).

(** A call of a method of the repository. *)
Definition on_repo {A} (f : OSTreeRepo -> OSTreeRepo * result A) : J (result A) := fun s =>
  let '(r, a) := f (j_repo s) in try a (set_repo r s).

(** [createTemporaryTask]: the task a rollback works for. *)
Definition with_temporary {A} (m : J A) : J A := fun s =>
  let task := j_task s in
  let '(s, a) := m (set_task (createTemporaryTask []) s) in
  (set_task task s, a).

(** [utils::Transaction]: the rollbacks that were added, the last one first; the
    destructor runs them in that order, [commit] forgets them. *)
Definition Transaction : Type := list (J unit).
Fixpoint rollback (t : Transaction) : J unit :=
  match t with
  | [] => ret tt
  | f :: rest => f ;;j rollback rest
  end.

(** ** The repository *)

Definition repo_getLayerItem (ref : Reference) (module : str) : J (result RepositoryCacheLayersItem) :=
  on_repo (fun s => (s, getLayerItem (cfg s) (rcache s) ref module None)).

Definition repo_getLayerDir_sub (ref : Reference) (module : str) (subRef : option str) : J (result str) :=
  exists_ <-j ask (je_exists e) ;;
  on_repo (fun s => (s, layer <-r getLayerItem (cfg s) (rcache s) ref module subRef ;;
                        getLayerDir repoDir exists_ layer)).
Definition repo_getLayerDir (ref : Reference) (module : str) : J (result str) := repo_getLayerDir_sub ref module None.

Definition with_cache (f : RepoCache -> RepoCache * result unit) (s : OSTreeRepo) : OSTreeRepo * result unit :=
  let '(c, r) := f (rcache s) in (set_rcache c s, r).

Definition repo_remove_sub (ref : Reference) (module : str) (subRef : option str) : J (result unit) :=
  env <-j ask (je_remove e) ;;
  on_repo (fun s => with_cache (fun c => remove ll_version env (cfg s) c ref module subRef) s).
Definition repo_remove (ref : Reference) (module : str) : J (result unit) := repo_remove_sub ref module None.

Definition repo_markDeleted (ref : Reference) (deleted : bool) (module : str) : J (result unit) :=
  env <-j ask (je_mark e) ;;
  on_repo (fun s => with_cache (fun c => markDeleted ll_version env (cfg s) c ref deleted module None) s).

(** An error is only logged. *)
Definition repo_mergeModules : J unit :=
  env <-j ask (je_merge e) ;;
  (fun s =>
     let '(c, dirs, _) := mergeModules sha256_hex ll_version env (rcache (j_repo s)) (j_merged s) in
     (mkJob (j_task s) (set_rcache c (j_repo s)) dirs (j_lock s) (j_events s) (j_time s), Some tt)).

(** The calls the progress and the user make while a pull runs. *)
Fixpoint task_calls (l : list task_call) : J unit :=
  match l with
  | [] => ret tt
  | c :: rest => taskContext c ;;j task_calls rest
  end.

(** [handleRepositoryUpdate] after the layer directory is there. *)
Definition handleRepositoryUpdate (checkout : result unit) (write : write_env) (item : RepositoryCacheLayersItem)
    : J (result unit) :=
  match checkout with
  | Err c => ret (Err c)
  | Ok _ => on_repo (with_cache (fun c => addLayerItem ll_version write c item))
  end.

(** The end of [pull]: the commit is read, checked out and recorded. *)
Definition pull_record (env : pull_env) (pullRepo : Repo) (refString : str) : J unit :=
  match pl_commit env refString with
  | Err c => taskContext (CallError c)
  | Ok (_, Err c) => taskContext (CallError c)
  | Ok (commit, Ok info) =>
      match pl_dir env with
      | Err c => taskContext (CallError c)
      | Ok _ =>
          r <-j handleRepositoryUpdate (pl_checkout env) (pl_write env) (mkLayer commit None info (repo_alias pullRepo)) ;;
          match r with Err c => taskContext (CallError c) | Ok _ => ret tt end
      end
  end.

Definition pull (reference : Reference) (module : str) (repo : option Repo) : J unit :=
  d <-j gets (fun s => getDefaultRepo (cfg (j_repo s))) ;;
  match d with
  | None => die
  | Some d =>
      let pullRepo := default d repo in
      env <-j ask (je_pull e) ;;
      let refString := ostreeSpecFromReferenceV2 reference None module None in
      let '(calls, status) := pl_ostree env refString in
      task_calls calls ;;j
      match status with
      | PullFailed c => taskContext (CallError c)
      | Pulled => pull_record env pullRepo refString
      | NoSuchBranch =>
          if bool_decide (module = lit "binary") || bool_decide (module = lit "runtime") then
            let refString := ostreeSpecFromReference reference None module in
            let '(calls, status) := pl_ostree env refString in
            task_calls calls ;;j
            match status with
            | PullFailed c => taskContext (CallError c)
            | NoSuchBranch => taskContext (CallError ec_Unknown)
            | Pulled => pull_record env pullRepo refString
            end
          else pull_record env pullRepo refString
      end
  end.

(** ** Caches and hooks *)

Definition removeCache (ref : Reference) : J (result unit) :=
  layerItem <-j repo_getLayerItem ref (lit "binary") ;;
  match layerItem with
  | Err c => ret (Err c)
  | Ok layerItem =>
      gone <-j ask (je_cache_gone e) ;;
      match gone with
      | Err c => ret (Err c)
      | Ok _ => event (CacheRemoved (l_commit layerItem)) ;;j ret (Ok tt)
      end
  end.

(** Generating fails softly: an application makes its cache when it starts. *)
Definition tryGenerateCache (ref : Reference) : J (result unit) :=
  layerItem <-j repo_getLayerItem ref (lit "binary") ;;
  match layerItem with
  | Err c => ret (Err c)
  | Ok layerItem =>
      there <-j ask (je_cache_there e) ;;
      match there with
      | Err c => ret (Err c)
      | Ok true => ret (Ok tt)
      | Ok false =>
          ok <-j ask (je_generate e) ;;
          event (CacheGenerated (l_commit layerItem) ok) ;;j ret (Ok tt)
      end
  end.

Definition executePostInstallHooks (ref : Reference) : J (result unit) :=
  parsed63 <-j ask (je_hooks e) ;;
  match parsed63 with
  | Err c => ret (Err c)
  | Ok _ =>
      layerDir <-j repo_getLayerDir ref (lit "binary") ;;
      match layerDir with
      | Err c => ret (Err c)
      | Ok _ => event (InstallHooks ref) ;;j ask (je_run_hooks e)
      end
  end.

Definition executePostUninstallHooks (ref : Reference) : J (result unit) :=
  parsed63 <-j ask (je_hooks e) ;;
  match parsed63 with
  | Err c => ret (Err c)
  | Ok _ => event (UninstallHooks ref) ;;j ask (je_run_hooks e)
  end.

Definition busy (ref : Reference) : J (result bool) :=
  env <-j ask (je_lock e) ;;
  run <-j ask (je_running e) ;;
  (fun s =>
     let '(l, r) := isRefBusy env run ref (j_lock s) in
     (mkJob (j_task s) (j_repo s) (j_merged s) l (j_events s) (j_time s), Some r)).

(** ** Dependencies *)

Definition is_main (module : str) : bool := bool_decide (module = lit "binary") || bool_decide (module = lit "runtime").

Definition failed : J unit := taskContext (CallState Failed None).

(** The runtime or base that [text] names: from the repositories, or else an
    installed one.  [None]: the task has failed. *)
Definition find_dependency (text : str) : J (option ReferenceWithRepo) :=
  match fuzzy_parse text with
  | Err c => if c =? terminated then die else failed ;;j ret None
  | Ok fuzzy =>
      remote <-j on_repo (fun s => getRemoteReferenceByPriority curArch s fuzzy (mkPriorityOpt false true) (lit "binary")) ;;
      match remote with
      | Ok r => ret (Some r)
      | Err _ =>
          local <-j on_repo (fun s => clearReference curArch s fuzzy (mkClearOpt false false true) (lit "binary") None) ;;
          match local with
          | Err _ => failed ;;j ret None
          | Ok local =>
              repos <-j gets (fun s => getHighestPriorityRepos (cfg (j_repo s))) ;;
              match repos with
              | Some (front :: _) => ret (Some (front, local))
              | _ => die
              end
          end
      end
  end.

(** Pulling a dependency that has no layer yet: its rollback, and whether to go on. *)
Definition pull_missing (subState : SubState) (dep : ReferenceWithRepo) (module lookup : str) : J (bool * Transaction) :=
  layerDir <-j repo_getLayerDir (snd dep) lookup ;;
  match layerDir with
  | Ok _ => ret (true, [])
  | Err _ =>
      done <-j isTaskDone ;;
      if done then ret (false, [])
      else
        taskContext (CallSubState subState) ;;j
        pull (snd dep) module (Some (fst dep)) ;;j
        done <-j isTaskDone ;;
        if done then ret (false, [])
        else
          hooks <-j executePostInstallHooks (snd dep) ;;
          match hooks with
          | Err _ => failed ;;j ret (false, [])
          | Ok _ =>
              ret (true, [repo_remove (snd dep) module ;;j executePostUninstallHooks (snd dep) ;;j ret tt])
          end
  end.

Definition pull_base (info : PackageInfoV2) (module : str) (t : Transaction) : J unit :=
  base <-j find_dependency (pi_base info) ;;
  match base with
  | None => rollback t
  | Some base =>
      r <-j pull_missing InstallBase base module module ;;
      if fst r then ret tt else rollback (snd r ++ t)
  end.

Definition pullDependency (info : PackageInfoV2) (module : str) : J unit :=
  if negb (bool_decide (pi_kind info = lit "app")) then ret tt
  else if negb (is_main module) then ret tt
  else
    match pi_runtime info with
    | None => pull_base info module []
    | Some text =>
        runtime <-j find_dependency text ;;
        match runtime with
        | None => ret tt
        | Some runtime =>
            r <-j pull_missing InstallRuntime runtime module (lit "binary") ;;
            if fst r then pull_base info module (snd r) else rollback (snd r)
        end
    end.

(** ** [InstallRef] *)

(** [std::find_if] over the modules still to be installed, and [erase]. *)
Definition same_module (module deletedModule : str) : bool :=
  (bool_decide (module = lit "runtime") && bool_decide (deletedModule = lit "binary")) ||
  (bool_decide (module = lit "binary") && bool_decide (deletedModule = lit "runtime")) ||
  bool_decide (module = deletedModule).

Fixpoint erase_module (modules : list str) (deletedModule : str) : option (list str) :=
  match modules with
  | [] => None
  | m :: rest =>
      if same_module m deletedModule then Some rest
      else l ← erase_module rest deletedModule; Some (m :: l)
  end.

(** Layers of the version that are marked deleted are taken back. *)
Fixpoint restore_deleted (ref : Reference) (deletedList : list RepositoryCacheLayersItem) (modules : list str)
    (t : Transaction) : J (option (list str) * Transaction) :=
  match deletedList with
  | [] => ret (Some modules, t)
  | deletedItem :: rest =>
      done <-j isTaskDone ;;
      if done then ret (None, t)
      else
        let m := packageInfoV2Module (l_info deletedItem) in
        match erase_module modules m with
        | None => restore_deleted ref rest modules t
        | Some modules =>
            r <-j repo_markDeleted ref false m ;;
            (match r with Err _ => failed | Ok _ => ret tt end) ;;j
            restore_deleted ref rest modules ((repo_markDeleted ref true m ;;j ret tt) :: t)
        end
  end.

(** Pulling the modules: [false], the function has returned. *)
Fixpoint pull_modules (ref : Reference) (repo : Repo) (modules : list str) (t : Transaction) : J (bool * Transaction) :=
  match modules with
  | [] => ret (true, t)
  | module :: rest =>
      done <-j isTaskDone ;;
      if done then ret (false, t)
      else
        pull ref module (Some repo) ;;j
        done <-j isTaskDone ;;
        if done then ret (false, t)
        else
          let t := (repo_remove ref module ;;j ret tt) :: t in
          if negb (is_main module) then pull_modules ref repo rest t
          else
            layerDir <-j repo_getLayerDir ref (lit "binary") ;;
            match layerDir with
            | Err _ => failed ;;j ret (false, t)
            | Ok dir =>
                info <-j ask (fun n => je_info e n dir) ;;
                match info with
                | Err _ => failed ;;j ret (false, t)
                | Ok info =>
                    pullDependency info (lit "binary") ;;j
                    pull_modules ref repo rest t
                end
            end
  end.

Definition deleted_query (ref : Reference) : repoCacheQuery :=
  mkQuery (Some (ref_id ref)) None (Some (ref_channel ref)) (Some (ver_toString (ref_version ref))) None None (Some true).

Definition InstallRef (ref : Reference) (modules : list str) (repo : Repo) : J unit :=
  taskContext (CallSubState PreAction) ;;j
  (match curArch with
   | Err _ => failed ;;j die
   | Ok currentArch => if bool_decide (ref_arch ref = currentArch) then ret tt else failed
   end) ;;j
  taskContext (CallSubState InstallApplication) ;;j
  deletedList <-j gets (fun s => queryLayerItem (rcache (j_repo s)) (deleted_query ref)) ;;
  restored <-j restore_deleted ref deletedList modules [] ;;
  match fst restored with
  | None => rollback (snd restored)
  | Some modules =>
      r <-j pull_modules ref repo modules (snd restored) ;;
      if fst r then ret tt else rollback (snd r)
  end.

(** ** [UninstallRef] and [removeAfterInstall] *)

(** Pulling a removed module again. *)
Definition undo_remove (ref : Reference) (module : str) : J unit :=
  with_temporary (pull ref module None) ;;j
  (if is_main module then tryGenerateCache ref ;;j ret tt else ret tt).

(** Removing modules one after another: the first error, if any. *)
Fixpoint remove_modules (ref : Reference) (modules : list str) (t : Transaction) : J (result unit * Transaction) :=
  match modules with
  | [] => ret (Ok tt, t)
  | module :: rest =>
      (if is_main module then removeCache ref ;;j ret tt else ret tt) ;;j
      r <-j repo_remove ref module ;;
      match r with
      | Err c => ret (Err c, t)
      | Ok _ => remove_modules ref rest (undo_remove ref module :: t)
      end
  end.

Definition UninstallRef (ref : Reference) (modules : list str) : J unit :=
  done <-j isTaskDone ;;
  if done then ret tt
  else
    taskContext (CallSubState Types.Uninstall) ;;j
    r <-j remove_modules ref modules [] ;;
    match fst r with
    | Err _ => taskContext (CallError ec_AppUninstallFailed) ;;j rollback (snd r)
    | Ok _ => ret tt
    end.

Fixpoint mark_modules (ref : Reference) (modules : list str) (t : Transaction) : J (result unit * Transaction) :=
  match modules with
  | [] => ret (Ok tt, t)
  | module :: rest =>
      r <-j repo_markDeleted ref true module ;;
      match r with
      | Err c => ret (Err c, t)
      | Ok _ => mark_modules ref rest ((repo_markDeleted ref false module ;;j ret tt) :: t)
      end
  end.

Definition removeAfterInstall (oldRef newRef : Reference) (modules : list str) : J (result unit) :=
  needDelay <-j busy oldRef ;;
  match needDelay with
  | Err c => ret (Err c)
  | Ok true =>
      r <-j mark_modules oldRef modules [] ;;
      match fst r with
      | Err c => rollback (snd r) ;;j ret (Err c)
      | Ok _ => ret (Ok tt)
      end
  | Ok false =>
      event (Exported newRef) ;;j
      event (Unexported oldRef) ;;j
      r <-j remove_modules oldRef modules [event (Exported oldRef); event (Unexported newRef)] ;;
      match fst r with
      | Err c => rollback (snd r) ;;j ret (Err c)
      | Ok _ => repo_mergeModules ;;j ret (Ok tt)
      end
  end.

(** ** The jobs *)

(** The modules to install and where from; a repository that is named is raised
    for the search. *)
Definition modules_to_install (newRef : Reference) (modules : list str) (repo : option Repo) : J (result (Repo * list str)) :=
  match repo with
  | None => on_repo (fun s => getRemoteModuleListByPriority curArch s newRef (Some modules) false None)
  | Some r =>
      c <-j gets (fun s => promotePriority (cfg (j_repo s)) (repo_alias r)) ;;
      match c with
      | None => die
      | Some (c, originalPriority) =>
          (fun s => (set_repo (set_cfg c (j_repo s)) s, Some tt)) ;;j
          l <-j on_repo (fun s => getRemoteModuleListByPriority curArch s newRef (Some modules) true None) ;;
          c <-j gets (fun s => recoverPriority (cfg (j_repo s)) (repo_alias r) originalPriority) ;;
          match c with
          | None => die
          | Some c => (fun s => (set_repo (set_cfg c (j_repo s)) s, Some tt)) ;;j ret l
          end
      end
  end.

(** [Install] after the modules are there: [false], it has returned early. *)
Definition after_install (newRef : Reference) (oldRef : option Reference) (modules : list str) : J bool :=
  taskContext (CallSubState PostAction) ;;j
  repo_mergeModules ;;j
  layer <-j repo_getLayerItem newRef (lit "binary") ;;
  match layer with
  | Err _ => taskContext (CallError ec_AppInstallFailed) ;;j ret false
  | Ok layer =>
      go <-j (if bool_decide (pi_kind (l_info layer) = lit "app") then
           r <-j (match oldRef with
                  | Some oldRef => removeAfterInstall oldRef newRef modules
                  | None => event (Exported newRef) ;;j ret (Ok tt)
                  end) ;;
           match r with
           | Err _ => taskContext (CallError ec_AppInstallFailed) ;;j ret false
           | Ok _ =>
               result <-j tryGenerateCache newRef ;;
               match result with
               | Err _ => taskContext (CallError ec_AppInstallFailed) ;;j ret false
               | Ok _ => ret true
               end
           end
         else ret true) ;;
      if negb go then ret false
      else
        hooks <-j executePostInstallHooks newRef ;;
        match hooks with
        | Err _ => failed ;;j ret false
        | Ok _ => ret true
        end
  end.

Definition Install (newRef : Reference) (oldRef : option Reference) (modules : list str) (repo : option Repo) : J unit :=
  taskContext (CallState Processing None) ;;j
  installModules <-j modules_to_install newRef modules repo ;;
  match installModules with
  | Err _ => taskContext (CallError ec_AppInstallFailed)
  | Ok (_, []) => taskContext (CallError ec_AppInstallModuleNotFound)
  | Ok (from, installModules) =>
      let t := [with_temporary (UninstallRef newRef installModules)] in
      InstallRef newRef installModules from ;;j
      done <-j isTaskDone ;;
      if done then rollback t
      else
        ok <-j after_install newRef oldRef modules ;;
        if ok then taskContext (CallState Succeed None) else rollback t
  end.

Definition Uninstall (ref : Reference) (module : str) : J unit :=
  done <-j isTaskDone ;;
  if done then ret tt
  else
    taskContext (CallState Processing None) ;;j
    taskContext (CallSubState PreAction) ;;j
    start <-j (if is_main module then
         modules <-j gets (fun s => getModuleList (rcache (j_repo s)) ref) ;;
         event (Unexported ref) ;;j
         ret (modules, [event (Exported ref)])
       else ret ([module], [])) ;;
    UninstallRef ref (fst start) ;;j
    done <-j isTaskDone ;;
    if done then rollback (snd start)
    else
      executePostUninstallHooks ref ;;j
      taskContext (CallState Succeed None) ;;j
      repo_mergeModules.

Definition Update (oldRef : Reference) (new : ReferenceWithRepo) : J unit :=
  let newRef := snd new in
  taskContext (CallState Processing None) ;;j
  modules <-j gets (fun s => getModuleList (rcache (j_repo s)) oldRef) ;;
  installModules <-j on_repo (fun s => getRemoteModuleListByPriority curArch s newRef (Some modules) false (Some (fst new))) ;;
  match installModules with
  | Err _ => taskContext (CallError ec_AppUpgradeFailed)
  | Ok (_, []) => taskContext (CallError ec_AppUpgradeFailed)
  | Ok (from, installModules) =>
      InstallRef newRef installModules from ;;j
      done <-j isTaskDone ;;
      if done then ret tt
      else
        repo_getLayerItem oldRef (lit "binary") ;;j
        taskContext (CallState PartCompleted None) ;;j
        b <-j busy oldRef ;;
        (match b with
         | Ok true => on_task (fun t => (set_subState PackageManagerDone t, []))
         | _ => ret tt
         end) ;;j
        newItem <-j repo_getLayerItem newRef (lit "binary") ;;
        match newItem with
        | Err _ => ret tt
        | Ok newItem =>
            if negb (bool_decide (pi_kind (l_info newItem) = lit "app")) then repo_mergeModules
            else
              r <-j removeAfterInstall oldRef newRef modules ;;
              match r with
              | Err _ => ret tt
              | Ok _ =>
                  hooks <-j executePostInstallHooks newRef ;;
                  match hooks with
                  | Err _ => ret tt
                  | Ok _ =>
                      result <-j tryGenerateCache newRef ;;
                      match result with
                      | Err _ => taskContext (CallError ec_AppUpgradeFailed)
                      | Ok _ => repo_mergeModules
                      end
                  end
              end
        end
  end.

(** The job [Update] queues: the packages one after another, until the task is
    done. *)
Fixpoint update_job (upgrades : list (Reference * ReferenceWithRepo)) : J unit :=
  match upgrades with
  | [] => ret tt
  | (reference, newReference) :: rest =>
      stop <-j gets (fun s => bool_decide (m_subState (j_task s) = AllDone)) ;;
      if stop then ret tt else Update reference newReference ;;j update_job rest
  end.

End package_jobs.

(** ** How the jobs change the layers *)

#[local] Notation "x <-j m ;; k" := (bind m (fun x => k)) (at level 100, m at next level, right associativity).
#[local] Notation "m ;;j k" := (bind m (fun _ => k)) (at level 100, right associativity).

Section layers_changed.
Context `{Qt}.
Variable R : Reference -> Prop.

(** [l'] comes from [l] by adding layers with versions that compare, and by
    removing and marking layers of references that satisfy [R]. *)
Inductive changed : list RepositoryCacheLayersItem -> list RepositoryCacheLayersItem -> Prop :=
| changed_refl l : changed l l
| changed_add l x v l' : layer_version x v -> changed (l ++ [x]) l' -> changed l l'
| changed_remove l1 x l2 ref l' : R ref -> texts_of ref x -> changed (l1 ++ l2) l' -> changed (l1 ++ x :: l2) l'
| changed_mark l1 x l2 d ref l' : R ref -> texts_of ref x ->
    changed (l1 ++ set_deleted d x :: l2) l' -> changed (l1 ++ x :: l2) l'.

#[export] Instance changed_preorder : PreOrder changed.
Proof. split; [exact changed_refl|]. intros a b d. induction 1; eauto using changed. Qed.

Lemma changed_comparable l l' : changed l l' -> comparable l -> comparable l'.
Proof.
  unfold comparable. induction 1 as [|? x v|l1 x l2 ref|l1 x l2 d ref]; intros Hc; [done|apply IHchanged..].
  - apply Forall_app. split; [done|]. by repeat constructor; exists v.
  - apply Forall_app in Hc as [? [_ ?]%Forall_cons]. by apply Forall_app.
  - apply Forall_app in Hc as [? [Hx ?]%Forall_cons]. apply Forall_app. split; [done|]. by constructor.
Qed.

Lemma changed_keeps l l' x : changed l l' -> x ∈ l -> (forall ref, R ref -> ~ texts_of ref x) -> x ∈ l'.
Proof.
  induction 1 as [|? y v|l1 y l2 ref|l1 y l2 d ref]; intros Hx Hn; [done|apply IHchanged; [|done]..].
  - set_solver.
  - apply elem_of_app in Hx as [?|[->|?]%elem_of_cons]; [set_solver| |set_solver]. by destruct (Hn ref).
  - apply elem_of_app in Hx as [?|[->|?]%elem_of_cons]; [set_solver| |set_solver]. by destruct (Hn ref).
Qed.

End layers_changed.

Lemma changed_weaken `{Qt} (R R' : Reference -> Prop) l l' : (forall r, R r -> R' r) -> changed R l l' -> changed R' l l'.
Proof. induction 2; eauto using changed. Qed.

Lemma alter_middle {A} (f : A -> A) l1 x l2 : alter f (length l1) (l1 ++ x :: l2) = l1 ++ f x :: l2.
Proof. induction l1 as [|y l1 IH]; [done|]. cbn. by f_equal. Qed.

Lemma pruned_changed `{Qt} (R : Reference -> Prop) l l' : pruned R l l' -> changed R l l'.
Proof. induction 1 as [l|l1 x l2 l' ref]; [constructor|]. by apply changed_remove with ref. Qed.

Abbreviation layers s := (rc_layers (cache (rcache (j_repo s)))).

Section job_steps.
Context `{Client} `{Qt} `{StdSort} `{Json} `{Yaml}.

(** A step changes layers of [R] only and gives a [Q]. *)
Definition op {A} (R : Reference -> Prop) (Q : A -> Prop) (m : J A) : Prop :=
  forall s, comparable (layers s) ->
    let '(s', a) := m s in changed R (layers s) (layers s') /\ match a with Some a => Q a | None => True end.

Section steps.
Variable R : Reference -> Prop.

Lemma op_bind {A B} (Q : A -> Prop) (Q' : B -> Prop) (m : J A) (f : A -> J B) :
  op R Q m -> (forall a, Q a -> op R Q' (f a)) -> op R Q' (bind m f).
Proof.
  intros Hm Hf s Hc. unfold bind. specialize (Hm s Hc). destruct (m s) as [s1 [a|]]; [|done].
  destruct Hm as [Hch Ha]. specialize (Hf a Ha s1 (changed_comparable _ _ _ Hch Hc)).
  destruct (f a s1) as [s2 b]. destruct Hf as [Hch2 Hb]. split; [by etrans|done].
Qed.

Lemma op_seq {A B} (Q' : B -> Prop) (m : J A) (k : J B) :
  op R (fun _ => True) m -> op R Q' k -> op R Q' (bind m (fun _ => k)).
Proof. intros Hm Hk. by eapply op_bind; [exact Hm|]. Qed.

Lemma op_any {A} (Q : A -> Prop) m : op R Q m -> op R (fun _ => True) m.
Proof. intros Hm s Hc. specialize (Hm s Hc). destruct (m s) as [s' [a|]]; [by destruct Hm|done]. Qed.

(** A step that leaves the layers alone. *)
Lemma op_still {A} (Q : A -> Prop) (m : J A) :
  (forall s, layers (m s).1 = layers s /\ match (m s).2 with Some a => Q a | None => True end) -> op R Q m.
Proof. intros Hm s _. specialize (Hm s). destruct (m s) as [s' a]. cbn in Hm. destruct Hm as [-> ?]. split; [constructor|done]. Qed.

Lemma op_ret {A} (Q : A -> Prop) a : Q a -> op R Q (ret a).
Proof. intros. by apply op_still. Qed.
Lemma op_die {A} (Q : A -> Prop) : op R Q die.
Proof. by apply op_still. Qed.
Lemma op_ask {A} (Q : A -> Prop) (f : nat -> A) : (forall n, Q (f n)) -> op R Q (ask f).
Proof. intros Hq. apply op_still. intros s. cbn. done. Qed.
Lemma op_asked {A} (f : nat -> A) : op R (fun _ => True) (ask f).
Proof. by apply op_ask. Qed.
Lemma op_gets {A} (f : job_state -> A) : op R (fun _ => True) (gets f).
Proof. by apply op_still. Qed.
Lemma op_task f : op R (fun _ => True) (on_task f).
Proof. by apply op_still. Qed.
Lemma op_event x : op R (fun _ => True) (event x).
Proof. by apply op_still. Qed.

(** A method that leaves the cache alone. *)
Lemma op_repo {A} (Q : A -> Prop) (f : OSTreeRepo -> OSTreeRepo * result A) :
  (forall s, comparable (rc_layers (cache (rcache s))) ->
     rcache (f s).1 = rcache s /\ match (f s).2 with Ok a => Q a | Err _ => True end) ->
  op R (fun r => match r with Ok a => Q a | Err _ => True end) (on_repo f).
Proof.
  intros Hf s Hc. unfold on_repo. specialize (Hf (j_repo s) Hc).
  unfold try, ret, die. destruct (f (j_repo s)) as [r [a|c]]; cbn [fst snd] in *; destruct Hf as [Hr ?];
    [|destruct (c =? terminated)]; cbn [j_repo set_repo]; rewrite Hr; by split; [constructor|].
Qed.

(** A method that changes the cache. *)
Lemma op_cache {A} (f : OSTreeRepo -> OSTreeRepo * result A) :
  (forall s, comparable (rc_layers (cache (rcache s))) ->
     changed R (rc_layers (cache (rcache s))) (rc_layers (cache (rcache (f s).1)))) ->
  op R (fun _ => True) (on_repo f).
Proof.
  intros Hf s Hc. unfold on_repo. specialize (Hf (j_repo s) Hc).
  destruct (f (j_repo s)) as [r [a|c]]; cbn in *; [done|]. by destruct (c =? terminated).
Qed.

Lemma op_temporary {A} (Q : A -> Prop) (m : J A) : op R Q m -> op R Q (with_temporary m).
Proof.
  intros Hm s Hc. unfold with_temporary. specialize (Hm (set_task (createTemporaryTask []) s) Hc).
  by destruct (m _) as [s' a].
Qed.

Lemma op_calls l : op R (fun _ => True) (task_calls l).
Proof. induction l; cbn [task_calls]; [by apply op_ret|]. apply op_seq; [apply op_task|done]. Qed.

Lemma op_rollback t : Forall (op R (fun _ => True)) t -> op R (fun _ => True) (rollback t).
Proof. induction 1; cbn [rollback]; [by apply op_ret|]. by apply op_seq. Qed.

End steps.
End job_steps.

Create HintDb jobs.
#[export] Hint Resolve op_ret op_die op_asked op_gets op_task op_event op_calls op_temporary : jobs.

(** Walks through the binds of a job and the cases of its matches. *)
Ltac job :=
  repeat first
    [ progress cbv zeta
    | match goal with |- op _ _ (match ?x with _ => _ end) => destruct x eqn:? end
    | progress (unfold isTaskDone, taskContext, failed)
    | solve [eauto with jobs]
    | match goal with
      | |- op _ _ (bind _ (fun _ => ?k)) => apply op_seq
      | |- op _ _ (bind _ _) => eapply op_bind; [solve [eauto with jobs]|intros ? _]
      end ].

Section job_facts.
Context `{Client} `{Qt} `{StdSort} `{Json} `{Yaml}.
Variable curArch : result Architecture.
Variable ll_version : str.
Variable sha256_hex : str -> str.
Variable repoDir : str.
Variable e : job_env.

(** Every package that is pulled has a version that compares. *)
Definition good_pulls : Prop := forall n spec commit info,
  pl_commit (je_pull e n) spec = Ok (commit, Ok info) ->
  exists v, version_parse (pi_version info) default_options = Ok v /\ parsed63 v.

(** *** The repository *)

Lemma addLayerItem_changed (R : Reference -> Prop) env c item v : layer_version item v ->
  changed R (rc_layers (cache c)) (rc_layers (cache (addLayerItem ll_version env c item).1)).
Proof.
  intros Hv. unfold addLayerItem. destruct (findMatchingItem c item); [constructor|].
  pose proof (write_cases ll_version env (set_cache (with_layers (cache c) (rc_layers (cache c) ++ [item])) c)) as Hw.
  destruct (writeToDisk _ _ _) as [c' r]. destruct Hw as [Hw _]. cbn [fst]. rewrite Hw.
  apply changed_add with item v; [done|constructor].
Qed.

Lemma remove_changed (R : Reference -> Prop) env config c ref module sub : comparable (rc_layers (cache c)) -> R ref ->
  changed R (rc_layers (cache c)) (rc_layers (cache (remove ll_version env config c ref module sub).1)).
Proof.
  intros Hc HR. pose proof (remove_pruned ll_version env config c ref module sub R Hc HR) as Hp.
  destruct (remove _ _ _ _ _ _ _) as [c' r]. cbn [fst]. by apply pruned_changed.
Qed.

Lemma markDeleted_changed (R : Reference -> Prop) env config c ref d module : comparable (rc_layers (cache c)) -> R ref ->
  changed R (rc_layers (cache c)) (rc_layers (cache (markDeleted ll_version env config c ref d module None).1)).
Proof.
  intros Hc HR. unfold markDeleted. destruct (getLayerItem _ _ _ _ _) as [layer|] eqn:E; [|constructor].
  apply getLayerItem_texts in E as (_ & Hi & Hch & Hv); [|done].
  pose proof (find_matching c layer) as Hf. destruct (findMatchingItem c layer) as [i|]; [|constructor].
  destruct Hf as (l1 & x & l2 & El & <- & Hk).
  assert (Ht : texts_of ref x).
  { unfold item_key in Hk. injection Hk. intros. unfold texts_of. split_and!; congruence. }
  assert (Hm : forall f, changed R (rc_layers (cache c)) (alter (set_deleted f) (length l1) (rc_layers (cache c)))).
  { intros f. rewrite El, alter_middle. by apply (changed_mark R l1 x l2 f ref); [| |constructor]. }
  match goal with |- context [writeToDisk ?v ?w ?y] => pose proof (write_cases v w y) as Hw end.
  destruct (writeToDisk _ _ _) as [c' [u|]]; destruct Hw as [Hw _]; cbn [fst]; [rewrite Hw; apply Hm|].
  cbn. rewrite Hw. cbn. rewrite El, list_lookup_middle, !alter_middle by done. destruct x. constructor.
Qed.

Section repository_steps.
Variable R : Reference -> Prop.

Lemma op_remove_sub ref module sub : R ref -> op R (fun _ => True) (repo_remove_sub ll_version e ref module sub).
Proof.
  intros HR. unfold repo_remove_sub. eapply op_bind; [apply op_asked|]. intros env _. apply op_cache.
  intros s Hc. unfold with_cache. pose proof (remove_changed R env (cfg s) (rcache s) ref module sub Hc HR) as Hr.
  by destruct (remove _ _ _ _ _ _ _).
Qed.
Lemma op_remove ref module : R ref -> op R (fun _ => True) (repo_remove ll_version e ref module).
Proof. apply op_remove_sub. Qed.

Lemma op_mark ref d module : R ref -> op R (fun _ => True) (repo_markDeleted ll_version e ref d module).
Proof.
  intros HR. unfold repo_markDeleted. eapply op_bind; [apply op_asked|]. intros env _. apply op_cache.
  intros s Hc. unfold with_cache. pose proof (markDeleted_changed R env (cfg s) (rcache s) ref d module Hc HR) as Hr.
  by destruct (markDeleted _ _ _ _ _ _ _ _).
Qed.

Lemma op_merge : op R (fun _ => True) (repo_mergeModules ll_version sha256_hex e).
Proof.
  unfold repo_mergeModules. eapply op_bind; [apply op_asked|]. intros env _. apply op_still. intros s.
  pose proof (mergeModules_layers ll_version sha256_hex env (rcache (j_repo s)) (j_merged s)) as Hm.
  by destruct (mergeModules _ _ _ _ _) as [[c dirs] r].
Qed.

Lemma op_getLayerItem ref module : op R (fun _ => True) (repo_getLayerItem ref module).
Proof. eapply op_any, (op_repo R (fun _ => True)). intros s _. split; [done|]. by destruct (getLayerItem _ _ _ _ _). Qed.

Lemma op_getLayerDir_sub ref module sub : op R (fun _ => True) (repo_getLayerDir_sub repoDir e ref module sub).
Proof.
  unfold repo_getLayerDir_sub. eapply op_bind; [apply op_asked|]. intros ex _.
  eapply op_any, (op_repo R (fun _ => True)). intros s _. split; [done|]. by case_match.
Qed.
Lemma op_getLayerDir ref module : op R (fun _ => True) (repo_getLayerDir repoDir e ref module).
Proof. apply op_getLayerDir_sub. Qed.

Lemma op_record env repo spec :
  (forall s commit info, pl_commit env s = Ok (commit, Ok info) ->
     exists v, version_parse (pi_version info) default_options = Ok v /\ parsed63 v) ->
  op R (fun _ => True) (pull_record ll_version env repo spec).
Proof.
  intros Hg. unfold pull_record. destruct (pl_commit env spec) as [[commit [info|]]|] eqn:Ep; job.
  destruct (Hg _ _ _ Ep) as (v & Hv). eapply (op_bind R (fun _ => True)); [|intros r _; job].
  unfold handleRepositoryUpdate. job. apply op_cache. intros s Hc. unfold with_cache.
  pose proof (addLayerItem_changed R (pl_write env) (rcache s) (mkLayer commit None info (repo_alias repo)) v Hv) as Ha.
  by destruct (addLayerItem _ _ _ _).
Qed.

Lemma op_pull ref module repo : good_pulls -> op R (fun _ => True) (pull ll_version e ref module repo).
Proof.
  intros Hg. unfold pull. eapply op_bind; [apply op_gets|]. intros d _. destruct d as [d|]; [|apply op_die].
  eapply op_bind; [by apply (op_ask R (fun env => forall s commit info, pl_commit env s = Ok (commit, Ok info) ->
    exists v, version_parse (pi_version info) default_options = Ok v /\ parsed63 v)); intros n; apply Hg|].
  intros env Henv. pose proof (op_record env) as Hrec. job.
Qed.

(** *** Caches, hooks and dependencies *)

#[local] Hint Resolve op_remove op_mark op_merge op_getLayerItem op_getLayerDir op_pull : jobs.

Lemma op_removeCache ref : op R (fun _ => True) (removeCache e ref).
Proof. unfold removeCache. job. Qed.

Lemma op_tryGenerateCache ref : op R (fun _ => True) (tryGenerateCache e ref).
Proof. unfold tryGenerateCache. job. Qed.

Lemma op_installHooks ref : op R (fun _ => True) (executePostInstallHooks repoDir e ref).
Proof. unfold executePostInstallHooks. job. Qed.

Lemma op_uninstallHooks ref : op R (fun _ => True) (executePostUninstallHooks e ref).
Proof. unfold executePostUninstallHooks. job. Qed.

Lemma op_busy ref : op R (fun _ => True) (busy e ref).
Proof.
  unfold busy. job. apply op_still. intros s. by destruct (isRefBusy _ _ _ _) as [l r].
Qed.

#[local] Hint Resolve op_removeCache op_tryGenerateCache op_installHooks op_uninstallHooks op_busy : jobs.

(** The references a dependency text may stand for. *)
Definition dependency_in (text : str) : Prop :=
  forall fuzzy r, fuzzy_parse text = Ok fuzzy -> ref_id r = fz_id fuzzy -> R r.

Lemma op_find_dependency text : dependency_in text ->
  op R (fun d => match d with Some d => R (snd d) | None => True end) (find_dependency curArch text).
Proof.
  intros Hd. unfold find_dependency. destruct (fuzzy_parse text) as [fuzzy|c] eqn:Ef; [|job].
  eapply op_bind.
  { apply (op_repo R (fun d : ReferenceWithRepo => R (snd d))). intros s _.
    pose proof (byPriority_framed curArch s fuzzy (mkPriorityOpt false true) (lit "binary")) as (_ & Hf & _).
    split; [exact Hf|].
    destruct (getRemoteReferenceByPriority _ _ _ _ _) as [s' [[repo r]|]] eqn:E; [|done].
    apply byPriority_fits in E as [Hi _]. by apply (Hd fuzzy r). }
  intros [r|c] Hr; [by apply op_ret|]. eapply op_bind.
  { apply (op_repo R R). intros s Hc.
    unfold clearReference. cbn [forceRemote fallbackToRemote semanticMatching].
    destruct (clearReferenceLocal curArch (rcache s) fuzzy true) as [r|] eqn:E; cbn [negb orb]; [|done].
    split; [done|]. apply clearReferenceLocal_elem in E as (x & _ & Hi & Hx); [|done].
    apply fromPackageInfo_inv in Hx as (_ & Hx & _). apply (Hd fuzzy r); [done|]. cbn [snd] in *. congruence. }
  intros [r|c'] Hr'; [|job]. eapply op_bind; [apply op_gets|]. intros repos _.
  destruct repos as [[|front rest]|]; [apply op_die|by apply op_ret|apply op_die].
Qed.

Lemma op_pull_missing subState dep module lookup : good_pulls -> R (snd dep) ->
  op R (fun r => Forall (op R (fun _ => True)) (snd r)) (pull_missing ll_version repoDir e subState dep module lookup).
Proof.
  intros Hg HR. unfold pull_missing.
  assert (Hu : op R (fun _ : unit => True)
    (repo_remove ll_version e (snd dep) module ;;j executePostUninstallHooks e (snd dep) ;;j ret tt)) by job.
  job; apply op_ret; by repeat constructor.
Qed.

Lemma op_pullDependency info module : good_pulls -> dependency_in (pi_base info) ->
  (forall t, pi_runtime info = Some t -> dependency_in t) ->
  op R (fun _ => True) (pullDependency curArch ll_version repoDir e info module).
Proof.
  intros Hg Hb Hr.
  assert (Hbase : forall t, Forall (op R (fun _ => True)) t ->
    op R (fun _ => True) (pull_base curArch ll_version repoDir e info module t)).
  { intros t Ht. unfold pull_base. eapply op_bind; [by apply op_find_dependency|]. intros [base|] HR; [|by apply op_rollback].
    eapply op_bind; [by apply op_pull_missing|]. intros r Hr'. destruct (fst r); [by apply op_ret|].
    apply op_rollback. by apply Forall_app. }
  unfold pullDependency. destruct (negb _); [by apply op_ret|]. destruct (negb _); [by apply op_ret|].
  destruct (pi_runtime info) as [text|]; [|by apply Hbase].
  eapply op_bind; [by apply op_find_dependency, Hr|]. intros [runtime|] HR; [|by apply op_ret].
  eapply op_bind; [by apply op_pull_missing|]. intros r Hr'. destruct (fst r); [by apply Hbase|by apply op_rollback].
Qed.

(** *** Installing and removing *)

(** No package on disk has a dependency outside of [R]. *)
Definition dependencies_in : Prop := forall n dir info, je_info e n dir = Ok info ->
  dependency_in (pi_base info) /\ forall t, pi_runtime info = Some t -> dependency_in t.

#[local] Hint Resolve op_rollback : jobs.

Lemma op_restore_deleted ref l modules t : R ref -> Forall (op R (fun _ => True)) t ->
  op R (fun r => Forall (op R (fun _ => True)) (snd r)) (restore_deleted ll_version e ref l modules t).
Proof.
  intros HR. revert modules t. induction l as [|x l IH]; intros modules t Ht; cbn [restore_deleted]; [by apply op_ret|].
  eapply op_bind; [apply op_gets|]. intros done _. destruct done; [by apply op_ret|]. cbv zeta.
  destruct (erase_module modules _) as [modules'|]; [|by apply IH].
  eapply op_bind; [by apply op_mark|]. intros r _. apply op_seq; [job|]. apply IH. constructor; [job|done].
Qed.

Lemma op_pull_modules ref repo modules t : good_pulls -> dependencies_in -> R ref ->
  Forall (op R (fun _ => True)) t ->
  op R (fun r => Forall (op R (fun _ => True)) (snd r)) (pull_modules curArch ll_version repoDir e ref repo modules t).
Proof.
  intros Hg Hd HR. revert t. induction modules as [|m modules IH]; intros t Ht; cbn [pull_modules]; [by apply op_ret|].
  assert (Ht' : Forall (op R (fun _ => True)) ((repo_remove ll_version e ref m ;;j ret tt) :: t)) by (constructor; [job|done]).
  eapply op_bind; [apply op_gets|]. intros done _. destruct done; [by apply op_ret|].
  apply op_seq; [by apply op_pull|]. eapply op_bind; [apply op_gets|]. intros done _. destruct done; [by apply op_ret|].
  cbv zeta. destruct (negb (is_main m)); [by apply IH|].
  eapply op_bind; [apply op_getLayerDir|]. intros [dir|c] _; [|job].
  eapply op_bind.
  { apply (op_ask R (fun r => match r with
      | Ok info => dependency_in (pi_base info) /\ forall t, pi_runtime info = Some t -> dependency_in t
      | Err _ => True end)). intros n. destruct (je_info e n dir) as [info|] eqn:Ei; [by eapply Hd|done]. }
  intros [info|c] Hi; [destruct Hi as [Hb Hr]|job; by apply op_ret].
  apply op_seq; [by apply op_pullDependency|by apply IH].
Qed.

Lemma op_InstallRef ref modules repo : good_pulls -> dependencies_in -> R ref ->
  op R (fun _ => True) (InstallRef curArch ll_version repoDir e ref modules repo).
Proof.
  intros Hg Hd HR. unfold InstallRef. apply op_seq; [apply op_task|].
  apply op_seq; [destruct curArch; job|]. apply op_seq; [apply op_task|].
  eapply op_bind; [apply op_gets|]. intros l _.
  eapply op_bind; [by apply op_restore_deleted; [|constructor]|]. intros [[modules'|] t] Ht; [|by apply op_rollback].
  eapply op_bind; [by apply op_pull_modules|]. intros [[|] t'] Ht'; [by apply op_ret|by apply op_rollback].
Qed.

Lemma op_remove_modules ref modules t : good_pulls -> R ref -> Forall (op R (fun _ => True)) t ->
  op R (fun r => Forall (op R (fun _ => True)) (snd r)) (remove_modules ll_version e ref modules t).
Proof.
  intros Hg HR. revert t. induction modules as [|m modules IH]; intros t Ht; cbn [remove_modules]; [by apply op_ret|].
  apply op_seq; [job|]. eapply op_bind; [by apply op_remove|]. intros [|c] _; [|by apply op_ret].
  apply IH. constructor; [|done]. unfold undo_remove. apply op_seq; [apply op_temporary; by apply op_pull|job].
Qed.

Lemma op_UninstallRef ref modules : good_pulls -> R ref ->
  op R (fun _ => True) (UninstallRef ll_version e ref modules).
Proof.
  intros Hg HR. unfold UninstallRef. eapply op_bind; [apply op_gets|]. intros done _. destruct done; [by apply op_ret|].
  apply op_seq; [apply op_task|]. eapply op_bind; [by apply op_remove_modules; [..|constructor]|]. intros [[|c] t] Ht; job.
Qed.

Lemma op_mark_modules ref modules t : R ref -> Forall (op R (fun _ => True)) t ->
  op R (fun r => Forall (op R (fun _ => True)) (snd r)) (mark_modules ll_version e ref modules t).
Proof.
  intros HR. revert t. induction modules as [|m modules IH]; intros t Ht; cbn [mark_modules]; [by apply op_ret|].
  eapply op_bind; [by apply op_mark|]. intros [|c] _; [|by apply op_ret]. apply IH. constructor; [job|done].
Qed.

Lemma op_removeAfterInstall oldRef newRef modules : good_pulls -> R oldRef ->
  op R (fun _ => True) (removeAfterInstall ll_version sha256_hex e oldRef newRef modules).
Proof.
  intros Hg HR. unfold removeAfterInstall. eapply op_bind; [apply op_busy|]. intros [[|]|c] _; [| |job].
  - eapply op_bind; [by apply op_mark_modules; [|constructor]|]. intros [[|c] t] Ht; job.
  - apply op_seq; [apply op_event|]. apply op_seq; [apply op_event|].
    eapply op_bind; [apply op_remove_modules; [done..|repeat constructor; apply op_event]|]. intros [[|c] t] Ht; job.
Qed.

End repository_steps.

(** ** Updating keeps the application *)

Section kept.
Variable R : Reference -> Prop.
(** [I] survives the steps of [R] and is enough for [G]. *)
Variables I G : list RepositoryCacheLayersItem -> Prop.
Hypothesis I_step : forall l l', changed R l l' -> I l -> I l'.
Hypothesis I_enough : forall l, I l -> G l.

Definition upto {A} (m : J A) : Prop :=
  forall s, comparable (layers s) -> I (layers s) -> G (layers (m s).1).

Lemma upto_op {A} (Q : A -> Prop) (m : J A) : op R Q m -> upto m.
Proof using I_step I_enough.
  intros Hm s Hc Hi. specialize (Hm s Hc). destruct (m s) as [s' a].
  destruct Hm as [Hch _]. by apply I_enough, (I_step _ _ Hch).
Qed.

Lemma upto_bind {A B} (Q : A -> Prop) (m : J A) (f : A -> J B) :
  op R Q m -> (forall a, Q a -> upto (f a)) -> upto (bind m f).
Proof using I_step I_enough.
  intros Hm Hf s Hc Hi. unfold bind. specialize (Hm s Hc). destruct (m s) as [s1 [a|]]; destruct Hm as [Hch Ha].
  - apply (Hf a Ha); [by eapply changed_comparable|by eapply I_step].
  - by apply I_enough, (I_step (layers s)).
Qed.

End kept.

(** No package on disk names the application as its base or runtime. *)
Definition no_own_dependency (id : str) : Prop := forall n dir info text fuzzy,
  je_info e n dir = Ok info -> (text = pi_base info \/ pi_runtime info = Some text) ->
  fuzzy_parse text = Ok fuzzy -> fz_id fuzzy <> id.

Lemma getRemoteModuleList_framed s ref filter repo : framed s (getRemoteModuleList curArch s ref filter repo).1.
Proof.
  unfold getRemoteModuleList. destruct (fuzzy_create _ _ _ _) as [fuzzy|]; [|done].
  pose proof (listRemote_framed curArch s fuzzy (Some repo)) as Hf.
  destruct (listRemote _ _ _ _) as [s' [[|i l]|]]; [done| |done]. by destruct filter.
Qed.

Lemma modulesByPriority_framed s ref filter onlyHighest repo :
  framed s (getRemoteModuleListByPriority curArch s ref filter onlyHighest repo).1.
Proof.
  unfold getRemoteModuleListByPriority. cbv zeta.
  assert (Hone : forall s r, framed s (let '(s, m) := getRemoteModuleList curArch s ref filter r in
     match m with Ok l => (s, Ok (r, l)) | Err c => (s, Err c) end).1).
  { intros s0 r. pose proof (getRemoteModuleList_framed s0 ref filter r) as Hf.
    by destruct (getRemoteModuleList _ _ _ _ _) as [s' [l|c]]. }
  destruct repo as [r|]; [apply Hone|]. destruct (getHighestPriorityRepos (cfg s)) as [repos|]; [|done].
  destruct onlyHighest; [destruct repos; [done|apply Hone]|]. revert s. induction repos as [|r repos IH]; intros s; [done|].
  cbn [first_modules]. pose proof (getRemoteModuleList_framed s ref filter r) as Hf.
  destruct (getRemoteModuleList _ _ _ _ _) as [s' [[|m l]|c]]; [by etrans|done|done].
Qed.

Lemma op_modules R ref filter onlyHighest repo :
  op R (fun _ => True) (on_repo (fun s => getRemoteModuleListByPriority curArch s ref filter onlyHighest repo)).
Proof.
  eapply op_any, (op_repo R (fun _ => True)). intros s _.
  pose proof (modulesByPriority_framed s ref filter onlyHighest repo) as (_ & Hf & _). split; [exact Hf|]. by case_match.
Qed.

(** What the end of [Update] does once the new version has a main layer. *)
Definition update_end (oldRef newRef : Reference) (modules : list str) (newItem : RepositoryCacheLayersItem) : J unit :=
  if negb (bool_decide (pi_kind (l_info newItem) = lit "app")) then repo_mergeModules ll_version sha256_hex e
  else
    r <-j removeAfterInstall ll_version sha256_hex e oldRef newRef modules ;;
    match r with
    | Err _ => ret tt
    | Ok _ =>
        hooks <-j executePostInstallHooks repoDir e newRef ;;
        match hooks with
        | Err _ => ret tt
        | Ok _ =>
            result <-j tryGenerateCache e newRef ;;
            match result with
            | Err _ => taskContext (CallError ec_AppUpgradeFailed)
            | Ok _ => repo_mergeModules ll_version sha256_hex e
            end
        end
    end.

#[local] Hint Resolve op_removeAfterInstall op_installHooks op_tryGenerateCache op_merge op_busy op_getLayerItem : jobs.

Lemma op_update_end oldRef newRef modules newItem : good_pulls ->
  op (fun r => r = oldRef) (fun _ => True) (update_end oldRef newRef modules newItem).
Proof. intros Hg. unfold update_end. job. Qed.

(** A main layer of a reference. *)
Definition has_main (ref : Reference) (l : list RepositoryCacheLayersItem) : Prop :=
  exists y, y ∈ l /\ texts_of ref y /\ main_module (l_info y) = true.

Lemma has_main_changed (R : Reference -> Prop) ref l l' : changed R l l' ->
  (forall r, R r -> ver_toString (ref_version r) <> ver_toString (ref_version ref) \/ ref_id r <> ref_id ref) ->
  has_main ref l -> has_main ref l'.
Proof.
  intros Hch HR (y & Hy & Ht & Hm). exists y. split; [|done].
  apply (changed_keeps _ _ _ _ Hch Hy). intros r Hr (Hi & _ & Hv).
  destruct Ht as (Hi' & _ & Hv'). destruct (HR r Hr) as [Hn|Hn]; apply Hn; [by rewrite <- Hv|by rewrite <- Hi].
Qed.

(** C7: whatever fails on the way -- pulls, the cache file, hooks, locks -- and
    wherever the update stops, either the installed layer of the old version
    is still there as it was, or the new version has a main layer. *)
Theorem update_keeps_application s oldRef new x : comparable (layers s) -> good_pulls ->
  no_own_dependency (ref_id oldRef) ->
  ver_toString (ref_version (snd new)) <> ver_toString (ref_version oldRef) ->
  x ∈ layers s -> texts_of oldRef x ->
  let s' := fst (Update curArch ll_version sha256_hex repoDir e oldRef new s) in
  x ∈ layers s' \/ has_main (snd new) (layers s').
Proof.
  intros Hc Hg Hd Hv Hx Ht. cbv zeta. revert s Hc Hx.
  set (R := fun r => r = snd new \/ ref_id r <> ref_id oldRef).
  set (G := fun l => x ∈ l \/ has_main (snd new) l). change (upto (fun l => x ∈ l) G
    (Update curArch ll_version sha256_hex repoDir e oldRef new)).
  assert (Hkeep : forall l l', changed R l l' -> x ∈ l -> x ∈ l').
  { intros l l' Hch Hx. apply (changed_keeps _ _ _ _ Hch Hx). intros r [->|Hr] Htr; unfold texts_of in *; intuition congruence. }
  assert (Henough : forall l, x ∈ l -> G l) by (by left).
  assert (Hdep : dependencies_in R).
  { intros n dir info Hi. split; [|intros t Et]; intros fuzzy r Ef Er; right; rewrite Er;
      eapply Hd; eauto. }
  assert (Hend : forall modules item s, comparable (layers s) -> has_main (snd new) (layers s) ->
    G (layers (update_end oldRef (snd new) modules item s).1)).
  { intros modules item. apply (upto_op (fun r => r = oldRef) (has_main (snd new)) G) with (fun _ => True);
      [|by right|by apply op_update_end].
    intros l l' Hch. apply (has_main_changed (fun r => r = oldRef)); [done|]. intros r ->. left. congruence. }
  pose proof (fun A B => @upto_bind R (fun l => x ∈ l) G Hkeep Henough A B) as Hbind.
  pose proof (fun A => @upto_op R (fun l => x ∈ l) G Hkeep Henough A) as Hop.
  unfold Update. eapply Hbind; [apply op_task|intros _ _]. eapply Hbind; [apply op_gets|intros modules _].
  eapply Hbind; [apply op_modules|]. intros [[from [|m ms]]|c] _; [eapply Hop, op_task| |eapply Hop, op_task].
  eapply Hbind; [apply op_InstallRef; [done|done|by left]|intros _ _]. eapply Hbind; [apply op_gets|intros done _].
  destruct done; [by eapply Hop, (op_ret R (fun _ => True))|]. eapply Hbind; [apply op_getLayerItem|intros _ _].
  eapply Hbind; [apply op_task|intros _ _]. eapply Hbind; [apply op_busy|intros b _].
  eapply Hbind; [apply (op_any R (fun _ => True)); destruct b as [[|]|]; job|intros _ _].
  intros s Hc Hx. unfold bind, repo_getLayerItem, on_repo.
  destruct (getLayerItem (cfg (j_repo s)) (rcache (j_repo s)) (snd new) (lit "binary") None) as [item|c] eqn:Ei;
    cbn [try ret].
  - apply Hend; [done|]. exists item. split_and!.
    + by eapply getLayerItem_texts in Ei as [? _].
    + by eapply getLayerItem_texts in Ei as (_ & ?).
    + by eapply getLayerItem_main.
  - unfold try. destruct (c =? terminated); by left.
Qed.

End job_facts.

(** ** Examples *)

#[local] Existing Instance qt_model.
#[local] Existing Instance std_sort_model.
#[local] Existing Instance json_model.
#[local] Existing Instance client_model.
#[local] Existing Instance yaml_model.

Definition new_info (base : str) : PackageInfoV2 :=
  l_info (package (lit "org.deepin.demo") (lit "app") base (lit "1.2.3") []).
Definition the_base : str := lit "main:org.base/23.0.0.1/x86_64".

(** Everything works, but for what the hooks answer. *)
Definition demo_pull (info : PackageInfoV2) : pull_env :=
  mkPull (fun _ => ([CallTask 1 2], Pulled)) (fun _ => Ok (lit "c9", Ok info)) (Ok tt) (Ok tt) all_good.

Definition demo_env (info : PackageInfoV2) (hooks : result unit) : job_env :=
  mkJobEnv (fun _ => demo_pull info) (fun _ => mkRemoveEnv true (Ok tt) all_good) (fun _ => all_good) (fun _ => good_merge)
    (fun _ _ => true) (fun _ _ => Ok info) (fun _ => Ok tt) (fun _ => Ok false) (fun _ => true)
    (fun _ => Ok tt) (fun _ => hooks) (fun _ => free_lock) (fun _ => Ok []).

Definition demo_job : job_state :=
  mkJob (new_task (lit "t") [lit "spec"]) demo_repo [] (mkLock None []) [] 0.

Definition run_install (arch : Architecture) (info : PackageInfoV2) (hooks : result unit) : job_state :=
  fst (Install (Ok arch) (lit "1.9") example_hash (lit "/r") (demo_env info hooks) demo_new (Some demo_ref)
    [lit "binary"] None demo_job).

Definition demo_layers (s : job_state) : list RepositoryCacheLayersItem := rc_layers (cache (rcache (j_repo s))).

(** An installation that replaces a version, with and without a failing hook:
    when the hook fails the new version is taken back, but the old one is gone
    already. *)
Example install_replaces :
  let s := run_install X86_64 (new_info the_base) (Ok tt) in
  demo_layers s = [base_layer; mkLayer (lit "c9") None (new_info the_base) (lit "stable")] /\
  m_state (j_task s) = Succeed.
Proof. split; vm_compute; reflexivity. Qed.

Example install_hook_failure :
  let s := run_install X86_64 (new_info the_base) (Err 1) in
  demo_layers s = [base_layer] /\ m_state (j_task s) = Failed.
Proof. split; vm_compute; reflexivity. Qed.

(** A package for another architecture: the refusal is forgotten. *)
Example install_foreign_arch :
  let info := new_info (lit "main:org.base/23.0.0.1") in
  let s := run_install ARM64 info (Ok tt) in
  demo_layers s = [base_layer; mkLayer (lit "c9") None info (lit "stable")] /\ m_state (j_task s) = Succeed.
Proof. split; vm_compute; reflexivity. Qed.

Lemma demo_good_pulls hooks : good_pulls (demo_env (new_info the_base) hooks).
Proof.
  intros n spec commit info [= <- <-]. exists (isV2 (mkV2 1 2 3 [] [] 0 true)).
  split; [by vm_compute|exact v2_example_parsed].
Qed.

Lemma demo_no_own_dependency hooks :
  no_own_dependency (demo_env (new_info the_base) hooks) (lit "org.deepin.demo").
Proof.
  intros n dir info text fuzzy [= <-] [->|?] Hf; [|done].
  assert (E : fuzzy_parse the_base =
    Ok (mkFuzzy (Some (lit "main")) (lit "org.base") (Some (lit "23.0.0.1")) (Some X86_64))) by by vm_compute.
  change (pi_base (new_info the_base)) with the_base in Hf. rewrite E in Hf. by injection Hf as <-.
Qed.

Lemma update_keeps_application_witness :
  let s' := fst (Update (Ok X86_64) (lit "1.9") example_hash (lit "/r") (demo_env (new_info the_base) (Err 1)) demo_ref
    demo_found demo_job) in
  demo_layer ∈ demo_layers demo_job /\ (demo_layer ∈ demo_layers s' \/ has_main demo_new (demo_layers s')).
Proof.
  split; [left|].
  exact (update_keeps_application (Ok X86_64) (lit "1.9") example_hash (lit "/r") (demo_env (new_info the_base) (Err 1))
    demo_job demo_ref demo_found demo_layer (sound_comparable demo_repo demo_sound) (demo_good_pulls (Err 1))
    (demo_no_own_dependency (Err 1)) ltac:(by vm_compute) (list_elem_of_here _ _) ltac:(by vm_compute)).
Defined.
