(* ===== verification/Path.v ===== *)
(** * Paths ([std::filesystem::path])

    The operations of the standard library the container configuration uses, on
    the text of a path (POSIX format).  [components] are the names the iteration
    over a path gives, without the root directory and the empty last name of a
    trailing slash; the code skips both. *)
From S2P Require Import Prelude.

Definition components (p : str) : list str := split_skip "/" p.

Definition is_absolute (p : str) : bool := bool_decide (head p = Some "/"%char).

Definition has_filename (p : str) : bool :=
  match last p with Some c => negb (bool_decide (c = "/"%char)) | None => false end.

Definition is_slash (c : ascii) : bool := bool_decide (c = "/"%char).

Definition has_relative_path (p : str) : bool := existsb (fun c => negb (is_slash c)) p.

Fixpoint drop_while (f : ascii -> bool) (s : str) : str :=
  match s with
  | [] => []
  | c :: s' => if f c then drop_while f s' else s
  end.

(** [p / q]. *)
Definition path_div (p q : str) : str :=
  if is_absolute q then q
  else if has_filename p then p ++ "/"%char :: q
  else p ++ q.

(** [parent_path]: the last name goes, and the slashes before it. *)
Definition parent_path (p : str) : str :=
  if has_relative_path p then
    let r := drop_while is_slash (drop_while (fun c => negb (is_slash c)) (rev p)) in
    if bool_decide (r = []) && is_absolute p then ["/"%char] else rev r
  else p.

(** [p == q] compares root, names and whether there is a trailing slash. *)
Definition path_eq (p q : str) : bool :=
  Bool.eqb (is_absolute p) (is_absolute q) &&
  bool_decide (components p = components q) &&
  Bool.eqb (has_relative_path p && negb (has_filename p)) (has_relative_path q && negb (has_filename q)).

Example parent_path_1 : parent_path (lit "/etc/fonts/") = lit "/etc/fonts". Proof. reflexivity. Qed.
Example parent_path_2 : parent_path (lit "/etc") = lit "/". Proof. reflexivity. Qed.
Example path_eq_1 : path_eq (lit "/a//b") (lit "/a/b") = true. Proof. reflexivity. Qed.
Example path_eq_2 : path_eq (lit "/a/b/") (lit "/a/b") = false. Proof. reflexivity. Qed.

(** ** Names *)

(** What a directory entry or a component of a path can be called. *)
Definition file_name (n : str) : Prop := n <> [] /\ "/"%char ∉ n.

Lemma components_names p : Forall file_name (components p).
Proof. eapply Forall_impl; [apply split_skip_free|]. unfold file_name. naive_solver. Qed.

Lemma split_on_app_sep d a b : split_on d (a ++ d :: b) = split_on d a ++ split_on d b.
Proof.
  induction a as [|c a IH]; simpl; [by rewrite decide_True|].
  destruct (decide (c = d)); [by rewrite IH|].
  rewrite IH. destruct (split_on d a) eqn:E; [by destruct (split_on_nonempty d a)|done].
Qed.

Lemma components_app a b : components (a ++ "/"%char :: b) = components a ++ components b.
Proof. unfold components, split_skip. by rewrite split_on_app_sep, filter_app. Qed.

Lemma components_name n : file_name n -> components n = [n].
Proof.
  intros [H1 H2]. unfold components, split_skip. rewrite split_on_none by done.
  by rewrite filter_cons_True, filter_nil.
Qed.

Lemma components_slash s : components ("/"%char :: s) = components s.
Proof. change ("/"%char :: s) with ([] ++ "/"%char :: s). by rewrite components_app. Qed.

Lemma components_join l : Forall file_name l -> components (join (lit "/") l) = l.
Proof.
  induction 1 as [|n l Hn Hl IH]; [done|]. destruct l as [|m l]; [by apply components_name|].
  rewrite join_cons2. change (components (n ++ "/"%char :: join (lit "/") (m :: l)) = n :: m :: l).
  by rewrite components_app, IH, components_name.
Qed.

Lemma name_no_slash n : file_name n -> is_absolute n = false /\ has_filename n = true.
Proof.
  intros [H1 H2]. split.
  - unfold is_absolute. destruct n as [|c n]; [done|]. simpl. apply bool_decide_eq_false. set_solver.
  - unfold has_filename. destruct (last n) as [c|] eqn:E; [|by apply last_None in E].
    apply last_Some_elem_of in E. rewrite bool_decide_eq_false_2; [done|]. set_solver.
Qed.

Lemma join_relative l : Forall file_name l -> is_absolute (join (lit "/") l) = false.
Proof.
  intros H. destruct H as [|n l Hn Hl]; [done|].
  destruct n as [|c n]; [by destruct Hn|].
  assert (c <> "/"%char) by (intros ->; destruct Hn; set_solver).
  unfold is_absolute. apply bool_decide_eq_false. destruct l; simpl; congruence.
Qed.

Lemma join_empty l : Forall file_name l -> join (lit "/") l = [] -> l = [].
Proof. intros H E. destruct H as [|n [|m l] [H1 H2]]; [done| |]; destruct n; done. Qed.

Lemma path_div_join n l : Forall file_name (n :: l) -> l <> [] ->
  path_div n (join (lit "/") l) = join (lit "/") (n :: l).
Proof.
  intros H Hl. inversion H; subst. destruct l as [|m l]; [done|]. unfold path_div.
  rewrite join_relative by done. by rewrite (proj2 (name_no_slash n H2)).
Qed.

(** A name put after a path that ends in one. *)
Lemma path_div_name p n : file_name n -> has_filename p = true -> path_div p n = p ++ "/"%char :: n.
Proof. intros Hn Hp. unfold path_div. by rewrite (proj1 (name_no_slash n Hn)), Hp. Qed.

Lemma has_filename_name p n : file_name n -> has_filename (p ++ "/"%char :: n) = true.
Proof.
  intros Hn. destruct (name_no_slash n Hn) as [_ Hf]. unfold has_filename in *. destruct n as [|c n] using rev_ind; [done|].
  rewrite last_snoc in Hf. change (p ++ "/"%char :: n ++ [c]) with (p ++ ("/"%char :: n) ++ [c]). by rewrite app_assoc, last_snoc.
Qed.

Lemma components_div p n : file_name n -> components (path_div p n) = components p ++ [n].
Proof.
  intros Hn. unfold path_div. rewrite (proj1 (name_no_slash n Hn)). destruct (has_filename p) eqn:Hp.
  - by rewrite components_app, (components_name n).
  - destruct p as [|c p] using rev_ind; [by rewrite app_nil_l, components_name|].
    unfold has_filename in Hp. rewrite last_snoc in Hp. apply negb_false_iff, bool_decide_eq_true in Hp as ->.
    rewrite <- app_assoc. cbn [app]. rewrite components_app, (components_name n) by done. f_equal.
    unfold components. change (p ++ ["/"%char]) with (p ++ "/"%char :: []). by rewrite components_app, app_nil_r.
Qed.

(** ** The parent is shorter *)

Lemma drop_while_length f s : (length (drop_while f s) <= length s)%nat.
Proof. induction s as [|c s IH]; simpl; [lia|]. destruct (f c); simpl; lia. Qed.

Lemma drop_while_all f s : existsb f s = false -> drop_while f s = s.
Proof. destruct s as [|c s]; simpl; [done|]. by intros ->%orb_false_iff%proj1. Qed.

Lemma drop_while_tail f s : drop_while f s = [] \/ exists c s', drop_while f s = c :: s' /\ f c = false.
Proof. induction s as [|c s IH]; simpl; [by left|]. destruct (f c) eqn:E; [done|]. right. eauto. Qed.

Lemma parent_path_shorter p : has_relative_path p = true -> (length (parent_path p) < length p)%nat.
Proof.
  intros H. unfold parent_path. rewrite H. set (f := fun c => negb (is_slash c)).
  assert (Hr : existsb f (rev p) = true).
  { apply existsb_exists in H as (c & Hc & Hf). apply existsb_exists. exists c. by rewrite <- in_rev. }
  pose proof (length_rev p) as Hlen.
  pose proof (drop_while_length f (rev p)) as H1.
  pose proof (drop_while_length is_slash (drop_while f (rev p))) as H2.
  destruct (bool_decide _ && is_absolute p) eqn:E.
  - simpl. apply andb_prop in E as [_ E]. unfold is_absolute in E. apply bool_decide_eq_true in E.
    destruct p as [|c [|d p]]; simpl in *; [done| |lia]. injection E as ->. done.
  - rewrite length_rev. destruct (rev p) as [|c r] eqn:Er; [done|].
    simpl in *. destruct (f c) eqn:Ec.
    + pose proof (drop_while_length f r). lia.
    + assert (is_slash c = true) as Es by (by apply negb_false_iff).
      simpl in *. rewrite Es in *. pose proof (drop_while_length is_slash r). lia.
Qed.
