(* ===== verification/ContainerCfg.v ===== *)
(** * Container configuration ([oci-cfg-generators/container_cfg_builder])

    The mounts of a container: merging the ones the builder has collected, and
    the self-adjusting mounts, which arrange the mount points in a prefix tree,
    turn a read-only directory of a layer into a [tmpfs] where a mount point is
    missing in it, bind the other entries of that directory, and list the mounts
    again from the tree.  Also the environment and its shell script.

    Indices of the tree are [nat]; the code's [-1] is [None].  The file system
    is a parameter: what exists, what is a symbolic link and what a directory
    lists. *)
From S2P Require Import Prelude Types Path.

(** ** Data *)

(** [Mount]; an id mapping is its three numbers. *)
Record Mount := mkMount {
  mt_destination : str;
  mt_gidMappings : option (list (Z * Z * Z));
  mt_options : option (list str);
  mt_source : option str;
  mt_type : option str;
  mt_uidMappings : option (list (Z * Z * Z))
}.
#[global] Instance Mount_inhabited : Inhabited Mount := populate (mkMount [] None None None None None).

Definition mount_of (destination : str) (options : list str) (source type : str) : Mount :=
  mkMount destination None (Some options) (Some source) (Some type) None.

Record MountNode := mkNode {
  n_name : str;
  n_ro : bool;
  n_mount_idx : option nat;
  n_childs_idx : list nat;
  n_parent_idx : option nat
}.
#[global] Instance MountNode_inhabited : Inhabited MountNode := populate (mkNode [] false None [] None).

Record Root := mkRoot { root_path : str; root_readonly : option bool }.

(** The members [mountpoints] and [mounts]. *)
Record tree_state := mkTree { mountpoints : list MountNode; mounts : list Mount }.

Record ContainerCfgBuilder := mkBuilder {
  basePath : str;
  runtimePath : option str;
  appPath : option str;
  bundlePath : str;
  selfAdjustingMountEnabled : bool;
  config_root : option Root;
  config_mounts : option (list Mount);
  tree : tree_state
}.

Record filesystem := mkFs {
  fs_exists : str -> bool;
  fs_is_symlink : str -> bool;
  (** The names a directory lists and which of them are symbolic links; [None]
      when [directory_iterator] throws. *)
  fs_list : str -> option (list (str * bool))
}.

Definition BUILD_PREPARE_ERROR : Z := 2.
Definition BUILD_MOUNT_ERROR : Z := 12.

(** ** The prefix tree *)

Definition findChild (nodes : list MountNode) (parent : nat) (name : str) : option nat :=
  List.find (fun idx => bool_decide (n_name (nodes !!! idx) = name)) (n_childs_idx (nodes !!! parent)).

Definition set_parent (parent : nat) (node : MountNode) : MountNode :=
  mkNode (n_name node) (n_ro node) (n_mount_idx node) (n_childs_idx node) (Some parent).

Definition push_child (child : nat) (node : MountNode) : MountNode :=
  mkNode (n_name node) (n_ro node) (n_mount_idx node) (n_childs_idx node ++ [child]) (n_parent_idx node).

Definition set_mount (idx : nat) (node : MountNode) : MountNode :=
  mkNode (n_name node) (n_ro node) (Some idx) (n_childs_idx node) (n_parent_idx node).

Definition set_ro (ro : bool) (node : MountNode) : MountNode :=
  mkNode (n_name node) ro (n_mount_idx node) (n_childs_idx node) (n_parent_idx node).

Definition insertChild (nodes : list MountNode) (parent : nat) (node : MountNode) : list MountNode * nat :=
  let nodes := nodes ++ [set_parent parent node] in
  let child := (length nodes - 1)%nat in
  (alter (push_child child) parent nodes, child).

Fixpoint insert_parts (nodes : list MountNode) (current : nat) (inserted : bool) (parts : list str)
    : list MountNode * nat * bool :=
  match parts with
  | [] => (nodes, current, inserted)
  | component :: parts =>
      match findChild nodes current component with
      | Some childIndex => insert_parts nodes childIndex inserted parts
      | None =>
          let '(nodes, childIndex) := insertChild nodes current (mkNode component true None [] None) in
          insert_parts nodes childIndex true parts
      end
  end.

Definition insertChildRecursively (nodes : list MountNode) (path : str) : list MountNode * nat * bool :=
  insert_parts nodes 0 false (components path).

(** Parents have smaller indices, so that the index bounds the walk. *)
Fixpoint nearest_go (fuel : nat) (nodes : list MountNode) (node : nat) : nat :=
  match fuel, n_parent_idx (nodes !!! node) with
  | S fuel, Some parent =>
      if bool_decide (is_Some (n_mount_idx (nodes !!! parent))) then parent
      else nearest_go fuel nodes parent
  | _, _ => 0%nat
  end.
Definition findNearestMountNode (nodes : list MountNode) (node : nat) : nat := nearest_go node nodes node.

Fixpoint relative_go (fuel : nat) (nodes : list MountNode) (parent node : nat) (path : str) : str :=
  match fuel with
  | O => path
  | S fuel =>
      if bool_decide (node = parent) || bool_decide (node = 0%nat) then path
      else
        let mp := nodes !!! node in
        let path := if bool_decide (path = []) then n_name mp else path_div (n_name mp) path in
        match n_parent_idx mp with
        | Some up => relative_go fuel nodes parent up path
        | None => path
        end
  end.
Definition getRelativePath (nodes : list MountNode) (parent node : nat) : str :=
  relative_go node nodes parent node [].

(** ** Building the tree *)

Definition root_node (root : Root) : MountNode :=
  mkNode [] (default false (root_readonly root)) None [] None.

(** One mount; a mount whose destination already is a path of the tree is not
    attached. *)
Definition attach (nodes : list MountNode) (i : nat) (mount : Mount) : list MountNode :=
  let '(nodes, child, inserted) := insertChildRecursively nodes (mt_destination mount) in
  if inserted then
    let nodes := alter (set_mount i) child nodes in
    match mt_options mount with
    | Some options => alter (set_ro (bool_decide (lit "ro" ∈ options))) child nodes
    | None => nodes
    end
  else nodes.

Fixpoint attach_all (nodes : list MountNode) (i : nat) (l : list Mount) : result (list MountNode) :=
  match l with
  | [] => Ok nodes
  | mount :: l =>
      if bool_decide (mt_destination mount = []) then Err BUILD_MOUNT_ERROR
      else if negb (is_absolute (mt_destination mount)) then Err BUILD_MOUNT_ERROR
      else attach_all (attach nodes i mount) (S i) l
  end.

Definition constructMountpointsTree (root : Root) (s : tree_state) : result tree_state :=
  nodes <-r attach_all (mountpoints s ++ [root_node root]) 0 (mounts s) ;;
  Ok (mkTree nodes (mounts s)).

(** ** Turning a directory into a [tmpfs] *)

Definition tmpfs_options : list str := [lit "nodev"; lit "nosuid"; lit "mode=700"].

Definition to_tmpfs (m : Mount) : Mount :=
  mkMount (mt_destination m) (mt_gidMappings m) (Some tmpfs_options) (Some (lit "tmpfs")) (Some (lit "tmpfs"))
    (mt_uidMappings m).

Definition node_destination (nodes : list MountNode) (node : nat) : str :=
  let destination := getRelativePath nodes 0 node in
  if negb (bool_decide (destination = [])) && negb (is_absolute destination) then "/"%char :: destination
  else destination.

(** The node itself; the root has no mount. *)
Definition make_tmpfs (s : tree_state) (node : nat) : tree_state :=
  if bool_decide (node = 0%nat) then s
  else
    match n_mount_idx (mountpoints s !!! node) with
    | Some idx => mkTree (mountpoints s) (alter to_tmpfs idx (mounts s))
    | None =>
        mkTree (alter (set_mount (length (mounts s))) node (mountpoints s))
          (mounts s ++ [mount_of (node_destination (mountpoints s) node) tmpfs_options (lit "tmpfs") (lit "tmpfs")])
    end.

Definition bind_mount (destination path filename : str) (isRo is_symlink : bool) : Mount :=
  mount_of (destination ++ "/"%char :: filename)
    ([lit "rbind"; if isRo then lit "ro" else lit "rw"] ++ (if is_symlink then [lit "copy-symlink"] else []))
    (path_div path filename) (lit "bind").

Definition is_mounted (nodes : list MountNode) (child : option nat) : bool :=
  match child with
  | Some c => bool_decide (0 < c)%nat && bool_decide (is_Some (n_mount_idx (nodes !!! c)))
  | None => false
  end.

Definition bind_entry (node : nat) (path fixPath destination : str) (isRo : bool) (s : tree_state)
    (entry : str * bool) : tree_state :=
  let '(filename, is_symlink) := entry in
  if path_eq (path_div path filename) fixPath then s
  else
    let child := findChild (mountpoints s) node filename in
    if is_mounted (mountpoints s) child then s
    else
      let idx := length (mounts s) in
      let mounts := mounts s ++ [bind_mount destination path filename isRo is_symlink] in
      match child with
      | None => mkTree (fst (insertChild (mountpoints s) node (mkNode filename false (Some idx) [] None))) mounts
      | Some c => mkTree (alter (set_mount idx) c (mountpoints s)) mounts
      end.

(** [directory_iterator] throws in a [noexcept] function. *)
Definition adjustNode (fs : filesystem) (s : tree_state) (node : nat) (path fixPath : str) : result tree_state :=
  let destination := node_destination (mountpoints s) node in
  let s := make_tmpfs s node in
  let isRo := n_ro (mountpoints s !!! node) in
  match fs_list fs path with
  | Some entries => Ok (fold_left (bind_entry node path fixPath destination isRo) entries s)
  | None => Err terminated
  end.

(** ** Fixing the tree *)

Section builder.
Variable b : ContainerCfgBuilder.

(** Only what is bound from a layer is fixed; the test is on the text. *)
Definition from_layer (root : str) : bool :=
  is_prefix (basePath b) root ||
  match runtimePath b with Some p => is_prefix p root | None => false end ||
  match appPath b with Some p => is_prefix p root | None => false end.

(** The host directory that is visible at the nearest mount point above. *)
Definition visible_root (root : Root) (s : tree_state) (mounted : nat) : option str :=
  if bool_decide (mounted = 0%nat) then
    if is_absolute (root_path root) then Some (root_path root) else None
  else
    idx ← n_mount_idx (mountpoints s !!! mounted);
    mount ← mounts s !! idx;
    if bool_decide (mt_type mount = Some (lit "bind")) then mt_source mount else None.

(** [mount.options->begin()] of no options is undefined. *)
Definition isCopySymlink (m : Mount) : result bool :=
  match mt_options m with
  | Some options => Ok (bool_decide (lit "copy-symlink" ∈ options))
  | None => Err terminated
  end.

Definition shouldFix (fs : filesystem) (root : Root) (s : tree_state) (node : nat) : result (option str) :=
  match n_mount_idx (mountpoints s !!! node) with
  | None => Ok None
  | Some idx =>
      let mounted := findNearestMountNode (mountpoints s) node in
      match visible_root root s mounted with
      | None => Ok None
      | Some root =>
          if negb (from_layer root) then Ok None
          else
            let hostPath := path_div root (getRelativePath (mountpoints s) mounted node) in
            if bool_decide (getRelativePath (mountpoints s) 0 node = lit "etc/localtime") ||
               negb (fs_exists fs hostPath) then Ok (Some hostPath)
            else if fs_is_symlink fs hostPath then Ok None
            else
              copy <-r isCopySymlink (mounts s !!! idx) ;;
              Ok (if copy : bool then Some hostPath else None)
      end
  end.

(** The search for the nearest ancestor on the host; every parent path is
    shorter.  Above the root of the tree the index is [-1] and any use of it
    undefined. *)
Fixpoint climb (fuel : nat) (fs : filesystem) (s : tree_state) (node : option nat) (path fixPath : str)
    : result tree_state :=
  match fuel with
  | O => Ok s
  | S fuel =>
      if has_relative_path path then
        let path := parent_path path in
        match node with
        | None => Err terminated
        | Some n =>
            let node := n_parent_idx (mountpoints s !!! n) in
            if fs_exists fs path then
              match node with
              | Some n => adjustNode fs s n path fixPath
              | None => Err terminated
              end
            else climb fuel fs s node path fixPath
        end
      else Ok s
  end.

Definition fix_node (fs : filesystem) (root : Root) (s : tree_state) (node : nat) : result tree_state :=
  fix_ <-r shouldFix fs root s node ;;
  match fix_ with
  | Some fixPath => climb (length fixPath) fs s (Some node) fixPath fixPath
  | None => Ok s
  end.

Fixpoint fix_nodes (fs : filesystem) (root : Root) (s : tree_state) (nodes : list nat) : result tree_state :=
  match nodes with
  | [] => Ok s
  | node :: nodes => s <-r fix_node fs root s node ;; fix_nodes fs root s nodes
  end.

(** The loop that collects the nodes: each is entered once, so that their number
    bounds it. *)
Fixpoint collect (fuel : nat) (nodes : list MountNode) (node idx : nat) (nodesToProcess : list nat) : list nat :=
  match fuel with
  | O => nodesToProcess
  | S fuel =>
      let nodesToProcess := nodesToProcess ++ n_childs_idx (nodes !!! node) in
      match nodesToProcess !! idx with
      | None => nodesToProcess
      | Some node => collect fuel nodes node (S idx) nodesToProcess
      end
  end.

Definition tryFixMountpointsTree (fs : filesystem) (root : Root) (s : tree_state) : result tree_state :=
  fix_nodes fs root s (rev (collect (length (mountpoints s)) (mountpoints s) 0 0 [])).

(** ** Listing the mounts *)

Definition mount_at (s : tree_state) (node : nat) : option Mount :=
  idx ← n_mount_idx (mountpoints s !!! node); mounts s !! idx.

Fixpoint generate (fuel : nat) (s : tree_state) (idx : nat) (queue : list nat) (generated : list Mount) : list Mount :=
  match fuel with
  | O => generated
  | S fuel =>
      match queue !! idx with
      | None => generated
      | Some node =>
          let childs := n_childs_idx (mountpoints s !!! node) in
          generate fuel s (S idx) (queue ++ childs) (generated ++ omap (mount_at s) childs)
      end
  end.

Definition generateMounts (s : tree_state) : list Mount := generate (length (mountpoints s)) s 0 [0%nat] [].

(** [fs] is the file system before the directory of the new root is created and
    [fs'] the one after; [created] says whether that worked. *)
Definition selfAdjustingMount (fs fs' : filesystem) (created : bool) : result ContainerCfgBuilder :=
  if negb (selfAdjustingMountEnabled b) then Ok b
  else
    match config_mounts b, config_root b with
    | Some l, Some root =>
        s <-r constructMountpointsTree root (mkTree (mountpoints (tree b)) l) ;;
        s <-r adjustNode fs s 0 (root_path root) [] ;;
        if negb created then Err BUILD_PREPARE_ERROR
        else
          let root := mkRoot (lit "rootfs") (root_readonly root) in
          s <-r tryFixMountpointsTree fs' root s ;;
          Ok (mkBuilder (basePath b) (runtimePath b) (appPath b) (bundlePath b) (selfAdjustingMountEnabled b)
                (Some root) (Some (generateMounts s)) (mkTree (mountpoints s) []))
    | _, _ => Err terminated
    end.

End builder.

(** ** The tree is a tree *)

Definition par (nodes : list MountNode) (x : nat) : option nat := nodes !! x ≫= n_parent_idx.
Definition kids (nodes : list MountNode) (x : nat) : list nat := n_childs_idx (nodes !!! x).
Definition nam (nodes : list MountNode) (x : nat) : str := n_name (nodes !!! x).

Record is_tree (nodes : list MountNode) : Prop := mkIsTree {
  tr_root : (0 < length nodes)%nat /\ par nodes 0 = None;
  tr_parent : forall x, (0 < x < length nodes)%nat -> exists p, par nodes x = Some p /\ (p < x)%nat;
  tr_kids : forall p c, c ∈ kids nodes p <-> par nodes c = Some p;
  tr_nodup : forall p, NoDup (kids nodes p);
  tr_names : forall x y p, par nodes x = Some p -> par nodes y = Some p -> nam nodes x = nam nodes y -> x = y;
  tr_file : forall x, (0 < x < length nodes)%nat -> file_name (nam nodes x)
}.

(** The names from the root to a node. *)
Fixpoint up (fuel : nat) (nodes : list MountNode) (x : nat) : list str :=
  match fuel with
  | O => []
  | S fuel => match par nodes x with Some p => up fuel nodes p ++ [nam nodes x] | None => [] end
  end.
Definition node_path (nodes : list MountNode) (x : nat) : list str := up x nodes x.

Lemma par_length nodes x p : par nodes x = Some p -> (x < length nodes)%nat.
Proof. unfold par. destruct (nodes !! x) eqn:E; [|done]. intros _. by eapply lookup_lt_Some. Qed.

Lemma par_lt nodes x p : is_tree nodes -> par nodes x = Some p -> (p < x)%nat.
Proof.
  intros T H. destruct (decide (x = 0%nat)) as [->|].
  - by rewrite (proj2 (tr_root _ T)) in H.
  - pose proof (par_length _ _ _ H). destruct (tr_parent _ T x) as (q & Hq & Hlt); [lia|]. congruence.
Qed.

Lemma up_fuel nodes : is_tree nodes -> forall f g x, (x <= f)%nat -> (x <= g)%nat -> up f nodes x = up g nodes x.
Proof.
  intros T. induction f as [|f IH]; intros g x Hf Hg.
  - assert (x = 0%nat) as -> by lia. destruct g; simpl; [done|]. by rewrite (proj2 (tr_root _ T)).
  - destruct g as [|g].
    + assert (x = 0%nat) as -> by lia. simpl. by rewrite (proj2 (tr_root _ T)).
    + simpl. destruct (par nodes x) as [p|] eqn:E; [|done]. pose proof (par_lt _ _ _ T E).
      f_equal. apply IH; lia.
Qed.

Lemma node_path_par nodes x p : is_tree nodes -> par nodes x = Some p ->
  node_path nodes x = node_path nodes p ++ [nam nodes x].
Proof.
  intros T H. pose proof (par_lt _ _ _ T H). unfold node_path. destruct x as [|x]; [lia|].
  simpl. rewrite H. f_equal. apply up_fuel; [done|lia|lia].
Qed.

Lemma node_path_root nodes : node_path nodes 0 = [].
Proof. done. Qed.

Lemma node_path_nonempty nodes x : is_tree nodes -> (0 < x < length nodes)%nat -> node_path nodes x <> [].
Proof.
  intros T H. destruct (tr_parent _ T x H) as (p & Hp & _). rewrite (node_path_par _ _ _ T Hp).
  by destruct (node_path nodes p).
Qed.

(** Different nodes have different paths. *)
Lemma node_path_inj nodes : is_tree nodes -> forall x y, (x < length nodes)%nat -> (y < length nodes)%nat ->
  node_path nodes x = node_path nodes y -> x = y.
Proof.
  intros T x. induction x as [x IH] using lt_wf_ind. intros y Hx Hy E.
  destruct (decide (x = 0%nat)) as [->|Hx0], (decide (y = 0%nat)) as [->|Hy0]; [done| | |].
  - rewrite node_path_root in E. symmetry in E. apply node_path_nonempty in E; [done|done|lia].
  - rewrite node_path_root in E. apply node_path_nonempty in E; [done|done|lia].
  - destruct (tr_parent _ T x) as (p & Hp & Hlt); [lia|]. destruct (tr_parent _ T y) as (q & Hq & Hlt'); [lia|].
    rewrite (node_path_par _ _ _ T Hp), (node_path_par _ _ _ T Hq) in E.
    apply app_inj_tail in E as [E1 E2]. assert (p = q) as <- by (apply IH; [done|lia|lia|done]).
    by apply (tr_names _ T x y p).
Qed.

Lemma node_path_names nodes : is_tree nodes -> forall x, (x < length nodes)%nat -> Forall file_name (node_path nodes x).
Proof.
  intros T x. induction x as [x IH] using lt_wf_ind. intros Hx. destruct (decide (x = 0%nat)) as [->|]; [constructor|].
  destruct (tr_parent _ T x) as (p & Hp & Hlt); [lia|]. rewrite (node_path_par _ _ _ T Hp).
  apply Forall_app_2; [apply IH; lia|]. repeat constructor; apply (tr_file _ T); lia.
Qed.

(** ** Operations that keep the tree *)

(** What an extension of the tree keeps of the nodes it had. *)
Definition grows (nodes nodes' : list MountNode) : Prop :=
  (length nodes <= length nodes')%nat /\
  forall x, (x < length nodes)%nat -> par nodes' x = par nodes x /\ nam nodes' x = nam nodes x.

Lemma grows_refl nodes : grows nodes nodes.
Proof. done. Qed.

Lemma grows_trans a b d : grows a b -> grows b d -> grows a d.
Proof.
  intros [L1 H1] [L2 H2]. split; [lia|]. intros x Hx. destruct (H1 x Hx) as [E1 E2].
  destruct (H2 x) as [E3 E4]; [lia|]. split; congruence.
Qed.

Lemma grows_path nodes nodes' x : is_tree nodes -> grows nodes nodes' -> (x < length nodes)%nat ->
  node_path nodes' x = node_path nodes x.
Proof.
  intros T [_ G]. unfold node_path. enough (forall f y, (y < length nodes)%nat -> up f nodes' y = up f nodes y) by auto.
  clear x. induction f as [|f IH]; intros x Hx; [done|]. simpl. destruct (G x Hx) as [-> ->].
  destruct (par nodes x) as [p|] eqn:E; [|done]. rewrite IH; [done|].
  pose proof (par_lt _ _ _ T E). lia.
Qed.

Lemma alter_total nodes (f : MountNode -> MountNode) i x :
  (x < length nodes)%nat -> alter f i nodes !!! x = if decide (x = i) then f (nodes !!! x) else nodes !!! x.
Proof.
  intros H. destruct (lookup_lt_is_Some_2 nodes x H) as [nd E].
  rewrite !list_lookup_total_alt, list_lookup_alter. repeat case_decide; subst; [|done..]. by rewrite E.
Qed.

Lemma par_alt nodes x : (x < length nodes)%nat -> par nodes x = n_parent_idx (nodes !!! x).
Proof.
  intros H. destruct (lookup_lt_is_Some_2 nodes x H) as [nd E]. unfold par.
  by rewrite E, (list_lookup_total_correct _ _ _ E).
Qed.

Lemma par_out nodes x : ~ (x < length nodes)%nat -> par nodes x = None.
Proof. intros H. unfold par. rewrite lookup_ge_None_2; [done|lia]. Qed.

(** Changing the mount or the flag of a node. *)
Definition keeps_shape (f : MountNode -> MountNode) : Prop := forall n,
  n_name (f n) = n_name n /\ n_childs_idx (f n) = n_childs_idx n /\ n_parent_idx (f n) = n_parent_idx n.

Lemma set_mount_shape idx : keeps_shape (set_mount idx).
Proof. done. Qed.
Lemma set_ro_shape ro : keeps_shape (set_ro ro).
Proof. done. Qed.
Create HintDb tree.
#[export] Hint Resolve set_mount_shape set_ro_shape grows_refl : tree.

Lemma alter_same nodes f i x : keeps_shape f ->
  par (alter f i nodes) x = par nodes x /\ nam (alter f i nodes) x = nam nodes x /\ kids (alter f i nodes) x = kids nodes x.
Proof.
  intros K. destruct (decide (x < length nodes)%nat) as [H|H].
  - rewrite !par_alt by (rewrite ?length_alter; lia). unfold nam, kids. rewrite alter_total by done.
    case_decide; [|done]. destruct (K (nodes !!! x)) as (-> & -> & ->). done.
  - unfold par, nam, kids. rewrite !list_lookup_total_alt.
    rewrite !lookup_ge_None_2 by (rewrite ?length_alter; lia). done.
Qed.

Lemma alter_tree nodes f i : keeps_shape f -> is_tree nodes -> is_tree (alter f i nodes).
Proof.
  intros K [[R1 R2] P C N S F]. pose proof (fun x => alter_same nodes f i x K) as A.
  split.
  - rewrite length_alter. split; [done|]. by rewrite (proj1 (A 0%nat)).
  - intros x. rewrite length_alter. intros H. rewrite (proj1 (A x)). auto.
  - intros p c. destruct (A p) as (_ & _ & ->). rewrite (proj1 (A c)). auto.
  - intros p. destruct (A p) as (_ & _ & ->). auto.
  - intros x y p. destruct (A x) as (-> & -> & _), (A y) as (-> & -> & _). eauto.
  - intros x. rewrite length_alter. destruct (A x) as (_ & -> & _). auto.
Qed.

Lemma alter_grows nodes f i : keeps_shape f -> grows nodes (alter f i nodes).
Proof.
  intros K. split; [by rewrite length_alter|]. intros x _. destruct (alter_same nodes f i x K) as (-> & -> & _). done.
Qed.
#[export] Hint Resolve alter_tree alter_grows : tree.

Lemma kids_lt nodes x c : is_tree nodes -> c ∈ kids nodes x -> (x < c < length nodes)%nat.
Proof.
  intros T H. apply (tr_kids _ T) in H. pose proof (par_lt _ _ _ T H). pose proof (par_length _ _ _ H). lia.
Qed.

Lemma kids_out nodes x : ~ (x < length nodes)%nat -> kids nodes x = [].
Proof. intros H. unfold kids. rewrite list_lookup_total_alt, lookup_ge_None_2; [done|lia]. Qed.

Section insert.
Context (nodes : list MountNode) (p : nat) (node : MountNode).
Hypothesis T : is_tree nodes.
Hypothesis Hp : (p < length nodes)%nat.
Hypothesis Hnew : forall c, c ∈ kids nodes p -> nam nodes c <> n_name node.
Hypothesis Hleaf : n_childs_idx node = [].
Hypothesis Hname : file_name (n_name node).

Let nodes' := fst (insertChild nodes p node).
#[local] Set Default Proof Using "All".

Lemma insertChild_eq : insertChild nodes p node = (nodes', length nodes).
Proof. unfold nodes', insertChild. simpl. f_equal. rewrite length_app. simpl. lia. Qed.

Lemma insertChild_length : length nodes' = S (length nodes).
Proof. unfold nodes', insertChild. simpl. rewrite length_alter, length_app. simpl. lia. Qed.

Lemma insertChild_new : nodes' !!! length nodes = set_parent p node.
Proof.
  unfold nodes', insertChild. simpl. rewrite alter_total by (rewrite length_app; simpl; lia).
  rewrite decide_False by lia. apply list_lookup_total_middle. done.
Qed.

Lemma insertChild_old x : (x < length nodes)%nat ->
  nodes' !!! x = if decide (x = p) then push_child (length nodes) (nodes !!! x) else nodes !!! x.
Proof.
  intros H. unfold nodes', insertChild. simpl. rewrite alter_total by (rewrite length_app; simpl; lia).
  rewrite lookup_total_app_l by done. rewrite length_app. simpl.
  by replace (length nodes + 1 - 1)%nat with (length nodes) by lia.
Qed.

Lemma insertChild_par x : par nodes' x = if decide (x = length nodes) then Some p else par nodes x.
Proof.
  case_decide as D.
  - subst. rewrite par_alt by (rewrite insertChild_length; lia). by rewrite insertChild_new.
  - destruct (decide (x < length nodes)%nat).
    + rewrite !par_alt by (rewrite ?insertChild_length; lia). rewrite insertChild_old by done. by case_decide.
    + rewrite !par_out; [done|lia|rewrite insertChild_length; lia].
Qed.

Lemma insertChild_nam x : (x < length nodes)%nat -> nam nodes' x = nam nodes x.
Proof. intros H. unfold nam. rewrite insertChild_old by done. by case_decide. Qed.

Lemma insertChild_kids x : kids nodes' x =
  if decide (x = p) then kids nodes x ++ [length nodes]
  else if decide (x < length nodes)%nat then kids nodes x else [].
Proof.
  unfold kids. case_decide as D.
  - subst. rewrite insertChild_old by done. by rewrite decide_True.
  - destruct (decide (x < length nodes)%nat).
    + rewrite insertChild_old by done. by rewrite decide_False.
    + destruct (decide (x = length nodes)) as [->|].
      * by rewrite insertChild_new.
      * rewrite list_lookup_total_alt, lookup_ge_None_2; [done|rewrite insertChild_length; lia].
Qed.

Lemma insertChild_grows : grows nodes nodes'.
Proof.
  split; [rewrite insertChild_length; lia|]. intros x Hx. rewrite insertChild_par, decide_False by lia.
  by rewrite insertChild_nam.
Qed.

Lemma insertChild_names x y q : par nodes' x = Some q -> par nodes' y = Some q -> nam nodes' x = nam nodes' y -> x = y.
Proof.
  assert (forall z, par nodes z = Some p -> nam nodes' (length nodes) <> nam nodes' z) as Hn.
  { intros z Hz. rewrite (insertChild_nam z) by (by eapply par_length). unfold nam at 1. rewrite insertChild_new.
    simpl. intros E. eapply Hnew; [apply (tr_kids _ T); exact Hz|done]. }
  rewrite !insertChild_par. repeat case_decide; subst; [done| | |]; intros Hx Hy E; simplify_eq.
  - by destruct (Hn y).
  - symmetry in E. by destruct (Hn x).
  - apply (tr_names _ T x y q); [done..|]. by rewrite !insertChild_nam in E by (by eapply par_length).
Qed.

Lemma insertChild_tree : is_tree nodes'.
Proof.
  pose proof (tr_root _ T) as [R1 R2]. split.
  - rewrite insertChild_length, insertChild_par, decide_False by lia. split; [lia|done].
  - intros x. rewrite insertChild_length. intros H. rewrite insertChild_par. case_decide; [exists p; split; [done|lia]|].
    apply (tr_parent _ T). lia.
  - intros q c. rewrite insertChild_kids, insertChild_par. pose proof (tr_kids _ T q c) as K.
    pose proof (kids_lt nodes q c T) as L. destruct (decide (q = p)) as [->|], (decide (c = length nodes)) as [->|].
    + rewrite elem_of_app, list_elem_of_singleton. tauto.
    + rewrite elem_of_app, list_elem_of_singleton. tauto.
    + case_decide; [|by rewrite elem_of_nil; split; [|congruence]]. split; [intros ?%L; lia|congruence].
    + case_decide; [done|]. rewrite elem_of_nil. split; [done|]. intros E.
      pose proof (par_lt _ _ _ T E). pose proof (par_length _ _ _ E). lia.
  - intros q. rewrite insertChild_kids. case_decide; [|case_decide; [apply (tr_nodup _ T)|constructor]].
    apply NoDup_app. split; [apply (tr_nodup _ T)|]. split; [|apply NoDup_singleton].
    intros c Hc. apply kids_lt in Hc; [|done]. rewrite list_elem_of_singleton. lia.
  - apply insertChild_names.
  - intros x. rewrite insertChild_length. intros H. destruct (decide (x = length nodes)) as [->|].
    + unfold nam. by rewrite insertChild_new.
    + rewrite insertChild_nam by lia. apply (tr_file _ T). lia.
Qed.

Lemma insertChild_path : node_path nodes' (length nodes) = node_path nodes p ++ [n_name node].
Proof.
  rewrite (node_path_par nodes' (length nodes) p).
  - rewrite (grows_path nodes nodes' p) by auto using insertChild_grows. f_equal. unfold nam. by rewrite insertChild_new.
  - apply insertChild_tree.
  - by rewrite insertChild_par, decide_True.
Qed.
End insert.

(** ** Every mount is at its node *)

Definition mnt (nodes : list MountNode) (x : nat) : option nat := n_mount_idx (nodes !!! x).

Record good (s : tree_state) : Prop := mkGood {
  g_tree : is_tree (mountpoints s);
  g_place : forall x idx, mnt (mountpoints s) x = Some idx ->
    (0 < x < length (mountpoints s))%nat /\
    exists m, mounts s !! idx = Some m /\ components (mt_destination m) = node_path (mountpoints s) x
}.

Lemma relative_spec nodes : is_tree nodes -> forall f x l, (x <= f)%nat -> (x < length nodes)%nat -> Forall file_name l ->
  relative_go f nodes 0 x (join (lit "/") l) = join (lit "/") (node_path nodes x ++ l).
Proof.
  intros T. induction f as [|f IH]; intros x l Hf Hx Hl; simpl.
  - by assert (x = 0%nat) as -> by lia.
  - rewrite orb_diag. case_bool_decide as H; [by subst|].
    destruct (tr_parent _ T x) as (p & Hp & Hlt); [lia|].
    rewrite (node_path_par _ _ _ T Hp), <- app_assoc. rewrite par_alt in Hp by done. rewrite Hp.
    assert (file_name (nam nodes x)) as Hn by (apply (tr_file _ T); lia).
    change (n_name (nodes !!! x)) with (nam nodes x).
    replace (if bool_decide (join _ l = []) then _ else _) with (join (lit "/") (nam nodes x :: l)).
    + apply IH; [lia|lia|by constructor].
    + case_bool_decide as E.
      * by apply join_empty in E as ->.
      * symmetry. apply path_div_join; [by constructor|]. by intros ->.
Qed.

Lemma destination_spec nodes x : is_tree nodes -> (x < length nodes)%nat ->
  components (node_destination nodes x) = node_path nodes x.
Proof.
  intros T Hx. pose proof (node_path_names _ T x Hx) as Hn. unfold node_destination, getRelativePath.
  assert (relative_go x nodes 0 x [] = join (lit "/") (node_path nodes x)) as ->.
  { rewrite <- (app_nil_r (node_path nodes x)). by apply (relative_spec nodes T x x []). }
  case_match; [rewrite components_slash|]; by apply components_join.
Qed.

Lemma mnt_out nodes x idx : mnt nodes x = Some idx -> (x < length nodes)%nat.
Proof.
  intros H. destruct (decide (x < length nodes)%nat); [done|]. unfold mnt in H.
  by rewrite list_lookup_total_alt, lookup_ge_None_2 in H by lia.
Qed.

(** A mount point stays one; only [to_tmpfs] changes its mount. *)
Definition becomes (m m' : Mount) : Prop := m' = m \/ m' = to_tmpfs m.

(** The mounts that are added. *)
Definition fresh (fs : filesystem) (m : Mount) : Prop :=
  (exists d, m = mount_of d tmpfs_options (lit "tmpfs") (lit "tmpfs")) \/
  (exists path entries filename is_symlink d ro m0, fs_list fs path = Some entries /\
     (filename, is_symlink) ∈ entries /\ m0 = bind_mount d path filename ro is_symlink /\ becomes m0 m).

(** The same, with what is known of the directory an entry is bound in and of
    the flag it is bound with. *)
Definition fresh_in (ok : list str -> bool -> Prop) (fs : filesystem) (m : Mount) : Prop :=
  (exists d, m = mount_of d tmpfs_options (lit "tmpfs") (lit "tmpfs")) \/
  (exists path entries filename is_symlink d ro m0, fs_list fs path = Some entries /\ (filename, is_symlink) ∈ entries /\
     ok (components d) ro /\ m0 = bind_mount d path filename ro is_symlink /\ becomes m0 m).

Record step (F : Mount -> Prop) (s s' : tree_state) : Prop := mkStep {
  st_good : good s';
  st_grows : grows (mountpoints s) (mountpoints s');
  st_keeps : forall x m, mount_at s x = Some m -> exists m', mount_at s' x = Some m' /\ becomes m m';
  st_origin : forall x m', mount_at s' x = Some m' ->
    F m' \/ exists m, mount_at s x = Some m /\ becomes m m'
}.

Lemma becomes_refl m : becomes m m.
Proof. by left. Qed.
Lemma becomes_trans a b d : becomes a b -> becomes b d -> becomes a d.
Proof. unfold becomes. intros [->| ->] [->| ->]; auto. Qed.
Lemma becomes_destination m m' : becomes m m' -> mt_destination m' = mt_destination m.
Proof. by intros [->| ->]. Qed.
Lemma fresh_becomes ok fs m m' : fresh_in ok fs m -> becomes m m' -> fresh_in ok fs m'.
Proof.
  intros [(d & ->)|(p & es & n & l & d & r & m0 & H1 & H2 & H3 & H4 & H5)] H.
  - left. exists d. by destruct H as [->| ->].
  - right. exists p, es, n, l, d, r, m0. split_and!; try done. by eapply becomes_trans.
Qed.
Lemma fresh_in_fresh ok fs m : fresh_in ok fs m -> fresh fs m.
Proof.
  intros [(d & ->)|(p & es & n & l & d & r & m0 & H1 & H2 & _ & H3 & H4)]; [left; by exists d|right].
  by exists p, es, n, l, d, r, m0.
Qed.
#[export] Hint Resolve becomes_refl : tree.

Lemma step_refl F s : good s -> step F s s.
Proof. intros G. split; eauto with tree. Qed.

(** Additions stay additions. *)
Definition closed (F : Mount -> Prop) : Prop := forall m m', F m -> becomes m m' -> F m'.

Lemma step_trans F s1 s2 s3 : closed F -> step F s1 s2 -> step F s2 s3 -> step F s1 s3.
Proof.
  intros HF [G1 W1 K1 O1] [G2 W2 K2 O2]. split; [done|by eapply grows_trans| |].
  - intros x m H. destruct (K1 x m H) as (m1 & H1 & B1). destruct (K2 x m1 H1) as (m2 & H2 & B2).
    exists m2. split; [done|]. by eapply becomes_trans.
  - intros x m H. destruct (O2 x m H) as [|(m1 & H1 & B1)]; [by left|].
    destruct (O1 x m1 H1) as [Hf|(m0 & H0 & B0)]; [left; by eapply HF|right].
    exists m0. split; [done|]. by eapply becomes_trans.
Qed.

Lemma fresh_closed ok fs : closed (fresh_in ok fs).
Proof. intros m m'. apply fresh_becomes. Qed.
#[export] Hint Resolve fresh_closed : tree.

Lemma step_weaken (F F' : Mount -> Prop) s s' : (forall m, F m -> F' m) -> step F s s' -> step F' s s'.
Proof. intros HF [G W K O]. split; [done..|]. intros x m H. destruct (O x m H); auto. Qed.

(** *** Attaching a mount to a node without one *)

Lemma mnt_alter nodes idx x y : (x < length nodes)%nat ->
  mnt (alter (set_mount idx) x nodes) y = if decide (y = x) then Some idx else mnt nodes y.
Proof.
  intros Hx. unfold mnt. destruct (decide (y < length nodes)%nat).
  - rewrite alter_total by done. by case_decide.
  - rewrite !list_lookup_total_alt, !lookup_ge_None_2 by (rewrite ?length_alter; lia). by case_decide; [lia|].
Qed.

(** What the two ways of attaching a new mount have in common: the node [x] gets
    it, the other nodes keep theirs. *)
Lemma step_attach (F : Mount -> Prop) s nodes' x m : good s -> is_tree nodes' -> grows (mountpoints s) nodes' ->
  (0 < x < length nodes')%nat -> mnt (mountpoints s) x = None ->
  (forall y, mnt nodes' y = if decide (y = x) then Some (length (mounts s)) else mnt (mountpoints s) y) ->
  components (mt_destination m) = node_path nodes' x -> F m ->
  step F s (mkTree nodes' (mounts s ++ [m])) /\ mount_at (mkTree nodes' (mounts s ++ [m])) x = Some m.
Proof.
  intros [T P] T' W Hx Hnone M Hm Hf.
  assert (A : forall y, mount_at (mkTree nodes' (mounts s ++ [m])) y =
              if decide (y = x) then Some m else mount_at s y).
  { intros y. unfold mount_at. simpl. change (n_mount_idx (nodes' !!! y)) with (mnt nodes' y). rewrite M.
    case_decide; simpl; [by rewrite list_lookup_middle|].
    change (n_mount_idx (mountpoints s !!! y)) with (mnt (mountpoints s) y).
    destruct (mnt (mountpoints s) y) as [idx|] eqn:E; [|done]. simpl.
    destruct (P _ _ E) as (_ & m' & E' & _). rewrite lookup_app_l by (by eapply lookup_lt_Some). done. }
  split; [|by rewrite A, decide_True]. split.
  - split; [done|]. simpl. intros y idx. rewrite M. case_decide; intros E.
    + subst. injection E as <-. split; [done|]. exists m. by rewrite list_lookup_middle.
    + destruct (P _ _ E) as (H1 & m' & H2 & H3). destruct W as [W1 W2]. split; [lia|].
      exists m'. rewrite lookup_app_l by (by eapply lookup_lt_Some). split; [done|].
      rewrite H3. symmetry. by apply grows_path; [|split|lia].
  - done.
  - intros y m0 H. rewrite A. case_decide; [|eauto with tree]. subst. unfold mount_at in H.
    change (n_mount_idx (mountpoints s !!! x)) with (mnt (mountpoints s) x) in H. by rewrite Hnone in H.
  - intros y m0. rewrite A. case_decide; [|eauto with tree]. intros [= <-]. by left.
Qed.

Lemma make_tmpfs_step ok fs s node : good s -> (node < length (mountpoints s))%nat -> step (fresh_in ok fs) s (make_tmpfs s node).
Proof.
  intros G Hn. pose proof G as [T P]. unfold make_tmpfs. case_bool_decide as H0; [by apply step_refl|].
  change (n_mount_idx (mountpoints s !!! node)) with (mnt (mountpoints s) node).
  destruct (mnt (mountpoints s) node) as [idx|] eqn:E.
  - assert (A : forall y, mount_at (mkTree (mountpoints s) (alter to_tmpfs idx (mounts s))) y =
              (if decide (mnt (mountpoints s) y = Some idx) then to_tmpfs else id) <$> mount_at s y).
    { intros y. unfold mount_at. simpl. change (n_mount_idx (mountpoints s !!! y)) with (mnt (mountpoints s) y).
      destruct (mnt (mountpoints s) y) as [i|] eqn:Ey; [|done]. simpl. rewrite list_lookup_alter.
      repeat case_decide; simplify_eq; [done|by rewrite option_fmap_id]. }
    split.
    + split; [done|]. simpl. intros y i Ey. destruct (P _ _ Ey) as (H1 & m & H2 & H3). split; [done|].
      rewrite list_lookup_alter. case_decide; [|eauto]. subst. rewrite H2. simpl. eauto.
    + apply grows_refl.
    + intros y m H. rewrite A, H. case_decide; simpl; eexists; (split; [done|]); [by right|by left].
    + intros y m'. rewrite A. destruct (mount_at s y) as [m|]; [|done]. simpl. intros [= <-]. right.
      exists m. split; [done|]. case_decide; [by right|by left].
  - apply step_attach with (x := node); auto with tree.
    + rewrite length_alter. lia.
    + intros y. by rewrite mnt_alter.
    + simpl. rewrite destination_spec by done. symmetry. apply grows_path; auto with tree.
    + left. by eexists.
Qed.

Lemma insertChild_mnt nodes p node x : is_tree nodes -> (p < length nodes)%nat ->
  mnt (fst (insertChild nodes p node)) x =
  if decide (x = length nodes) then n_mount_idx node else mnt nodes x.
Proof.
  intros T Hp. unfold mnt, insertChild. simpl. destruct (decide (x < S (length nodes))%nat) as [H|H].
  - rewrite alter_total by (rewrite length_app; simpl; lia). case_decide as D; [rewrite decide_False by lia|].
    + simpl. rewrite lookup_total_app_l by lia. by subst.
    + case_decide; [subst; by rewrite list_lookup_total_middle|]. by rewrite lookup_total_app_l by lia.
  - rewrite decide_False by lia. rewrite !list_lookup_total_alt, !lookup_ge_None_2; [done|lia|].
    rewrite length_alter, length_app. simpl. lia.
Qed.

Lemma insertChild_ro nodes p node x : (p < length nodes)%nat ->
  n_ro (fst (insertChild nodes p node) !!! x) = if decide (x = length nodes) then n_ro node else n_ro (nodes !!! x).
Proof.
  intros Hp. unfold insertChild. simpl. destruct (decide (x < S (length nodes))%nat) as [H|H].
  - rewrite alter_total by (rewrite length_app; simpl; lia). case_decide as D; [rewrite decide_False by lia|].
    + simpl. rewrite lookup_total_app_l by lia. by subst.
    + case_decide; [subst; by rewrite list_lookup_total_middle|]. by rewrite lookup_total_app_l by lia.
  - rewrite decide_False by lia. rewrite !list_lookup_total_alt, !lookup_ge_None_2; [done|lia|].
    rewrite length_alter, length_app. simpl. lia.
Qed.

(** *** What the flags of the nodes do *)

(** The nodes keep their flags, and new ones lie right below [node]. *)
Definition quiet (node : nat) (nodes nodes' : list MountNode) : Prop :=
  (forall x, (x < length nodes)%nat -> n_ro (nodes' !!! x) = n_ro (nodes !!! x)) /\
  (forall x p, (length nodes <= x)%nat -> par nodes' x = Some p -> p = node).

Lemma quiet_refl node nodes : quiet node nodes nodes.
Proof. split; [done|]. intros x p Hx E. rewrite par_out in E by lia. done. Qed.

Lemma quiet_trans node n1 n2 n3 : grows n1 n2 -> grows n2 n3 -> quiet node n1 n2 -> quiet node n2 n3 -> quiet node n1 n3.
Proof.
  intros [L1 _] [_ K2] [R1 P1] [R2 P2]. split.
  - intros x Hx. rewrite R2 by lia. by apply R1.
  - intros x p Hx E. destruct (decide (length n2 <= x)%nat) as [Hl|Hl]; [by apply (P2 x)|].
    destruct (K2 x) as [Ep _]; [lia|]. rewrite Ep in E. by apply (P1 x).
Qed.

Lemma quiet_alter node nodes idx c : quiet node nodes (alter (set_mount idx) c nodes).
Proof.
  split; [intros x Hx; rewrite alter_total by done; by case_decide|].
  intros x p Hx E. rewrite par_out in E by (rewrite length_alter; lia). done.
Qed.

Lemma make_tmpfs_quiet node s : quiet node (mountpoints s) (mountpoints (make_tmpfs s node)).
Proof.
  unfold make_tmpfs. case_bool_decide; [apply quiet_refl|].
  destruct (n_mount_idx _); [apply quiet_refl|apply quiet_alter].
Qed.

Lemma insertChild_quiet nodes p node : is_tree nodes -> (p < length nodes)%nat ->
  (forall c, c ∈ kids nodes p -> nam nodes c <> n_name node) -> n_childs_idx node = [] -> file_name (n_name node) ->
  quiet p nodes (fst (insertChild nodes p node)).
Proof.
  intros T Hp Hnew Hl Hf. split.
  - intros x Hx. rewrite insertChild_ro by done. by rewrite decide_False by lia.
  - intros x q Hx. rewrite (insertChild_par nodes p node T Hp Hnew Hl Hf). case_decide; [by intros [= <-]|].
    intros E. rewrite par_out in E by lia. done.
Qed.

Lemma findChild_some nodes p name c : findChild nodes p name = Some c -> c ∈ kids nodes p /\ nam nodes c = name.
Proof.
  intros H. apply List.find_some in H as [H1 H2]. apply bool_decide_eq_true in H2.
  split; [by apply list_elem_of_In|done].
Qed.

Lemma findChild_none nodes p name c : findChild nodes p name = None -> c ∈ kids nodes p -> nam nodes c <> name.
Proof.
  intros H Hc E. eapply List.find_none in H; [|apply list_elem_of_In; exact Hc].
  by apply bool_decide_eq_false in H.
Qed.

(** *** Binding the entries of a directory *)

(** What a directory lists are names. *)
Definition names_ok (fs : filesystem) : Prop := forall path entries,
  fs_list fs path = Some entries -> Forall (fun e => file_name e.1) entries.

(** Some mount is at the path. *)
Definition covered (s : tree_state) (path : list str) : Prop := exists x m,
  mount_at s x = Some m /\ node_path (mountpoints s) x = path.

Lemma mount_at_lt s x m : mount_at s x = Some m -> (x < length (mountpoints s))%nat.
Proof.
  unfold mount_at. change (n_mount_idx (mountpoints s !!! x)) with (mnt (mountpoints s) x).
  destruct (mnt (mountpoints s) x) eqn:E; [|done]. intros _. by eapply mnt_out.
Qed.

Lemma covered_step F s s' path : good s -> step F s s' -> covered s path -> covered s' path.
Proof.
  intros G S (x & m & H1 & H2). destruct (st_keeps _ _ _ S x m H1) as (m' & H3 & _).
  exists x, m'. split; [done|]. rewrite <- H2. apply grows_path; [apply G|apply S|]. by eapply mount_at_lt.
Qed.

Section adjust.
Context (fs : filesystem) (node : nat) (path fixPath destination : str) (isRo : bool) (entries : list (str * bool)).
Hypothesis Hlist : fs_list fs path = Some entries.
Variable ok : list str -> bool -> Prop.
Hypothesis Hro : ok (components destination) isRo.

Lemma bind_entry_step s n l : good s -> (node < length (mountpoints s))%nat -> file_name n ->
  components destination = node_path (mountpoints s) node -> (n, l) ∈ entries ->
  let s' := bind_entry node path fixPath destination isRo s (n, l) in
  step (fresh_in ok fs) s s' /\ quiet node (mountpoints s) (mountpoints s') /\
  (path_eq (path_div path n) fixPath = false -> covered s' (node_path (mountpoints s) node ++ [n])).
Proof using Hlist Hro.
  intros G Hn Hname Hd Hin. pose proof G as [T P]. unfold bind_entry.
  case_match eqn:Efix; [split; [by apply step_refl|split; [apply quiet_refl|done]]|].
  set (m := bind_mount _ _ _ _ _).
  assert (Hm : components (mt_destination m) = node_path (mountpoints s) node ++ [n]).
  { simpl. rewrite components_app, Hd. by rewrite components_name. }
  assert (F : fresh_in ok fs m).
  { right. exists path, entries, n, l, destination, isRo, m. split_and!; auto with tree. }
  destruct (findChild (mountpoints s) node n) as [c|] eqn:Ec.
  - apply findChild_some in Ec as [Hk Hc]. apply kids_lt in Hk as Hlt; [|done].
    assert (Ep : node_path (mountpoints s) c = node_path (mountpoints s) node ++ [n]).
    { rewrite (node_path_par _ c node T) by (by apply (tr_kids _ T)). by rewrite Hc. }
    unfold is_mounted. rewrite bool_decide_eq_true_2 by lia. simpl.
    change (n_mount_idx (mountpoints s !!! c)) with (mnt (mountpoints s) c). case_bool_decide as E.
    + split; [by apply step_refl|]. split; [apply quiet_refl|]. intros _. destruct E as [idx E]. destruct (P _ _ E) as (_ & m' & H & _).
      exists c, m'. split; [|done]. unfold mount_at.
      change (n_mount_idx (mountpoints s !!! c)) with (mnt (mountpoints s) c). by rewrite E.
    + apply eq_None_not_Some in E.
      assert (W : grows (mountpoints s) (alter (set_mount (length (mounts s))) c (mountpoints s))) by auto with tree.
      edestruct (step_attach (fresh_in ok fs) s (alter (set_mount (length (mounts s))) c (mountpoints s)) c m) as [S A]; auto with tree.
      { rewrite length_alter. lia. }
      { intros y. rewrite mnt_alter; [done|lia]. }
      { rewrite Hm, <- Ep. symmetry. apply grows_path; [done|done|lia]. }
      split; [exact S|]. split; [apply quiet_alter|]. intros _. exists c, m. split; [exact A|]. simpl. rewrite <- Ep. apply grows_path; [done|done|lia].
  - simpl. set (nd := mkNode n false (Some (length (mounts s))) [] None).
    assert (Hnew : forall c, c ∈ kids (mountpoints s) node -> nam (mountpoints s) c <> n_name nd)
      by (intros c; by eapply findChild_none).
    pose proof (insertChild_path _ _ nd T Hn Hnew eq_refl Hname) as Ep.
    pose proof (insertChild_quiet _ _ nd T Hn Hnew eq_refl Hname) as Q.
    edestruct (step_attach (fresh_in ok fs) s (fst (insertChild (mountpoints s) node nd)) (length (mountpoints s)) m) as [S A]; auto.
    { by apply insertChild_tree. }
    { by apply insertChild_grows. }
    { rewrite insertChild_length by done. lia. }
    { destruct (mnt (mountpoints s) _) eqn:E; [|done]. apply mnt_out in E. lia. }
    { intros y. by rewrite insertChild_mnt. }
    { by rewrite Hm, Ep. }
    split; [exact S|]. split; [exact Q|]. intros _. exists (length (mountpoints s)), m. split; [exact A|]. done.
Qed.

Lemma bind_entries_step l : forall s, good s -> (node < length (mountpoints s))%nat ->
  Forall (fun e => file_name e.1 /\ e ∈ entries) l -> components destination = node_path (mountpoints s) node ->
  let s' := fold_left (bind_entry node path fixPath destination isRo) l s in
  step (fresh_in ok fs) s s' /\ quiet node (mountpoints s) (mountpoints s') /\
  forall n k, (n, k) ∈ l -> path_eq (path_div path n) fixPath = false ->
    covered s' (node_path (mountpoints s) node ++ [n]).
Proof using Hlist Hro.
  induction l as [|[n k] l IH]; intros s G Hn Hl Hd; simpl.
  - split; [by apply step_refl|]. split; [apply quiet_refl|]. intros ? ? H. by apply elem_of_nil in H.
  - inversion Hl as [|?? [Hname Hin] Hl']; subst. simpl in Hname.
    destruct (bind_entry_step s n k G Hn Hname Hd Hin) as (S & Q & C). simpl in S, Q, C.
    pose proof (st_good _ _ _ S) as G'. pose proof (st_grows _ _ _ S) as W.
    pose proof (grows_path _ _ node (g_tree _ G) W Hn) as Ep.
    destruct (IH _ G' ltac:(destruct W; lia) Hl' ltac:(by rewrite Ep)) as (S' & Q' & C'). simpl in S', Q', C'. rewrite Ep in C'.
    split; [eapply step_trans; eauto with tree|].
    split; [eapply quiet_trans; [exact W|apply S'|exact Q|exact Q']|]. intros n' k' H Hfix. apply elem_of_cons in H as [[= -> ->]|H]; [|by eapply C'].
    eapply covered_step; [exact G'|exact S'|]. by apply C.
Qed.
End adjust.

Definition is_tmpfs (m : Mount) : Prop :=
  mt_type m = Some (lit "tmpfs") /\ mt_source m = Some (lit "tmpfs") /\ mt_options m = Some tmpfs_options.

Lemma becomes_tmpfs m m' : is_tmpfs m -> becomes m m' -> is_tmpfs m'.
Proof. by intros H [->| ->]. Qed.

Lemma make_tmpfs_at s node : good s -> (0 < node < length (mountpoints s))%nat ->
  exists m, mount_at (make_tmpfs s node) node = Some m /\ is_tmpfs m.
Proof.
  intros G Hn. unfold make_tmpfs, mount_at. rewrite bool_decide_eq_false_2 by lia.
  destruct (n_mount_idx (mountpoints s !!! node)) as [idx|] eqn:E; simpl.
  - rewrite E. simpl. destruct (g_place _ G node idx E) as (_ & m & H & _). rewrite list_lookup_alter, decide_True, H by done.
    by exists (to_tmpfs m).
  - change (n_mount_idx (alter ?f node ?l !!! node)) with (mnt (alter f node l) node).
    rewrite mnt_alter, decide_True by (done || lia). simpl. rewrite list_lookup_middle by done. by eexists.
Qed.

(** [adjustNode]: the node becomes a [tmpfs] and everything of the directory but
    [fixPath] is mounted in it. *)
Lemma adjustNode_ok (ok : list str -> bool -> Prop) fs s node path fixPath s' : names_ok fs -> good s ->
  (node < length (mountpoints s))%nat -> ok (node_path (mountpoints s) node) (n_ro (mountpoints s !!! node)) ->
  adjustNode fs s node path fixPath = Ok s' ->
  step (fresh_in ok fs) s s' /\ quiet node (mountpoints s) (mountpoints s') /\
  ((0 < node)%nat -> exists m, mount_at s' node = Some m /\ is_tmpfs m) /\
  forall entries n k, fs_list fs path = Some entries -> (n, k) ∈ entries ->
    path_eq (path_div path n) fixPath = false -> covered s' (node_path (mountpoints s) node ++ [n]).
Proof.
  intros Hok G Hn Hro H. unfold adjustNode in H. destruct (fs_list fs path) as [entries|] eqn:El; [|done].
  injection H as <-. pose proof (make_tmpfs_step ok fs s node G Hn) as S.
  pose proof (make_tmpfs_quiet node s) as Q.
  pose proof (st_good _ _ _ S) as G'. pose proof (st_grows _ _ _ S) as W.
  pose proof (grows_path _ _ node (g_tree _ G) W Hn) as Ep.
  assert (Hr : ok (components (node_destination (mountpoints s) node)) (n_ro (mountpoints (make_tmpfs s node) !!! node))).
  { rewrite (destination_spec _ _ (g_tree _ G) Hn), (proj1 Q) by done. exact Hro. }
  destruct (bind_entries_step fs node path fixPath (node_destination (mountpoints s) node)
    (n_ro (mountpoints (make_tmpfs s node) !!! node)) entries El ok Hr entries (make_tmpfs s node) G') as (S' & Q' & C').
  - destruct W. lia.
  - apply Forall_forall. intros e He. split; [|done]. pose proof (Hok _ _ El) as F. rewrite Forall_forall in F. auto.
  - rewrite Ep. apply destination_spec; [apply G|done].
  - rewrite Ep in C'. split; [eapply step_trans; eauto with tree|].
    split; [eapply quiet_trans; [exact W|apply S'|exact Q|exact Q']|]. split.
    + intros H0. destruct (make_tmpfs_at s node G) as (m & Hm & Ht); [lia|].
      destruct (st_keeps _ _ _ S' node m Hm) as (m' & Hm' & B). exists m'. split; [done|]. by eapply becomes_tmpfs.
    + intros es n k [= <-]. apply C'.
Qed.

(** The first [N] nodes are those of the list of mounts; every node below
    which something is mounted is one of them. *)
Record phase (N : nat) (ok : list str -> bool -> Prop) (s : tree_state) : Prop := mkPhase {
  ph_in : (0 < N <= length (mountpoints s))%nat;
  ph_ro : forall x, (x < N)%nat -> ok (node_path (mountpoints s) x) (n_ro (mountpoints s !!! x));
  ph_par : forall x p, par (mountpoints s) x = Some p -> (p < N)%nat
}.

Lemma phase_step N ok F s s' node : good s -> step F s s' -> quiet node (mountpoints s) (mountpoints s') -> (node < N)%nat ->
  phase N ok s -> phase N ok s'.
Proof.
  intros G S [Q1 Q2] Hn [P1 P2 P3]. destruct (st_grows _ _ _ S) as [L K]. split.
  - lia.
  - intros x Hx. rewrite (grows_path (mountpoints s)) by (apply G || apply S || lia). rewrite Q1 by lia. by apply P2.
  - intros x p E. destruct (decide (length (mountpoints s) <= x)%nat) as [Hl|Hl]; [by rewrite (Q2 x p)|].
    destruct (K x) as [Ep _]; [lia|]. rewrite Ep in E. by apply (P3 x).
Qed.

(** ** Fixing keeps the tree *)

Section fix_tree.
Context (b : ContainerCfgBuilder) (fs : filesystem) (root : Root).
Hypothesis Hok : names_ok fs.
Variable N : nat.
Variable ok : list str -> bool -> Prop.

Lemma climb_step fuel : forall s node path fixPath s', good s -> phase N ok s ->
  climb fuel fs s node path fixPath = Ok s' -> step (fresh_in ok fs) s s' /\ phase N ok s'.
Proof using Hok.
  induction fuel as [|fuel IH]; intros s node path fixPath s' G Ph; simpl; [intros [= <-]; split; [by apply step_refl|done]|].
  destruct (has_relative_path path); [|intros [= <-]; split; [by apply step_refl|done]].
  destruct node as [n|]; [|done].
  destruct (fs_exists fs (parent_path path)); [|by apply IH].
  destruct (n_parent_idx (mountpoints s !!! n)) as [m|] eqn:Em; [|done]. intros H.
  assert (Hm : (m < N)%nat).
  { apply (ph_par _ _ _ Ph n). destruct (decide (n < length (mountpoints s))%nat); [by rewrite par_alt|].
    rewrite list_lookup_total_alt, lookup_ge_None_2 in Em by lia. done. }
  pose proof (ph_in _ _ _ Ph) as HN.
  destruct (adjustNode_ok ok fs s m (parent_path path) fixPath s' Hok G ltac:(lia) (ph_ro _ _ _ Ph m Hm) H) as (S & Q & _).
  split; [exact S|]. by eapply phase_step.
Qed.

Lemma fix_node_step s node s' : good s -> phase N ok s -> fix_node b fs root s node = Ok s' ->
  step (fresh_in ok fs) s s' /\ phase N ok s'.
Proof using Hok.
  intros G Ph. unfold fix_node. destruct (shouldFix b fs root s node) as [[fixPath|]|]; simpl; [|..|done].
  - by apply climb_step.
  - intros [= <-]. split; [by apply step_refl|done].
Qed.

Lemma fix_nodes_step l : forall s s', good s -> phase N ok s -> fix_nodes b fs root s l = Ok s' -> step (fresh_in ok fs) s s'.
Proof using Hok.
  induction l as [|node l IH]; intros s s' G Ph; simpl; [intros [= <-]; by apply step_refl|].
  destruct (fix_node b fs root s node) as [s1|] eqn:E; simpl; [|done]. intros H.
  apply fix_node_step in E as [S1 Ph1]; [|done..]. eapply step_trans; eauto with tree. apply IH; [apply S1|done|done].
Qed.
End fix_tree.

(** More fuel than the length of the path makes no difference to the climb. *)
Lemma climb_fuel fs fixPath : forall f g s node path, (length path <= f)%nat -> (length path <= g)%nat ->
  climb f fs s node path fixPath = climb g fs s node path fixPath.
Proof.
  assert (Z : forall g s node, climb g fs s node [] fixPath = Ok s) by (by intros []).
  induction f as [|f IH]; intros g s node path Hf Hg.
  - destruct path; simpl in Hf; [|lia]. by rewrite Z.
  - destruct g as [|g]; [destruct path; simpl in Hg; [|lia]; by rewrite Z|]. simpl.
    destruct (has_relative_path path) eqn:E; [|done]. destruct node as [n|]; [|done].
    destruct (fs_exists fs (parent_path path)); [done|]. pose proof (parent_path_shorter _ E).
    apply IH; lia.
Qed.

(** ** The tree that is built *)

Definition has (nodes : list MountNode) (l : list str) : Prop := exists x,
  (x < length nodes)%nat /\ node_path nodes x = l.

Definition dest (m : Mount) : list str := components (mt_destination m).

(** The mounts that get a node: those whose destination is not yet a path of the
    tree, that is, not a prefix of (or equal to) an earlier one. *)
Definition kept (ms : list Mount) (i : nat) : Prop := exists m,
  ms !! i = Some m /\ dest m <> [] /\
  forall j m', (j < i)%nat -> ms !! j = Some m' -> ~ (dest m `prefix_of` dest m').

Lemma has_grows nodes nodes' l : is_tree nodes -> grows nodes nodes' -> has nodes l -> has nodes' l.
Proof.
  intros T G (x & Hx & E). exists x. destruct G as [L G]. split; [lia|]. rewrite <- E. by apply grows_path.
Qed.

Lemma has_child nodes p n : is_tree nodes -> (p < length nodes)%nat ->
  has nodes (node_path nodes p ++ [n]) -> exists c, c ∈ kids nodes p /\ nam nodes c = n.
Proof.
  intros T Hp (x & Hx & E). destruct (decide (x = 0%nat)) as [->|]; [rewrite node_path_root in E; by destruct (node_path nodes p)|].
  destruct (tr_parent _ T x) as (q & Hq & Hlt); [lia|]. rewrite (node_path_par _ _ _ T Hq) in E.
  apply app_inj_tail in E as [E1 E2]. apply node_path_inj in E1; [|done|lia|done]. subst q.
  exists x. split; [by apply (tr_kids _ T)|done].
Qed.

Lemma has_prefix nodes l l' : is_tree nodes -> has nodes (l ++ l') -> has nodes l.
Proof.
  intros T. induction l' as [|n l' IH] using rev_ind; [by rewrite app_nil_r|].
  intros (x & Hx & E). apply IH. rewrite app_assoc in E.
  destruct (decide (x = 0%nat)) as [->|]; [rewrite node_path_root in E; by destruct (l ++ l')|].
  destruct (tr_parent _ T x) as (q & Hq & Hlt); [lia|]. rewrite (node_path_par _ _ _ T Hq) in E.
  apply app_inj_tail in E as [E1 _]. exists q. split; [lia|done].
Qed.

Lemma prefixes_cons (a : list str) n parts l :
  (exists p, p `prefix_of` n :: parts /\ l = a ++ p) <->
  l = a \/ exists p, p `prefix_of` parts /\ l = (a ++ [n]) ++ p.
Proof.
  split.
  - intros ([|n' p] & Hp & ->); [left; by rewrite app_nil_r|right].
    pose proof (prefix_cons_inv_1 _ _ _ _ Hp) as ->. apply prefix_cons_inv_2 in Hp.
    exists p. by rewrite <- app_assoc.
  - intros [->|(p & Hp & ->)]; [exists []; split; [apply prefix_nil|by rewrite app_nil_r]|].
    exists (n :: p). rewrite <- app_assoc. split; [by apply prefix_cons|done].
Qed.

Lemma insertChild_pair nodes p node : insertChild nodes p node = (fst (insertChild nodes p node), length nodes).
Proof. unfold insertChild. simpl. f_equal. rewrite length_app. simpl. lia. Qed.

(** The effect of walking down and inserting what is missing. *)
Definition inserted_below (nodes : list MountNode) (cur : nat) (ins : bool) (parts : list str)
    (r : list MountNode * nat * bool) : Prop :=
  let '(nodes', c, ins') := r in
  is_tree nodes' /\ grows nodes nodes' /\ (c < length nodes')%nat /\
  node_path nodes' c = node_path nodes cur ++ parts /\
  (forall x, mnt nodes' x = mnt nodes x) /\
  (forall l, has nodes' l <-> has nodes l \/ exists p, p `prefix_of` parts /\ l = node_path nodes cur ++ p) /\
  (ins' = true <-> ins = true \/ ~ has nodes (node_path nodes cur ++ parts)).

Lemma insert_known nodes cur ins n parts c r : is_tree nodes -> (cur < length nodes)%nat ->
  findChild nodes cur n = Some c -> inserted_below nodes c ins parts r -> inserted_below nodes cur ins (n :: parts) r.
Proof.
  intros T Hc E. apply findChild_some in E as [Hk Hnm].
  assert (Ep : node_path nodes c = node_path nodes cur ++ [n]).
  { rewrite (node_path_par _ c cur T) by (by apply (tr_kids _ T)). by rewrite Hnm. }
  destruct r as [[nodes' c'] ins']. intros (T' & G & Hc' & P & M & HH & HI).
  rewrite Ep, <- app_assoc in P, HI. split_and!; auto.
  intros l. rewrite prefixes_cons, <- Ep, HH. split; [tauto|]. intros [|[->|]]; [tauto| |tauto].
  left. by exists cur.
Qed.

Lemma insert_new nodes cur ins n parts r : is_tree nodes -> (cur < length nodes)%nat -> file_name n ->
  findChild nodes cur n = None ->
  (is_tree (fst (insertChild nodes cur (mkNode n true None [] None))) ->
   (length nodes < length (fst (insertChild nodes cur (mkNode n true None [] None))))%nat ->
   inserted_below (fst (insertChild nodes cur (mkNode n true None [] None))) (length nodes) true parts r) ->
  inserted_below nodes cur ins (n :: parts) r.
Proof.
  intros T Hc Hn E. set (nd := mkNode n true None [] None). set (nodes1 := fst (insertChild nodes cur nd)).
  assert (Hnew : forall c, c ∈ kids nodes cur -> nam nodes c <> n_name nd) by (intros c; by eapply findChild_none).
  pose proof (insertChild_grows nodes cur nd T Hc Hnew eq_refl Hn) as G1. fold nodes1 in G1.
  pose proof (insertChild_path nodes cur nd T Hc Hnew eq_refl Hn) as P1. simpl n_name in P1. fold nodes1 in P1.
  pose proof (insertChild_length nodes cur nd T Hc Hnew eq_refl Hn) as L1. fold nodes1 in L1.
  destruct r as [[nodes' c'] ins']. intros HR.
  destruct HR as (T' & G & Hc' & P & M & HH & HI); [by apply insertChild_tree|lia|].
  rewrite P1, <- app_assoc in P. split_and!; auto.
  - by eapply grows_trans.
  - intros x. rewrite M. unfold nodes1. rewrite insertChild_mnt by done. case_decide; [|done]. subst x.
    simpl. destruct (mnt nodes (length nodes)) eqn:E'; [apply mnt_out in E'; lia|done].
  - intros l. rewrite prefixes_cons, <- P1, HH. split.
    + intros [(x & Hx & <-)|]; [|tauto]. destruct (decide (x = length nodes)) as [->|].
      * right; right. exists []. split; [apply prefix_nil|by rewrite app_nil_r].
      * left. exists x. split; [lia|]. symmetry. apply grows_path; [done|done|lia].
    + intros [H|[->|]]; [left; by apply (has_grows nodes)| |tauto]. left. apply (has_grows nodes); [done|done|]. by exists cur.
  - split; [intros _; right|intros _; by apply HI; left].
    intros H. replace (n :: parts) with ([n] ++ parts) in H by done. rewrite app_assoc in H.
    apply has_prefix in H; [|done]. apply has_child in H as (c & Hk & Hnm); [|done|done]. by apply (Hnew c).
Qed.

Lemma insert_parts_spec parts : forall nodes cur ins, is_tree nodes -> (cur < length nodes)%nat ->
  Forall file_name parts -> inserted_below nodes cur ins parts (insert_parts nodes cur ins parts).
Proof.
  induction parts as [|n parts IH]; intros nodes cur ins T Hc HF; cbn [insert_parts].
  - unfold inserted_below. rewrite app_nil_r. split_and!; auto using grows_refl.
    + intros l. split; [by left|]. intros [|(p & Hp & ->)]; [done|]. apply prefix_nil_inv in Hp as ->.
      rewrite app_nil_r. by exists cur.
    + split; [by left|]. intros [|H]; [done|]. destruct H. by exists cur.
  - inversion HF as [|?? Hn HF']; subst. destruct (findChild nodes cur n) as [c|] eqn:E.
    + eapply insert_known; [done..|]. apply findChild_some in E as [Hk _]. apply kids_lt in Hk; [|done].
      apply IH; [done|lia|done].
    + rewrite insertChild_pair. apply insert_new; [done..|]. intros T1 L1. apply IH; done.
Qed.

(** What the tree of a list of mounts is. *)
Record built (nodes : list MountNode) (ms : list Mount) : Prop := mkBuilt {
  b_tree : is_tree nodes;
  b_has : forall l, has nodes l <-> l = [] \/ exists m, m ∈ ms /\ l `prefix_of` dest m;
  b_mnt : forall x i, mnt nodes x = Some i <->
    (x < length nodes)%nat /\ kept ms i /\ exists m, ms !! i = Some m /\ node_path nodes x = dest m
}.

Lemma root_built root : built [root_node root] [].
Proof.
  split.
  - split; try done.
    + split; [simpl; lia|done].
    + intros x. simpl. lia.
    + intros [|p] c; unfold kids; simpl; rewrite elem_of_nil; (split; [done|]); unfold par; by destruct c.
    + intros [|p]; constructor.
    + by intros [|x].
    + intros x. simpl. lia.
  - intros l. split; [|intros [->|(m & Hm & _)]; [exists 0%nat; split; [simpl; lia|done]|by apply elem_of_nil in Hm]].
    intros (x & Hx & <-). left. simpl in Hx. by assert (x = 0%nat) as -> by lia.
  - intros x i. split; [by destruct x|]. intros (_ & (m & Hm & _) & _). done.
Qed.

Lemma kept_app ms m i : (i < length ms)%nat -> kept (ms ++ [m]) i <-> kept ms i.
Proof.
  intros Hi. unfold kept. rewrite lookup_app_l by done. split; intros (m0 & H1 & H2 & H3); exists m0; split_and!; auto;
    intros j m' Hj Hm'; apply (H3 j); auto; rewrite lookup_app_l in *; (done || lia).
Qed.

Lemma kept_last ms m : kept (ms ++ [m]) (length ms) <-> dest m <> [] /\ forall m', m' ∈ ms -> ~ (dest m `prefix_of` dest m').
Proof.
  unfold kept. rewrite list_lookup_middle by done. split.
  - intros (m0 & [= <-] & H2 & H3). split; [done|]. intros m' Hin. apply list_elem_of_lookup in Hin as [j Hj].
    pose proof (lookup_lt_Some _ _ _ Hj). apply (H3 j); [done|]. by rewrite lookup_app_l.
  - intros [H2 H3]. exists m. split_and!; auto. intros j m' Hj Hm'. rewrite lookup_app_l in Hm' by done.
    apply H3. by eapply list_elem_of_lookup_2.
Qed.

(** Attaching changes mounts and flags only. *)
Definition attach_node (nodes : list MountNode) (i child : nat) (mount : Mount) : list MountNode :=
  match mt_options mount with
  | Some options => alter (set_ro (bool_decide (lit "ro" ∈ options))) child (alter (set_mount i) child nodes)
  | None => alter (set_mount i) child nodes
  end.

Lemma attach_node_shape nodes i c m : is_tree nodes ->
  is_tree (attach_node nodes i c m) /\ grows nodes (attach_node nodes i c m) /\
  length (attach_node nodes i c m) = length nodes.
Proof.
  intros T. unfold attach_node. destruct (mt_options m); rewrite ?length_alter; split_and!; auto with tree.
  eapply grows_trans; [apply alter_grows, set_mount_shape|apply alter_grows, set_ro_shape].
Qed.

Lemma attach_node_mnt nodes i c m x : (c < length nodes)%nat ->
  mnt (attach_node nodes i c m) x = if decide (x = c) then Some i else mnt nodes x.
Proof.
  intros Hc. rewrite <- mnt_alter by done. unfold attach_node. destruct (mt_options m) as [o|]; [|done].
  set (f := set_ro _). unfold mnt. destruct (decide (x < length nodes)%nat).
  - rewrite alter_total by (by rewrite length_alter). by case_decide.
  - rewrite !list_lookup_total_alt, !lookup_ge_None_2 by (rewrite ?length_alter; lia). done.
Qed.

Lemma has_same nodes nodes' l : is_tree nodes -> grows nodes nodes' -> length nodes' = length nodes ->
  has nodes' l <-> has nodes l.
Proof.
  intros T G L. split; [|by apply has_grows]. intros (x & Hx & <-). exists x. split; [lia|].
  symmetry. apply grows_path; [done|done|lia].
Qed.

(** The tree with the path of one more mount, before the mount is attached. *)
Section attach.
Context (nodes : list MountNode) (ms : list Mount) (m : Mount) (nodes1 : list MountNode) (c : nat) (ins : bool).
Hypothesis HB : built nodes ms.
Hypothesis HI : inserted_below nodes 0 false (dest m) (nodes1, c, ins).
#[local] Set Default Proof Using "All".

Lemma inserted_has l : has nodes1 l <-> l = [] \/ exists m', m' ∈ ms ++ [m] /\ l `prefix_of` dest m'.
Proof.
  destruct HI as (_ & _ & _ & _ & _ & HH & _). rewrite HH, (b_has _ _ HB), node_path_root. simpl.
  setoid_rewrite elem_of_app. setoid_rewrite list_elem_of_singleton. naive_solver.
Qed.

Lemma inserted_kept : ins = true <-> kept (ms ++ [m]) (length ms).
Proof.
  destruct HI as (_ & _ & _ & _ & _ & _ & HH). rewrite kept_last, HH, (b_has _ _ HB), node_path_root. simpl.
  split; [intros [|H]; [done|]; split; [tauto|]; intros m' Hm' Hp; apply H; eauto|].
  intros [H1 H2]. right. intros [|(m' & Hm' & Hp)]; [done|]. by apply (H2 m').
Qed.

Lemma inserted_mnt x i : mnt nodes1 x = Some i <->
  (x < length nodes1)%nat /\ (i < length ms)%nat /\ kept (ms ++ [m]) i /\
  exists m', (ms ++ [m]) !! i = Some m' /\ node_path nodes1 x = dest m'.
Proof.
  destruct HB as [T A B]. destruct HI as (T1 & G1 & _ & _ & M & _). rewrite M, B. split.
  - intros (Hx & K & m' & Hm' & E). pose proof (lookup_lt_Some _ _ _ Hm'). rewrite kept_app, lookup_app_l by done.
    pose proof (grows_path _ _ x T G1 Hx) as Ep. destruct G1. split_and!; [lia|done|done|]. exists m'. by rewrite Ep.
  - intros (Hx & Hi & K & m' & Hm' & E). rewrite kept_app in K by done. rewrite lookup_app_l in Hm' by done.
    assert (has nodes (dest m')) as (y & Hy & Ey).
    { apply A. right. exists m'. split; [by eapply list_elem_of_lookup_2|done]. }
    assert (x = y) as ->.
    { apply (node_path_inj nodes1 T1); [done|destruct G1; lia|]. by rewrite (grows_path nodes nodes1 y) by done; rewrite Ey. }
    split_and!; eauto.
Qed.

(** Only the new mount has the last index. *)
Lemma last_index i m' : (ms ++ [m]) !! i = Some m' -> ~ (i < length ms)%nat -> i = length ms /\ m' = m.
Proof.
  intros Hm' Hi. pose proof (lookup_lt_Some _ _ _ Hm') as Hl. rewrite length_app in Hl. simpl in Hl.
  assert (i = length ms) as -> by lia. rewrite list_lookup_middle in Hm' by done. by injection Hm' as <-.
Qed.

Lemma attached_built : ins = true -> built (attach_node nodes1 (length ms) c m) (ms ++ [m]).
Proof.
  intros Hins. pose proof HI as (T1 & G1 & Hc & P & _). rewrite node_path_root in P. simpl in P.
  destruct (attach_node_shape nodes1 (length ms) c m T1) as (T2 & G2 & L2). pose proof (proj1 inserted_kept Hins) as HK.
  split; [done| |].
  - intros l. rewrite <- inserted_has. by apply has_same.
  - intros x i. rewrite attach_node_mnt, L2 by done. case_decide as Hx.
    + subst x. rewrite (grows_path nodes1 _ c T1 G2 Hc), P. split.
      * intros [= <-]. rewrite list_lookup_middle by done. eauto.
      * intros (_ & Ki & m' & Hm' & E). destruct (decide (i < length ms)%nat) as [Hi|Hi].
        -- apply kept_last in HK as [_ HK]. destruct (HK m'); [|by rewrite E].
           rewrite lookup_app_l in Hm' by done. by eapply list_elem_of_lookup_2.
        -- f_equal. symmetry. by eapply last_index.
    + rewrite inserted_mnt. split.
      * intros (H1 & _ & H2 & H3). split_and!; auto. by rewrite (grows_path nodes1 _ x T1 G2) by done.
      * intros (H1 & H2 & m' & Hm' & E). rewrite (grows_path nodes1 _ x T1 G2) in E by done. split_and!; eauto.
        destruct (decide (i < length ms)%nat) as [|Hi]; [done|]. apply last_index in Hm' as [-> ->]; [|done].
        destruct Hx. apply (node_path_inj nodes1 T1); [done|done|congruence].
Qed.

Lemma unattached_built : ins = false -> built nodes1 (ms ++ [m]).
Proof.
  intros Hins. pose proof HI as (T1 & _). split; [done|apply inserted_has|]. intros x i. rewrite inserted_mnt.
  split; [naive_solver|]. intros (H1 & H2 & m' & Hm' & E). split_and!; eauto.
  destruct (decide (i < length ms)%nat) as [|Hi]; [done|]. apply last_index in Hm' as [-> ->]; [|done].
  apply inserted_kept in H2. by rewrite H2 in Hins.
Qed.
End attach.

Lemma attach_built nodes ms m : built nodes ms -> built (attach nodes (length ms) m) (ms ++ [m]).
Proof.
  intros HB. pose proof (b_tree _ _ HB) as T.
  pose proof (insert_parts_spec (dest m) nodes 0 false T (proj1 (tr_root _ T)) (components_names _)) as I.
  unfold attach, insertChildRecursively. fold (dest m).
  destruct (insert_parts nodes 0 false (dest m)) as [[nodes1 c] [|]].
  - fold (attach_node nodes1 (length ms) c m). by eapply attached_built.
  - by eapply unattached_built.
Qed.

Lemma attach_all_built l : forall nodes ms, built nodes ms ->
  if forallb (fun m => is_absolute (mt_destination m)) l
  then exists nodes', attach_all nodes (length ms) l = Ok nodes' /\ built nodes' (ms ++ l)
  else attach_all nodes (length ms) l = Err BUILD_MOUNT_ERROR.
Proof.
  induction l as [|m l IH]; intros nodes ms HB; simpl; [rewrite app_nil_r; eauto|].
  specialize (IH _ _ (attach_built nodes ms m HB)). rewrite length_app in IH. simpl in IH.
  rewrite Nat.add_1_r, <- app_assoc in IH. case_bool_decide as E; [by rewrite E|].
  destruct (is_absolute (mt_destination m)); [exact IH|done].
Qed.

(** *** The flags of the nodes *)

(** A node is read-only, unless it is the root of a writable root, or its
    mount has options and none is "ro". *)
Definition flag_of (root : Root) (ms : list Mount) (path : list str) (ro : bool) : Prop :=
  ro = true \/ (path = [] /\ ro = default false (root_readonly root)) \/
  exists m options, m ∈ ms /\ dest m = path /\ mt_options m = Some options /\ lit "ro" ∉ options.

Definition flagged (root : Root) (nodes : list MountNode) (ms : list Mount) : Prop :=
  forall x, (x < length nodes)%nat -> flag_of root ms (node_path nodes x) (n_ro (nodes !!! x)).

Lemma insert_parts_flags parts : forall nodes cur ins, is_tree nodes -> (cur < length nodes)%nat -> Forall file_name parts ->
  let nodes' := (insert_parts nodes cur ins parts).1.1 in
  forall x, (x < length nodes')%nat -> n_ro (nodes' !!! x) = if decide (x < length nodes)%nat then n_ro (nodes !!! x) else true.
Proof.
  induction parts as [|n parts IH]; intros nodes cur ins T Hc HF; cbn [insert_parts]; [intros x; cbn; intros Hx; by rewrite decide_True|].
  inversion HF as [|?? Hn HF']; subst. destruct (findChild nodes cur n) as [c|] eqn:E.
  - apply findChild_some in E as [Hk _]. apply kids_lt in Hk; [|done]. apply IH; [done|lia|done].
  - rewrite insertChild_pair. set (nd := mkNode n true None [] None).
    assert (Hnew : forall c, c ∈ kids nodes cur -> nam nodes c <> n_name nd) by (intros c; by eapply findChild_none).
    pose proof (insertChild_tree nodes cur nd T Hc Hnew eq_refl Hn) as T1.
    pose proof (insertChild_length nodes cur nd T Hc Hnew eq_refl Hn) as L1.
    intros x Hx. rewrite IH; [|done|lia|done|exact Hx]. rewrite insertChild_ro by done. rewrite L1.
    repeat case_decide; (done || lia).
Qed.

Lemma attach_flags root nodes ms m : built nodes ms -> flagged root nodes ms -> flagged root (attach nodes (length ms) m) (ms ++ [m]).
Proof.
  intros HB HF. pose proof (b_tree _ _ HB) as T.
  pose proof (insert_parts_spec (dest m) nodes 0 false T (proj1 (tr_root _ T)) (components_names _)) as I.
  pose proof (insert_parts_flags (dest m) nodes 0 false T (proj1 (tr_root _ T)) (components_names _)) as R.
  unfold attach, insertChildRecursively. fold (dest m).
  destruct (insert_parts nodes 0 false (dest m)) as [[nodes1 c] ins]. cbn in R. destruct I as (T1 & G1 & Hc & P & _).
  rewrite node_path_root in P. simpl in P.
  assert (F1 : flagged root nodes1 (ms ++ [m])).
  { intros x Hx. rewrite R by done. case_decide as Hl; [|by left]. rewrite (grows_path nodes nodes1 x T G1 Hl).
    destruct (HF x Hl) as [E|[E|(m' & o & Hm' & E)]]; [by left|by right; left|right; right].
    exists m', o. split; [apply elem_of_app; by left|exact E]. }
  destruct ins; [|exact F1]. fold (attach_node nodes1 (length ms) c m).
  destruct (attach_node_shape nodes1 (length ms) c m T1) as (_ & G2 & L2). intros x. rewrite L2. intros Hx.
  rewrite (grows_path nodes1 _ x T1 G2 Hx). unfold attach_node. destruct (mt_options m) as [o|] eqn:Eo.
  - rewrite alter_total by (by rewrite length_alter). case_decide as Ec; [subst x|rewrite alter_total by done; case_decide; [done|by apply F1]].
    simpl. case_bool_decide as Er; [by left|]. right. right. exists m, o. rewrite P. split_and!; try done. apply elem_of_app. right. by left.
  - rewrite alter_total by done. case_decide; [subst; apply (F1 c Hc)|by apply F1].
Qed.

Lemma attach_all_flags root l : forall nodes ms nodes', built nodes ms -> flagged root nodes ms ->
  attach_all nodes (length ms) l = Ok nodes' -> flagged root nodes' (ms ++ l).
Proof.
  induction l as [|m l IH]; intros nodes ms nodes' HB HF; simpl; [rewrite app_nil_r; by intros [= <-]|].
  case_bool_decide; [done|]. destruct (negb _); [done|]. intros E.
  pose proof (IH _ _ nodes' (attach_built nodes ms m HB) (attach_flags root nodes ms m HB HF)) as F.
  rewrite length_app, Nat.add_1_r, <- app_assoc in F. by apply F.
Qed.

Lemma root_flagged root : flagged root [root_node root] [].
Proof. intros x Hx. simpl in Hx. assert (x = 0%nat) as -> by lia. right. left. done. Qed.

Lemma built_good nodes ms : built nodes ms -> good (mkTree nodes ms).
Proof.
  intros [T A B]. split; [done|]. simpl. intros x i H. pose proof H as H'. apply B in H as (Hx & K & m & Hm & E).
  split; [|eauto]. split; [|done]. destruct K as (m' & Hm' & K & _). simplify_eq.
  destruct x; [|lia]. by rewrite node_path_root in E.
Qed.

(** ** Breadth first *)

Fixpoint bfs (fuel : nat) (nodes : list MountNode) (idx : nat) (queue : list nat) : list nat :=
  match fuel with
  | O => queue
  | S fuel =>
      match queue !! idx with
      | None => queue
      | Some node => bfs fuel nodes (S idx) (queue ++ kids nodes node)
      end
  end.

Lemma generate_bfs s f : forall idx q,
  generate f s idx (0%nat :: q) (omap (mount_at s) q) = omap (mount_at s) (tail (bfs f (mountpoints s) idx (0%nat :: q))).
Proof.
  induction f as [|f IH]; intros idx q; cbn [generate bfs]; [done|].
  destruct ((0%nat :: q) !! idx) as [node|]; [|done]. change (n_childs_idx (mountpoints s !!! node)) with (kids (mountpoints s) node).
  rewrite <- omap_app. cbn [app]. apply IH.
Qed.

(** The loop of [tryFixMountpointsTree] is the same search, without the root. *)
Lemma collect_bfs nodes f : forall node idx acc, (0%nat :: acc) !! idx = Some node ->
  0%nat :: collect f nodes node idx acc = bfs f nodes idx (0%nat :: acc).
Proof.
  induction f as [|f IH]; intros node idx acc E; cbn [collect bfs]; [done|].
  rewrite E. change (n_childs_idx (nodes !!! node)) with (kids nodes node). cbn [app].
  destruct ((acc ++ kids nodes node) !! idx) as [n|] eqn:E'; [by apply IH|].
  destruct f; cbn [bfs]; [done|]. simpl. by rewrite E'.
Qed.

Section bfs.
Context (nodes : list MountNode).
Hypothesis T : is_tree nodes.
#[local] Set Default Proof Using "All".

Definition depth (x : nat) : nat := length (node_path nodes x).

Lemma depth_kid n c : c ∈ kids nodes n -> depth c = S (depth n).
Proof.
  intros H. apply (tr_kids _ T) in H. unfold depth. rewrite (node_path_par _ _ _ T H), length_app. simpl. lia.
Qed.

Record bfs_inv (idx : nat) (q : list nat) : Prop := mkInv {
  i_nodup : NoDup q;
  i_range : forall x, x ∈ q -> (x < length nodes)%nat;
  i_zero : 0%nat ∈ q;
  i_closed : forall x c, x ∈ take idx q -> c ∈ kids nodes x -> c ∈ q;
  i_from : forall c, c ∈ q -> c = 0%nat \/ exists p, par nodes c = Some p /\ p ∈ take idx q;
  i_sorted : forall i j x y, (i <= j)%nat -> q !! i = Some x -> q !! j = Some y -> (depth x <= depth y)%nat;
  i_front : forall x f, x ∈ q -> q !! idx = Some f -> (depth x <= S (depth f))%nat
}.

Lemma bfs_start : bfs_inv 0 [0%nat].
Proof.
  pose proof (tr_root _ T) as [R _]. split.
  - apply NoDup_singleton.
  - intros x ->%list_elem_of_singleton. done.
  - by apply list_elem_of_singleton.
  - intros x c H. by apply elem_of_nil in H.
  - intros c ->%list_elem_of_singleton. by left.
  - intros [|i] [|j] x y _ Hx Hy; simplify_eq/=; done.
  - intros x f ->%list_elem_of_singleton [= <-]. lia.
Qed.

Lemma bfs_next idx q n : bfs_inv idx q -> q !! idx = Some n -> bfs_inv (S idx) (q ++ kids nodes n).
Proof.
  intros [N R Z C F S0 D] Hn. assert (Hq : n ∈ q) by (by eapply list_elem_of_lookup_2).
  pose proof (lookup_lt_Some _ _ _ Hn) as Hlt.
  assert (Htake : take (S idx) (q ++ kids nodes n) = take idx q ++ [n]).
  { rewrite take_app_le by lia. by apply take_S_r. }
  assert (Hnot : n ∉ take idx q).
  { intros (i & Hi)%list_elem_of_lookup. apply lookup_take_Some in Hi as [Hi Hlt'].
    pose proof (NoDup_lookup _ _ _ _ N Hi Hn). lia. }
  split.
  - apply NoDup_app. split_and!; [done| |apply (tr_nodup _ T)]. intros c Hc Hk. apply (tr_kids _ T) in Hk.
    destruct (F c Hc) as [->|(p & Hp & Hin)]; [by rewrite (proj2 (tr_root _ T)) in Hk|congruence].
  - intros x [|Hx]%elem_of_app; [auto|]. apply kids_lt in Hx; [lia|done].
  - apply elem_of_app. by left.
  - intros x c. rewrite Htake, elem_of_app, list_elem_of_singleton, elem_of_app.
    intros [Hx | ->] Hc; [left; by eapply C|by right].
  - intros c. rewrite Htake, elem_of_app. intros [Hc|Hc].
    + destruct (F c Hc) as [|(p & Hp & Hin)]; [by left|right]. exists p. split; [done|]. apply elem_of_app. by left.
    + right. exists n. split; [by apply (tr_kids _ T)|]. apply elem_of_app. right. by apply list_elem_of_singleton.
  - intros i j x y Hij Hx Hy. apply lookup_app_Some in Hx as [Hx|[Hx1 Hx]], Hy as [Hy|[Hy1 Hy]].
    + by apply (S0 i j).
    + rewrite (depth_kid n y) by (by eapply list_elem_of_lookup_2). apply D; [by eapply list_elem_of_lookup_2|done].
    + apply lookup_lt_Some in Hy. lia.
    + rewrite (depth_kid n x), (depth_kid n y) by (by eapply list_elem_of_lookup_2). lia.
  - intros x f Hx Hf. assert (depth n <= depth f)%nat as Hnf.
    { apply lookup_app_Some in Hf as [Hf|[_ Hf]]; [apply (S0 idx (S idx)); [lia|done|done]|].
      rewrite (depth_kid n f) by (by eapply list_elem_of_lookup_2). lia. }
    apply elem_of_app in Hx as [Hx|Hx]; [specialize (D x n Hx Hn)|rewrite (depth_kid n x) by done]; lia.
Qed.

Lemma bfs_length idx q : bfs_inv idx q -> (length q <= length nodes)%nat.
Proof.
  intros I. replace (length nodes) with (length (seq 0 (length nodes))) by apply length_seq.
  apply submseteq_length, NoDup_submseteq; [apply I|].
  intros x Hx. apply elem_of_seq. pose proof (i_range _ _ I x Hx). lia.
Qed.

Lemma bfs_run f : forall idx q, bfs_inv idx q -> (length nodes <= idx + f)%nat ->
  exists idx', bfs_inv idx' (bfs f nodes idx q) /\ (length (bfs f nodes idx q) <= idx')%nat /\
    q `prefix_of` bfs f nodes idx q.
Proof.
  induction f as [|f IH]; intros idx q I Hf; cbn [bfs].
  - exists idx. pose proof (bfs_length _ _ I). split_and!; [done|lia|done].
  - destruct (q !! idx) as [n|] eqn:E.
    + destruct (IH (S idx) (q ++ kids nodes n)) as (idx' & I' & L' & P'); [by apply bfs_next|lia|].
      exists idx'. split_and!; auto. etrans; [|exact P']. by eexists.
    + exists idx. apply lookup_ge_None in E. done.
Qed.

(** Every node is listed once, and in the order of depths. *)
Lemma bfs_spec : exists q, bfs (length nodes) nodes 0 [0%nat] = 0%nat :: q /\ NoDup (0%nat :: q) /\
  (forall x, x ∈ 0%nat :: q <-> (x < length nodes)%nat) /\
  (forall i j x y, (i <= j)%nat -> q !! i = Some x -> q !! j = Some y -> (depth x <= depth y)%nat).
Proof.
  destruct (bfs_run (length nodes) 0 [0%nat] bfs_start) as (idx & [N R Z C F S0 D] & L & (q & E)); [lia|].
  simpl in E. exists q. rewrite E in *. split_and!; auto.
  - intros x. split; [apply R|]. rewrite take_ge in C by lia. induction x as [x IH] using lt_wf_ind. intros Hx.
    destruct (decide (x = 0%nat)) as [->|]; [done|]. destruct (tr_parent _ T x) as (p & Hp & Hlt); [lia|].
    apply (C p); [apply IH; lia|by apply (tr_kids _ T)].
  - intros i j x y Hij Hx Hy. by apply (S0 (S i) (S j)); [lia|..].
Qed.
End bfs.

(** ** The mounts that come out *)

Lemma lookup_sorted {A} (R : A -> A -> Prop) l :
  (forall i j x y, (i < j)%nat -> l !! i = Some x -> l !! j = Some y -> R x y) -> StronglySorted R l.
Proof.
  induction l as [|a l IH]; intros H; constructor.
  - apply IH. intros i j x y Hij Hx Hy. by apply (H (S i) (S j)); [lia|..].
  - apply Forall_forall. intros x (j & Hj)%list_elem_of_lookup. by apply (H 0%nat (S j)); [lia|..].
Qed.

Lemma sorted_omap {A B} (f : A -> option B) (R : A -> A -> Prop) (R' : B -> B -> Prop) l :
  (forall x y a b, R x y -> f x = Some a -> f y = Some b -> R' a b) -> StronglySorted R l -> StronglySorted R' (omap f l).
Proof.
  intros H. induction 1 as [|x l Hl IH Hx]; simpl; [constructor|]. destruct (f x) as [a|] eqn:E; [|done].
  constructor; [done|]. apply Forall_forall. intros b (y & Hy & Eb)%list_elem_of_omap.
  rewrite Forall_forall in Hx. eauto.
Qed.

Lemma mount_at_dest s x m : good s -> mount_at s x = Some m -> (0 < x < length (mountpoints s))%nat /\
  dest m = node_path (mountpoints s) x.
Proof.
  intros G. unfold mount_at. change (n_mount_idx (mountpoints s !!! x)) with (mnt (mountpoints s) x).
  destruct (mnt (mountpoints s) x) as [idx|] eqn:E; [|done]. simpl. intros H.
  destruct (g_place _ G _ _ E) as (Hx & m' & Hm' & Ed). split; [done|]. assert (m' = m) as -> by congruence. exact Ed.
Qed.

Lemma generate_sorted s : good s ->
  StronglySorted (fun m m' => ~ (dest m' `prefix_of` dest m)) (generateMounts s).
Proof.
  intros G. pose proof (g_tree _ G) as T. unfold generateMounts.
  change (@nil Mount) with (omap (mount_at s) []). rewrite generate_bfs.
  destruct (bfs_spec (mountpoints s) T) as (q & -> & N & R & D). cbn [tail].
  apply (sorted_omap (mount_at s) (fun x y => x <> y /\ (depth (mountpoints s) x <= depth (mountpoints s) y)%nat)).
  - intros x y m m' [Hne Hd] Hm Hm'. apply mount_at_dest in Hm as [Hx Ex], Hm' as [Hy Ey]; [|done..].
    rewrite Ex, Ey. intros P. apply Hne. apply (node_path_inj _ T); [lia|lia|]. symmetry.
    apply prefix_length_eq; [done|exact Hd].
  - apply lookup_sorted. intros i j x y Hij Hx Hy. split; [|apply (D i j); [lia|done|done]].
    intros ->. inversion N; subst. assert (i = j) by (by eapply NoDup_lookup). lia.
Qed.

Lemma generate_elem s m : good s -> m ∈ generateMounts s <-> exists x, mount_at s x = Some m.
Proof.
  intros G. pose proof (g_tree _ G) as T. unfold generateMounts.
  change (@nil Mount) with (omap (mount_at s) []). rewrite generate_bfs.
  destruct (bfs_spec (mountpoints s) T) as (q & -> & N & R & D). cbn [tail]. rewrite list_elem_of_omap.
  split; intros (x & H); [naive_solver|]. exists x. split; [|done].
  apply mount_at_dest in H as [Hx _]; [|done]. assert (x ∈ 0%nat :: q) as Hq by (apply R; lia). apply elem_of_cons in Hq as [->|]; [lia|done].
Qed.

Lemma path_div_names p n : file_name n -> components (path_div p n) <> [].
Proof.
  intros H. pose proof (name_no_slash _ H) as [Ha _]. unfold path_div. rewrite Ha.
  assert (E : forall a, components (a ++ "/"%char :: n) <> []).
  { intros a. rewrite components_app, (components_name n) by done. intros X. by apply app_eq_nil in X as [_ X]. }
  destruct (has_filename p) eqn:Ef; [apply E|]. destruct p as [|c p _] using rev_ind; [simpl; by rewrite components_name|].
  unfold has_filename in Ef. rewrite last_snoc in Ef. apply negb_false_iff, bool_decide_eq_true in Ef. subst.
  rewrite <- app_assoc. apply E.
Qed.

(** The successful run, piece by piece. *)
Lemma run_spec fs fs' created b b' ms root : names_ok fs -> names_ok fs' -> mountpoints (tree b) = [] ->
  selfAdjustingMountEnabled b = true -> config_mounts b = Some ms -> config_root b = Some root ->
  selfAdjustingMount b fs fs' created = Ok b' ->
  exists nodes s', built nodes ms /\
    step (fun m => fresh_in (flag_of root ms) fs m \/ fresh_in (flag_of root ms) fs' m) (mkTree nodes ms) s' /\
    config_mounts b' = Some (generateMounts s') /\
    (forall entries n k, fs_list fs (root_path root) = Some entries -> (n, k) ∈ entries -> covered s' [n]).
Proof.
  intros O O' Hm He Hms Hroot. unfold selfAdjustingMount. rewrite He, Hms, Hroot. simpl negb.
  unfold constructMountpointsTree. simpl. rewrite Hm. simpl.
  pose proof (attach_all_built ms _ _ (root_built root)) as HB. simpl in HB.
  pose proof (fun nodes' => attach_all_flags root ms _ _ nodes' (root_built root) (root_flagged root)) as HF. simpl in HF.
  destruct (forallb _ ms); [|by rewrite HB]. destruct HB as (nodes & Ea & HB). specialize (HF nodes Ea). rewrite Ea. simpl.
  pose proof (built_good _ _ HB) as G. destruct (tr_root _ (b_tree _ _ HB)) as [R _].
  destruct (adjustNode fs (mkTree nodes ms) 0 (root_path root) []) as [s1|] eqn:E1; [|done]. simpl.
  destruct created; [|done]. simpl. destruct (tryFixMountpointsTree b fs' _ s1) as [s2|] eqn:E2; [|done]. simpl.
  intros [= <-]. apply (adjustNode_ok (flag_of root ms)) in E1 as (S1 & Q1 & _ & C1); [|done|done|exact R|by apply HF].
  pose proof (st_good _ _ _ S1) as G1.
  assert (Ph : phase (length nodes) (flag_of root ms) s1).
  { apply (phase_step _ _ _ (mkTree nodes ms) s1 0 G S1 Q1 R). split; [simpl; lia|exact HF|]. intros x p E. simpl in E.
    pose proof (par_lt _ _ _ (b_tree _ _ HB) E). pose proof (par_length _ _ _ E). lia. }
  apply (fix_nodes_step b fs' _ O' _ _ _ _ _ G1 Ph) in E2.
  exists nodes, s2. split_and!; [done| |done|].
  - apply (step_trans _ _ s1); [|eapply step_weaken; [|exact S1]; tauto|eapply step_weaken; [|exact E2]; tauto].
    intros m m' [F|F] B; [left|right]; by eapply fresh_becomes.
  - intros entries n k Hl Hin. eapply covered_step; [exact G1|exact E2|]. simpl in C1.
    apply (C1 entries n k Hl Hin). unfold path_eq. pose proof (O _ _ Hl) as F. rewrite Forall_forall in F.
    specialize (F _ Hin). simpl in F. rewrite (bool_decide_eq_false_2 (components _ = _)) by (by apply path_div_names).
    by rewrite andb_false_r.
Qed.

(** ** Properties *)

(** C12: the mounts come out in an order in which none is hidden: no mount's
    destination is that of an earlier mount or a directory above it. *)
Theorem selfAdjustingMount_order fs fs' created b b' ms : names_ok fs -> names_ok fs' ->
  mountpoints (tree b) = [] -> selfAdjustingMountEnabled b = true -> config_mounts b = Some ms ->
  selfAdjustingMount b fs fs' created = Ok b' ->
  exists out, config_mounts b' = Some out /\
    forall i j m m', (i < j)%nat -> out !! i = Some m -> out !! j = Some m' -> ~ (dest m' `prefix_of` dest m).
Proof.
  intros O O' Hm He Hms H. destruct (config_root b) as [root|] eqn:Hr.
  - eapply run_spec in H as (nodes & s' & _ & S & E & _); eauto. exists (generateMounts s'). split; [done|].
    intros i j m m' Hij Hi Hj. by apply (sorted_lookup _ _ i j _ _ (generate_sorted s' (st_good _ _ _ S)) Hi Hj Hij).
  - unfold selfAdjustingMount in H. by rewrite He, Hms, Hr in H.
Qed.

Lemma selfAdjusting_keeps fs fs' created b b' ms : names_ok fs -> names_ok fs' ->
  mountpoints (tree b) = [] -> selfAdjustingMountEnabled b = true -> config_mounts b = Some ms ->
  forall root, config_root b = Some root -> selfAdjustingMount b fs fs' created = Ok b' ->
  exists out, config_mounts b' = Some out /\
    (forall i m, ms !! i = Some m -> kept ms i -> exists m', m' ∈ out /\ becomes m m') /\
    StronglySorted (fun m m' => ~ (dest m' `prefix_of` dest m)) out /\
    forall m', m' ∈ out -> (fresh_in (flag_of root ms) fs m' \/ fresh_in (flag_of root ms) fs' m') \/
      exists m, m ∈ ms /\ becomes m m'.
Proof.
  intros O O' Hm He Hms root Hr H. eapply run_spec in H as (nodes & s' & HB & S & E & _); eauto.
  exists (generateMounts s'). pose proof (st_good _ _ _ S) as G. split_and!; [done| |by apply generate_sorted|].
  2: { intros m' Hin. apply generate_elem in Hin as (x & Hx); [|done].
    destruct (st_origin _ _ _ S x m' Hx) as [F|(m & H0 & B)]; [by left|]. right. exists m. split; [|done].
    unfold mount_at in H0. simpl in H0. destruct (n_mount_idx _) as [i|]; [|done]. simpl in H0. by eapply list_elem_of_lookup_2. }
  intros i m Hi K. assert (has nodes (dest m)) as (x & Hx & Ex).
  { apply (b_has _ _ HB). right. exists m. split; [by eapply list_elem_of_lookup_2|done]. }
  assert (mnt nodes x = Some i) as Hmx by (apply (b_mnt _ _ HB); eauto).
  destruct (st_keeps _ _ _ S x m) as (m' & Hm' & B).
  { unfold mount_at. simpl. change (n_mount_idx (nodes !!! x)) with (mnt nodes x). by rewrite Hmx. }
  exists m'. split; [|done]. apply generate_elem; eauto.
Qed.

(** C29: nothing that has a node is lost: every mount whose destination was not yet
    in the tree is still there, unless a [tmpfs] has taken its place at the same
    destination, and so is every entry of the root directory; besides these only
    [tmpfs] and binds of directory entries are added. *)
Theorem selfAdjustingMount_covers fs fs' created b b' ms root : names_ok fs -> names_ok fs' ->
  mountpoints (tree b) = [] -> selfAdjustingMountEnabled b = true -> config_mounts b = Some ms ->
  config_root b = Some root -> selfAdjustingMount b fs fs' created = Ok b' ->
  exists out, config_mounts b' = Some out /\
    (forall i m, ms !! i = Some m -> kept ms i -> exists m', m' ∈ out /\ becomes m m') /\
    (forall entries n k, fs_list fs (root_path root) = Some entries -> (n, k) ∈ entries ->
       exists m', m' ∈ out /\ dest m' = [n]) /\
    (forall m', m' ∈ out -> fresh fs m' \/ fresh fs' m' \/
       exists i m, ms !! i = Some m /\ kept ms i /\ becomes m m').
Proof.
  intros O O' Hm He Hms Hroot H. eapply run_spec in H as (nodes & s' & HB & S & E & C); eauto.
  exists (generateMounts s'). pose proof (st_good _ _ _ S) as G. split; [done|].
  assert (M : forall x i m, mnt nodes x = Some i -> ms !! i = Some m -> mount_at (mkTree nodes ms) x = Some m).
  { intros x i m Hx Hi. unfold mount_at. simpl. change (n_mount_idx (nodes !!! x)) with (mnt nodes x). by rewrite Hx. }
  split_and!.
  - intros i m Hi K. assert (has nodes (dest m)) as (x & Hx & Ex).
    { apply (b_has _ _ HB). right. exists m. split; [by eapply list_elem_of_lookup_2|done]. }
    assert (mnt nodes x = Some i) as Hmx by (apply (b_mnt _ _ HB); eauto).
    destruct (st_keeps _ _ _ S x m) as (m' & Hm' & B); [by eapply M|].
    exists m'. split; [|done]. apply generate_elem; eauto.
  - intros entries n k Hl Hin. destruct (C entries n k Hl Hin) as (x & m & Hx & Ex). exists m. split.
    + apply generate_elem; eauto.
    + apply mount_at_dest in Hx as [_ ->]; done.
  - intros m' Hin. apply generate_elem in Hin as (x & Hx); [|done].
    destruct (st_origin _ _ _ S x m' Hx) as [[F|F]|(m & H0 & B)];
      [left; by eapply fresh_in_fresh|right; left; by eapply fresh_in_fresh|right; right].
    unfold mount_at in H0. simpl in H0. change (n_mount_idx (nodes !!! x)) with (mnt nodes x) in H0.
    destruct (mnt nodes x) as [i|] eqn:Ei; [|done]. simpl in H0. apply (b_mnt _ _ HB) in Ei as (_ & K & _). eauto.
Qed.

(** Building the tree fails exactly when some destination is not absolute;
    otherwise each mount that is kept gets one node, at its destination, and
    every other mount gets none and is dropped. *)
Theorem constructMountpointsTree_spec root ms :
  if forallb (fun m => is_absolute (mt_destination m)) ms then
    exists s, constructMountpointsTree root (mkTree [] ms) = Ok s /\ mounts s = ms /\ is_tree (mountpoints s) /\
      forall i m, ms !! i = Some m ->
        (kept ms i -> exists x, forall y, mnt (mountpoints s) y = Some i <-> y = x) /\
        (kept ms i -> forall x, mnt (mountpoints s) x = Some i -> node_path (mountpoints s) x = dest m) /\
        (~ kept ms i -> forall x, mnt (mountpoints s) x <> Some i)
  else constructMountpointsTree root (mkTree [] ms) = Err BUILD_MOUNT_ERROR.
Proof.
  pose proof (attach_all_built ms _ _ (root_built root)) as H. simpl in H. unfold constructMountpointsTree. simpl.
  destruct (forallb _ ms); [|by rewrite H]. destruct H as (nodes & -> & HB). exists (mkTree nodes ms).
  split_and!; [done|done|apply HB|]. simpl. intros i m Hi. pose proof (b_mnt _ _ HB) as M. split_and!.
  - intros K. assert (has nodes (dest m)) as (x & Hx & Ex).
    { apply (b_has _ _ HB). right. exists m. split; [by eapply list_elem_of_lookup_2|done]. }
    exists x. intros y. rewrite M. split; [|intros ->; eauto].
    intros (Hy & _ & m' & Hm' & Ey). apply (node_path_inj nodes); [apply HB|done|done|congruence].
  - intros K x Hx. apply M in Hx as (_ & _ & m' & Hm' & E). congruence.
  - intros K x Hx. apply M in Hx as (_ & K' & _). done.
Qed.

(** [adjustNode] makes its node a [tmpfs], mounts everything the directory
    lists, except [fixPath], below it, and takes no mount point away. *)
Theorem adjustNode_spec fs s node path fixPath s' entries : names_ok fs -> good s ->
  (0 < node < length (mountpoints s))%nat -> fs_list fs path = Some entries ->
  adjustNode fs s node path fixPath = Ok s' ->
  good s' /\ (exists m, mount_at s' node = Some m /\ is_tmpfs m) /\
  (forall n k, (n, k) ∈ entries -> path_eq (path_div path n) fixPath = false ->
     exists x m, mount_at s' x = Some m /\ dest m = node_path (mountpoints s) node ++ [n]) /\
  (forall x m, mount_at s x = Some m -> exists m', mount_at s' x = Some m' /\ becomes m m').
Proof.
  intros O G Hn Hl H. apply (adjustNode_ok (fun _ _ => True)) in H as (S & _ & Tm & C); [|done|done|lia|done].
  split_and!; [apply S|apply Tm; lia| |apply S].
  intros n k Hin Hf. destruct (C entries n k Hl Hin Hf) as (x & m & Hx & Ex). exists x, m. split; [done|].
  apply mount_at_dest in Hx as [_ ->]; [done|apply S].
Qed.

(** ** Witnesses *)

Definition example_fs : filesystem :=
  mkFs (fun p => bool_decide (p ∈ [lit "/base"; lit "/base/etc"; lit "/base/etc/passwd"; lit "/base/tmp"]))
    (fun _ => false)
    (fun p => if bool_decide (p = lit "/base") then Some [(lit "etc", false); (lit "tmp", false); (lit "lib", true)]
              else if bool_decide (p = lit "/base/etc") then Some [(lit "passwd", false)] else None).

Definition example_mounts : list Mount :=
  [mount_of (lit "/tmp") [lit "rbind"] (lit "/tmp") (lit "bind");
   mount_of (lit "/etc/resolv.conf") [lit "rbind"; lit "ro"] (lit "/etc/resolv.conf") (lit "bind");
   mount_of (lit "/tmp") [] (lit "tmpfs") (lit "tmpfs")].

Definition example_builder : ContainerCfgBuilder :=
  mkBuilder (lit "/base") None None (lit "/run/bundle") true (Some (mkRoot (lit "/base") (Some true)))
    (Some example_mounts) (mkTree [] []).

Lemma example_names : names_ok example_fs.
Proof.
  intros p es. simpl. repeat case_bool_decide; intros [= <-]; repeat constructor; (done || set_solver).
Qed.

(** The result: a [tmpfs] for [/etc], filled from the layer, with the missing
    file mounted in it; the second mount on [/tmp] is gone. *)
Definition example_result : list (str * option str) :=
  [(lit "/tmp", Some (lit "/tmp")); (lit "/etc", Some (lit "tmpfs")); (lit "/lib", Some (lit "/base/lib"));
   (lit "/etc/resolv.conf", Some (lit "/etc/resolv.conf")); (lit "/etc/passwd", Some (lit "/base/etc/passwd"))].

Lemma example_run : exists b', selfAdjustingMount example_builder example_fs example_fs true = Ok b' /\
  (map (fun m => (mt_destination m, mt_source m)) <$> config_mounts b') = Some example_result.
Proof. eexists. split; vm_compute; reflexivity. Qed.

Lemma selfAdjustingMount_order_witness : exists b' out,
  selfAdjustingMount example_builder example_fs example_fs true = Ok b' /\ config_mounts b' = Some out /\ length out = 5%nat /\
  forall i j m m', (i < j)%nat -> out !! i = Some m -> out !! j = Some m' -> ~ (dest m' `prefix_of` dest m).
Proof.
  destruct example_run as (b' & H & E). exists b'.
  destruct (selfAdjustingMount_order example_fs example_fs true example_builder b' example_mounts) as (out & Ho & S);
    [apply example_names|apply example_names|reflexivity|reflexivity|reflexivity|exact H|].
  exists out. split; [exact H|]. split; [exact Ho|]. split; [|exact S].
  rewrite Ho in E. simpl in E. injection E as E. apply (f_equal length) in E. by rewrite length_map in E.
Defined.

Lemma selfAdjustingMount_covers_witness : exists b' out,
  selfAdjustingMount example_builder example_fs example_fs true = Ok b' /\ config_mounts b' = Some out /\
  (forall i m, example_mounts !! i = Some m -> kept example_mounts i -> exists m', m' ∈ out /\ becomes m m') /\
  (exists m', m' ∈ out /\ dest m' = [lit "lib"]).
Proof.
  destruct example_run as (b' & H & _). exists b'.
  destruct (selfAdjustingMount_covers example_fs example_fs true example_builder b' example_mounts
    (mkRoot (lit "/base") (Some true))) as (out & Ho & S1 & S2 & _);
    [apply example_names|apply example_names|reflexivity|reflexivity|reflexivity|reflexivity|exact H|].
  exists out. split; [exact H|]. split; [exact Ho|]. split; [exact S1|].
  eapply (S2 _ _ true); [vm_compute; reflexivity|]. right. right. left.
Defined.

Definition example_nodes : list MountNode :=
  attach (attach [root_node (mkRoot (lit "/base") (Some true))] 0 (example_mounts !!! 0%nat)) 1 (example_mounts !!! 1%nat).

Lemma example_good : good (mkTree example_nodes (take 2 example_mounts)).
Proof.
  apply built_good. pose proof (attach_built _ _ (example_mounts !!! 0%nat) (root_built (mkRoot (lit "/base") (Some true)))) as H.
  by apply (attach_built _ _ (example_mounts !!! 1%nat)) in H.
Qed.

Lemma adjustNode_spec_witness : exists s',
  adjustNode example_fs (mkTree example_nodes (take 2 example_mounts)) 2 (lit "/base/etc") (lit "/base/etc/resolv.conf") = Ok s' /\
  good s' /\ (exists m, mount_at s' 2 = Some m /\ is_tmpfs m) /\
  (exists x m, mount_at s' x = Some m /\ dest m = [lit "etc"; lit "passwd"]).
Proof.
  eexists. split; [vm_compute; reflexivity|].
  edestruct (adjustNode_spec example_fs (mkTree example_nodes (take 2 example_mounts)) 2 (lit "/base/etc")
    (lit "/base/etc/resolv.conf")) as (G & Tm & C & _);
    [apply example_names|apply example_good|vm_compute; lia|vm_compute; reflexivity|vm_compute; reflexivity|].
  split; [exact G|]. split; [exact Tm|]. apply (C (lit "passwd") false); [left|vm_compute; reflexivity].
Defined.
