(* ===== verification/ContainerEnv.v ===== *)
(** * The environment of a container ([ContainerCfgBuilder::buildEnv])

    The variables come from three sources: the builder's own settings, the
    variables forwarded from the caller and the ones appended explicitly.  They
    go into the configuration and, quoted, into a shell script.  The order in
    which a hash map is iterated is a parameter. *)
From S2P Require Import Prelude Types Strings.

Abbreviation env_map := (gmap str str).

(** The iteration over an [std::unordered_map]. *)
Class MapOrder := {
  iterate : env_map -> list (str * str);
  iterate_perm : forall m, iterate m ≡ₚ map_to_list m
}.

Definition BUILD_ENV_ERROR : Z := 15.

(** The members that take part; [b_appPath] says whether there is an
    application. *)
Record env_state := mkEnv {
  envForward : list str;
  environment : env_map;
  envAppend : env_map;
  e_appId : str;
  e_appPath : option str
}.

Definition appendEnv (env value : str) (overwrite : bool) (s : env_state) : env_state :=
  if overwrite || bool_decide (envAppend s !! env = None)
  then mkEnv (envForward s) (environment s) (<[env := value]> (envAppend s)) (e_appId s) (e_appPath s)
  else s.

(** [emplace]: a key that is there stays as it is. *)
Definition emplace (m : env_map) (key value : str) : env_map :=
  match m !! key with Some _ => m | None => <[key := value]> m end.

Definition forward (getenv : str -> option str) (m : env_map) (key : str) : env_map :=
  match getenv key with Some value => emplace m key value | None => m end.

Definition assign (m : env_map) (kv : str * str) : env_map := <[kv.1 := kv.2]> m.

(** One character of the loop that escapes single quotes. *)
Definition escape_chr (c : ascii) : str :=
  if bool_decide (c = "'"%char) then lit "'\''" else [c].
Definition escaped (value : str) : str := value ≫= escape_chr.

Definition export_line (kv : str * str) : str :=
  lit "export " ++ kv.1 ++ lit "='" ++ escaped kv.2 ++ lit "'" ++ ["010"%char].

Section env.
Context `{MapOrder}.

Definition final_environment (getenv : str -> option str) (s : env_state) : env_map :=
  let m := fold_left (forward getenv) (envForward s) (environment s) in
  let m := fold_left assign (iterate (envAppend s)) m in
  match e_appPath s with
  | Some _ => <[lit "LINGLONG_APPID" := e_appId s]> m
  | None => m
  end.

(** The new environment, the list for the process and the text of the script;
    [opened] says whether the script could be created. *)
Definition buildEnv (getenv : str -> option str) (opened : bool) (s : env_state)
    : result (env_map * list str * str) :=
  let m := final_environment getenv s in
  if negb opened then Err BUILD_ENV_ERROR
  else
    let vars := iterate m in
    Ok (m, (fun kv => kv.1 ++ "="%char :: kv.2) <$> vars, mjoin (export_line <$> vars)).

(** ** What a shell reads *)

Lemma sh_escaped v rest : sh_word true (escaped v ++ "'"%char :: rest) = (app v) <$> sh_word false rest.
Proof. apply sh_quoted. Qed.

(** ** Which value a variable gets *)

Lemma emplace_lookup m k v k' : emplace m k v !! k' =
  match m !! k' with Some w => Some w | None => if decide (k = k') then Some v else None end.
Proof.
  unfold emplace. destruct (m !! k) eqn:E.
  - case_decide; subst; [by rewrite E|]. by destruct (m !! k').
  - rewrite lookup_insert. case_decide; [subst; by rewrite E|]. by destruct (m !! k').
Qed.

Lemma forward_lookup getenv l : forall m k, fold_left (forward getenv) l m !! k =
  match m !! k with Some v => Some v | None => if decide (k ∈ l) then getenv k else None end.
Proof.
  induction l as [|x l IH]; intros m k; simpl; [by destruct (m !! k)|].
  rewrite IH. unfold forward. destruct (getenv x) as [v|] eqn:E.
  - rewrite emplace_lookup. destruct (m !! k); [done|]. repeat case_decide; subst; set_solver.
  - destruct (m !! k); [done|]. repeat case_decide; set_solver.
Qed.

Lemma assign_lookup l : forall (m : env_map) k, NoDup l.*1 -> fold_left assign l m !! k =
  match (list_to_map l : env_map) !! k with Some v => Some v | None => m !! k end.
Proof.
  induction l as [|[x v] l IH]; intros m k N; simpl; [done|]. inversion N as [|?? Hx N']; subst.
  rewrite IH by done. unfold assign. simpl. rewrite !lookup_insert. case_decide; [|done]. subst.
  rewrite not_elem_of_list_to_map_1 by done. done.
Qed.

Lemma iterate_map m : list_to_map (iterate m) = m /\ NoDup (iterate m).*1.
Proof.
  pose proof (iterate_perm m) as P. assert (NoDup (iterate m).*1) as N.
  { rewrite P. apply NoDup_fst_map_to_list. }
  split; [|done]. rewrite (list_to_map_proper _ _ N P). apply list_to_map_to_list.
Qed.

Lemma final_lookup getenv s k : final_environment getenv s !! k =
  if bool_decide (is_Some (e_appPath s) /\ k = lit "LINGLONG_APPID") then Some (e_appId s)
  else match envAppend s !! k with
       | Some v => Some v
       | None => match environment s !! k with
                 | Some v => Some v
                 | None => if decide (k ∈ envForward s) then getenv k else None
                 end
       end.
Proof.
  destruct (iterate_map (envAppend s)) as [E N]. unfold final_environment.
  assert (B : fold_left assign (iterate (envAppend s)) (fold_left (forward getenv) (envForward s) (environment s)) !! k =
    match envAppend s !! k with Some v => Some v | None =>
      match environment s !! k with Some v => Some v | None => if decide (k ∈ envForward s) then getenv k else None end end).
  { rewrite assign_lookup by done. rewrite E. by rewrite forward_lookup. }
  destruct (e_appPath s) as [p|].
  - rewrite lookup_insert. destruct (decide (lit "LINGLONG_APPID" = k)) as [<-|D].
    + rewrite bool_decide_eq_true_2; [done|]. split; [by eexists|done].
    + rewrite bool_decide_eq_false_2; [done|]. intros [_ E']. by apply D.
  - rewrite B, bool_decide_eq_false_2; [done|]. intros [[? ?] _]. done.
Qed.

(** An explicitly appended variable wins over the builder's own, which wins
    over a forwarded one, and the application id over all; each variable is
    listed once; and reading the quoted word of a variable's line in the script
    the way a shell does gives back its value, whatever characters it has. *)
Theorem buildEnv_spec getenv s m env script : buildEnv getenv true s = Ok (m, env, script) ->
  (forall k, m !! k =
     if bool_decide (is_Some (e_appPath s) /\ k = lit "LINGLONG_APPID") then Some (e_appId s)
     else match envAppend s !! k with
          | Some v => Some v
          | None => match environment s !! k with
                    | Some v => Some v
                    | None => if decide (k ∈ envForward s) then getenv k else None
                    end
          end) /\
  exists vars, vars ≡ₚ map_to_list m /\
    env = (fun kv => kv.1 ++ "="%char :: kv.2) <$> vars /\
    exists words, script = mjoin ((fun kw => lit "export " ++ kw.1 ++ "="%char :: kw.2 ++ ["010"%char]) <$> words) /\
      Forall2 (fun kv kw => kw.1 = kv.1 /\ sh_word false kw.2 = Some kv.2) vars words.
Proof.
  unfold buildEnv. simpl. intros [= <- <- <-]. split; [intros k; apply final_lookup|].
  exists (iterate (final_environment getenv s)). split; [apply iterate_perm|]. split; [done|].
  exists ((fun kv => (kv.1, lit "'" ++ escaped kv.2 ++ lit "'")) <$> iterate (final_environment getenv s)). split.
  - f_equal. rewrite <- list_fmap_compose. apply list_fmap_ext. intros i kv _. unfold export_line, compose. simpl.
    by rewrite <- !app_assoc.
  - apply Forall2_fmap_r, Forall2_same_length_lookup_2; [done|]. intros i kv kv' H1 H2. simplify_eq. split; [done|].
    simpl. pose proof (sh_escaped kv.2 []) as E. simpl in E. rewrite E, app_nil_r. done.
Qed.
End env.

Definition map_order : MapOrder := {| iterate := map_to_list; iterate_perm := fun m => reflexivity _ |}.
#[local] Existing Instance map_order.

Definition example_env : env_state :=
  mkEnv [lit "LANG"; lit "HOME"] {[ lit "HOME" := lit "/home/o'neil" ]} {[ lit "PATH" := lit "/bin" ]} (lit "org.demo") (Some (lit "/app")).

Lemma buildEnv_spec_witness : exists m env script,
  buildEnv (fun k => if bool_decide (k = lit "LANG") then Some (lit "C") else Some (lit "other")) true example_env = Ok (m, env, script) /\
  m !! lit "HOME" = Some (lit "/home/o'neil") /\ m !! lit "LANG" = Some (lit "C") /\
  m !! lit "LINGLONG_APPID" = Some (lit "org.demo").
Proof.
  do 3 eexists. split; [reflexivity|].
  edestruct (buildEnv_spec (fun k => if bool_decide (k = lit "LANG") then Some (lit "C") else Some (lit "other")) example_env)
    as [H _]; [reflexivity|].
  split; [rewrite H; vm_compute; reflexivity|]. split; [rewrite H; vm_compute; reflexivity|].
  rewrite H. vm_compute. reflexivity.
Defined.
