(* ===== verification/ContainerMounts.v ===== *)
(** * Container configuration: the mounts ([container_cfg_builder.cpp])

    The members of [ContainerCfgBuilder] that collect mounts, the setters that
    fill them, the steps of [build] that complete them, the merge in a fixed
    order and the composition with the environment and the self-adjusting
    mounts.  The optional members that hold mounts are slots of one function
    (an optional single mount is a list of one).  What the host answers is a
    record of functions; directories the builder creates are remembered and
    exist from then on. *)
From stdpp Require Import functions.
From S2P Require Import Prelude Types Strings Sha256 Path ContainerCfg ContainerEnv.

(** ** State *)

Inductive slot :=
| runtimeMount | appMount | extensionMount | sysMount | procMount | devMount | devNodeMount | cgroupMount
| runMount | tmpMount | UGMount | removableStorageMounts | hostRootMount | hostStaticsMount | homeMount
| displayMount | ipcMount | cacheMount | ldCacheMount | localtimeMount | networkConfMount | privateMount
| envMount | extraMount | volatileMount.
#[global] Instance slot_eq_dec : EqDecision slot.
Proof. solve_decision. Defined.

(** Paths with their read-only flags, switches and the small settings. *)
Record settings := mkSettings {
  s_appId : str;
  s_basePath : str * bool;
  s_runtimePath : option (str * bool);
  s_appPath : option (str * bool);
  s_bundlePath : str;
  s_appCache : option (str * bool);
  s_isolateNetWork : bool;
  s_disableUserNamespace : bool;
  s_applyPatch : bool;
  s_selfAdjusting : bool;
  s_capabilities : option (list str);
  s_uidMappings : option (list (Z * Z * Z));
  s_gidMappings : option (list (Z * Z * Z));
  s_xOrgSocket : option str;
  s_xAuthFile : option str;
  s_waylandSocket : option str
}.

Inductive NamespaceType := Pid | MountNs | Uts | User | Network.

(** The parts of the OCI configuration that are written. *)
Record Config := mkConfig {
  c_ociVersion : str;
  c_hostname : str;
  c_namespaces : list NamespaceType;
  c_uidMappings : option (list (Z * Z * Z));
  c_gidMappings : option (list (Z * Z * Z));
  c_maskedPaths : list str;
  c_args : list str;
  c_capabilities : option (list str);
  c_env : option (list str);
  c_root : option Root;
  c_mounts : option (list Mount)
}.

Definition empty_config : Config := mkConfig [] [] [] None None [] [] None None None None.

Record cfg_builder := mkCfg {
  b_set : settings;
  b_slot : slot -> option (list Mount);
  b_homePath : option str;
  b_xdgRuntimeDir : option str;
  b_privateMappings : option (list (str * bool));
  b_privateAppDir : str;
  b_forward : list str;
  b_environment : env_map;
  b_append : env_map;
  b_masked : list str;
  b_created : list str;
  b_config : Config
}.

Definition new_builder (s : settings) : cfg_builder :=
  mkCfg s (fun _ => None) None None None [] [] ∅ ∅ [] [] empty_config.

Definition set_slot (k : slot) (v : option (list Mount)) (b : cfg_builder) : cfg_builder :=
  mkCfg (b_set b) (<[k := v]> (b_slot b)) (b_homePath b) (b_xdgRuntimeDir b) (b_privateMappings b) (b_privateAppDir b)
    (b_forward b) (b_environment b) (b_append b) (b_masked b) (b_created b) (b_config b).
Definition set_dirs (home xdg : option str) (mappings : option (list (str * bool))) (app : str) (b : cfg_builder) : cfg_builder :=
  mkCfg (b_set b) (b_slot b) home xdg mappings app
    (b_forward b) (b_environment b) (b_append b) (b_masked b) (b_created b) (b_config b).
Definition set_vars (forward_ : list str) (environment append_ : env_map) (b : cfg_builder) : cfg_builder :=
  mkCfg (b_set b) (b_slot b) (b_homePath b) (b_xdgRuntimeDir b) (b_privateMappings b) (b_privateAppDir b)
    forward_ environment append_ (b_masked b) (b_created b) (b_config b).
Definition set_masked (masked : list str) (b : cfg_builder) : cfg_builder :=
  mkCfg (b_set b) (b_slot b) (b_homePath b) (b_xdgRuntimeDir b) (b_privateMappings b) (b_privateAppDir b)
    (b_forward b) (b_environment b) (b_append b) masked (b_created b) (b_config b).
Definition set_created (created : list str) (b : cfg_builder) : cfg_builder :=
  mkCfg (b_set b) (b_slot b) (b_homePath b) (b_xdgRuntimeDir b) (b_privateMappings b) (b_privateAppDir b)
    (b_forward b) (b_environment b) (b_append b) (b_masked b) created (b_config b).
Definition set_config (c : Config) (b : cfg_builder) : cfg_builder :=
  mkCfg (b_set b) (b_slot b) (b_homePath b) (b_xdgRuntimeDir b) (b_privateMappings b) (b_privateAppDir b)
    (b_forward b) (b_environment b) (b_append b) (b_masked b) (b_created b) c.

(** [environment[key] = value] *)
Definition set_env (key value : str) (b : cfg_builder) : cfg_builder :=
  set_vars (b_forward b) (<[key := value]> (b_environment b)) (b_append b) b.
(** [member->emplace_back(mount)] *)
Definition push (k : slot) (m : Mount) (b : cfg_builder) : cfg_builder :=
  set_slot k (Some (default [] (b_slot b k) ++ [m])) b.

(** ** The host *)

(** An entry of the directory of patches, or of the application's directory in it. *)
Inductive patch_entry :=
| PatchFile (path : str)
| PatchDir (path : str) (entries : result (list (str * bool)))
| PatchOther (path : str).

Record host := mkHost {
  h_exists : str -> result bool;
  h_is_symlink : str -> bool;
  h_readlink : str -> result (option str);
  h_realpath : str -> option str;
  h_create_directories : str -> bool;
  h_permissions : str -> bool;
  h_create_symlink : str -> str -> bool;
  h_open : str -> bool;
  h_getenv : str -> option str;
  h_environ : list str;
  h_euid : Z;
  h_getuid : Z;
  h_dev : option (list str);
  h_patches : option (result (list patch_entry));
  h_status : str -> option bool;
  h_json_patch : str -> option (str * (Config -> option Config));
  h_exec_patch : str -> Config -> option Config;
  h_before : filesystem;
  h_after : filesystem
}.

(** A path, or a directory on the way to it. *)
Definition leads_to (p q : str) : bool :=
  negb (bool_decide (p = [])) && Bool.eqb (is_absolute p) (is_absolute q) &&
  bool_decide (components p `prefix_of` components q).

Section mounts.
Context `{MapOrder}.
Variable h : host.

(** [std::filesystem::exists] with its error code. *)
Definition exists_ (p : str) (b : cfg_builder) : result bool :=
  if existsb (leads_to p) (b_created b) then Ok true else h_exists h p.
(** The same where only the answer is looked at. *)
Definition there (p : str) (b : cfg_builder) : bool :=
  match exists_ p b with Ok x => x | Err _ => false end.

(** [create_directories] leaves no error. *)
Definition create (p : str) (b : cfg_builder) : option cfg_builder :=
  if h_create_directories h p then Some (set_created (p :: b_created b) b) else None.

Definition bind (destination : str) (options : list str) (source : str) : Mount :=
  mount_of destination options source (lit "bind").
Definition ro_flag (ro : bool) : str := if ro then lit "ro" else lit "rw".

Definition bindIfExist (k : slot) (source destination : str) (ro : bool) (b : cfg_builder) : cfg_builder :=
  if there source b
  then push k (bind (if bool_decide (destination = []) then source else destination) [lit "rbind"; ro_flag ro] source) b
  else b.

(** ** Setters *)

Definition bindSys (b : cfg_builder) : cfg_builder :=
  set_slot sysMount (Some [bind (lit "/sys") [lit "rbind"; lit "nosuid"; lit "noexec"; lit "nodev"] (lit "/sys")]) b.
Definition bindProc (b : cfg_builder) : cfg_builder :=
  set_slot procMount (Some [mount_of (lit "/proc") [lit "nosuid"; lit "noexec"; lit "nodev"] (lit "/proc") (lit "proc")]) b.
Definition bindDev (b : cfg_builder) : cfg_builder :=
  set_slot devMount (Some [
    mount_of (lit "/dev") [lit "nosuid"; lit "strictatime"; lit "mode=0755"; lit "size=65536k"] (lit "tmpfs") (lit "tmpfs");
    mount_of (lit "/dev/pts") [lit "nosuid"; lit "noexec"; lit "newinstance"; lit "ptmxmode=0666"; lit "mode=0620"]
      (lit "devpts") (lit "devpts");
    mount_of (lit "/dev/shm") [lit "nosuid"; lit "noexec"; lit "nodev"; lit "mode=1777"] (lit "shm") (lit "tmpfs");
    bind (lit "/dev/mqueue") [lit "rbind"; lit "nosuid"; lit "noexec"; lit "nodev"] (lit "/dev/mqueue")]) b.
Definition bindCgroup (b : cfg_builder) : cfg_builder :=
  set_slot cgroupMount (Some [mount_of (lit "/sys/fs/cgroup")
    [lit "nosuid"; lit "noexec"; lit "nodev"; lit "relatime"; lit "ro"] (lit "cgroup") (lit "cgroup")]) b.
Definition bindRun (b : cfg_builder) : cfg_builder :=
  set_slot runMount (Some [mount_of (lit "/run") [lit "nosuid"; lit "nodev"; lit "mode=0755"; lit "size=65536k"]
    (lit "tmpfs") (lit "tmpfs")]) b.
Definition bindTmp (b : cfg_builder) : cfg_builder :=
  set_slot tmpMount (Some [bind (lit "/tmp") [lit "rbind"] (lit "/tmp")]) b.
Definition bindDefault (b : cfg_builder) : cfg_builder :=
  bindRun (bindTmp (bindDev (bindProc (bindSys b)))).
Definition bindUserGroup (b : cfg_builder) : cfg_builder :=
  set_slot UGMount (Some [bind (lit "/etc/passwd") [lit "rbind"; lit "ro"] (lit "/etc/passwd");
                          bind (lit "/etc/group") [lit "rbind"; lit "ro"] (lit "/etc/group")]) b.
Definition bindHostRoot (b : cfg_builder) : cfg_builder :=
  set_slot hostRootMount (Some [mount_of (lit "/run/host") tmpfs_options (lit "tmpfs") (lit "tmpfs");
                                bind (lit "/run/host/rootfs") [lit "rbind"] (lit "/")]) b.

(** The devices that are bound when the caller names none. *)
Definition default_device (name : str) : bool :=
  bool_decide (name = lit "snd") || bool_decide (name = lit "dri") ||
  is_prefix (lit "video") name || is_prefix (lit "nvidia") name.

Definition bind_device (b : cfg_builder) (name : str) : cfg_builder :=
  push devNodeMount (bind (lit "/dev/" ++ name) [lit "rbind"] (lit "/dev/" ++ name)) b.

(** [directory_iterator] throws in a [noexcept] function. *)
Definition bindDevNode (ifBind : option (str -> bool)) (b : cfg_builder) : result cfg_builder :=
  match h_dev h with
  | None => Err terminated
  | Some names => Ok (fold_left bind_device (List.filter (default default_device ifBind) names) b)
  end.

Definition bindXDGRuntime (b : cfg_builder) : cfg_builder :=
  set_dirs (b_homePath b) (Some (path_div (lit "/run/user") (dec (h_euid h)))) (b_privateMappings b) (b_privateAppDir b) b.

(** The loop over [/media] and [/mnt]; any error ends it. *)
Fixpoint bind_removable (paths : list str) (b : cfg_builder) : cfg_builder :=
  match paths with
  | [] => b
  | path :: rest =>
      match h_readlink h path with
      | Err _ => b
      | Ok (Some target) =>
          let destinationDir := "/"%char :: target in
          if there destinationDir b then
            bind_removable rest
              (push removableStorageMounts (bind path [lit "rbind"; lit "ro"; lit "copy-symlink"] path)
                (push removableStorageMounts (bind destinationDir [lit "rbind"] destinationDir) b))
          else b
      | Ok None => bind_removable rest (push removableStorageMounts (bind path [lit "rbind"] path) b)
      end
  end.
Definition bindRemovableStorageMounts (b : cfg_builder) : cfg_builder :=
  bind_removable [lit "/media"; lit "/mnt"] (set_slot removableStorageMounts (Some []) b).

Definition statics : list str :=
  [lit "/etc/machine-id"; lit "/usr/lib/locale"; lit "/usr/share/fonts"; lit "/usr/share/icons";
   lit "/usr/share/themes"; lit "/var/cache/fontconfig"].
Definition bindHostStatics (b : cfg_builder) : cfg_builder :=
  fold_left (fun b loc => bindIfExist hostStaticsMount loc [] true b) statics (set_slot hostStaticsMount (Some []) b).

Definition bindHome (hostHome : str) (b : cfg_builder) : cfg_builder :=
  set_slot homeMount (Some []) (set_dirs (Some hostHome) (b_xdgRuntimeDir b) (b_privateMappings b) (b_privateAppDir b) b).
Definition enablePrivateDir (b : cfg_builder) : cfg_builder := set_slot privateMount (Some []) b.
Definition bindIPC (b : cfg_builder) : cfg_builder := set_slot ipcMount (Some []) b.
Definition enableLDCache (b : cfg_builder) : cfg_builder := set_slot ldCacheMount (Some []) b.
Definition enableQuirkVolatile (b : cfg_builder) : cfg_builder := set_slot volatileMount (Some []) b.
Definition setExtensionMounts (extensions : list Mount) (b : cfg_builder) : cfg_builder :=
  set_slot extensionMount (Some extensions) b.
Definition addExtraMounts (extra : list Mount) (b : cfg_builder) : cfg_builder :=
  set_slot extraMount (Some (default [] (b_slot b extraMount) ++ extra)) b.
Definition addExtraMount (extra : Mount) (b : cfg_builder) : cfg_builder := push extraMount extra b.
Definition addMask (masks : list str) (b : cfg_builder) : cfg_builder := set_masked (b_masked b ++ masks) b.

(** [std::map::emplace]: ordered by the key, an entry that is there stays. *)
Fixpoint map_emplace (key : str) (value : bool) (l : list (str * bool)) : list (str * bool) :=
  match l with
  | [] => [(key, value)]
  | (k, v) :: rest =>
      if str_cmp key k <? 0 then (key, value) :: l
      else if str_cmp key k =? 0 then l
      else (k, v) :: map_emplace key value rest
  end.
Definition mapPrivate (containerPath : str) (isDir : bool) (b : cfg_builder) : cfg_builder :=
  set_dirs (b_homePath b) (b_xdgRuntimeDir b)
    (Some (map_emplace containerPath isDir (default [] (b_privateMappings b)))) (b_privateAppDir b) b.

(** [std::unordered_set::emplace] *)
Definition add_forward (l : list str) (name : str) : list str := if bool_decide (name ∈ l) then l else l ++ [name].
(** The names of the caller's whole environment when the list is empty. *)
Definition env_names (environ : list str) : list str :=
  omap (fun s => (fun i => take i s) <$> find_char "=" s) environ.
Definition forwardEnv (envList : list str) (b : cfg_builder) : cfg_builder :=
  let names := if negb (bool_decide (envList = [])) then envList else env_names (h_environ h) in
  set_vars (fold_left add_forward names (b_forward b)) (b_environment b) (b_append b) b.
Definition default_env : list str :=
  [lit "LANG"; lit "LANGUAGE"; lit "XDG_SESSION_DESKTOP"; lit "D_DISABLE_RT_SCREEN_SCALE"; lit "XMODIFIERS";
   lit "XCURSOR_SIZE"; lit "DESKTOP_SESSION"; lit "DEEPIN_WINE_SCALE"; lit "XDG_CURRENT_DESKTOP"; lit "XIM";
   lit "XDG_SESSION_TYPE"; lit "CLUTTER_IM_MODULE"; lit "QT4_IM_MODULE"; lit "GTK_IM_MODULE"; lit "all_proxy";
   lit "auto_proxy"; lit "http_proxy"; lit "https_proxy"; lit "ftp_proxy"; lit "SOCKS_SERVER"; lit "no_proxy";
   lit "USER"; lit "QT_IM_MODULE"; lit "LINGLONG_ROOT"; lit "QT_QPA_PLATFORM"; lit "QT_WAYLAND_SHELL_INTEGRATION";
   lit "GDMSESSION"; lit "QT_WAYLAND_FORCE_DPI"; lit "GIO_LAUNCHED_DESKTOP_FILE"; lit "GNOME_DESKTOP_SESSION_ID";
   lit "TERM"; lit "__NV_PRIME_RENDER_OFFLOAD"; lit "__GLX_VENDOR_LIBRARY_NAME"; lit "__VK_LAYER_NV_optimus"; lit "DRI_PRIME"].
Definition forwardDefaultEnv (b : cfg_builder) : cfg_builder := forwardEnv default_env b.
(** One variable, and a map of them. *)
Definition appendEnv1 (env value : str) (overwrite : bool) (b : cfg_builder) : cfg_builder :=
  if overwrite || bool_decide (b_append b !! env = None)
  then set_vars (b_forward b) (b_environment b) (<[env := value]> (b_append b)) b else b.
Definition appendEnvs (envMap : env_map) (b : cfg_builder) : cfg_builder :=
  set_vars (b_forward b) (b_environment b) (b_append b ∪ envMap) b.

(** ** The steps of [build] *)

Definition BUILD_PARAM_ERROR : Z := 1.
Definition BUILD_MOUNT_RUNTIME_ERROR : Z := 3.
Definition BUILD_MOUNT_APP_ERROR : Z := 4.
Definition BUILD_MOUNT_HOME_ERROR : Z := 5.
Definition BUILD_PRIVATEDIR_ERROR : Z := 7.
Definition BUILD_PRIVATEMAP_ERROR : Z := 8.
Definition BUILD_MOUNT_IPC_ERROR : Z := 9.
Definition BUILD_MOUNT_CACHE_ERROR : Z := 10.
Definition BUILD_LDCACHE_ERROR : Z := 14.
Definition BUILD_NETWORK_CONF_ERROR : Z := 16.
Definition BUILD_XDGRUNTIME_ERROR : Z := 17.

Definition checkValid (b : cfg_builder) : result unit :=
  if bool_decide (s_appId (b_set b) = []) then Err BUILD_PARAM_ERROR
  else if bool_decide (fst (s_basePath (b_set b)) = []) then Err BUILD_PARAM_ERROR
  else if bool_decide (s_bundlePath (b_set b) = []) then Err BUILD_PARAM_ERROR
  else Ok tt.

(** [prepare] and [buildIdMappings]: the id mappings are moved into the new
    [linux] section. *)
Definition prepare (b : cfg_builder) : cfg_builder :=
  let s := b_set b in
  let namespaces := [Pid; MountNs; Uts] ++ (if negb (s_disableUserNamespace s) then [User] else []) ++
                    (if s_isolateNetWork s then [Network] else []) in
  set_config (mkConfig (lit "1.0.1") (lit "linglong") namespaces (s_uidMappings s) (s_gidMappings s) []
    [lit "bash"] (s_capabilities s) None (Some (mkRoot (fst (s_basePath s)) (Some (snd (s_basePath s)))))
    (c_mounts (b_config b))) b.

Definition buildMountRuntime (b : cfg_builder) : result cfg_builder :=
  match s_runtimePath (b_set b) with
  | None => Ok b
  | Some (path, ro) =>
      if negb (there path b) then Err BUILD_MOUNT_RUNTIME_ERROR
      else Ok (set_slot runtimeMount (Some [bind (lit "/runtime") [lit "rbind"; ro_flag ro] path]) b)
  end.

Definition app_files (appId : str) : str := path_div (path_div (lit "/opt/apps") appId) (lit "files").

Definition buildMountApp (b : cfg_builder) : result cfg_builder :=
  match s_appPath (b_set b) with
  | None => Ok b
  | Some (path, ro) =>
      if negb (there path b) then Err BUILD_MOUNT_APP_ERROR
      else Ok (set_slot appMount (Some [
             mount_of (lit "/opt") tmpfs_options (lit "tmpfs") (lit "tmpfs");
             bind (app_files (s_appId (b_set b))) [lit "rbind"; ro_flag ro] path]) b)
  end.

(** [common::getXDGRuntimeDir] *)
Definition host_xdg_runtime : str :=
  match h_getenv h (lit "XDG_RUNTIME_DIR") with
  | Some (c :: dir) => c :: dir
  | _ => path_div (path_div (lit "/tmp") (lit "linglong")) (dec (h_getuid h))
  end.

Definition buildXDGRuntime (b : cfg_builder) : result cfg_builder :=
  match b_xdgRuntimeDir b with
  | None => Ok b
  | Some xdg =>
      if bool_decide (b_slot b runMount = None) then Err BUILD_XDGRUNTIME_ERROR
      else
        let hostDir := path_div (path_div host_xdg_runtime (lit "linglong/apps")) (s_appId (b_set b)) in
        match create hostDir b with
        | None => Err BUILD_XDGRUNTIME_ERROR
        | Some b =>
            if negb (h_permissions h hostDir) then Err BUILD_XDGRUNTIME_ERROR
            else Ok (set_env (lit "XDG_RUNTIME_DIR") xdg (push runMount (bind xdg [lit "bind"] hostDir) b))
        end
  end.

Definition buildPrivateDir (b : cfg_builder) : result cfg_builder :=
  if bool_decide (b_slot b privateMount = None) then Ok b
  else
    match b_homePath b with
    | None => Err BUILD_PRIVATEDIR_ERROR
    | Some home =>
        let privatePath := path_div home (lit ".linglong") in
        let privateAppDir := path_div privatePath (s_appId (b_set b)) in
        match create privateAppDir b with
        | None => Err BUILD_PRIVATEDIR_ERROR
        | Some b =>
            Ok (set_masked (b_masked b ++ [privatePath])
                  (set_dirs (b_homePath b) (b_xdgRuntimeDir b) (b_privateMappings b) privateAppDir b))
        end
    end.

(** *** The home directory *)

(** [mountDir]: a directory that is not there is created. *)
Definition mountDir (hostDir containerDir : str) (b : cfg_builder) : option cfg_builder :=
  match exists_ hostDir b with
  | Err _ => None
  | Ok found =>
      b ← (if found then Some b else create hostDir b);
      Some (push homeMount (bind containerDir [lit "rbind"] hostDir) b)
  end.

(** A directory of the home that lies elsewhere on the host is mounted; its
    variable always names the place in the container. *)
Definition mount_home_dir (var hostDir containerDir : str) (b : cfg_builder) : result cfg_builder :=
  match (if path_eq hostDir containerDir then Some b else mountDir hostDir containerDir b) with
  | None => Err BUILD_MOUNT_HOME_ERROR
  | Some b => Ok (set_env var containerDir b)
  end.

Definition env_dir (var fallback : str) : str := default fallback (h_getenv h var).

(** [checkPrivatePath]: the private directory when there is one. *)
Definition private_dir (name hostDir : str) (b : cfg_builder) : str :=
  if bool_decide (b_slot b privateMount = None) then hostDir
  else if there (path_div (b_privateAppDir b) name) b then path_div (b_privateAppDir b) name
  else hostDir.

(** What of the host's directories is shown when they lie elsewhere. *)
Definition mount_inside (hostDir containerDir name : str) (b : cfg_builder) : cfg_builder :=
  if negb (path_eq hostDir containerDir) && there (path_div hostDir name) b
  then push homeMount (bind (containerDir ++ lit "/" ++ name) [lit "rbind"] (path_div hostDir name)) b
  else b.

Definition home_parts (home : str) (b : cfg_builder) : result cfg_builder :=
  let data := env_dir (lit "XDG_DATA_HOME") (path_div (path_div home (lit ".local")) (lit "share")) in
  b <-r mount_home_dir (lit "XDG_DATA_HOME") data (home ++ lit "/.local/share") b ;;
  let config := env_dir (lit "XDG_CONFIG_HOME") (path_div home (lit ".config")) in
  b <-r mount_home_dir (lit "XDG_CONFIG_HOME") (private_dir (lit "config") config b) (home ++ lit "/.config") b ;;
  let cache := env_dir (lit "XDG_CACHE_HOME") (path_div home (lit ".cache")) in
  b <-r mount_home_dir (lit "XDG_CACHE_HOME") (private_dir (lit "cache") cache b) (home ++ lit "/.cache") b ;;
  let state := env_dir (lit "XDG_STATE_HOME") (path_div (path_div home (lit ".local")) (lit "state")) in
  b <-r mount_home_dir (lit "XDG_STATE_HOME") (private_dir (lit "state") state b) (home ++ lit "/.local/state") b ;;
  let b := mount_inside config (home ++ lit "/.config") (lit "systemd/user") b in
  let b := mount_inside config (home ++ lit "/.config") (lit "dconf") b in
  let b := mount_inside cache (home ++ lit "/.cache") (lit "deepin/dde-api") b in
  let b := mount_inside config (home ++ lit "/.config") (lit "user-dirs.dirs") b in
  Ok (mount_inside config (home ++ lit "/.config") (lit "user-dirs.locale") b).

Definition buildMountHome (b : cfg_builder) : result cfg_builder :=
  match b_homePath b with
  | None => Ok b
  | Some home =>
      if bool_decide (home = []) then Err BUILD_MOUNT_HOME_ERROR
      else if negb (there home b) then Err BUILD_MOUNT_HOME_ERROR
      else
        let b := push homeMount (mount_of (lit "/home") tmpfs_options (lit "tmpfs") (lit "tmpfs")) b in
        let b := push homeMount (bind home [lit "rbind"] home) b in
        home_parts home (set_env (lit "HOME") home b)
  end.

(** [lexically_relative("/")] of an absolute path. *)
Definition from_root (p : str) : str :=
  match components p with
  | [] => lit "."
  | l => join (lit "/") l ++ (if has_filename p then [] else lit "/")
  end.

Fixpoint private_mappings (l : list (str * bool)) (b : cfg_builder) : result cfg_builder :=
  match l with
  | [] => Ok b
  | (path, isDir) :: rest =>
      if negb (is_absolute path) then Err BUILD_PRIVATEMAP_ERROR
      else
        let hostPath := path_div (path_div (b_privateAppDir b) (lit "private")) (from_root path) in
        match (if isDir : bool then create hostPath b else Some b) with
        | None => Err BUILD_PRIVATEMAP_ERROR
        | Some b =>
            if negb (there hostPath b) then Err BUILD_PRIVATEMAP_ERROR
            else private_mappings rest (push privateMount (bind path [lit "rbind"] hostPath) b)
        end
  end.

Definition buildPrivateMapped (b : cfg_builder) : result cfg_builder :=
  match b_privateMappings b with
  | None => Ok b
  | Some mappings =>
      if bool_decide (b_slot b privateMount = None) then Err BUILD_PRIVATEMAP_ERROR
      else private_mappings mappings b
  end.

(** *** Sockets *)

(** An address of D-Bus: the part before the first comma, and the rest. *)
Definition cut_options (address : str) : str * str :=
  match find_char "," address with
  | Some n => (take n address, drop n address)
  | None => (address, [])
  end.
Definition socket_path (address : str) : option str :=
  if is_prefix (lit "unix:path=") address then Some (drop (length (lit "unix:path=")) address) else None.

Definition bind_system_bus (b : cfg_builder) : cfg_builder :=
  let '(address, options) :=
    cut_options (default (lit "unix:path=/var/run/dbus/system_bus_socket") (h_getenv h (lit "DBUS_SYSTEM_BUS_ADDRESS"))) in
  match socket_path address with
  | None => b
  | Some socketPath =>
      if there socketPath b then
        set_env (lit "DBUS_SYSTEM_BUS_ADDRESS") (lit "unix:path=/run/dbus/system_bus_socket" ++ options)
          (push ipcMount (bind (lit "/run/dbus/system_bus_socket") [lit "rbind"] socketPath) b)
      else b
  end.

(** [std::filesystem::exists] without an error code throws. *)
Definition bind_session_bus (xdg : str) (b : cfg_builder) : result cfg_builder :=
  match default [] (h_getenv h (lit "DBUS_SESSION_BUS_ADDRESS")) with
  | [] => Ok b
  | env =>
      let '(address, options) := cut_options env in
      match socket_path address with
      | None => Ok b
      | Some socketPath =>
          match exists_ socketPath b with
          | Err _ => Err terminated
          | Ok false => Ok b
          | Ok true =>
              let bus := path_div xdg (lit "bus") in
              Ok (set_env (lit "DBUS_SESSION_BUS_ADDRESS") (lit "unix:path=" ++ bus ++ options)
                    (push ipcMount (bind bus [lit "rbind"] socketPath) b))
          end
      end
  end.

Definition bind_dconf (xdg : str) (b : cfg_builder) : result cfg_builder :=
  let dconfPath := path_div host_xdg_runtime (lit "dconf") in
  match exists_ dconfPath b with
  | Err _ => Err terminated
  | Ok false => Ok b
  | Ok true => Ok (push ipcMount (bind (path_div xdg (lit "dconf")) [lit "rbind"] dconfPath) b)
  end.

Definition buildMountIPC (b : cfg_builder) : result cfg_builder :=
  if bool_decide (b_slot b ipcMount = None) then Ok b
  else
    match b_xdgRuntimeDir b with
    | None => Err BUILD_MOUNT_IPC_ERROR
    | Some xdg =>
        let b := bind_system_bus b in
        let b := bindIfExist ipcMount (path_div host_xdg_runtime (lit "pulse")) (path_div xdg (lit "pulse")) false b in
        let b := bindIfExist ipcMount (path_div host_xdg_runtime (lit "gvfs")) (path_div xdg (lit "gvfs")) false b in
        b <-r bind_session_bus xdg b ;;
        bind_dconf xdg b
    end.

(** The display: a socket that is empty stands for a display on another host. *)
Definition bind_xorg (b : cfg_builder) : cfg_builder :=
  match s_xOrgSocket (b_set b) with
  | None => b
  | Some [] =>
      match h_getenv h (lit "DISPLAY") with
      | Some display => set_env (lit "DISPLAY") display b
      | None => b
      end
  | Some socket =>
      set_env (lit "DISPLAY") (lit ":0")
        (push displayMount (bind (lit "/tmp/.X11-unix/X0") [lit "bind"] socket)
          (push displayMount (mount_of (lit "/tmp/.X11-unix") tmpfs_options (lit "tmpfs") (lit "tmpfs")) b))
  end.

Definition bind_xauth (b : cfg_builder) : result cfg_builder :=
  match s_xAuthFile (b_set b) with
  | None => Ok b
  | Some file =>
      if bool_decide (b_slot b runMount = None) then Err BUILD_PARAM_ERROR
      else
        let xAuthPath := lit "/run/linglong/Xauthority" in
        Ok (set_env (lit "XAUTHORITY") xAuthPath (push displayMount (bind xAuthPath [lit "bind"] file) b))
  end.

Definition bind_wayland (b : cfg_builder) : cfg_builder :=
  match s_waylandSocket (b_set b) with
  | None => b
  | Some socket =>
      let path := match b_xdgRuntimeDir b with
                  | Some xdg => path_div xdg (lit "wayland-0")
                  | None => lit "/run/linglong/wayland-0"
                  end in
      set_env (lit "WAYLAND_DISPLAY") path (push displayMount (bind path [lit "bind"] socket) b)
  end.

Definition buildDisplaySystem (b : cfg_builder) : result cfg_builder :=
  b <-r bind_xauth (bind_xorg (set_slot displayMount (Some []) b)) ;;
  Ok (bind_wayland b).

(** *** Files *)

Definition buildMountCache (b : cfg_builder) : result cfg_builder :=
  match s_appCache (b_set b) with
  | None => Ok b
  | Some (cache, ro) =>
      if negb (there cache b) then Err BUILD_MOUNT_CACHE_ERROR
      else Ok (set_slot cacheMount (Some [bind (lit "/run/linglong/cache") [lit "rbind"; ro_flag ro] cache]) b)
  end.

Definition buildLDCache (b : cfg_builder) : result cfg_builder :=
  if bool_decide (b_slot b ldCacheMount = None) then Ok b
  else
    match s_appCache (b_set b) with
    | None => Err BUILD_LDCACHE_ERROR
    | Some (cache, _) =>
        Ok (push ldCacheMount (bind (lit "/etc/ld.so.cache") [lit "rbind"; lit "ro"] (path_div cache (lit "ld.so.cache"))) b)
    end.

Definition buildMountLocalTime (b : cfg_builder) : cfg_builder :=
  let localtime := lit "/etc/localtime" in
  let b := set_slot localtimeMount (Some []) b in
  let b := if there localtime b then
             push localtimeMount
               (bind localtime [lit "rbind"; if h_is_symlink h localtime then lit "copy-symlink" else lit "ro"] localtime) b
           else b in
  bindIfExist localtimeMount (lit "/etc/timezone") [] true
    (bindIfExist localtimeMount (lit "/usr/share/zoneinfo") [] true b).

Definition resolv_conf (b : cfg_builder) : result cfg_builder :=
  let resolvConf := lit "/etc/resolv.conf" in
  if negb (there resolvConf b) then Ok b
  else if bool_decide (b_slot b hostRootMount = None) then
    Ok (push networkConfMount (bind resolvConf [lit "rbind"; lit "ro"] resolvConf) b)
  else
    match (if h_is_symlink h resolvConf then h_realpath h resolvConf else Some resolvConf) with
    | None => Err BUILD_NETWORK_CONF_ERROR
    | Some target =>
        let target := path_div (lit "/run/host/rootfs") (from_root target) in
        let bundleResolvConf := path_div (s_bundlePath (b_set b)) (lit "resolv.conf") in
        if negb (h_create_symlink h target bundleResolvConf) then Err BUILD_NETWORK_CONF_ERROR
        else Ok (push networkConfMount (bind resolvConf [lit "rbind"; lit "copy-symlink"] bundleResolvConf) b)
    end.

Definition buildMountNetworkConf (b : cfg_builder) : result cfg_builder :=
  b <-r resolv_conf (set_slot networkConfMount (Some []) b) ;;
  Ok (bindIfExist networkConfMount (lit "/etc/hosts") [] true
        (bindIfExist networkConfMount (lit "/etc/resolvconf") [] true b)).

(** The environment: [ContainerEnv.buildEnv], whose script is mounted. *)
Definition build_env (b : cfg_builder) : result cfg_builder :=
  let script := path_div (s_bundlePath (b_set b)) (lit "00env.sh") in
  r <-r buildEnv (h_getenv h) (h_open h script)
          (mkEnv (b_forward b) (b_environment b) (b_append b) (s_appId (b_set b)) (fst <$> s_appPath (b_set b))) ;;
  let '(environment, vars, _) := r in
  let c := b_config b in
  let b := set_vars (b_forward b) environment (b_append b) b in
  let b := set_config (mkConfig (c_ociVersion c) (c_hostname c) (c_namespaces c) (c_uidMappings c) (c_gidMappings c)
             (c_maskedPaths c) (c_args c) (c_capabilities c) (Some vars) (c_root c) (c_mounts c)) b in
  Ok (set_slot envMount (Some [bind (lit "/etc/profile.d/00env.sh") [lit "rbind"; lit "ro"] script]) b).

(** *** Merging *)

(** The order the members are merged in. *)
Definition merge_order : list slot :=
  [runtimeMount; appMount; extensionMount; sysMount; procMount; devMount; devNodeMount; cgroupMount; runMount; tmpMount;
   UGMount; removableStorageMounts; hostRootMount; hostStaticsMount; homeMount; displayMount; ipcMount; cacheMount;
   ldCacheMount; localtimeMount; networkConfMount; privateMount; envMount; extraMount].

Definition merged (b : cfg_builder) : list Mount := mjoin ((fun k => default [] (b_slot b k)) <$> merge_order).

Definition mergeMount (b : cfg_builder) : cfg_builder :=
  let c := b_config b in
  set_config (mkConfig (c_ociVersion c) (c_hostname c) (c_namespaces c) (c_uidMappings c) (c_gidMappings c)
    (c_maskedPaths c) (c_args c) (c_capabilities c) (c_env c) (c_root c) (Some (merged b))) b.

Definition finalize (b : cfg_builder) : cfg_builder :=
  let c := b_config b in
  set_config (mkConfig (c_ociVersion c) (c_hostname c) (c_namespaces c) (c_uidMappings c) (c_gidMappings c)
    (b_masked b) (c_args c) (c_capabilities c) (c_env c) (c_root c) (c_mounts c)) b.
(** *** Patches *)

Context `{StdSort}.

Definition file_name_of (path : str) : str := default [] (last (components path)).
(** [operator<] of paths. *)
Definition path_lt (p q : str) : bool := list_cmp str_cmp (components p) (components q) <? 0.

(** The patches for every container and those of the application; a directory
    that cannot be listed has none. *)
Definition patch_files (appId : str) (entries : list patch_entry) : list str * list str :=
  (std_sort path_lt (omap (fun e => match e with PatchFile p => Some p | _ => None end) entries),
   std_sort path_lt
     (entries ≫= fun e => match e with
        | PatchDir p (Ok l) => if bool_decide (file_name_of p = appId) then fst <$> List.filter snd l else []
        | _ => []
        end)).

Definition has_json_extension (path : str) : bool :=
  let name := file_name_of path in hasSuffix name (lit ".json") && negb (bool_decide (name = lit ".json")).

(** A patch that fails is skipped. *)
Definition applyPatchFile (c : Config) (patchFile : str) : Config :=
  match h_status h patchFile with
  | None => c
  | Some true => default c (h_exec_patch h patchFile c)
  | Some false =>
      if has_json_extension patchFile then
        match h_json_patch h patchFile with
        | Some (version, patch) => if bool_decide (c_ociVersion c = version) then default c (patch c) else c
        | None => c
        end
      else c
  end.

Definition applyPatch (b : cfg_builder) : result cfg_builder :=
  if negb (s_applyPatch (b_set b)) then Ok b
  else
    match h_patches h with
    | None => Ok b
    | Some (Err _) => Err BUILD_PREPARE_ERROR
    | Some (Ok entries) =>
        let '(global, app) := patch_files (s_appId (b_set b)) entries in
        Ok (set_config (fold_left applyPatchFile (global ++ app) (b_config b)) b)
    end.

(** *** [build] *)

Definition adjusting (b : cfg_builder) : ContainerCfgBuilder :=
  mkBuilder (fst (s_basePath (b_set b))) (fst <$> s_runtimePath (b_set b)) (fst <$> s_appPath (b_set b))
    (s_bundlePath (b_set b)) (s_selfAdjusting (b_set b)) (c_root (b_config b)) (c_mounts (b_config b)) (mkTree [] []).

Definition adjust (b : cfg_builder) : result cfg_builder :=
  if negb (s_selfAdjusting (b_set b)) then Ok b
  else
    r <-r selfAdjustingMount (adjusting b) (h_before h) (h_after h)
            (h_create_directories h (path_div (s_bundlePath (b_set b)) (lit "rootfs"))) ;;
    let c := b_config b in
    Ok (set_config (mkConfig (c_ociVersion c) (c_hostname c) (c_namespaces c) (c_uidMappings c) (c_gidMappings c)
          (c_maskedPaths c) (c_args c) (c_capabilities c) (c_env c) (config_root r) (config_mounts r)) b).

(** Everything before the merge. *)
Definition collect_mounts (b : cfg_builder) : result cfg_builder :=
  checkValid b ;;r
  b <-r buildMountRuntime (prepare b) ;;
  b <-r buildMountApp b ;;
  b <-r buildXDGRuntime b ;;
  b <-r buildPrivateDir b ;;
  b <-r buildMountHome b ;;
  b <-r buildPrivateMapped b ;;
  b <-r buildMountIPC b ;;
  b <-r buildMountNetworkConf (buildMountLocalTime b) ;;
  b <-r buildDisplaySystem b ;;
  b <-r buildMountCache b ;;
  b <-r buildLDCache b ;;
  build_env b.

Definition build (b : cfg_builder) : result cfg_builder :=
  b <-r collect_mounts b ;;
  b <-r applyPatch (finalize (mergeMount b)) ;;
  adjust b.

(** ** [ldConf] *)

Definition newline : str := ["010"%char].
Definition appendLdConf (triplet prefix : str) : str :=
  prefix ++ lit "/lib" ++ newline ++
  prefix ++ lit "/lib/" ++ triplet ++ newline ++
  lit "include " ++ prefix ++ lit "/etc/ld.so.conf" ++ newline.

(** [std::hex] with width two. *)
Definition hex_digit (n : Z) : ascii :=
  ascii_of_N (Z.to_N (if n <? 10 then 48 + n else 87 + n)).
Definition hex_byte (c : ascii) : str := [hex_digit (byte_val c / 16); hex_digit (byte_val c mod 16)].
Definition hex (l : str) : str := l ≫= hex_byte.

Definition ld_prefixes (b : cfg_builder) : list str :=
  (match s_runtimePath (b_set b) with Some _ => [lit "/runtime"] | None => [] end) ++
  (match s_appPath (b_set b) with Some _ => [app_files (s_appId (b_set b))] | None => [] end) ++
  (mt_destination <$> default [] (b_slot b extensionMount)).
Definition ld_factors (b : cfg_builder) : list str :=
  (match s_runtimePath (b_set b) with Some (p, _) => [p] | None => [] end) ++
  (match s_appPath (b_set b) with Some (p, _) => [p] | None => [] end) ++
  omap mt_source (default [] (b_slot b extensionMount)).

Definition str_less (x y : str) : bool := str_cmp x y <? 0.

Definition ldConf (triplet : str) (b : cfg_builder) : str :=
  lit "# " ++ hex (sha256 (std_sort str_less (ld_factors b))) ++ newline ++
  mjoin (appendLdConf triplet <$> ld_prefixes b).

End mounts.

(** ** Lists of destinations in which nothing is hidden *)

(** No later path covers an earlier one. *)
Definition visible : list (list str) -> Prop := StronglySorted (fun x y => ~ (y `prefix_of` x)).

Lemma sorted_sublist {A} (R : A -> A -> Prop) l1 l2 : l1 `sublist_of` l2 -> StronglySorted R l2 -> StronglySorted R l1.
Proof.
  intros Hs. induction Hs as [|x l1 l2 Hs IH|x l1 l2 Hs IH]; intros H; [done| |by inversion H; auto].
  inversion H as [|?? H2 Hx]; subst. constructor; [auto|]. rewrite Forall_forall in *. intros y Hy. apply Hx. by eapply elem_of_submseteq, sublist_submseteq.
Qed.

(** Paths in different top directories do not meet. *)
Lemma apart (x y : list str) a b : head x = Some a -> head y = Some b -> a <> b -> ~ (y `prefix_of` x).
Proof. destruct x, y; [done..|]. cbn. intros [= ->] [= ->] Hab [k [= E _]]. congruence. Qed.

(** ** Where the builder mounts *)

Section places.
(** The application, the user, the home directory, the extensions and devices. *)
Variables (appId uid : str) (home : list str) (exts devs : list str).

Definition home_inner : list (list str) :=
  [[]; [lit ".local"; lit "share"]; [lit ".config"]; [lit ".cache"]; [lit ".local"; lit "state"];
   [lit ".config"; lit "systemd"; lit "user"]; [lit ".config"; lit "dconf"];
   [lit ".cache"; lit "deepin"; lit "dde-api"]; [lit ".config"; lit "user-dirs.dirs"];
   [lit ".config"; lit "user-dirs.locale"]].

(** The directories of the home directory an application has a copy of. *)
Definition private_dirs : list (list str) := [[lit ".gnupg"]; [lit ".ssh"]].

Definition user_dir (name : str) : list str := [lit "run"; lit "user"; uid; name].

(** The destinations each member can have, in order. *)
Definition places (k : slot) : list (list str) :=
  match k with
  | runtimeMount => [[lit "runtime"]]
  | appMount => [[lit "opt"]; [lit "opt"; lit "apps"; appId; lit "files"]]
  | extensionMount => (fun n => [lit "opt"; lit "extensions"; n]) <$> exts
  | sysMount => [[lit "sys"]]
  | procMount => [[lit "proc"]]
  | devMount => [[lit "dev"]; [lit "dev"; lit "pts"]; [lit "dev"; lit "shm"]; [lit "dev"; lit "mqueue"]]
  | devNodeMount => (fun n => [lit "dev"; n]) <$> devs
  | cgroupMount => [[lit "sys"; lit "fs"; lit "cgroup"]]
  | runMount => [[lit "run"]; [lit "run"; lit "user"; uid]]
  | tmpMount => [[lit "tmp"]]
  | UGMount => [[lit "etc"; lit "passwd"]; [lit "etc"; lit "group"]]
  | removableStorageMounts => [[lit "media"]; [lit "mnt"]]
  | hostRootMount => [[lit "run"; lit "host"]; [lit "run"; lit "host"; lit "rootfs"]]
  | hostStaticsMount => [[lit "etc"; lit "machine-id"]; [lit "usr"; lit "lib"; lit "locale"];
      [lit "usr"; lit "share"; lit "fonts"]; [lit "usr"; lit "share"; lit "icons"];
      [lit "usr"; lit "share"; lit "themes"]; [lit "var"; lit "cache"; lit "fontconfig"]]
  | homeMount => [lit "home"] :: (app home <$> home_inner)
  | displayMount => [[lit "tmp"; lit ".X11-unix"]; [lit "tmp"; lit ".X11-unix"; lit "X0"];
      [lit "run"; lit "linglong"; lit "Xauthority"]; user_dir (lit "wayland-0"); [lit "run"; lit "linglong"; lit "wayland-0"]]
  | ipcMount => [[lit "run"; lit "dbus"; lit "system_bus_socket"]; user_dir (lit "pulse"); user_dir (lit "gvfs");
      user_dir (lit "bus"); user_dir (lit "dconf")]
  | cacheMount => [[lit "run"; lit "linglong"; lit "cache"]]
  | ldCacheMount => [[lit "etc"; lit "ld.so.cache"]]
  | localtimeMount => [[lit "etc"; lit "localtime"]; [lit "usr"; lit "share"; lit "zoneinfo"]; [lit "etc"; lit "timezone"]]
  | networkConfMount => [[lit "etc"; lit "resolv.conf"]; [lit "etc"; lit "resolvconf"]; [lit "etc"; lit "hosts"]]
  | privateMount => app home <$> private_dirs
  | extraMount => [[lit "run"; lit "linglong"; lit "init"]]
  | volatileMount => []
  | envMount => [[lit "etc"; lit "profile.d"; lit "00env.sh"]]
  end.

(** The top directories of the container that are the builder's. *)
Definition system_dirs : list str :=
  [lit "dev"; lit "etc"; lit "media"; lit "mnt"; lit "opt"; lit "proc"; lit "run"; lit "runtime"; lit "sys";
   lit "tmp"; lit "usr"; lit "var"].

Hypothesis home_own : exists n rest, home = n :: rest /\ (n ∉ system_dirs) /\ (n = lit "home" -> rest <> []).
Hypothesis exts_once : NoDup exts.
Hypothesis devs_once : NoDup devs.
Hypothesis devs_default : Forall (fun n => default_device n = true) devs.

Definition in_system (d : list str) : Prop := exists n rest, d = n :: rest /\ n ∈ system_dirs.

Definition at_home : list slot := [homeMount; privateMount].

Lemma places_system k d : k ∉ at_home -> d ∈ places k -> in_system d.
Proof.
  intros Hk Hd. destruct k; try (exfalso; apply Hk; apply (bool_decide_unpack _); exact I); cbn in Hd; try done;
    try (apply list_elem_of_fmap in Hd as (n & -> & _); eexists _, _; split; [reflexivity|by apply (bool_decide_unpack _)]);
    apply list_elem_of_In in Hd; cbn [In] in Hd; destruct_or! Hd; subst; try done;
    eexists _, _; (split; [reflexivity|by apply (bool_decide_unpack _)]).
Qed.

Lemma home_apart d x : in_system d -> ~ (home ++ x) `prefix_of` d /\ ~ d `prefix_of` (home ++ x).
Proof using home_own.
  intros (m & r & -> & Hm). destruct home_own as (n & rest & -> & Hn & _).
  split; eapply apart; try reflexivity; intros ->; done.
Qed.

(** Two given paths: the first difference decides. *)
Ltac no_prefix := let E := fresh in intros [? E]; cbn in E; discriminate E.
Ltac all_visible :=
  repeat first [apply SSorted_nil | apply SSorted_cons | apply Forall_nil; exact I | apply Forall_cons; split | no_prefix].

(** Nothing of [k2], which comes later, covers anything of [k1]. *)
Definition clear_of (k1 k2 : slot) : Prop := Forall (fun x => Forall (fun y => ~ y `prefix_of` x) (places k2)) (places k1).

Lemma visible_join l : Forall (fun k => visible (places k)) l -> StronglySorted clear_of l ->
  visible (mjoin (places <$> l)).
Proof.
  intros H1 H2. induction H2 as [|k l H2 IH Hk]; [constructor|]. inversion H1 as [|?? Hv Hl]; subst.
  cbn [fmap list_fmap mjoin list_join]. apply StronglySorted_app. split_and!; [|done|by apply IH].
  intros x y Hx Hy. apply list_elem_of_join in Hy as (z & Hy & (k' & -> & Hk')%list_elem_of_fmap).
  rewrite Forall_forall in Hk. specialize (Hk k' Hk'). unfold clear_of in Hk. rewrite Forall_forall in Hk.
  specialize (Hk x Hx). rewrite Forall_forall in Hk. by apply Hk.
Qed.

Lemma at_home_places k y : k ∈ at_home -> y ∈ places k -> y = [lit "home"] \/ exists z, y = home ++ z.
Proof.
  intros Hk Hy. apply elem_of_cons in Hk as [->| ->%list_elem_of_singleton]; cbn [places] in Hy.
  - apply elem_of_cons in Hy as [->|(z & -> & _)%list_elem_of_fmap]; [by left|right; by exists z].
  - apply list_elem_of_fmap in Hy as (z & -> & _). right. by exists z.
Qed.

Lemma home_clear k k' : k ∉ at_home -> k' ∈ at_home -> clear_of k k' /\ clear_of k' k.
Proof using home_own.
  intros Hk Hk'. assert (Hd : forall x y, x ∈ places k -> y ∈ places k' -> ~ y `prefix_of` x /\ ~ x `prefix_of` y).
  { intros x y Hx%(places_system _ _ Hk) Hy. apply (at_home_places _ _ Hk') in Hy as [->|(z & ->)]; [|by apply home_apart].
    destruct Hx as (m & r & -> & Hm). split; eapply apart; try reflexivity; intros E; subst; apply (bool_decide_pack _) in Hm; vm_compute in Hm; exact Hm. }
  unfold clear_of. split; apply Forall_forall; intros x Hx; apply Forall_forall; intros y Hy.
  - by destruct (Hd x y Hx Hy).
  - by destruct (Hd y x Hy Hx).
Qed.

(** The private directories do not cover what is mounted in the home directory. *)
Lemma private_clear : clear_of homeMount privateMount.
Proof using home_own.
  apply Forall_cons. split.
  - apply Forall_fmap, Forall_forall. intros y Hy [k E]. destruct home_own as (n & rest & -> & _ & Hr). injection E as <- E.
    destruct rest; [by apply Hr|done].
  - apply Forall_fmap, Forall_forall. intros x Hx. apply Forall_fmap, Forall_forall. intros y Hy [k E].
    rewrite <- app_assoc in E. apply app_inv_head in E. revert E. apply list_elem_of_In in Hx, Hy.
    cbn [In home_inner private_dirs] in Hx, Hy.
    destruct_or! Hy; subst; try done; destruct_or! Hx; subst; done.
Qed.

(** Different names in one directory. *)
Lemma visible_names dir l : NoDup l -> visible ((fun n => dir ++ [n]) <$> l).
Proof.
  induction 1 as [|n l Hn Hl IH]; [constructor|]. constructor; [done|].
  apply Forall_fmap, Forall_forall. intros m Hm [k E]. rewrite <- app_assoc in E.
  apply app_inv_head in E. injection E as <- _. done.
Qed.

Lemma visible_under l : visible l -> visible (app home <$> l).
Proof.
  induction 1 as [|x l Hl IH Hx]; [constructor|]. constructor; [done|].
  apply Forall_fmap. eapply Forall_impl; [exact Hx|]. intros y Hy [k E]. rewrite <- app_assoc in E.
  apply app_inv_head in E. apply Hy. by exists k.
Qed.

Lemma places_each k : visible (places k).
Proof using home_own exts_once devs_once.
  destruct k; cbn [places]; try (all_visible; fail).
  - by apply (visible_names [lit "opt"; lit "extensions"]).
  - by apply (visible_names [lit "dev"]).
  - constructor; [apply visible_under; all_visible|]. apply Forall_fmap, Forall_forall. intros x _ [k E].
    destruct home_own as (n & rest & -> & _ & Hr). injection E as <- E. destruct rest; [by apply Hr|done].
  - apply visible_under. all_visible.
Qed.

Ltac all_clear := cbn [places];
  repeat first [apply Forall_nil; exact I | apply Forall_cons; split | no_prefix
               | apply Forall_fmap, Forall_forall; intros ?n ?Hn; cbn beta].

Lemma device_clear : clear_of devMount devNodeMount.
Proof using devs_default.
  unfold clear_of. repeat (apply Forall_cons; split); try (apply Forall_nil; exact I);
    apply Forall_fmap; (eapply Forall_impl; [exact devs_default|]); intros n Hn [k E]; try discriminate E;
    injection E as <- _; vm_compute in Hn; discriminate Hn.
Qed.

Lemma clear_intro k1 k2 : Forall (fun x => Forall (fun y => ~ y `prefix_of` x) (places k2)) (places k1) -> clear_of k1 k2.
Proof. done. Qed.

#[local] Opaque clear_of.
Lemma places_visible : visible (mjoin (places <$> merge_order)).
Proof using home_own exts_once devs_once devs_default.
  apply visible_join; [apply Forall_forall; intros; apply places_each|]. unfold merge_order.
  repeat (apply SSorted_cons; [|repeat (apply Forall_cons; split); try (apply Forall_nil; exact I);
    first [apply device_clear | apply private_clear
          | apply (fun a b => proj1 (home_clear _ _ a b)); apply (bool_decide_unpack _); exact I
          | apply (fun a b => proj2 (home_clear _ _ a b)); apply (bool_decide_unpack _); exact I
          | apply clear_intro; all_clear]]).
  apply SSorted_nil.
Qed.
#[local] Transparent clear_of.
Lemma places_nonempty d : d ∈ mjoin (places <$> merge_order) -> d <> [].
Proof using home_own.
  intros Hd. apply list_elem_of_join in Hd as (l & Hd & (k & -> & _)%list_elem_of_fmap).
  destruct (decide (k ∈ at_home)) as [Hk|Hk]; [|by apply places_system in Hd as (n & rest & -> & _)].
  destruct home_own as (n & rest & En & _). apply (at_home_places _ _ Hk) in Hd as [->|(z & ->)]; [done|]. by rewrite En.
Qed.

End places.

(** ** What the setters leave *)

Definition protected_dirs : list str := [lit "etc"; lit "opt"; lit "runtime"; lit "usr"; lit "var"].

(** A mount is read-only when its options say so, or when what is mounted is
    a copy of a symbolic link. *)
Definition read_only (m : Mount) : Prop :=
  exists options, mt_options m = Some options /\ (lit "ro" ∈ options \/ lit "copy-symlink" ∈ options).

(** The empty tmpfs the builder puts at [/opt], for the directories of the
    application. It is not read-only. *)
Definition fresh_opt : Mount := mount_of (lit "/opt") tmpfs_options (lit "tmpfs") (lit "tmpfs").

(** The files of the layers are mounted read-only. *)
Definition layers_ro (s : settings) : Prop :=
  (forall p ro, s_runtimePath s = Some (p, ro) -> ro = true) /\ (forall p ro, s_appPath s = Some (p, ro) -> ro = true).

(** Below the protected directories nothing of the host can be written. *)
Definition guarded (s : settings) (m : Mount) : Prop :=
  layers_ro s -> (exists n rest, dest m = n :: rest /\ n ∈ protected_dirs) -> read_only m \/ m = fresh_opt.

(** The mounts of a member, where it has any. *)
Definition at_ (b : cfg_builder) (k : slot) : list Mount := default [] (b_slot b k).

Definition extension_mount (x : str * str) : Mount :=
  bind (lit "/opt/extensions/" ++ x.1) [lit "rbind"; lit "ro"] x.2.

(** The directory of the sockets of the first process. *)
Definition init_mount (dir : str) : Mount := mount_of (lit "/run/linglong/init") [lit "bind"] dir (lit "bind").

(** The setters without arguments. *)
Definition simple_setters `{MapOrder} (h : host) : list (cfg_builder -> cfg_builder) :=
  [bindSys; bindProc; bindDev; bindCgroup; bindRun; bindTmp; bindDefault; bindUserGroup; bindHostRoot;
   bindXDGRuntime h; bindRemovableStorageMounts h; bindHostStatics h; enablePrivateDir; bindIPC; enableLDCache;
   enableQuirkVolatile].

(** A builder as a program sets it up: extensions as [fillContextCfg] mounts
    them, the default devices once, and of its own the directory of the first
    process. *)
Inductive setup `{MapOrder} (h : host) (s : settings) (exts : list (str * str)) : cfg_builder -> Prop :=
| setup_new : setup h s exts (new_builder s)
| setup_simple b f : setup h s exts b -> f ∈ simple_setters h -> setup h s exts (f b)
| setup_home b home : setup h s exts b -> b_privateMappings b = None -> setup h s exts (bindHome home b)
| setup_private b home name : setup h s exts b -> b_homePath b = Some home -> [name] ∈ private_dirs ->
    setup h s exts (mapPrivate (home ++ "/"%char :: name) true b)
| setup_init b dir : setup h s exts b -> b_slot b extraMount = None -> setup h s exts (addExtraMount (init_mount dir) b)
| setup_extensions b : setup h s exts b -> setup h s exts (setExtensionMounts (extension_mount <$> exts) b)
| setup_devices b b' : setup h s exts b -> b_slot b devNodeMount = None -> bindDevNode h None b = Ok b' -> setup h s exts b'
| setup_masks b masks : setup h s exts b -> setup h s exts (addMask masks b)
| setup_forward b names : setup h s exts b -> setup h s exts (forwardEnv h names b)
| setup_append b env : setup h s exts b -> setup h s exts (appendEnvs env b)
| setup_append1 b env value overwrite : setup h s exts b -> setup h s exts (appendEnv1 env value overwrite b).

Section steps.
Context `{MapOrder} `{StdSort}.
Variable h : host.
Variable s : settings.
Variable exts : list (str * str).

Definition devices : list str := List.filter default_device (default [] (h_dev h)).

Abbreviation places_of home := (places (s_appId s) (dec (h_euid h)) home (fst <$> exts) devices).

(** Mounts at some of the places, in their order, and guarded. *)
Definition upto (D : list (list str)) (l : list Mount) : Prop :=
  (dest <$> l) `sublist_of` D /\ Forall (guarded s) l.

Lemma upto_nil D : upto D [].
Proof. split; [apply sublist_nil_l|constructor]. Qed.

Lemma upto_skip D E l : upto D l -> upto (D ++ E) l.
Proof. intros [Hs Hg]. split; [by apply sublist_inserts_r|done]. Qed.

Lemma upto_push D l m : upto D l -> guarded s m -> upto (D ++ [dest m]) (l ++ [m]).
Proof.
  intros [Hs Hg] Hm. split; [|by apply Forall_app; split; [|constructor]].
  rewrite fmap_app. by apply sublist_app.
Qed.

Lemma guard_ro m : read_only m -> guarded s m.
Proof. intros Hr _ _. by left. Qed.

Lemma guard_opt : guarded s fresh_opt.
Proof. intros _ _. by right. Qed.

Lemma guard_dir m n rest : dest m = n :: rest -> bool_decide (n ∈ protected_dirs) = false -> guarded s m.
Proof. intros Hd Hn _ (n' & r' & Hd' & Hn'). rewrite Hd in Hd'. injection Hd' as <- _. by apply bool_decide_eq_false in Hn. Qed.

Definition unprotected (d : list str) : bool :=
  match d with n :: _ => negb (bool_decide (n ∈ protected_dirs)) | [] => true end.
Lemma guard_at m : unprotected (dest m) = true -> guarded s m.
Proof.
  destruct (dest m) as [|n rest] eqn:E; cbn; intros Hn; [|by apply (guard_dir m n rest); [|apply negb_true_iff]].
  intros _ (n & rest & E' & _). by rewrite E in E'.
Qed.

(** A step changes some members and none of the settings. *)
Record frame (ks : list slot) (b b' : cfg_builder) : Prop := {
  fr_set : b_set b' = b_set b;
  fr_home : b_homePath b' = b_homePath b;
  fr_xdg : b_xdgRuntimeDir b' = b_xdgRuntimeDir b;
  fr_mappings : b_privateMappings b' = b_privateMappings b;
  fr_root : c_root (b_config b') = c_root (b_config b);
  fr_slot : forall k, k ∉ ks -> b_slot b' k = b_slot b k
}.

Lemma frame_refl ks b : frame ks b b.
Proof. by split. Qed.
Lemma frame_trans ks b1 b2 b3 : frame ks b1 b2 -> frame ks b2 b3 -> frame ks b1 b3.
Proof. intros [? ? ? ? ? S1] [? ? ? ? ? S2]. split; [congruence..|]. intros k Hk. rewrite S2, S1 by done. done. Qed.
Lemma frame_slot k v b : frame [k] b (set_slot k v b).
Proof. split; try done. intros k' Hk. cbn. apply fn_lookup_insert_ne. set_solver. Qed.
Lemma frame_env k key value b b' : frame [k] b b' -> frame [k] b (set_env key value b').
Proof. by intros [? ? ? ? ? ?]. Qed.

Variable home : list str.

Definition xdg_dir : str := path_div (lit "/run/user") (dec (h_euid h)).

Definition to_fill : list slot :=
  [runtimeMount; appMount; homeMount; displayMount; ipcMount; cacheMount; ldCacheMount; localtimeMount; networkConfMount;
   privateMount; envMount].

Definition private_list (p : str) : list (str * bool) := [(p ++ lit "/.gnupg", true); (p ++ lit "/.ssh", true)].
Definition private_ok (b : cfg_builder) : Prop := b_privateMappings b = None \/
  exists p l, b_homePath b = Some p /\ b_privateMappings b = Some l /\ l `sublist_of` private_list p.

Record as_set (b : cfg_builder) : Prop := {
  as_settings : b_set b = s;
  as_places : forall k, upto (places_of home k) (at_ b k);
  as_run : upto [[lit "run"]] (at_ b runMount);
  as_empty : forall k, k ∈ to_fill -> at_ b k = [];
  as_xdg : b_xdgRuntimeDir b = None \/ b_xdgRuntimeDir b = Some xdg_dir;
  as_mappings : private_ok b
}.

Lemma at_slot k l b : at_ (set_slot k (Some l) b) k = l.
Proof. unfold at_, set_slot. cbn. by rewrite fn_lookup_insert. Qed.

Lemma frame_at ks b b' k : frame ks b b' -> k ∉ ks -> at_ b' k = at_ b k.
Proof. intros F Hk. unfold at_. by rewrite (fr_slot _ _ _ F). Qed.

Lemma private_frame ks b b' : frame ks b b' -> private_ok b -> private_ok b'.
Proof. intros F. unfold private_ok. by rewrite (fr_home _ _ _ F), (fr_mappings _ _ _ F). Qed.

(** A step that changes one member, and keeps it at its places. *)
Lemma as_set_step k b b' : as_set b -> frame [k] b b' -> upto (places_of home k) (at_ b' k) ->
  (k = runMount -> upto [[lit "run"]] (at_ b' k)) -> (k ∈ to_fill -> at_ b' k = []) -> as_set b'.
Proof.
  intros [A1 A2 A3 A4 A5 A6] F U1 U2 U3.
  split; [by rewrite (fr_set _ _ _ F)|..|by rewrite (fr_xdg _ _ _ F)|by apply (private_frame _ _ _ F)].
  - intros k'. destruct (decide (k' = k)) as [->|Hk]; [done|]. by rewrite (frame_at _ _ _ k' F) by set_solver.
  - destruct (decide (runMount = k)) as [<-|Hk]; [by apply U2|]. by rewrite (frame_at _ _ _ runMount F) by set_solver.
  - intros k' Hk'. destruct (decide (k' = k)) as [->|Hk]; [by apply U3|]. rewrite (frame_at _ _ _ k' F) by set_solver. by apply A4.
Qed.

(** A member set to fixed mounts. *)
Lemma as_set_fixed k l b : as_set b -> dest <$> l = places_of home k -> Forall (guarded s) l ->
  bool_decide (k ∈ runMount :: to_fill) = false -> as_set (set_slot k (Some l) b).
Proof.
  intros A Hd Hg Hk%bool_decide_eq_false. apply (as_set_step k b); [done|apply frame_slot|..]; rewrite at_slot.
  - split; [by rewrite Hd|done].
  - intros ->. exfalso. apply Hk. by left.
  - intros Hin. exfalso. apply Hk. by right.
Qed.

Lemma as_set_cleared k b : as_set b -> k <> runMount -> as_set (set_slot k (Some []) b).
Proof.
  intros A Hk. apply (as_set_step k b); [done|apply frame_slot|..]; rewrite at_slot; [apply upto_nil|done|done].
Qed.

Lemma bindIfExist_at k source destination ro b : exists l, at_ (bindIfExist h k source destination ro b) k = at_ b k ++ l /\
  frame [k] b (bindIfExist h k source destination ro b) /\
  (l = [] \/ l = [bind (if bool_decide (destination = []) then source else destination) [lit "rbind"; ro_flag ro] source]).
Proof.
  unfold bindIfExist. destruct (there h source b).
  - eexists. split_and!; [by apply at_slot|apply frame_slot|by right].
  - exists []. rewrite app_nil_r. split_and!; [done|apply frame_refl|by left].
Qed.

Ltac by_guard := first [apply guard_ro; eexists; split; [reflexivity|left; by apply (bool_decide_unpack _)]
                    | apply guard_ro; eexists; split; [reflexivity|right; by apply (bool_decide_unpack _)]
                    | apply guard_opt
                    | apply guard_at; vm_compute; reflexivity].
Ltac guards := repeat (apply Forall_cons; split; [by_guard|]); apply Forall_nil; exact I.

Lemma as_set_default b f : as_set b ->
  f ∈ [bindSys; bindProc; bindDev; bindCgroup; bindTmp; bindUserGroup; bindHostRoot] -> as_set (f b).
Proof.
  intros A Hf. apply list_elem_of_In in Hf. cbn [In] in Hf. destruct_or! Hf; subst; try done;
    (apply as_set_fixed; [done|reflexivity|guards|reflexivity]).
Qed.

(** The places found so far, when mounts may follow. *)
Lemma bindIfExist_upto k source ro D b : upto D (at_ b k) ->
  guarded s (bind source [lit "rbind"; ro_flag ro] source) -> bool_decide (k ∈ [runMount]) = false ->
  upto (D ++ [components source]) (at_ (bindIfExist h k source [] ro b) k) /\ frame [k] b (bindIfExist h k source [] ro b).
Proof.
  intros HD Hg Hk. destruct (bindIfExist_at k source [] ro b) as (l & -> & F & [->| ->]); (split; [|done]).
  - rewrite app_nil_r. by apply upto_skip.
  - by apply (upto_push D _ (bind source [lit "rbind"; ro_flag ro] source)).
Qed.

Lemma bindHostStatics_upto b : upto (places_of home hostStaticsMount) (at_ (bindHostStatics h b) hostStaticsMount) /\
  frame [hostStaticsMount] b (bindHostStatics h b).
Proof.
  unfold bindHostStatics, statics. cbn [fold_left].
  assert (upto [] (at_ (set_slot hostStaticsMount (Some []) b) hostStaticsMount)) as U by (rewrite at_slot; apply upto_nil).
  pose proof (frame_slot hostStaticsMount (Some []) b) as F. revert U F. generalize (set_slot hostStaticsMount (Some []) b).
  intros b0 U F.
  repeat match goal with
    | U : upto ?D (at_ ?b0 _), F : frame _ b ?b0 |- context [bindIfExist h ?k ?src [] true ?b0] =>
        let U' := fresh "U" in let F' := fresh "F" in
        destruct (bindIfExist_upto k src true D b0 U) as [U' F']; [by_guard|reflexivity|];
        apply (frame_trans _ _ _ _ F) in F'; clear U F; revert U' F'; generalize (bindIfExist h k src [] true b0);
        intros ? U F
    end.
  by split.
Qed.

Lemma push_upto k m D b : upto D (at_ b k) -> guarded s m ->
  upto (D ++ [dest m]) (at_ (push k m b) k) /\ frame [k] b (push k m b).
Proof. intros HD Hg. unfold push. rewrite at_slot. split; [by apply upto_push|apply frame_slot]. Qed.

Lemma as_set_loop k b b' : as_set b -> upto (places_of home k) (at_ b' k) -> frame [k] b b' ->
  bool_decide (k ∈ runMount :: to_fill) = false -> as_set b'.
Proof.
  intros A U F Hk%bool_decide_eq_false. apply (as_set_step k b); [done..| |].
  - intros ->. exfalso. apply Hk. by left.
  - intros Hin. exfalso. apply Hk. by right.
Qed.

Lemma as_set_run b : as_set b -> as_set (bindRun b).
Proof.
  intros A. assert (upto [[lit "run"]] (at_ (bindRun b) runMount)) as U.
  { unfold bindRun. rewrite at_slot. split; [reflexivity|guards]. }
  apply (as_set_step runMount b); [done|apply frame_slot|by apply (upto_skip [[lit "run"]])|done|].
  intros Hin. apply (bool_decide_pack _) in Hin. vm_compute in Hin. destruct Hin.
Qed.

(** A setter that leaves the members alone. *)
Lemma as_set_same b b' : as_set b -> b_set b' = b_set b -> b_slot b' = b_slot b ->
  b_xdgRuntimeDir b' = b_xdgRuntimeDir b \/ b_xdgRuntimeDir b' = Some xdg_dir ->
  private_ok b' -> as_set b'.
Proof.
  intros [A1 A2 A3 A4 A5 A6] E1 E2 E3 E4. unfold at_ in *. split; unfold at_; rewrite ?E1, ?E2; try done.
  destruct E3 as [-> | ->]; [done|by right].
Qed.

Lemma str_cmp_app p x y : str_cmp (p ++ x) (p ++ y) = str_cmp x y.
Proof.
  induction p as [|c p IH]; [done|]. unfold str_cmp in *. cbn [app list_cmp].
  assert (E : chr_cmp c c = 0) by (unfold chr_cmp, on_cmp, z_cmp; by rewrite Z.ltb_irrefl). by rewrite E.
Qed.

(** The map stays sorted, each directory once. *)
Lemma emplace_private p name l : [name] ∈ private_dirs -> l `sublist_of` private_list p ->
  map_emplace (p ++ "/"%char :: name) true l `sublist_of` private_list p.
Proof.
  intros Hn Hl. assert (Hc : l = [] \/ l = [(p ++ lit "/.gnupg", true)] \/ l = [(p ++ lit "/.ssh", true)] \/ l = private_list p).
  { unfold private_list in *. inversion Hl as [|? l1 ? Hl1|? l1 ? Hl1]; subst; inversion Hl1 as [|? l2 ? Hl2|? l2 ? Hl2]; subst;
      inversion Hl2; subst; tauto. }
  apply list_elem_of_In in Hn. cbn [In private_dirs] in Hn. destruct Hn as [[= <-]|[[= <-]|[]]];
    destruct Hc as [->|[->|[->| ->]]]; unfold private_list; cbn [map_emplace]; rewrite ?str_cmp_app;
    repeat match goal with |- context [if ?x then _ else _] => let v := eval vm_compute in x in change x with v; cbn [map_emplace] end;
    repeat first [apply sublist_nil_l | apply sublist_skip | reflexivity | apply sublist_cons].
Qed.

Hypothesis no_links : forall p target, h_readlink h p <> Ok (Some target).

Lemma removable_upto b : upto (places_of home removableStorageMounts) (at_ (bindRemovableStorageMounts h b) removableStorageMounts) /\
  frame [removableStorageMounts] b (bindRemovableStorageMounts h b).
Proof using no_links.
  unfold bindRemovableStorageMounts. cbn [bind_removable]. set (b0 := set_slot _ _ b).
  assert (upto [] (at_ b0 removableStorageMounts)) as U0 by (unfold b0; rewrite at_slot; apply upto_nil).
  assert (frame [removableStorageMounts] b b0) as F0 by apply frame_slot.
  assert (forall p D b1, guarded s (bind p [lit "rbind"] p) -> upto D (at_ b1 removableStorageMounts) ->
    frame [removableStorageMounts] b b1 ->
    upto (D ++ [components p]) (at_ (push removableStorageMounts (bind p [lit "rbind"] p) b1) removableStorageMounts) /\
    frame [removableStorageMounts] b (push removableStorageMounts (bind p [lit "rbind"] p) b1)) as Hpush.
  { intros p D b1 Hg U F. destruct (push_upto removableStorageMounts (bind p [lit "rbind"] p) D b1 U Hg) as [U' F'].
    split; [done|by eapply frame_trans]. }
  destruct (h_readlink h (lit "/media")) as [[t1|]|] eqn:E1; [by apply no_links in E1| |by split; [apply (upto_skip [])|]].
  destruct (Hpush (lit "/media") [] b0) as [U1 F1]; [by_guard|done|done|].
  destruct (h_readlink h (lit "/mnt")) as [[t2|]|] eqn:E2; [by apply no_links in E2| |by split; [apply (upto_skip [[lit "media"]])|]].
  apply (Hpush (lit "/mnt") [[lit "media"]]); [by_guard|done|done].
Qed.

Lemma as_set_simple b f : as_set b -> f ∈ simple_setters h -> as_set (f b).
Proof using no_links.
  intros A Hf. assert (Hd := as_set_default). apply list_elem_of_In in Hf. cbn [simple_setters In] in Hf.
  destruct_or! Hf; subst; try done;
    try (apply Hd; [done|apply list_elem_of_In; cbn [In]; tauto]); try (by apply as_set_cleared).
  - by apply as_set_run.
  - unfold bindDefault. apply as_set_run.
    do 4 (apply Hd; [|apply list_elem_of_In; cbn [In]; tauto]). done.
  - apply (as_set_same b); try done; [by right|apply (as_mappings _ A)].
  - destruct (removable_upto b) as [U F]. by apply (as_set_loop removableStorageMounts b).
  - destruct (bindHostStatics_upto b) as [U F]. by apply (as_set_loop hostStaticsMount b).
Qed.

Lemma same_sublist {A} (l l' : list A) : l = l' -> l `sublist_of` l'.
Proof. by intros ->. Qed.

Lemma components_under dir n : file_name n -> components (dir ++ "/"%char :: n) = components dir ++ [n].
Proof. intros Hn. by rewrite components_app, (components_name n). Qed.

Lemma bind_devices l b :
  at_ (fold_left bind_device l b) devNodeMount =
    at_ b devNodeMount ++ ((fun n => bind (lit "/dev/" ++ n) [lit "rbind"] (lit "/dev/" ++ n)) <$> l) /\
  frame [devNodeMount] b (fold_left bind_device l b).
Proof.
  revert b. induction l as [|n l IH]; intros b; cbn [fold_left].
  { cbn [fmap list_fmap]. rewrite app_nil_r. split; [done|apply frame_refl]. }
  destruct (IH (bind_device b n)) as [E F]. rewrite E. split.
  - unfold bind_device, push. rewrite at_slot. by rewrite <- app_assoc.
  - eapply frame_trans; [apply frame_slot|exact F].
Qed.

Hypothesis names_exts : Forall (fun x => file_name x.1) exts.
Hypothesis names_devices : Forall file_name devices.

Lemma devices_upto b b' : b_slot b devNodeMount = None -> bindDevNode h None b = Ok b' ->
  upto (places_of home devNodeMount) (at_ b' devNodeMount) /\ frame [devNodeMount] b b'.
Proof using names_devices.
  unfold bindDevNode. destruct (h_dev h) as [names|] eqn:E; [|done]. intros Hb [= <-]. cbn [default].
  destruct (bind_devices (List.filter default_device names) b) as [Ea F]. split; [|exact F].
  change (from_option id default_device None) with default_device. rewrite Ea. unfold at_. rewrite Hb. cbn [default app].
  assert (devices = List.filter default_device names) as Ed by (unfold devices; by rewrite E). rewrite <- Ed.
  assert (forall n, n ∈ devices -> dest (bind (lit "/dev/" ++ n) [lit "rbind"] (lit "/dev/" ++ n)) = [lit "dev"; n]) as Hdest.
  { intros n Hn. rewrite Forall_forall in names_devices. by apply (components_under (lit "/dev")), names_devices. }
  split; [apply same_sublist|apply Forall_fmap, Forall_forall; intros n Hn; by apply (guard_dir _ (lit "dev") [n]); [apply Hdest|]].
  cbn [places]. rewrite <- list_fmap_compose. apply Forall_fmap_ext_1, Forall_forall. intros n Hn. by apply Hdest.
Qed.

Lemma extensions_upto b : upto (places_of home extensionMount) (at_ (setExtensionMounts (extension_mount <$> exts) b) extensionMount).
Proof using names_exts.
  unfold setExtensionMounts. rewrite at_slot. split; [apply same_sublist|].
  - cbn [places]. rewrite <- !list_fmap_compose. apply Forall_fmap_ext_1.
    eapply Forall_impl; [exact names_exts|]. intros [n p] Hn. by apply (components_under (lit "/opt/extensions")).
  - apply Forall_fmap, Forall_forall. intros [n p] _. apply guard_ro. eexists. split; [reflexivity|left].
    by apply (bool_decide_unpack _).
Qed.

Lemma setup_as_set b : setup h s exts b -> as_set b.
Proof using no_links names_exts names_devices.
  induction 1 as [|b f Hb IH Hf|b hm Hb IH Hm|b hm name Hb IH Hh Hn|b dir Hb IH He|b Hb IH|b b' Hb IH Hn Hd|b masks Hb IH|b names Hb IH|b env Hb IH|b env value o Hb IH].
  - split; try done; [intros k; apply upto_nil|apply upto_nil|by left|by left].
  - by apply as_set_simple.
  - apply as_set_cleared; [|done]. apply (as_set_same b); try done; [by left|]. left. exact Hm.
  - apply (as_set_same b); try done; [by left|]. right. exists hm. eexists. split; [done|]. split; [reflexivity|].
    apply emplace_private; [done|]. destruct (as_mappings _ IH) as [->|(p & l & Ep & -> & Hl)]; [apply sublist_nil_l|].
    rewrite Hh in Ep. by injection Ep as ->.
  - assert (U : upto (places_of home extraMount) (at_ (addExtraMount (init_mount dir) b) extraMount)).
    { unfold addExtraMount, push. rewrite at_slot, He. split; [reflexivity|]. constructor; [by apply guard_at|constructor]. }
    apply (as_set_loop extraMount b); [done|done|apply frame_slot|done].
  - apply (as_set_loop extensionMount b); [done|apply extensions_upto|apply frame_slot|done].
  - destruct (devices_upto b b' Hn Hd) as [U F]. by apply (as_set_loop devNodeMount b).
  - apply (as_set_same b); try done; [by left|apply (as_mappings _ IH)].
  - apply (as_set_same b); try done; [by left|apply (as_mappings _ IH)].
  - apply (as_set_same b); try done; [by left|apply (as_mappings _ IH)].
  - unfold appendEnv1. destruct (_ || _); [|done]. apply (as_set_same b); try done; [by left|apply (as_mappings _ IH)].
Qed.

End steps.

(** ** What the steps of [build] add *)

Section building.
Context `{MapOrder} `{StdSort}.
Variable h : host.
Variable s : settings.
Variable exts : list (str * str).
Variable home : list str.

Abbreviation places_of := (places (s_appId s) (dec (h_euid h)) home (fst <$> exts) (devices h)).
Abbreviation guarded := (guarded s).
Abbreviation upto := (upto s).

(** A step that fills one member. *)
Definition filled (k : slot) (b b' : cfg_builder) : Prop := frame [k] b b' /\ upto (places_of k) (at_ b' k).

Ltac guard_lit := first [apply guard_ro; eexists; split; [reflexivity|left; by apply (bool_decide_unpack _)]
                    | apply guard_ro; eexists; split; [reflexivity|right; by apply (bool_decide_unpack _)]
                    | apply guard_opt
                    | apply guard_at; vm_compute; reflexivity].

Lemma frame_more ks ks' b b' : frame ks b b' -> ks ⊆ ks' -> frame ks' b b'.
Proof. intros [? ? ? ? ? S1] Hs. split; [done..|]. intros k Hk. apply S1. set_solver. Qed.

Lemma frame_none ks b b' : b_set b' = b_set b -> b_homePath b' = b_homePath b -> b_xdgRuntimeDir b' = b_xdgRuntimeDir b ->
  b_privateMappings b' = b_privateMappings b -> c_root (b_config b') = c_root (b_config b) -> b_slot b' = b_slot b ->
  frame ks b b'.
Proof. intros ? ? ? ? ? E. split; [done..|]. intros k _. by rewrite E. Qed.

Lemma create_frame ks p b b' : create h p b = Some b' -> frame ks b b'.
Proof. unfold create. destruct (h_create_directories h p); [|done]. intros [= <-]. by apply frame_none. Qed.

Lemma filled_none k b b' : b' = b -> at_ b k = [] -> filled k b b'.
Proof. intros -> Hk. split; [apply frame_refl|]. rewrite Hk. apply upto_nil. Qed.

Lemma filled_set k l b : upto (places_of k) l -> filled k b (set_slot k (Some l) b).
Proof. intros U. split; [apply frame_slot|]. by rewrite at_slot. Qed.

Lemma ro_guarded m (ro : bool) options : mt_options m = Some options -> ro_flag ro ∈ options -> (layers_ro s -> ro = true) ->
  guarded m.
Proof. intros Ho Hr Hro Hl _. left. exists options. split; [done|]. left. by rewrite (Hro Hl) in Hr. Qed.

Lemma runtime_filled b b' : b_set b = s -> at_ b runtimeMount = [] -> buildMountRuntime h b = Ok b' -> filled runtimeMount b b'.
Proof.
  unfold buildMountRuntime. intros Hs Ha. rewrite Hs. destruct (s_runtimePath s) as [[path ro]|] eqn:E.
  - destruct (negb _); [done|]. intros [= <-]. apply filled_set. split; [reflexivity|]. constructor; [|constructor].
    apply (ro_guarded _ ro [lit "rbind"; ro_flag ro]); [done|right; left|]. intros [Hr _]. by eapply Hr.
  - intros [= <-]. by apply filled_none.
Qed.

Lemma app_files_components id : file_name id -> components (app_files id) = [lit "opt"; lit "apps"; id; lit "files"].
Proof.
  intros Hid. unfold app_files. rewrite !components_div; [done|done|split; [done|]].
  by apply (bool_decide_unpack _).
Qed.

Lemma app_filled b b' : b_set b = s -> file_name (s_appId s) -> at_ b appMount = [] -> buildMountApp h b = Ok b' -> filled appMount b b'.
Proof.
  unfold buildMountApp. intros Hs Hid Ha. rewrite Hs. destruct (s_appPath s) as [[path ro]|] eqn:E.
  - destruct (negb _); [done|]. intros [= <-]. apply filled_set. split.
    + apply same_sublist. cbn [places]. unfold dest. cbn [fmap list_fmap mt_destination mount_of bind].
      by rewrite app_files_components.
    + constructor; [guard_lit|]. constructor; [|constructor].
      apply (ro_guarded _ ro [lit "rbind"; ro_flag ro]); [done|right; left|]. intros [_ Hr]. by eapply Hr.
  - intros [= <-]. by apply filled_none.
Qed.

(** *** Steps that grow one member *)

(** The steps so far have put the mounts of [k] at the places [D]. *)
Definition grown (k : slot) (D : list (list str)) (b b' : cfg_builder) : Prop := frame [k] b b' /\ upto D (at_ b' k).

Lemma grown_none k b : at_ b k = [] -> grown k [] b b.
Proof. intros E. split; [apply frame_refl|]. rewrite E. apply upto_nil. Qed.

Lemma grown_clear k b : grown k [] b (set_slot k (Some []) b).
Proof. split; [apply frame_slot|]. rewrite at_slot. apply upto_nil. Qed.

Lemma grown_push k D x m b0 b : grown k D b0 b -> dest m = x -> guarded m -> grown k (D ++ [x]) b0 (push k m b).
Proof.
  intros [F U] <- Hg. destruct (push_upto s k m D b U) as [U' F']; [done|]. split; [by eapply frame_trans|done].
Qed.

Lemma grown_skip k D x b0 b : grown k D b0 b -> grown k (D ++ [x]) b0 b.
Proof. intros [F U]. split; [done|by apply upto_skip]. Qed.

Lemma grown_skips k D E b0 b : grown k D b0 b -> grown k (D ++ E) b0 b.
Proof. intros [F U]. split; [done|by apply upto_skip]. Qed.

Lemma grown_env k D key v b0 b : grown k D b0 b -> grown k D b0 (set_env key v b).
Proof. intros [F U]. split; [by apply frame_env|done]. Qed.

Lemma grown_frame k D b0 b b' : grown k D b0 b -> frame [] b b' -> grown k D b0 b'.
Proof.
  intros [F U] F'. split; [eapply frame_trans; [exact F|apply (frame_more [] _ _ _ F'); set_solver]|].
  by rewrite (frame_at _ _ _ k F') by set_solver.
Qed.

Lemma grown_bind k D x source destination ro b0 b : grown k D b0 b ->
  components (if bool_decide (destination = []) then source else destination) = x ->
  guarded (bind (if bool_decide (destination = []) then source else destination) [lit "rbind"; ro_flag ro] source) ->
  grown k (D ++ [x]) b0 (bindIfExist h k source destination ro b).
Proof.
  intros [F U] Hd Hg. destruct (bindIfExist_at h k source destination ro b) as (l & E & F' & Hl).
  split; [by eapply frame_trans|]. rewrite E. destruct Hl as [->| ->].
  - rewrite app_nil_r. by apply upto_skip.
  - rewrite <- Hd. by apply (upto_push s D _ (bind _ _ source)).
Qed.

(** *** The home directory *)

Section in_home.
Hypothesis home_top : exists n rest, home = n :: rest /\ n ∉ system_dirs.

Lemma home_guarded m x : dest m = home ++ x -> guarded m.
Proof using home_top.
  destruct home_top as (n & rest & -> & Hn). intros Hd. eapply guard_dir; [exact Hd|]. apply bool_decide_eq_false. intros Hp.
  apply Hn. clear Hn Hd. apply list_elem_of_In in Hp. apply list_elem_of_In. cbn in *. tauto.
Qed.

Lemma home_push D x m b0 b : grown homeMount D b0 b -> dest m = home ++ x -> grown homeMount (D ++ [home ++ x]) b0 (push homeMount m b).
Proof using home_top. intros G Hd. by apply grown_push; [..|by eapply home_guarded]. Qed.

Lemma home_dir_grown D var hostDir containerDir x b0 b b' : grown homeMount D b0 b -> components containerDir = home ++ x ->
  mount_home_dir h var hostDir containerDir b = Ok b' -> grown homeMount (D ++ [home ++ x]) b0 b'.
Proof using home_top.
  unfold mount_home_dir. intros G Hd. destruct (path_eq hostDir containerDir).
  - intros [= <-]. by apply grown_env, grown_skip.
  - unfold mountDir. destruct (exists_ h hostDir b) as [found|]; [|done]. cbn [mbind option_bind].
    destruct (if found then Some b else create h hostDir b) as [b1|] eqn:Eb; [|done]. cbn [mbind option_bind].
    intros [= <-]. apply grown_env, home_push; [|done]. apply (grown_frame _ _ _ b); [done|].
    destruct found; [injection Eb as <-; apply frame_refl|by eapply create_frame].
Qed.

Lemma inside_grown D hostDir containerDir name x b0 b : grown homeMount D b0 b ->
  components (containerDir ++ lit "/" ++ name) = home ++ x ->
  grown homeMount (D ++ [home ++ x]) b0 (mount_inside h hostDir containerDir name b).
Proof using home_top.
  unfold mount_inside. intros G Hd. destruct (_ && _); [by apply home_push|by apply grown_skip].
Qed.

(** A path below the home. *)
Lemma below_home p q : components p = home -> components (p ++ "/"%char :: q) = home ++ components q.
Proof. intros Hp. by rewrite components_app, Hp. Qed.

Lemma below_twice p q r : components p = home ->
  components ((p ++ "/"%char :: q) ++ lit "/" ++ r) = home ++ components q ++ components r.
Proof. intros Hp. change (lit "/" ++ r) with ("/"%char :: r). by rewrite components_app, below_home, <- app_assoc. Qed.

Lemma home_parts_grown p D b0 b b' : components p = home -> grown homeMount D b0 b -> home_parts h p b = Ok b' ->
  grown homeMount (D ++ (app home <$> tail home_inner)) b0 b'.
Proof using home_top.
  intros Hp G E. unfold home_parts in E. cbv zeta in E.
  repeat match type of E with res_bind (mount_home_dir _ _ _ _ _) _ = _ =>
    let b1 := fresh "b" in let E1 := fresh "E" in
    apply res_bind_ok in E as (b1 & E1 & E);
    apply (home_dir_grown _ _ _ _ _ _ _ _ G (below_home _ _ Hp)) in E1; clear G; rename E1 into G
  end.
  injection E as <-. refine (eq_ind _ (fun D' => grown homeMount D' b0 _) _ _ _).
  - repeat (eapply inside_grown; [|by apply below_twice]). exact G.
  - by rewrite <- !app_assoc.
Qed.

Lemma home_filled b b' : (forall p, b_homePath b = Some p -> components p = home) -> at_ b homeMount = [] ->
  buildMountHome h b = Ok b' -> filled homeMount b b'.
Proof using home_top.
  unfold buildMountHome. intros Hp Ha. destruct (b_homePath b) as [p|] eqn:E; [|intros [= <-]; by apply filled_none].
  specialize (Hp p eq_refl). case_bool_decide; [done|]. destruct (negb _); [done|]. intros Eb.
  apply (home_parts_grown p ([lit "home"] :: [home ++ []]) b _ b') in Eb; [exact Eb|done|].
  apply grown_env. apply (home_push [[lit "home"]]); [|by rewrite app_nil_r].
  apply (grown_push _ []); [by apply grown_none|done|by guard_lit].
Qed.

End in_home.

Ltac name := split; [done|by apply (bool_decide_unpack _)].

Abbreviation xdg_ok b := (b_xdgRuntimeDir b = None \/ b_xdgRuntimeDir b = Some (xdg_dir h)).

Hypothesis uid_valid : 0 <= h_euid h.

Lemma uid_name : file_name (dec (h_euid h)).
Proof using uid_valid.
  split; [by apply dec_nonempty|]. intros Hc. pose proof (dec_digits (h_euid h) uid_valid) as Hd.
  rewrite forallb_forall in Hd. specialize (Hd _ (proj1 (list_elem_of_In _ _) Hc)). discriminate Hd.
Qed.

Lemma xdg_components : components (xdg_dir h) = [lit "run"; lit "user"; dec (h_euid h)].
Proof using uid_valid. unfold xdg_dir. by rewrite components_div by apply uid_name. Qed.

Lemma xdg_inside n : file_name n -> components (path_div (xdg_dir h) n) = user_dir (dec (h_euid h)) n.
Proof using uid_valid. intros Hn. by rewrite components_div, xdg_components. Qed.

Lemma xdg_filled b b' : xdg_ok b -> upto [[lit "run"]] (at_ b runMount) -> buildXDGRuntime h b = Ok b' -> filled runMount b b'.
Proof using uid_valid.
  unfold buildXDGRuntime. intros [-> | ->] U.
  - intros [= <-]. split; [apply frame_refl|]. by apply (upto_skip s [[lit "run"]]).
  - case_bool_decide; [done|]. destruct (create _ _ _) as [b1|] eqn:Ec; [|done]. destruct (negb _); [done|]. intros [= <-].
    pose proof (create_frame [] _ _ _ Ec) as F1.
    rewrite <- (frame_at _ _ _ runMount F1) in U by set_solver.
    set (m := bind (xdg_dir h) _ _). assert (Hd : dest m = [lit "run"; lit "user"; dec (h_euid h)]) by apply xdg_components.
    destruct (push_upto s runMount m _ b1 U) as [U2 F2].
    { by eapply guard_dir; [exact Hd|]. }
    rewrite Hd in U2. split; [|exact U2]. apply frame_env.
    apply (frame_trans _ _ b1); [apply (frame_more [] _ _ _ F1); set_solver|done].
Qed.

Lemma private_dir_frame b b' : buildPrivateDir h b = Ok b' -> frame [] b b'.
Proof.
  unfold buildPrivateDir. case_bool_decide; [intros [= <-]; apply frame_refl|].
  destruct (b_homePath b); [|done]. destruct (create _ _ _) as [b1|] eqn:Ec; [|done]. intros [= <-].
  pose proof (create_frame [] _ _ _ Ec) as [? ? ? ? ?]. by split.
Qed.

Lemma private_grown l : forall D b0 b b', grown privateMount D b0 b ->
  Forall (fun x : str * bool => exists z, components x.1 = home ++ z) l -> (exists n rest, home = n :: rest /\ n ∉ system_dirs) ->
  private_mappings h l b = Ok b' -> grown privateMount (D ++ (components ∘ fst <$> l)) b0 b'.
Proof.
  induction l as [|[path isDir] l IH]; intros D b0 b b' G Hl Ht; cbn [private_mappings].
  { intros [= <-]. cbn. by rewrite app_nil_r. }
  apply Forall_cons in Hl as [(z & Hz) Hl]. destruct (negb (is_absolute path)); [done|].
  destruct (if isDir then _ else _) as [b1|] eqn:Ec; [|done]. destruct (negb _); [done|]. intros E.
  assert (F : frame [] b b1) by (destruct isDir; [by eapply create_frame|injection Ec as <-; apply frame_refl]).
  set (m := bind path _ _) in E. assert (G1 : grown privateMount (D ++ [components path]) b0 (push privateMount m b1)).
  { apply grown_push; [by eapply grown_frame|done|]. by eapply home_guarded. }
  apply (IH _ _ _ _ G1) in E; [|done..]. by rewrite <- app_assoc in E.
Qed.

Lemma private_components p : components p = home -> components ∘ fst <$> private_list p = places_of privateMount.
Proof.
  intros Hp. unfold private_list, compose. cbn [fmap list_fmap fst places private_dirs]. rewrite <- Hp.
  f_equal; [|f_equal]; exact (components_app p _).
Qed.

Lemma mapped_filled b b' : (exists n rest, home = n :: rest /\ n ∉ system_dirs) -> private_ok b ->
  (forall p, b_homePath b = Some p -> components p = home) -> at_ b privateMount = [] ->
  buildPrivateMapped h b = Ok b' -> filled privateMount b b'.
Proof.
  intros Ht Hok Hp Ha. unfold buildPrivateMapped. destruct Hok as [->|(p & l & Ep & -> & Hl)]; [intros [= <-]; by apply filled_none|].
  case_bool_decide; [done|]. specialize (Hp p Ep). pose proof (private_components p Hp) as Epl. intros E.
  apply (private_grown l [] b b b') in E as [F [Hs Hg]]; [|by apply grown_none| |done].
  - split; [done|]. split; [|done]. etrans; [exact Hs|]. rewrite <- Epl. cbn [app]. by apply fmap_sublist.
  - apply Forall_forall. intros x Hx. assert (Hin : x ∈ private_list p) by by eapply elem_of_submseteq, sublist_submseteq.
    pose proof (list_elem_of_fmap_2 (components ∘ fst) _ _ Hin) as Hd. rewrite Epl in Hd.
    by apply list_elem_of_fmap in Hd as (z & Ez & _); exists z.
Qed.

(** *** Sockets and files *)

(** The places of a member, one step at a time. *)
Definition snoc (D : list (list str)) (x : list str) : list (list str) := D ++ [x].

Lemma filled_grown k b b' : filled k b b' <-> grown k (fold_left snoc (places_of k) []) b b'.
Proof.
  assert (forall l D, fold_left snoc l D = D ++ l) as E.
  { intros l. induction l as [|x l IH]; intros D; cbn [fold_left]; [by rewrite app_nil_r|unfold snoc; by rewrite IH, <- app_assoc]. }
  by rewrite E.
Qed.
Ltac split_places := apply filled_grown; cbn [places fold_left]; unfold snoc.

Lemma xdg_guarded n m : file_name n -> mt_destination m = path_div (xdg_dir h) n -> guarded m.
Proof using uid_valid.
  intros Hn Hd. unfold dest. eapply guard_dir; [unfold dest; rewrite Hd; by apply xdg_inside|]. done.
Qed.

Lemma system_bus_grown k D b0 b : k = ipcMount -> grown k D b0 b ->
  grown k (D ++ [[lit "run"; lit "dbus"; lit "system_bus_socket"]]) b0 (bind_system_bus h b).
Proof.
  intros -> G. unfold bind_system_bus. destruct (cut_options _) as [address options].
  destruct (socket_path address) as [path|]; [|by apply grown_skip].
  destruct (there h path b); [|by apply grown_skip]. apply grown_env, grown_push; [done..|guard_lit].
Qed.

Lemma session_bus_grown D b0 b b' : grown ipcMount D b0 b -> bind_session_bus h (xdg_dir h) b = Ok b' ->
  grown ipcMount (D ++ [user_dir (dec (h_euid h)) (lit "bus")]) b0 b'.
Proof using uid_valid.
  intros G. unfold bind_session_bus. destruct (default [] _) as [|c l]; [intros [= <-]; by apply grown_skip|].
  destruct (cut_options _) as [address options]. destruct (socket_path address) as [path|]; [|intros [= <-]; by apply grown_skip].
  destruct (exists_ h path b) as [[]|]; [|intros [= <-]; by apply grown_skip|done].
  intros [= <-]. apply grown_env, grown_push; [done|by apply xdg_inside; name|]. apply (xdg_guarded (lit "bus")); [name|done].
Qed.

Lemma dconf_grown D b0 b b' : grown ipcMount D b0 b -> bind_dconf h (xdg_dir h) b = Ok b' ->
  grown ipcMount (D ++ [user_dir (dec (h_euid h)) (lit "dconf")]) b0 b'.
Proof using uid_valid.
  intros G. unfold bind_dconf. destruct (exists_ h _ b) as [[]|]; [|intros [= <-]; by apply grown_skip|done].
  intros [= <-]. apply grown_push; [done|by apply xdg_inside; name|]. apply (xdg_guarded (lit "dconf")); [name|done].
Qed.

Lemma xdg_bind_grown D n source b0 b : file_name n -> grown ipcMount D b0 b ->
  grown ipcMount (D ++ [user_dir (dec (h_euid h)) n]) b0 (bindIfExist h ipcMount source (path_div (xdg_dir h) n) false b).
Proof using uid_valid.
  intros Hn G. assert (bool_decide (path_div (xdg_dir h) n = []) = false) as E.
  { apply bool_decide_eq_false. intros E. pose proof (xdg_inside n Hn) as Hx. by rewrite E in Hx. }
  apply grown_bind; [done|..]; rewrite E; [by apply xdg_inside|by apply (xdg_guarded n)].
Qed.

Lemma ipc_filled b b' : xdg_ok b -> at_ b ipcMount = [] -> buildMountIPC h b = Ok b' -> filled ipcMount b b'.
Proof using uid_valid.
  unfold buildMountIPC. intros Hx Ha. case_bool_decide; [intros [= <-]; by apply filled_none|].
  destruct Hx as [-> | ->]; [done|]. intros E. apply res_bind_ok in E as (b1 & E1 & E2).
  split_places. eapply dconf_grown; [|exact E2]. eapply session_bus_grown; [|exact E1].
  apply xdg_bind_grown; [name|]. apply xdg_bind_grown; [name|].
  apply system_bus_grown; [done|by apply grown_none].
Qed.

Lemma localtime_filled b : filled localtimeMount b (buildMountLocalTime h b).
Proof.
  unfold buildMountLocalTime. split_places.
  do 2 (apply grown_bind; [|reflexivity|guard_lit]).
  destruct (there h _ _); [|by apply grown_skip, grown_clear].
  apply grown_push; [by apply grown_clear|done|]. destruct (h_is_symlink h _); guard_lit.
Qed.

Lemma network_filled b b' : buildMountNetworkConf h b = Ok b' -> filled networkConfMount b b'.
Proof.
  unfold buildMountNetworkConf. intros E. apply res_bind_ok in E as (b1 & E1 & E). injection E as <-.
  split_places. do 2 (apply grown_bind; [|reflexivity|guard_lit]).
  pose proof (grown_clear networkConfMount b) as G. revert E1 G. generalize (set_slot networkConfMount (Some []) b) as b0.
  intros b0. unfold resolv_conf. destruct (negb _); [intros [= <-] G; by apply grown_skip|].
  case_bool_decide; [intros [= <-] G; apply grown_push; [done..|guard_lit]|].
  destruct (if h_is_symlink h _ then _ else _) as [t|]; [|done]. destruct (negb _); [done|].
  intros [= <-] G. apply grown_push; [done..|guard_lit].
Qed.

(** *** The display *)

Lemma xorg_grown b0 b : grown displayMount [] b0 b ->
  grown displayMount [[lit "tmp"; lit ".X11-unix"]; [lit "tmp"; lit ".X11-unix"; lit "X0"]] b0 (bind_xorg h b).
Proof.
  intros G. unfold bind_xorg. pose proof (grown_skips _ _ [[lit "tmp"; lit ".X11-unix"]; [lit "tmp"; lit ".X11-unix"; lit "X0"]] _ _ G) as G'.
  destruct (s_xOrgSocket (b_set b)) as [[|c socket]|]; [|clear G'|done].
  - destruct (h_getenv h (lit "DISPLAY")); [by apply grown_env|done].
  - apply grown_env. apply (grown_push _ [[lit "tmp"; lit ".X11-unix"]]); [|done|guard_lit].
    apply (grown_push _ []); [done..|guard_lit].
Qed.

Lemma xauth_grown D b0 b b' : grown displayMount D b0 b -> bind_xauth b = Ok b' ->
  grown displayMount (D ++ [[lit "run"; lit "linglong"; lit "Xauthority"]]) b0 b'.
Proof.
  intros G. unfold bind_xauth. destruct (s_xAuthFile (b_set b)); [|intros [= <-]; by apply grown_skip].
  case_bool_decide; [done|]. intros [= <-]. apply grown_env, grown_push; [done..|guard_lit].
Qed.

Lemma wayland_grown D b0 b : xdg_ok b -> grown displayMount D b0 b ->
  grown displayMount ((D ++ [user_dir (dec (h_euid h)) (lit "wayland-0")]) ++ [[lit "run"; lit "linglong"; lit "wayland-0"]]) b0
    (bind_wayland b).
Proof using uid_valid.
  intros Hx G. unfold bind_wayland. destruct (s_waylandSocket (b_set b)); [|by apply grown_skip, grown_skip].
  apply grown_env. destruct Hx as [-> | ->].
  - apply grown_push; [by apply grown_skip|done|guard_lit].
  - apply grown_skip, grown_push; [done|by apply xdg_inside; name|]. apply (xdg_guarded (lit "wayland-0")); [name|done].
Qed.

Lemma display_filled b b' : xdg_ok b -> buildDisplaySystem h b = Ok b' -> filled displayMount b b'.
Proof using uid_valid.
  unfold buildDisplaySystem. intros Hx E. apply res_bind_ok in E as (b1 & E1 & E). injection E as <-.
  split_places. assert (G : grown displayMount (([] ++ [[lit "tmp"; lit ".X11-unix"]]) ++ [[lit "tmp"; lit ".X11-unix"; lit "X0"]])
    b (bind_xorg h (set_slot displayMount (Some []) b))) by apply xorg_grown, grown_clear.
  eapply xauth_grown in G; [|exact E1]. apply wayland_grown; [|exact G]. by rewrite (fr_xdg _ _ _ (proj1 G)).
Qed.

Lemma cache_filled b b' : at_ b cacheMount = [] -> buildMountCache h b = Ok b' -> filled cacheMount b b'.
Proof.
  unfold buildMountCache. intros Ha. destruct (s_appCache (b_set b)) as [[cache ro]|]; [|intros [= <-]; by apply filled_none].
  destruct (negb _); [done|]. intros [= <-]. apply filled_set. split; [reflexivity|]. constructor; [guard_lit|constructor].
Qed.

Lemma ldcache_filled b b' : at_ b ldCacheMount = [] -> buildLDCache b = Ok b' -> filled ldCacheMount b b'.
Proof.
  unfold buildLDCache. intros Ha. case_bool_decide; [intros [= <-]; by apply filled_none|].
  destruct (s_appCache (b_set b)) as [[cache ro]|]; [|done]. intros [= <-]. split_places.
  apply grown_push; [by apply grown_none|done|guard_lit].
Qed.

Lemma env_filled b b' : build_env h b = Ok b' -> filled envMount b b'.
Proof.
  unfold build_env. intros E. apply res_bind_ok in E as ([[environment vars] script] & E1 & E). injection E as <-.
  split; [|rewrite at_slot].
  - eapply frame_trans; [|apply frame_slot]. by apply frame_none.
  - split; [reflexivity|]. constructor; [guard_lit|constructor].
Qed.

(** *** The members filled so far *)

(** The order [collect_mounts] fills them in. *)
Definition build_order : list slot :=
  [runtimeMount; appMount; runMount; homeMount; privateMount; ipcMount; localtimeMount; networkConfMount; displayMount; cacheMount;
   ldCacheMount; envMount].

(** The builder before the first step. *)
Variable start : cfg_builder.

Record ready (todo : list slot) (b : cfg_builder) : Prop := {
  rd_settings : b_set b = s;
  rd_xdg : xdg_ok b;
  rd_mappings : private_ok b;
  rd_home : forall p, b_homePath b = Some p -> components p = home;
  rd_places : forall k, upto (places_of k) (at_ b k);
  rd_run : runMount ∈ todo -> upto [[lit "run"]] (at_ b runMount);
  rd_empty : forall k, k ∈ todo -> k <> runMount -> at_ b k = [];
  rd_same : forall k, k ∉ build_order -> b_slot b k = b_slot start k;
  rd_root : c_root (b_config b) = c_root (b_config start)
}.

Lemma ready_step k todo b b' : ready (k :: todo) b -> k ∉ todo -> k ∈ build_order -> filled k b b' -> ready todo b'.
Proof using uid_valid.
  intros [R1 R2 R3 R4 R5 R6 R7 R8 R9] Hk Ho [F U].
  split; [by rewrite (fr_set _ _ _ F)|by rewrite (fr_xdg _ _ _ F)|by apply (private_frame _ _ _ F)|by rewrite (fr_home _ _ _ F)|..].
  - intros k'. destruct (decide (k' = k)) as [->|Hk']; [done|]. by rewrite (frame_at _ _ _ k' F) by set_solver.
  - intros Hr. rewrite (frame_at _ _ _ runMount F) by set_solver. apply R6. set_solver.
  - intros k' Hin Hr. rewrite (frame_at _ _ _ k' F) by set_solver. apply R7; set_solver.
  - intros k' Hk'. rewrite (fr_slot _ _ _ F); [by apply R8|]. intros ->%list_elem_of_singleton. done.
  - by rewrite (fr_root _ _ _ F).
Qed.

Lemma ready_frame todo b b' : ready todo b -> frame [] b b' -> ready todo b'.
Proof using uid_valid.
  intros [R1 R2 R3 R4 R5 R6 R7 R8 R9] F.
  split; [by rewrite (fr_set _ _ _ F)|by rewrite (fr_xdg _ _ _ F)|by apply (private_frame _ _ _ F)|by rewrite (fr_home _ _ _ F)|..].
  - intros k. by rewrite (frame_at _ _ _ k F) by set_solver.
  - intros Hr. rewrite (frame_at _ _ _ runMount F) by set_solver. by apply R6.
  - intros k Hin Hr. rewrite (frame_at _ _ _ k F) by set_solver. by apply R7.
  - intros k Hk. rewrite (fr_slot _ _ _ F) by set_solver. by apply R8.
  - by rewrite (fr_root _ _ _ F).
Qed.

Hypothesis home_top : exists n rest, home = n :: rest /\ n ∉ system_dirs.
Hypothesis app_name : file_name (s_appId s).

Ltac ready_side R := first [exact (rd_settings _ _ R) | exact (rd_xdg _ _ R) | exact (rd_home _ _ R) | exact (rd_mappings _ _ R)
  | exact home_top | exact app_name | exact (rd_run _ _ R (list_elem_of_here _ _))
  | apply (rd_empty _ _ R); [apply list_elem_of_here|discriminate]].
Ltac ready_fill R F := eapply ready_step in R; [|by apply (bool_decide_unpack _)|by apply (bool_decide_unpack _)|exact F]; clear F.
Ltac ready_next E R lem :=
  let b1 := fresh "b" in let F := fresh "F" in
  apply res_bind_ok in E as (b1 & F & E); apply lem in F; [ready_fill R F|ready_side R..].

Lemma collected b b' : ready build_order (prepare b) -> collect_mounts h b = Ok b' -> ready [] b'.
Proof using uid_valid home_top app_name.
  intros R E. unfold collect_mounts in E. apply res_bind_ok in E as ([] & _ & E).
  ready_next E R runtime_filled. ready_next E R app_filled. ready_next E R xdg_filled.
  apply res_bind_ok in E as (b3 & F & E). apply private_dir_frame in F. apply (fun R => ready_frame _ _ _ R F) in R. clear F.
  ready_next E R home_filled.
  ready_next E R mapped_filled.
  ready_next E R ipc_filled.
  match type of E with context [buildMountLocalTime h ?b4] => pose proof (localtime_filled b4) as F end. ready_fill R F.
  ready_next E R network_filled. ready_next E R display_filled. ready_next E R cache_filled. ready_next E R ldcache_filled.
  apply env_filled in E. ready_fill R E. exact R.
Qed.
End building.

(** ** Nothing is hidden *)

(** What the host has to be: directories below [/dev] and extensions have
    proper names, each once, and [/media] and [/mnt] are not links. *)
Record host_ok `{MapOrder} `{StdSort} (h : host) (s : settings) (exts : list (str * str)) : Prop := {
  ho_uid : 0 <= h_euid h;
  ho_app : file_name (s_appId s);
  ho_links : forall p target, h_readlink h p <> Ok (Some target);
  ho_exts : Forall (fun x : str * str => file_name x.1) exts /\ NoDup ((fst : str * str -> str) <$> exts);
  ho_devices : Forall file_name (devices h) /\ NoDup (devices h)
}.

(** The home directory is not one of the builder's, nor [/home] itself. *)
Definition home_ok (b : cfg_builder) : Prop :=
  forall p, b_homePath b = Some p ->
  exists n rest, components p = n :: rest /\ (n ∉ system_dirs) /\ (n = lit "home" -> rest <> []).

Section merging.
Context `{MapOrder} `{StdSort}.

Lemma setup_ready h s exts home b : host_ok h s exts -> setup h s exts b -> (forall p, b_homePath b = Some p -> components p = home) ->
  ready h s exts home b build_order b.
Proof.
  intros [O1 O2 O3 [O4 _] [O5 _]] Hs Hh. pose proof (setup_as_set h s exts home O3 O4 O5 b Hs) as [A1 A2 A3 A4 A5 A6].
  split; [done..|by intros _| |done|done]. intros k Hk Hr. apply A4. unfold build_order in Hk.
  apply list_elem_of_In in Hk. cbn [In] in Hk. destruct_or! Hk; subst; try done; by apply (bool_decide_unpack _).
Qed.

Lemma mjoin_upto h s (exts : list (str * str)) home (f : slot -> list Mount) l :
  (forall k, upto s (places (s_appId s) (dec (h_euid h)) home (fst <$> exts) (devices h) k) (f k)) ->
  upto s (mjoin (places (s_appId s) (dec (h_euid h)) home (fst <$> exts) (devices h) <$> l)) (mjoin (f <$> l)).
Proof.
  intros U. induction l as [|k l IH]; [apply upto_nil|]. cbn [fmap list_fmap mjoin list_join].
  destruct (U k) as [S1 G1], IH as [S2 G2]. split; [rewrite fmap_app; by apply sublist_app|by apply Forall_app].
Qed.

(** What is collected lies at the places of the builder. *)
Lemma collected_places h s exts b b' : host_ok h s exts -> setup h s exts b -> home_ok b -> collect_mounts h b = Ok b' ->
  c_root (b_config b') = Some (mkRoot (fst (s_basePath s)) (Some (snd (s_basePath s)))) /\
  exists home, (forall p, b_homePath b = Some p -> components p = home) /\
    (exists n rest, home = n :: rest /\ (n ∉ system_dirs) /\ (n = lit "home" -> rest <> [])) /\
    b_set b' = s /\ (forall k, k ∉ build_order -> b_slot b' k = b_slot b k) /\
    forall k, upto s (places (s_appId s) (dec (h_euid h)) home (fst <$> exts) (devices h) k) (at_ b' k).
Proof.
  intros O Hs Hh E.
  assert (exists home, (forall p, b_homePath b = Some p -> components p = home) /\
    exists n rest, home = n :: rest /\ (n ∉ system_dirs) /\ (n = lit "home" -> rest <> [])) as (home & Hc & n & rest & Hr).
  { unfold home_ok in Hh. destruct (b_homePath b) as [p|].
    - exists (components p). split; [by intros ? [= <-]|by apply Hh].
    - exists [lit "root"]. split; [done|]. exists (lit "root"), []. split_and!; [done|by apply (bool_decide_unpack _)|done]. }
  pose proof (setup_ready h s exts home b O Hs Hc) as R0.
  assert (R : ready h s exts home (prepare b) build_order (prepare b)) by (destruct R0; by split).
  assert (exists n rest, home = n :: rest /\ n ∉ system_dirs) as Ht by (exists n, rest; tauto).
  pose proof (collected h s exts home (ho_uid _ _ _ O) (prepare b) Ht (ho_app _ _ _ O) b b' R E) as R'.
  split; [rewrite (rd_root _ _ _ _ _ _ _ R'), <- (rd_settings _ _ _ _ _ _ _ R0); reflexivity|].
  exists home. split; [done|]. split; [by exists n, rest|]. split; [apply (rd_settings _ _ _ _ _ _ _ R')|]. split; [exact (rd_same _ _ _ _ _ _ _ R')|exact (rd_places _ _ _ _ _ _ _ R')].
Qed.

Lemma collected_ok h s exts b b' : host_ok h s exts -> setup h s exts b -> home_ok b -> collect_mounts h b = Ok b' ->
  b_set b' = s /\ visible (dest <$> merged b') /\ Forall (guarded s) (merged b') /\ Forall (fun m => dest m <> []) (merged b').
Proof.
  intros O Hs Hh E. destruct (collected_places h s exts b b' O Hs Hh E) as (_ & home & _ & (n & rest & Hr) & Es & _ & U).
  destruct O as [_ _ _ [_ O4'] [_ O5']]. split; [done|].
  destruct (mjoin_upto h s exts home (at_ b') merge_order U) as [S G]. split_and!; [|exact G|].
  - eapply sorted_sublist; [exact S|]. apply places_visible; [by exists n, rest|done..|].
    apply Forall_forall. intros x Hx. apply list_elem_of_In, filter_In in Hx. by apply Hx.
  - apply Forall_forall. intros m Hm. apply (places_nonempty (s_appId s) (dec (h_euid h)) home (exts.*1) (devices h));
      [by exists n, rest|].
    apply (list_elem_of_fmap_2 dest) in Hm. by eapply elem_of_submseteq, sublist_submseteq.
Qed.

(** C8: nothing the builder mounts hides another of its mounts.  The builder is
    one that [setup] describes: the setters without arguments in any order, a
    home directory of which [.ssh] and [.gnupg] may be kept private, extensions
    mounted the way [fillContextCfg] does, the default devices and the directory
    of the first process, each once.  The host is any on which [/media] and
    [/mnt] are no links (a link may lead anywhere) and the devices and extensions
    have proper names, each once; the home directory is not below a directory of
    the system, nor [/home].  When the steps of [build] then succeed, no mount of
    the merged list lies on an earlier one or on a directory of its path; and if
    the layers are mounted read-only, every mount below [/etc], [/opt],
    [/runtime], [/usr] and [/var] is read-only or a copied link, but for the
    empty tmpfs at [/opt]. *)
Theorem mounts_visible h s exts b b' : host_ok h s exts -> setup h s exts b -> home_ok b -> collect_mounts h b = Ok b' ->
  (forall i j m m', (i < j)%nat -> merged b' !! i = Some m -> merged b' !! j = Some m' -> ~ dest m' `prefix_of` dest m) /\
  (layers_ro s -> forall m n rest, m ∈ merged b' -> dest m = n :: rest -> n ∈ protected_dirs -> read_only m \/ m = fresh_opt).
Proof.
  intros O Hs Hh E. destruct (collected_ok h s exts b b' O Hs Hh E) as (_ & V & G & _). split.
  - intros i j m m' Hij Hi Hj. apply (sorted_lookup _ _ i j (dest m) (dest m') V); [by rewrite list_lookup_fmap, Hi|by rewrite list_lookup_fmap, Hj|done].
  - intros L m n rest Hm Hd Hn. rewrite Forall_forall in G. apply (G m Hm L). eauto.
Qed.

(** What a mount of the configuration below the protected directories is:
    read-only, a tmpfs, or the bind of a directory entry right below the tmpfs
    at [/opt] or a copied link. *)
Definition ro_or_tmpfs (collected : list Mount) (m : Mount) : Prop :=
  read_only m \/ mt_type m = Some (lit "tmpfs") \/
  exists m0 n options, m0 ∈ collected /\ dest m = dest m0 ++ [n] /\ mt_options m0 = Some options /\ lit "ro" ∉ options /\
    (m0 = fresh_opt \/ lit "copy-symlink" ∈ options).

Lemma ro_or_tmpfs_kept s ms m m' : layers_ro s -> Forall (guarded s) ms -> m ∈ ms -> becomes m m' ->
  (exists n rest, dest m' = n :: rest /\ n ∈ protected_dirs) -> ro_or_tmpfs ms m'.
Proof.
  intros L G Hm [->| ->] Hd; [|by right; left]. rewrite Forall_forall in G.
  destruct (G m Hm L Hd) as [Hr| ->]; [by left|by right; left].
Qed.

Lemma ro_or_tmpfs_fresh s ms fs path m' : layers_ro s -> Forall (guarded s) ms -> Forall (fun m => dest m <> []) ms -> names_ok fs ->
  fresh_in (flag_of (mkRoot path (Some true)) ms) fs m' -> (exists n rest, dest m' = n :: rest /\ n ∈ protected_dirs) -> ro_or_tmpfs ms m'.
Proof.
  intros L G D O [(d & ->)|(p & es & f & l & d & ro & m0 & Hl & Hin & Hro & -> & B)] Hd; [by right; left|].
  destruct B as [->| ->]; [|by right; left]. rewrite Forall_forall in G, D.
  assert (Hf : file_name f) by (pose proof (O _ _ Hl) as F; rewrite Forall_forall in F; exact (F _ Hin)).
  assert (Ed : dest (bind_mount d p f ro l) = components d ++ [f]) by (by apply components_under).
  assert (R : ro = true -> ro_or_tmpfs ms (bind_mount d p f ro l)).
  { intros ->. left. eexists. split; [reflexivity|]. left. right. left. }
  destruct Hro as [->|[[_ ->]|(m1 & o & Hm1 & E1 & Eo & Hn)]]; [by apply R|by apply R|].
  right. right. exists m1, f, o. rewrite E1. split_and!; try done.
  assert (P : exists n rest, dest m1 = n :: rest /\ n ∈ protected_dirs).
  { destruct Hd as (n & rest & E & Hp). specialize (D m1 Hm1). rewrite Ed, <- E1 in E.
    destruct (dest m1) as [|n' r']; [done|]. injection E as -> _. by exists n, r'. }
  destruct (G m1 Hm1 L P) as [(o' & Eo' & [Hr|Hc])| ->]; [congruence|right; congruence|by left].
Qed.

Lemma build_kept h s exts b b1 b' : host_ok h s exts -> setup h s exts b -> home_ok b ->
  names_ok (h_before h) -> names_ok (h_after h) -> s_selfAdjusting s = true -> s_applyPatch s = false \/ h_patches h = None ->
  collect_mounts h b = Ok b1 -> build h b = Ok b' ->
  exists out, c_mounts (b_config b') = Some out /\
    (forall m, m ∈ merged b1 -> exists m', m' ∈ out /\ becomes m m') /\
    (forall i j m m', (i < j)%nat -> out !! i = Some m -> out !! j = Some m' -> ~ dest m' `prefix_of` dest m) /\
    (layers_ro s -> snd (s_basePath s) = true -> forall m n rest, m ∈ out -> dest m = n :: rest -> n ∈ protected_dirs ->
       ro_or_tmpfs (merged b1) m).
Proof.
  intros O Hs Hh N1 N2 Ha Hp E1 E. destruct (collected_ok h s exts b b1 O Hs Hh E1) as (Es & V & G & D).
  destruct (collected_places h s exts b b1 O Hs Hh E1) as (Er & _).
  unfold build in E. rewrite E1 in E. cbn [res_bind] in E. unfold applyPatch in E. cbn [b_set finalize mergeMount set_config] in E.
  match type of E with res_bind ?x _ = _ => assert (Ep : x = Ok (finalize (mergeMount b1))) end.
  { rewrite Es. destruct Hp as [Hp|Hp]; [by rewrite Hp|]. rewrite Hp. destruct (s_applyPatch s); reflexivity. }
  rewrite Ep in E. cbn [negb res_bind] in E. unfold adjust in E. cbn [b_set finalize mergeMount set_config] in E.
  rewrite Es, Ha in E. cbn [negb] in E. apply res_bind_ok in E as (r & Ek & E). injection E as <-.
  eapply selfAdjusting_keeps in Ek as (out & Ho & K & S & F); [|done|done|done|by cbn; rewrite Es|reflexivity|exact Er].
  exists out. split_and!; [done| | |].
  - intros m Hm. apply list_elem_of_lookup in Hm as (i & Hi). apply (K i m Hi). exists m. split_and!; [done| |].
    + rewrite Forall_forall in D. apply D. by eapply list_elem_of_lookup_2.
    + intros j m' Hj Hm'. apply (sorted_lookup _ _ j i (dest m') (dest m) V); [by rewrite list_lookup_fmap, Hm'|by rewrite list_lookup_fmap, Hi|done].
  - intros i j m m' Hij Hi Hj. by apply (sorted_lookup _ _ i j m m' S).
  - intros L Hb m n rest Hm Hd Hn. rewrite Hb in F. assert (P : exists n rest, dest m = n :: rest /\ n ∈ protected_dirs) by (by exists n, rest).
    destruct (F m Hm) as [[Hf|Hf]|(m0 & Hm0 & B)];
      [exact (ro_or_tmpfs_fresh s _ _ _ m L G D N1 Hf P)|exact (ro_or_tmpfs_fresh s _ _ _ m L G D N2 Hf P)|exact (ro_or_tmpfs_kept s _ m0 m L G Hm0 B P)].
Qed.

(** [build] with the adjustment of the mounts, and without patches, loses
    none of them: every mount that was collected is in the configuration, as
    it was or as a tmpfs that holds the mounts below it, and nothing in the
    configuration hides a mount before it. *)
Theorem build_keeps_mounts h s exts b b1 b' : host_ok h s exts -> setup h s exts b -> home_ok b ->
  names_ok (h_before h) -> names_ok (h_after h) -> s_selfAdjusting s = true -> s_applyPatch s = false \/ h_patches h = None ->
  collect_mounts h b = Ok b1 -> build h b = Ok b' ->
  exists out, c_mounts (b_config b') = Some out /\
    (forall m, m ∈ merged b1 -> exists m', m' ∈ out /\ becomes m m') /\
    (forall i j m m', (i < j)%nat -> out !! i = Some m -> out !! j = Some m' -> ~ dest m' `prefix_of` dest m).
Proof.
  intros O S Hh N1 N2 Ha Hp E1 E.
  destruct (build_kept h s exts b b1 b' O S Hh N1 N2 Ha Hp E1 E) as (out & Ho & K & V & _). by exists out.
Qed.

End merging.

(** ** Examples *)

Definition example_host_fs : filesystem := mkFs (fun _ => true) (fun _ => false)
  (fun p => if bool_decide (p = lit "/base") then Some [(lit "bin", true); (lit "etc", false)] else Some [(lit "x", false)]).

Definition example_host : host := {|
  h_exists := fun _ => Ok true;
  h_is_symlink := fun _ => false;
  h_readlink := fun _ => Ok None;
  h_realpath := Some;
  h_create_directories := fun _ => true;
  h_permissions := fun _ => true;
  h_create_symlink := fun _ _ => true;
  h_open := fun _ => true;
  h_getenv := fun n => if bool_decide (n = lit "XDG_CONFIG_HOME") then Some (lit "/data/config") else None;
  h_environ := [];
  h_euid := 1000;
  h_getuid := 1000;
  h_dev := Some [lit "snd"; lit "sda"; lit "dri"];
  h_patches := None;
  h_status := fun _ => None;
  h_json_patch := fun _ => None;
  h_exec_patch := fun _ _ => None;
  h_before := example_host_fs;
  h_after := example_host_fs
|}.

Definition example_settings : settings :=
  mkSettings (lit "org.demo") (lit "/base", true) (Some (lit "/layers/runtime", true)) (Some (lit "/layers/app", true))
    (lit "/run/bundle") (Some (lit "/cache", false)) false false false true None None None (Some (lit "/tmp/x0")) None None.
Definition example_exts : list (str * str) := [(lit "org.gpu", lit "/layers/gpu")].

#[local] Existing Instance map_order.
#[local] Existing Instance std_sort_model.

Definition example_setters : list (cfg_builder -> cfg_builder) :=
  [bindDefault; bindCgroup; bindUserGroup; bindRemovableStorageMounts example_host; bindHostRoot; bindHostStatics example_host;
   bindXDGRuntime example_host; enablePrivateDir; bindIPC; enableLDCache].

Definition example_setup : cfg_builder :=
  addExtraMount (init_mount (lit "/run/bundle/init"))
    (mapPrivate (lit "/home/u/.ssh") true
      (bindHome (lit "/home/u")
        (setExtensionMounts (extension_mount <$> example_exts)
          (foldr (fun f b => f b) (new_builder example_settings) example_setters)))).

Lemma example_is_setup : setup example_host example_settings example_exts example_setup.
Proof.
  apply setup_init; [|reflexivity]. apply (setup_private _ _ _ _ (lit "/home/u") (lit ".ssh")); [|reflexivity|by apply (bool_decide_unpack _)].
  apply setup_home; [|reflexivity]. apply setup_extensions. unfold example_setters. cbn [foldr].
  repeat (apply setup_simple; [|by apply list_elem_of_In; cbn [simple_setters In]; tauto]). apply setup_new.
Qed.

Lemma example_host_ok : host_ok example_host example_settings example_exts.
Proof. split; try (by apply (bool_decide_unpack _)); try done; by split; apply (bool_decide_unpack _). Qed.

Lemma example_home_ok : home_ok example_setup.
Proof.
  intros p [= <-]. exists (lit "home"), [lit "u"]. split_and!; [reflexivity|by apply (bool_decide_unpack _)|done].
Qed.

Lemma example_host_names : names_ok example_host_fs.
Proof.
  intros path entries. unfold example_host_fs. cbn. case_bool_decide; intros [= <-];
    repeat (constructor; [split; [done|by apply (bool_decide_unpack _)]|]); constructor.
Qed.

Definition example_collected : cfg_builder :=
  match collect_mounts example_host example_setup with Ok b => b | Err _ => example_setup end.
Definition example_built : cfg_builder :=
  match build example_host example_setup with Ok b => b | Err _ => example_setup end.

Lemma example_collects : collect_mounts example_host example_setup = Ok example_collected.
Proof. vm_compute. reflexivity. Qed.
Lemma example_builds : build example_host example_setup = Ok example_built.
Proof. vm_compute. reflexivity. Qed.

(** Where [/mnt] is a link to [var/mnt], a writable bind is below [/var]. *)
Definition linked_host : host :=
  let h := example_host in
  {| h_exists := h_exists h; h_is_symlink := h_is_symlink h;
     h_readlink := fun p => Ok (if bool_decide (p = lit "/mnt") then Some (lit "var/mnt") else None);
     h_realpath := h_realpath h; h_create_directories := h_create_directories h; h_permissions := h_permissions h;
     h_create_symlink := h_create_symlink h; h_open := h_open h; h_getenv := h_getenv h; h_environ := h_environ h;
     h_euid := h_euid h; h_getuid := h_getuid h; h_dev := h_dev h; h_patches := h_patches h; h_status := h_status h;
     h_json_patch := h_json_patch h; h_exec_patch := h_exec_patch h; h_before := h_before h; h_after := h_after h |}.

Example linked_storage :
  match collect_mounts linked_host (bindRemovableStorageMounts linked_host (new_builder example_settings)) with
  | Ok b => existsb (fun m => bool_decide (dest m = [lit "var"; lit "mnt"] /\ mt_options m = Some [lit "rbind"])) (merged b)
  | Err _ => false
  end = true.
Proof. vm_compute. reflexivity. Qed.

Lemma mounts_visible_witness : length (merged example_collected) = 52%nat /\
  (forall i j m m', (i < j)%nat -> merged example_collected !! i = Some m -> merged example_collected !! j = Some m' ->
     ~ dest m' `prefix_of` dest m) /\
  (forall m, m ∈ merged example_collected -> dest m = [lit "opt"; lit "apps"; lit "org.demo"; lit "files"] -> read_only m).
Proof.
  split; [vm_compute; reflexivity|].
  destruct (mounts_visible example_host example_settings example_exts example_setup example_collected) as [V G];
    [exact example_host_ok|exact example_is_setup|exact example_home_ok|exact example_collects|].
  split; [exact V|]. intros m Hm Hd.
  destruct (G ltac:(split; intros p ro [= <- <-]; reflexivity) m _ _ Hm Hd) as [Hr|Hr];
    [by apply (bool_decide_unpack _)|exact Hr|]. exfalso. rewrite Hr in Hd. vm_compute in Hd. discriminate Hd.
Defined.

Lemma build_keeps_mounts_witness : length <$> c_mounts (b_config example_built) = Some 55%nat /\
  exists out, c_mounts (b_config example_built) = Some out /\
    (forall m, m ∈ merged example_collected -> exists m', m' ∈ out /\ becomes m m').
Proof.
  split; [vm_compute; reflexivity|].
  destruct (build_keeps_mounts example_host example_settings example_exts example_setup example_collected example_built)
    as (out & Ho & K & _);
    [exact example_host_ok|exact example_is_setup|exact example_home_ok|exact example_host_names|exact example_host_names|reflexivity
    |left; reflexivity|exact example_collects|exact example_builds|].
  exists out. split; [exact Ho|exact K].
Defined.
