(* ===== verification/RunContext.v ===== *)
(** * Running an application ([runtime/run_context.cpp], [common/display.cpp])

    Which installed layers a container is made of, the environment its
    extensions contribute, what is told to the builder of the container's
    configuration and what is reported to the package manager.  The repository
    does not change while a context is resolved, so the item a [RuntimeLayer]
    remembers is the one it would look up. *)
From S2P Require Import Prelude Strings Qt Types Semver Version Reference RepoConfig.
From S2P Require Import RepoCache OstreeRepo MergeModules Extension Prune PackageManager Path ContainerCfg.

(** ** Displays *)

Section display.
Variable getenv : str -> option str.
Variable uid : Z.
(** [std::filesystem::exists] *)
Variable exists_ : str -> result bool.

Definition getXDGRuntimeDir : str :=
  match getenv (lit "XDG_RUNTIME_DIR") with
  | Some (c :: dir) => c :: dir
  | _ => path_div (path_div (lit "/tmp") (lit "linglong")) (dec uid)
  end.

Definition existing (path : str) : result str :=
  match exists_ path with
  | Ok true => Ok path
  | _ => Err err_default
  end.

Definition getWaylandDisplay (display : str) : result str :=
  existing (match display with
            | "/"%char :: _ => display
            | _ => path_div getXDGRuntimeDir display
            end).

(** [std::isdigit] *)
Fixpoint digits (s : str) : str :=
  match s with
  | [] => []
  | c :: rest => if is_digit c then c :: digits rest else []
  end.

(** Of a display on another host the path is empty. *)
Definition getXOrgDisplay (display : str) : result str :=
  let unixPrefix := lit "unix:" in
  let display := if is_prefix unixPrefix display then drop (length unixPrefix) display else display in
  match display with
  | "/"%char :: _ => Ok display
  | ":"%char :: rest => existing (path_div (lit "/tmp/.X11-unix") (lit "X" ++ digits rest))
  | _ => Ok []
  end.

Definition getXOrgAuthFile (authFile : str) : result str :=
  match authFile with
  | [] => match getenv (lit "HOME") with
          | None => Err err_default
          | Some home => existing (path_div home (lit ".Xauthority"))
          end
  | _ => existing authFile
  end.

End display.

(** ** Data *)

Record RuntimeLayer := mkRuntimeLayer {
  rl_reference : Reference;
  rl_layerDir : option str;
  rl_temporary : bool;
  rl_extensionOf : option ExtensionDefine
}.

Definition new_layer (ref : Reference) : RuntimeLayer := mkRuntimeLayer ref None false None.

Record ResolveOptions := mkResolve {
  ro_depsBinaryOnly : bool;
  ro_appModules : option (list str);
  ro_baseRef : option str;
  ro_runtimeRef : option str
}.

Definition default_resolve : ResolveOptions := mkResolve false None None None.

Record RunContext := mkRun {
  containerID : str;
  bundle : str;
  baseLayer : option RuntimeLayer;
  runtimeLayer : option RuntimeLayer;
  appLayer : option RuntimeLayer;
  extensionLayers : list RuntimeLayer;
  targetId : str;
  appOutput : option str;
  runtimeOutput : option str;
  extensionOutput : option str;
  rc_environment : gmap str str
}.

Definition empty_context : RunContext := mkRun [] [] None None None [] [] None None None ∅.

Definition set_id (id target : str) (c : RunContext) : RunContext :=
  mkRun id (bundle c) (baseLayer c) (runtimeLayer c) (appLayer c) (extensionLayers c) target
    (appOutput c) (runtimeOutput c) (extensionOutput c) (rc_environment c).
Definition set_bundle (b : str) (c : RunContext) : RunContext :=
  mkRun (containerID c) b (baseLayer c) (runtimeLayer c) (appLayer c) (extensionLayers c) (targetId c)
    (appOutput c) (runtimeOutput c) (extensionOutput c) (rc_environment c).
Definition set_layers (b r a : option RuntimeLayer) (ext : list RuntimeLayer) (c : RunContext) : RunContext :=
  mkRun (containerID c) (bundle c) b r a ext (targetId c)
    (appOutput c) (runtimeOutput c) (extensionOutput c) (rc_environment c).
Definition set_outputs (a r x : option str) (c : RunContext) : RunContext :=
  mkRun (containerID c) (bundle c) (baseLayer c) (runtimeLayer c) (appLayer c) (extensionLayers c) (targetId c)
    a r x (rc_environment c).
Definition set_env (env : gmap str str) (c : RunContext) : RunContext :=
  mkRun (containerID c) (bundle c) (baseLayer c) (runtimeLayer c) (appLayer c) (extensionLayers c) (targetId c)
    (appOutput c) (runtimeOutput c) (extensionOutput c) env.

(** The fields of a builder project that are read. *)
Record BuilderProject := mkProject {
  bj_package : BuilderProjectPackage;
  bj_kind : str;
  bj_base : str;
  bj_runtime : option str
}.

(** [permissions] of a package record. *)
Record PermissionsBind := mkBind { bd_destination : str; bd_source : str }.
Record Permissions := mkPermissions {
  pm_binds : option (list PermissionsBind);
  pm_innerBinds : option (list PermissionsBind)
}.

(** What a context tells the builder. *)
Record context_cfg := mkContextCfg {
  cc_containerId : str;
  cc_basePath : str;
  cc_appPath : option (str * bool);
  cc_runtimePath : option (str * bool);
  cc_extensionMount : option (list Mount);
  cc_bundlePath : str;
  cc_extraMount : option (list Mount);
  cc_envAppend : gmap str str;
  cc_xOrgSocket : option str;
  cc_xAuthFile : option str;
  cc_waylandSocket : option str
}.

Section run_context.
Context `{Client} `{Qt} `{StdSort} `{Json} `{Yaml}.
Variable curArch : result Architecture.
Variable repoDir : str.
Variable dir_exists : str -> bool.
Variable sha256_hex : str -> str.
(** The version file of the NVIDIA driver. *)
Variable driver : option str.
(** [ostree_repo_checkout_at] into the temporary directory. *)
Variable checkout : str -> result unit.
(** [LINGLONG_DEBUG] is set; the steady clock. *)
Variable debug : bool.
Variable now : Z.
Variable s : OSTreeRepo.

Definition genContainerID (ref : Reference) : str :=
  let content := ((fun c => if decide (c = "/"%char) then "-"%char else c) <$> ref_toString ref) ++ lit ":" ++ dec now in
  if debug then content else sha256_hex content.

(** *** Layers *)

(** The layers of the modules asked for; the channel is not looked at. *)
Definition loaded (ref : Reference) (loadModules : list str) (layer : RepositoryCacheLayersItem) : bool :=
  let arch := default [] (head (pi_arch (l_info layer))) in
  bool_decide (pi_id (l_info layer) = ref_id ref) &&
  bool_decide (pi_version (l_info layer) = ver_toString (ref_version ref)) &&
  bool_decide (arch = arch_toStdString (ref_arch ref)) &&
  include loadModules (packageInfoV2Module (l_info layer)).

Fixpoint checkouts (commits : list str) : result unit :=
  match commits with
  | [] => Ok tt
  | c :: rest => checkout c ;;r checkouts rest
  end.

(** [getMergedModuleDir] of some modules: they are merged in a temporary
    directory. *)
Definition getMergedModuleDir_tmp (ref : Reference) (loadModules : list str) : result str :=
  let commits := l_commit <$> List.filter (loaded ref loadModules) (queryExistingLayerItem (rcache s)) in
  if bool_decide (commits = []) then Err err_default
  else if (length commits <? length loadModules)%nat then Err err_default
  else
    let mergeTmp := repoDir ++ lit "/merged/tmp_" ++ sha256_hex (mjoin commits) in
    checkouts commits ;;r Ok mergeTmp.

Definition layer_dir (ref : Reference) (modules : list str) (subRef : option str) : result str :=
  match modules with
  | [] => getMergedModuleDir repoDir dir_exists (cfg s) (rcache s) ref true
  | [m] => layer <-r getLayerItem (cfg s) (rcache s) ref m subRef ;; getLayerDir repoDir dir_exists layer
  | _ => getMergedModuleDir_tmp ref modules
  end.

(** [RuntimeLayer::resolveLayer] *)
Definition rl_resolveLayer (l : RuntimeLayer) (modules : list str) (subRef : option str) : RuntimeLayer * result unit :=
  let temporary := if (1 <? length modules)%nat then true else rl_temporary l in
  match layer_dir (rl_reference l) modules subRef with
  | Err c => (mkRuntimeLayer (rl_reference l) (rl_layerDir l) temporary (rl_extensionOf l),
              Err (if c =? terminated then terminated else err_default))
  | Ok dir => (mkRuntimeLayer (rl_reference l) (Some dir) temporary (rl_extensionOf l), Ok tt)
  end.

Definition getCachedItem (l : RuntimeLayer) : result RepositoryCacheLayersItem :=
  getLayerItem (cfg s) (rcache s) (rl_reference l) (lit "binary") None.

(** A local search with semantic matching. *)
Definition find_local_ref (fuzzy : FuzzyReference) : result Reference :=
  snd (clearReference curArch s fuzzy local_semantic (lit "binary") None).

(** A reference that a text names; some callers have an error of their own for
    one that is not installed. *)
Definition find_text (missing : option Z) (text : str) : result Reference :=
  fuzzy <-r fuzzy_parse text ;;
  match find_local_ref fuzzy with
  | Ok ref => Ok ref
  | Err code => Err (if code =? terminated then terminated else default code missing)
  end.

(** *** Extensions *)

Fixpoint resolve_extensions (channel : str) (extensions : list ExtensionDefine) : result (list RuntimeLayer) :=
  match extensions with
  | [] => Ok []
  | extension :: rest =>
      let '(enabled, name) := shouldEnable (makeExtension driver (ed_name extension)) (ed_name extension) in
      if negb enabled then resolve_extensions channel rest
      else
        match fuzzy_create (Some channel) name (Some (ed_version extension)) None with
        | Err _ => Err terminated
        | Ok fuzzyRef =>
            ref <-r logged (find_local_ref fuzzyRef) ;;
            layers <-r resolve_extensions channel rest ;;
            Ok (match ref with
                | Some r => mkRuntimeLayer r None false (Some extension) :: layers
                | None => layers
                end)
        end
  end.

(** The extensions of a layer: an error says that it has no item. *)
Definition resolveExtension (l : RuntimeLayer) : result (list RuntimeLayer) :=
  item <-r getCachedItem l ;;
  match pi_extensions (l_info item) with
  | Some extensions => resolve_extensions (pi_channel (l_info item)) extensions
  | None => Ok []
  end.

(** Where the answer is ignored: nothing was added. *)
Definition or_none (r : result (list RuntimeLayer)) : result (list RuntimeLayer) :=
  layers <-r logged r ;; Ok (default [] layers).

(** *** The environment of the extensions *)

Definition allowed_value (allowEnv : list (str * str)) (name : str) : option str :=
  snd <$> List.find (fun kv => bool_decide (kv.1 = name)) allowEnv.

(** [replaceSubstring] with the fuel that is always enough. *)
Definition replaced (text from to : str) : str :=
  default text (replaceSubstring (S (length text)) text from to).

Definition env_value (id value : str) (old : str) (allowed : str) : str :=
  let res := replaced value (lit "$PREFIX") (lit "/opt/extensions/" ++ id) in
  if negb (bool_decide (old = [])) then replaced res (lit "$ORIGIN") old
  else if negb (bool_decide (allowed = [])) then replaced res (lit "$ORIGIN") allowed
  else res.

Fixpoint extension_env (id : str) (allowEnv : list (str * str)) (env : list (str * str)) (m : gmap str str) : gmap str str :=
  match env with
  | [] => m
  | (name, value) :: rest =>
      extension_env id allowEnv rest
        (match allowed_value allowEnv name with
         | None => m
         | Some allowed => <[name := env_value id value (default [] (m !! name)) allowed]> m
         end)
  end.

(** The loop over the extensions: those without a directory stay in the list. *)
Fixpoint resolve_extension_layers (l : list RuntimeLayer) (m : gmap str str) : result (list RuntimeLayer * gmap str str) :=
  match l with
  | [] => Ok ([], m)
  | ext :: rest =>
      match rl_resolveLayer ext [] None with
      | (ext, Err c) =>
          if c =? terminated then Err terminated
          else r <-r resolve_extension_layers rest m ;; Ok (ext :: r.1, r.2)
      | (ext, Ok _) =>
          item <-r logged (getCachedItem ext) ;;
          let m := match rl_extensionOf ext with
                   | Some def =>
                       match ed_allowEnv def, (item ≫= fun i => pi_extImpl (l_info i)) ≫= ei_env with
                       | Some allowEnv, Some env => extension_env (ref_id (rl_reference ext)) allowEnv env m
                       | _, _ => m
                       end
                   | None => m
                   end in
          r <-r resolve_extension_layers rest m ;; Ok (ext :: r.1, r.2)
      end
  end.

(** *** [resolve] *)

(** A layer that is there, with the directory found for it. *)
Definition resolve_some (l : option RuntimeLayer) (modules : list str) (subRef : option str)
    : option RuntimeLayer * result unit :=
  match l with
  | None => (None, Ok tt)
  | Some l => let '(l, r) := rl_resolveLayer l modules subRef in (Some l, r)
  end.

(** The layer of the base is dereferenced: both callers have set it. *)
Definition resolveLayer (depsBinaryOnly : bool) (appModules : list str) (c : RunContext) : RunContext * result unit :=
  let subRef := match appLayer c with
                | Some app => match getCachedItem app with Ok item => pi_uuid (l_info item) | Err _ => None end
                | None => None
                end in
  let depsModules := if depsBinaryOnly then [lit "binary"] else [] in
  match resolve_some (baseLayer c) depsModules subRef with
  | (b, Err code) => (set_layers b (runtimeLayer c) (appLayer c) (extensionLayers c) c, Err code)
  | (b, Ok _) =>
      match resolve_some (appLayer c) appModules None with
      | (a, Err code) => (set_layers b (runtimeLayer c) a (extensionLayers c) c, Err code)
      | (a, Ok _) =>
          match resolve_some (runtimeLayer c) depsModules subRef with
          | (r, Err code) => (set_layers b r a (extensionLayers c) c, Err code)
          | (r, Ok _) =>
              let c := set_layers b r a (extensionLayers c) c in
              match resolve_extension_layers (extensionLayers c) (rc_environment c) with
              | Err code => (c, Err code)
              | Ok (ext, env) => (set_env env (set_layers b r a ext c), Ok tt)
              end
          end
      end
  end.

(** The base of an application or runtime, then the extensions of both, then the
    directories. *)
Definition resolve_base (options : ResolveOptions) (info : PackageInfoV2) (c : RunContext) : RunContext * result unit :=
  match find_text None (default (pi_base info) (ro_baseRef options)) with
  | Err code => (c, Err code)
  | Ok ref =>
      let base := new_layer ref in
      let c := set_layers (Some base) (runtimeLayer c) (appLayer c) (extensionLayers c) c in
      match (match runtimeLayer c with Some r => or_none (resolveExtension r) | None => Ok [] end) with
      | Err code => (c, Err code)
      | Ok ext1 =>
          match or_none (resolveExtension base) with
          | Err code => (c, Err code)
          | Ok ext2 =>
              let c := set_layers (baseLayer c) (runtimeLayer c) (appLayer c) (extensionLayers c ++ ext1 ++ ext2) c in
              resolveLayer (ro_depsBinaryOnly options) (default [] (ro_appModules options)) c
          end
      end
  end.

Definition resolve (runnable : Reference) (options : ResolveOptions) (c : RunContext) : RunContext * result unit :=
  let c := set_id (genContainerID runnable) (targetId c) c in
  match getLayerItem (cfg s) (rcache s) runnable (lit "binary") None with
  | Err code => (c, Err (if code =? terminated then terminated else err_default))
  | Ok item =>
      let info := l_info item in
      let l := new_layer runnable in
      if bool_decide (pi_kind info = lit "base") then
        let c := set_layers (Some l) (runtimeLayer c) (appLayer c) (extensionLayers c) c in
        match resolveExtension l with
        | Err code => (c, Err code)
        | Ok ext => (set_layers (Some l) (runtimeLayer c) (appLayer c) (extensionLayers c ++ ext) c, Ok tt)
        end
      else if bool_decide (pi_kind info = lit "app") then
        let c := set_layers (baseLayer c) (runtimeLayer c) (Some l) (extensionLayers c) c in
        let runtime := default (default [] (pi_runtime info)) (ro_runtimeRef options) in
        if bool_decide (runtime = []) then resolve_base options info c
        else
          match find_text (Some err_default) runtime with
          | Err code => (c, Err code)
          | Ok ref => resolve_base options info
                        (set_layers (baseLayer c) (Some (new_layer ref)) (appLayer c) (extensionLayers c) c)
          end
      else if bool_decide (pi_kind info = lit "runtime") then
        resolve_base options info (set_layers (baseLayer c) (Some l) (appLayer c) (extensionLayers c) c)
      else (c, Err err_default)
  end.

(** The context a project is built in: the base of the runtime has to be the base
    of the project. *)
Definition resolve_project (target : BuilderProject) (buildOutput : str) (c : RunContext) : RunContext * result unit :=
  match fromBuilderProject curArch (bj_package target) with
  | Err code => (c, Err code)
  | Ok targetRef =>
      let c := set_id (genContainerID targetRef) (bp_id (bj_package target)) c in
      let kind := bj_kind target in
      if negb (bool_decide (kind = lit "extension") || bool_decide (kind = lit "app") || bool_decide (kind = lit "runtime"))
      then (c, Err err_default)
      else
        let c := set_outputs (if bool_decide (kind = lit "app") then Some buildOutput else appOutput c)
                   (if bool_decide (kind = lit "runtime") then Some buildOutput else runtimeOutput c)
                   (if bool_decide (kind = lit "extension") then Some buildOutput else extensionOutput c) c in
        match find_text None (bj_base target) with
        | Err code => (c, Err code)
        | Ok base =>
            let c := set_layers (Some (new_layer base)) (runtimeLayer c) (appLayer c) (extensionLayers c) c in
            match bj_runtime target with
            | None => resolveLayer false [] c
            | Some text =>
                match find_text (Some err_default) text with
                | Err code => (c, Err code)
                | Ok ref =>
                    let r := new_layer ref in
                    let c := set_layers (baseLayer c) (Some r) (appLayer c) (extensionLayers c) c in
                    match getCachedItem r with
                    | Err code => (c, Err (if code =? terminated then terminated else err_default))
                    | Ok layer =>
                        match fuzzy_parse (pi_base (l_info layer)) with
                        | Err code => (c, Err code)
                        | Ok fuzzy =>
                            match find_local_ref fuzzy with
                            | Err code => (c, Err (if code =? terminated then terminated else err_default))
                            | Ok ref' => if ref_ne ref' base then (c, Err err_default) else resolveLayer false [] c
                            end
                        end
                    end
                end
            end
        end
  end.

(** *** [fillContextCfg] *)

Section filling.
Variable permissions : PackageInfoV2 -> option Permissions.
Variable getenv : str -> option str.
Variable uid : Z.
Variable exists_ : str -> result bool.
(** [makeBundleDir] *)
Variable makeBundleDir : str -> result str.

Definition files_of (dir : str) : str := dir ++ lit "/files".

(** [getLayerDir()->...]: undefined for a layer whose directory was not found. *)
Definition layer_files (l : RuntimeLayer) : result str :=
  match rl_layerDir l with
  | Some dir => Ok (files_of dir)
  | None => Err terminated
  end.

Definition output_or_layer (output : option str) (l : option RuntimeLayer) : result (option (str * bool)) :=
  match output, l with
  | Some o, _ => Ok (Some (o, false))
  | None, Some l => f <-r layer_files l ;; Ok (Some (f, true))
  | None, None => Ok None
  end.

Fixpoint extension_mounts (c : RunContext) (l : list RuntimeLayer) : result (list Mount) :=
  match l with
  | [] => Ok []
  | ext :: rest =>
      let name := ref_id (rl_reference ext) in
      if bool_decide (is_Some (extensionOutput c)) && bool_decide (name = targetId c) then extension_mounts c rest
      else
        dir <-r layer_files ext ;;
        mounts <-r extension_mounts c rest ;;
        Ok (mount_of (lit "/opt/extensions/" ++ name) [lit "rbind"; lit "ro"] dir (lit "bind") :: mounts)
  end.

Definition bind_mount (b : PermissionsBind) : Mount :=
  mount_of (bd_destination b) [lit "rbind"] (bd_source b) (lit "bind").
Definition inner_bind_mount (bundle : str) (b : PermissionsBind) : Mount :=
  mount_of (bd_destination b) [lit "rbind"] (bundle ++ lit "/rootfs" ++ bd_source b) (lit "bind").

Definition fillPermissionsBinds (bundle : str) (l : RuntimeLayer) (extra : option (list Mount)) : result (option (list Mount)) :=
  item <-r getCachedItem l ;;
  Ok (match permissions (l_info item) with
      | None => extra
      | Some perm =>
          Some (default [] extra ++ (bind_mount <$> default [] (pm_binds perm)) ++
                (inner_bind_mount bundle <$> default [] (pm_innerBinds perm)))
      end).

Fixpoint fill_extensions (bundle : str) (l : list RuntimeLayer) (extra : option (list Mount)) : result (option (list Mount)) :=
  match l with
  | [] => Ok extra
  | ext :: rest =>
      r <-r logged (fillPermissionsBinds bundle ext extra) ;;
      fill_extensions bundle rest (match r with Some e => e | None => extra end)
  end.

Definition fillExtraAppMounts (c : RunContext) (extra : option (list Mount)) : result (option (list Mount)) :=
  extra <-r (match appLayer c with
             | Some app => fillPermissionsBinds (bundle c) app extra
             | None => Ok extra
             end) ;;
  fill_extensions (bundle c) (extensionLayers c) extra.

Definition from_env (var : str) (f : str -> result str) (old : option str) : option str :=
  match getenv var with
  | None | Some [] => old
  | Some text => match f text with Ok p => Some p | Err _ => old end
  end.

Definition detectDisplaySystem (b : context_cfg) : context_cfg :=
  mkContextCfg (cc_containerId b) (cc_basePath b) (cc_appPath b) (cc_runtimePath b) (cc_extensionMount b)
    (cc_bundlePath b) (cc_extraMount b) (cc_envAppend b)
    (from_env (lit "DISPLAY") (getXOrgDisplay exists_) (cc_xOrgSocket b))
    (from_env (lit "XAUTHORITY") (getXOrgAuthFile getenv exists_) (cc_xAuthFile b))
    (from_env (lit "WAYLAND_DISPLAY") (getWaylandDisplay getenv uid exists_) (cc_waylandSocket b)).

(** [builder.appendEnv]: a variable that is there stays. *)
Definition append_env (old new : gmap str str) : gmap str str := old ∪ new.

(** Up to the security contexts. *)
Definition fillContextCfg (c : RunContext) (b : context_cfg) : RunContext * result context_cfg :=
  match baseLayer c with
  | None => (c, Err err_default)
  | Some base =>
      match makeBundleDir (containerID c) with
      | Err _ => (c, Err err_default)
      | Ok bundleDir =>
          let c := set_bundle bundleDir c in
          (c,
           basePath <-r layer_files base ;;
           appPath <-r output_or_layer (appOutput c) (appLayer c) ;;
           runtimePath <-r output_or_layer (runtimeOutput c) (runtimeLayer c) ;;
           mounts <-r extension_mounts c (extensionLayers c) ;;
           let extensionMounts := match extensionOutput c with
             | Some o => mount_of (lit "/opt/extensions/" ++ targetId c) [lit "rbind"] o (lit "bind") :: mounts
             | None => mounts
             end in
           extra <-r fillExtraAppMounts c (cc_extraMount b) ;;
           Ok (detectDisplaySystem
                 (mkContextCfg (containerID c) basePath
                    (match appPath with Some p => Some p | None => cc_appPath b end)
                    (match runtimePath with Some p => Some p | None => cc_runtimePath b end)
                    (if bool_decide (extensionMounts = []) then cc_extensionMount b else Some extensionMounts)
                    bundleDir extra (append_env (cc_envAppend b) (rc_environment c))
                    (cc_xOrgSocket b) (cc_xAuthFile b) (cc_waylandSocket b))))
      end
  end.

End filling.

(** *** [stateInfo] *)

Definition ref_text (l : RuntimeLayer) : str := ref_toString (rl_reference l).

Definition stateInfo (c : RunContext) : ContainerProcessStateInfo :=
  mkContainer (match appLayer c with Some l => ref_text l | None => [] end)
    (match baseLayer c with Some l => ref_text l | None => [] end)
    (containerID c)
    (Some (ref_text <$> extensionLayers c))
    (ref_text <$> runtimeLayer c).

(** The layers a context is made of. *)
Definition context_layers (c : RunContext) : list RuntimeLayer :=
  option_list (baseLayer c) ++ option_list (runtimeLayer c) ++ option_list (appLayer c) ++ extensionLayers c.

End run_context.

(** ** What a context is made of *)

Section context_facts.
Context `{Client} `{Qt} `{StdSort} `{Json} `{Yaml}.
Variable curArch : result Architecture.
Variable repoDir : str.
Variable dir_exists : str -> bool.
Variable sha256_hex : str -> str.
Variable driver : option str.
Variable checkout : str -> result unit.
Variable debug : bool.
Variable now : Z.
Variable s : OSTreeRepo.

Abbreviation refs l := (rl_reference <$> l).
Abbreviation need := (needs curArch driver s).

Lemma find_text_resolves missing text r : find_text curArch s missing text = Ok r -> resolves curArch s text r.
Proof.
  unfold find_text, find_local_ref. destruct (fuzzy_parse text) as [fuzzy|] eqn:Ef; [|done]. cbn [res_bind].
  destruct (snd _) as [r'|c] eqn:E; [|by destruct (c =? terminated)]. intros [= ->]. exists fuzzy. split; [done|].
  unfold resolve_local. by rewrite E.
Qed.

Lemma resolve_extensions_enabled info exts l : pi_extensions info = Some exts ->
  resolve_extensions curArch driver s (pi_channel info) exts = Ok l ->
  Forall (fun x => extension_of curArch driver s info (rl_reference x)) l.
Proof.
  intros Hext. assert (Hsub : forall x, x ∈ exts -> x ∈ exts) by done. revert Hsub l. generalize exts at 1 3.
  intros es. induction es as [|x es IH]; intros Hsub l; cbn [resolve_extensions]; [by intros [= <-]|].
  destruct (shouldEnable _ _) as [enabled name] eqn:Es. destruct enabled; cbn [negb].
  2:{ apply IH. intros y Hy. apply Hsub. by right. }
  destruct (fuzzy_create _ _ _ _) as [fuzzy|] eqn:Ef; [|done].
  destruct (logged (find_local_ref curArch s fuzzy)) as [ref|] eqn:El; [|done]. cbn [res_bind].
  destruct (resolve_extensions _ _ _ _ es) as [ls|] eqn:Er; [|done]. cbn [res_bind].
  specialize (IH ltac:(intros y Hy; apply Hsub; by right) ls eq_refl). intros [= <-].
  destruct ref as [r|]; [|done]. constructor; [|done]. cbn [rl_reference].
  exists exts, x, name, fuzzy. split_and!; [done|apply Hsub; left|done..].
Qed.

Lemma resolveExtension_layers x l : resolveExtension curArch driver s x = Ok l ->
  Forall (fun y => layer_extension curArch driver s (rl_reference x) (rl_reference y)) l.
Proof.
  unfold resolveExtension, getCachedItem. destruct (getLayerItem _ _ _ _ _) as [item|] eqn:Ei; [|done]. cbn [res_bind].
  destruct (pi_extensions (l_info item)) as [exts|] eqn:Ee; [|by intros [= <-]].
  intros Hl. apply (resolve_extensions_enabled (l_info item)) in Hl; [|done].
  eapply Forall_impl; [exact Hl|]. intros y Hy. by exists item.
Qed.

Lemma or_none_layers x l : or_none (resolveExtension curArch driver s x) = Ok l ->
  Forall (fun y => layer_extension curArch driver s (rl_reference x) (rl_reference y)) l.
Proof.
  unfold or_none. destruct (resolveExtension curArch driver s x) as [l'|c] eqn:E; cbn [logged].
  - intros [= <-]. by apply resolveExtension_layers.
  - destruct (c =? terminated); [done|]. by intros [= <-].
Qed.

(** Finding the directories changes no reference. *)
Lemma rl_resolveLayer_ref l modules subRef :
  rl_reference (rl_resolveLayer repoDir dir_exists sha256_hex checkout s l modules subRef).1 = rl_reference l /\
  rl_extensionOf (rl_resolveLayer repoDir dir_exists sha256_hex checkout s l modules subRef).1 = rl_extensionOf l.
Proof. unfold rl_resolveLayer. by destruct (layer_dir _ _ _ _ _ _ _ _). Qed.

Lemma resolve_extension_layers_refs l m l' m' :
  resolve_extension_layers repoDir dir_exists sha256_hex checkout s l m = Ok (l', m') -> refs l' = refs l.
Proof.
  revert m l' m'. induction l as [|x l IH]; intros m l' m'; cbn [resolve_extension_layers]; [by intros [= <- <-]|].
  pose proof (rl_resolveLayer_ref x [] None) as [Hr _].
  destruct (rl_resolveLayer _ _ _ _ _ _ _ _) as [x' [u|c]]; cbn [fst] in Hr.
  - destruct (logged _) as [item|]; [|done]. cbn [res_bind]. destruct (resolve_extension_layers _ _ _ _ _ l _) as [[l2 m2]|] eqn:E; [|done].
    intros [= <- _]. cbn [fst]. rewrite !fmap_cons, Hr. f_equal. by eapply IH.
  - destruct (c =? terminated); [done|]. destruct (resolve_extension_layers _ _ _ _ _ l _) as [[l2 m2]|] eqn:E; [|done].
    intros [= <- _]. cbn [fst]. rewrite !fmap_cons, Hr. f_equal. by eapply IH.
Qed.

Definition same_refs (c c' : RunContext) : Prop :=
  rl_reference <$> baseLayer c' = rl_reference <$> baseLayer c /\
  rl_reference <$> runtimeLayer c' = rl_reference <$> runtimeLayer c /\
  rl_reference <$> appLayer c' = rl_reference <$> appLayer c /\
  refs (extensionLayers c') = refs (extensionLayers c).

Lemma resolve_some_ref l modules subRef :
  rl_reference <$> (resolve_some repoDir dir_exists sha256_hex checkout s l modules subRef).1 = rl_reference <$> l.
Proof.
  destruct l as [l|]; [|done]. cbn [resolve_some]. pose proof (rl_resolveLayer_ref l modules subRef) as [Hr _].
  destruct (rl_resolveLayer _ _ _ _ _ _ _ _) as [l' r]. cbn in *. by rewrite Hr.
Qed.

Lemma resolveLayer_refs d m c : same_refs c (resolveLayer repoDir dir_exists sha256_hex checkout s d m c).1.
Proof.
  unfold resolveLayer, same_refs. cbv zeta.
  match goal with |- context [resolve_some ?a ?b ?x ?y ?z (baseLayer c) ?u ?v] => pose proof (resolve_some_ref (baseLayer c) u v) as Hb;
    destruct (resolve_some a b x y z (baseLayer c) u v) as [b' [?|?]] end; [|done].
  match goal with |- context [resolve_some ?a ?b ?x ?y ?z (appLayer c) ?u ?v] => pose proof (resolve_some_ref (appLayer c) u v) as Ha;
    destruct (resolve_some a b x y z (appLayer c) u v) as [a' [?|?]] end; [|done].
  match goal with |- context [resolve_some ?a ?b ?x ?y ?z (runtimeLayer c) ?u ?v] => pose proof (resolve_some_ref (runtimeLayer c) u v) as Hr;
    destruct (resolve_some a b x y z (runtimeLayer c) u v) as [r' [?|?]] end; [|done].
  cbn [fst] in *. cbn [extensionLayers rc_environment set_layers].
  destruct (resolve_extension_layers _ _ _ _ _ _ _) as [[l m']|] eqn:E; [|done].
  apply resolve_extension_layers_refs in E. done.
Qed.

(** The references after [resolve_base] with the base of the package itself. *)
Lemma resolve_base_refs info c c' :
  resolve_base curArch repoDir dir_exists sha256_hex driver checkout s default_resolve info c = (c', Ok tt) ->
  exists base ext1 ext2, resolves curArch s (pi_base info) base /\
    rl_reference <$> baseLayer c' = Some base /\
    rl_reference <$> runtimeLayer c' = rl_reference <$> runtimeLayer c /\
    rl_reference <$> appLayer c' = rl_reference <$> appLayer c /\
    refs (extensionLayers c') = refs (extensionLayers c) ++ ext1 ++ ext2 /\
    Forall (fun r => exists l, runtimeLayer c = Some l /\ layer_extension curArch driver s (rl_reference l) r) ext1 /\
    Forall (layer_extension curArch driver s base) ext2.
Proof.
  unfold resolve_base. cbn [ro_baseRef default_resolve default].
  destruct (find_text curArch s None (pi_base info)) as [base|] eqn:Eb; [|done]. cbn [runtimeLayer set_layers].
  apply find_text_resolves in Eb.
  destruct (match runtimeLayer c with Some _ => _ | None => _ end) as [ext1|] eqn:E1; [|done].
  destruct (or_none (resolveExtension curArch driver s (new_layer base))) as [ext2|] eqn:E2; [|done]. cbn [baseLayer set_layers appLayer extensionLayers].
  intros Hr. match type of Hr with resolveLayer _ _ _ _ _ ?d ?m ?c0 = _ => pose proof (resolveLayer_refs d m c0) as Hs end.
  rewrite Hr in Hs. destruct Hs as (Hb & Hrt & Ha & He). cbn [fst baseLayer set_layers runtimeLayer appLayer extensionLayers] in *.
  exists base, (refs ext1), (refs ext2). split_and!; [done|by rewrite Hb|done|done|by rewrite He, !fmap_app| |].
  - apply Forall_fmap. destruct (runtimeLayer c) as [l|]; [|injection E1 as <-; constructor].
    apply or_none_layers in E1. eapply Forall_impl; [exact E1|]. intros y Hy. by exists l.
  - apply Forall_fmap. by apply or_none_layers in E2.
Qed.

Lemma resolve_app_refs runnable item c : getLayerItem (cfg s) (rcache s) runnable (lit "binary") None = Ok item ->
  pi_kind (l_info item) = lit "app" ->
  resolve curArch repoDir dir_exists sha256_hex driver checkout debug now s runnable default_resolve empty_context = (c, Ok tt) ->
  exists run base ext1 ext2,
    match run with
    | Some r => exists t, pi_runtime (l_info item) = Some t /\ resolves curArch s t r
    | None => pi_runtime (l_info item) = None \/ pi_runtime (l_info item) = Some []
    end /\
    resolves curArch s (pi_base (l_info item)) base /\
    refs (context_layers c) = base :: option_list run ++ runnable :: ext1 ++ ext2 /\
    Forall (fun r => exists t, run = Some t /\ layer_extension curArch driver s t r) ext1 /\
    Forall (layer_extension curArch driver s base) ext2.
Proof.
  intros Hi Hk. unfold resolve. rewrite Hi. cbv zeta. rewrite Hk.
  rewrite bool_decide_false, bool_decide_true by done. cbn [ro_runtimeRef default_resolve default].
  assert (Hend : forall c0 c run, resolve_base curArch repoDir dir_exists sha256_hex driver checkout s default_resolve
      (l_info item) c0 = (c, Ok tt) ->
    extensionLayers c0 = [] -> rl_reference <$> appLayer c0 = Some runnable ->
    rl_reference <$> runtimeLayer c0 = run ->
    exists base ext1 ext2, resolves curArch s (pi_base (l_info item)) base /\
      refs (context_layers c) = base :: option_list run ++ runnable :: ext1 ++ ext2 /\
      Forall (fun r => exists t, run = Some t /\ layer_extension curArch driver s t r) ext1 /\
      Forall (layer_extension curArch driver s base) ext2).
  { intros c0 c' run Hr He Ha Hrun. apply resolve_base_refs in Hr as (base & ext1 & ext2 & Hb & Hrb & Hrr & Hra & Hre & He1 & He2).
    exists base, ext1, ext2. split; [done|]. split; [|split; [|done]].
    - unfold context_layers. rewrite !fmap_app, Hre, He. rewrite Ha in Hra. rewrite Hrun in Hrr.
      destruct (baseLayer c'), (appLayer c'), (runtimeLayer c'); cbn in *; simplify_eq; done.
    - eapply Forall_impl; [exact He1|]. intros r (l & El & Hl). rewrite El in Hrun. cbn in Hrun. subst run.
      by exists (rl_reference l). }
  case_bool_decide as Ert.
  - intros Hr. destruct (Hend _ _ None Hr) as (base & ext1 & ext2 & ?); [done..|]. exists None, base, ext1, ext2.
    split; [|done]. destruct (pi_runtime (l_info item)) as [t|]; [right; by f_equal|by left].
  - destruct (find_text _ _ _ _) as [rt|] eqn:Ef; [|done]. apply find_text_resolves in Ef.
    intros Hr. destruct (Hend _ _ (Some rt) Hr) as (base & ext1 & ext2 & ?); [done..|]. exists (Some rt), base, ext1, ext2.
    split; [|done]. destruct (pi_runtime (l_info item)) as [t|]; [by exists t|done].
Qed.

Lemma context_needed runnable item c l : getLayerItem (cfg s) (rcache s) runnable (lit "binary") None = Ok item ->
  pi_kind (l_info item) = lit "app" -> pi_runtime (l_info item) <> Some [] ->
  resolve curArch repoDir dir_exists sha256_hex driver checkout debug now s runnable default_resolve empty_context = (c, Ok tt) ->
  l ∈ context_layers c -> rl_reference l = runnable \/ need (l_info item) (rl_reference l).
Proof.
  intros Hi Hk Hne Hr Hl. destruct (resolve_app_refs _ _ _ Hi Hk Hr) as (run & base & ext1 & ext2 & Hrun & Hb & Hrefs & He1 & He2).
  assert (Hin : rl_reference l ∈ refs (context_layers c)) by by apply list_elem_of_fmap_2.
  rewrite Hrefs in Hin. rewrite Forall_forall in He1, He2.
  assert (Hfound : runtime_found curArch s (l_info item)).
  { unfold runtime_found. destruct run as [r|].
    - destruct Hrun as (t & -> & ?). by exists r.
    - destruct Hrun as [E|E]; [by rewrite E|by destruct (Hne E)]. }
  apply elem_of_cons in Hin as [->|Hin]; [right; by apply needs_base|].
  apply elem_of_app in Hin as [Hin|Hin].
  { destruct run as [r|]; [|by apply not_elem_of_nil in Hin]. apply list_elem_of_singleton in Hin as ->.
    destruct Hrun as (t & Et & ?). right. by apply needs_runtime with t. }
  apply elem_of_cons in Hin as [->|Hin]; [by left|right]. apply elem_of_app in Hin as [Hin|Hin].
  - destruct (He1 _ Hin) as (r & -> & Hx). destruct Hrun as (t & Et & ?).
    by eapply needs_runtime_extension.
  - apply needs_base_extension with base; [done|done|by apply He2].
Qed.

Lemma getLayerItem_installed runnable item : canonical (rc_layers (cache (rcache s))) ->
  getLayerItem (cfg s) (rcache s) runnable (lit "binary") None = Ok item -> default false (l_deleted item) = false ->
  pi_kind (l_info item) = lit "app" -> l_info item ∈ listLocal (rcache s) /\ is_app (l_info item).
Proof.
  intros Hc Hi Hd Hk. pose proof (canonical_comparable _ Hc) as Hcmp. split.
  - unfold listLocal. apply list_elem_of_fmap_2. unfold queryExistingLayerItem. apply list_elem_of_In, filter_In.
    rewrite Hd. split; [|done]. apply list_elem_of_In. by apply (getLayerItem_texts _ _ _ _ _ _ Hcmp Hi).
  - split; [|done]. by apply (getLayerItem_main _ _ _ _ Hcmp Hi).
Qed.

(** C14: everything a run resolved without options of its own consists of
    besides the application -- its runtime, its base, the extensions of both --
    is something [Prune] counts as needed by the application (whose runtime is
    not the empty text).  So as long as the application is not marked deleted,
    pruning the same repository, whatever fails on the way, leaves every layer
    of them in the cache (of a cache whose versions and channels are in the form
    the program writes, all of one architecture). *)
Theorem run_needs runnable item c l : getLayerItem (cfg s) (rcache s) runnable (lit "binary") None = Ok item ->
  pi_kind (l_info item) = lit "app" -> pi_runtime (l_info item) <> Some [] ->
  resolve curArch repoDir dir_exists sha256_hex driver checkout debug now s runnable default_resolve empty_context = (c, Ok tt) ->
  l ∈ context_layers c -> rl_reference l = runnable \/
  (need (l_info item) (rl_reference l) /\
   (canonical (rc_layers (cache (rcache s))) -> one_arch (rc_layers (cache (rcache s))) -> default false (l_deleted item) = false ->
    forall ll_version hash e walk dirs merged x, (forall t, walk t ≡ₚ t) -> x ∈ rc_layers (cache (rcache s)) ->
      ref_fromPackageInfo (l_info x) = Ok (rl_reference l) ->
      x ∈ rc_layers (cache (ps_cache (Prune ll_version curArch hash repoDir driver e walk s dirs merged).1)))).
Proof using Type H3.
  intros Hi Hk Hne Hr Hl. destruct (context_needed _ _ _ _ Hi Hk Hne Hr Hl) as [|Hn]; [by left|right]. split; [done|].
  intros Hc Ha Hd ll_version hash e walk dirs merged x Hw Hx Hrx.
  destruct (getLayerItem_installed _ _ Hc Hi Hd Hk) as [Hloc Happ].
  pose proof (prune_kept ll_version curArch hash repoDir driver e walk s dirs merged _ x Hc Ha Hw Hx Hrx) as Hp.
  destruct (Prune _ _ _ _ _ _ _ _ _ _) as [st res]. apply Hp. intros [_ Hno]. apply Hno. by exists (l_info item).
Qed.

(** The record that is written for a running container makes every layer of the
    container busy: the package manager will not remove it. *)
Theorem running_is_busy e run infos c l st : getAllRunningContainers run = Ok infos -> live run (stateInfo c) ->
  is_Some (le_open e) -> le_lock e = true -> l ∈ context_layers c ->
  snd (isRefBusy e run (rl_reference l) st) = Ok true.
Proof.
  intros Hrun Hlive [fd Ho] Hlk Hl.
  assert (Hu : uses (ref_toString (rl_reference l)) (stateInfo c)).
  { unfold context_layers in Hl. unfold uses, stateInfo. cbn [ct_app ct_base ct_runtime ct_extensions].
    rewrite !elem_of_app in Hl. destruct Hl as [Hl|[Hl|[Hl|Hl]]].
    - destruct (baseLayer c) as [b|]; [|by apply not_elem_of_nil in Hl]. apply list_elem_of_singleton in Hl as ->. by right; left.
    - destruct (runtimeLayer c) as [b|]; [|by apply not_elem_of_nil in Hl]. apply list_elem_of_singleton in Hl as ->. by right; right; left.
    - destruct (appLayer c) as [b|]; [|by apply not_elem_of_nil in Hl]. apply list_elem_of_singleton in Hl as ->. by left.
    - do 3 right. eexists. split; [done|]. by apply (list_elem_of_fmap_2 ref_text). }
  unfold isRefBusy, lockRepo. rewrite Ho, Hlk. cbn [negb]. rewrite Hrun. cbn [snd]. f_equal.
  apply (busy_spec infos run (rl_reference l) Hrun). by exists (stateInfo c).
Qed.

(** *** Where [fillContextCfg] is defined *)

Definition has_dir (l : option RuntimeLayer) : Prop := forall x, l = Some x -> is_Some (rl_layerDir x).

Lemma resolve_some_dir l modules subRef l' :
  resolve_some repoDir dir_exists sha256_hex checkout s l modules subRef = (l', Ok tt) -> has_dir l'.
Proof.
  destruct l as [l|]; cbn [resolve_some]; [|by intros [= <-] x]. unfold rl_resolveLayer.
  destruct (layer_dir _ _ _ _ _ _ _ _); [|done]. intros [= <-] x [= <-]. by eexists.
Qed.

(** What stays as it was and what is known after a success. *)
Lemma resolveLayer_ok d m c c' : resolveLayer repoDir dir_exists sha256_hex checkout s d m c = (c', Ok tt) ->
  has_dir (baseLayer c') /\ has_dir (runtimeLayer c') /\ has_dir (appLayer c') /\
  appOutput c' = appOutput c /\ runtimeOutput c' = runtimeOutput c /\ extensionOutput c' = extensionOutput c.
Proof.
  unfold resolveLayer. cbv zeta.
  destruct (resolve_some _ _ _ _ _ (baseLayer c) _ _) as [b [[]|]] eqn:Eb; [|done]. apply resolve_some_dir in Eb.
  destruct (resolve_some _ _ _ _ _ (appLayer c) _ _) as [a [[]|]] eqn:Ea; [|done]. apply resolve_some_dir in Ea.
  destruct (resolve_some _ _ _ _ _ (runtimeLayer c) _ _) as [r [[]|]] eqn:Er; [|done]. apply resolve_some_dir in Er.
  destruct (resolve_extension_layers _ _ _ _ _ _ _) as [[ext env]|]; [|done]. by intros [= <-].
Qed.

Record filled_in (runnable : Reference) (c : RunContext) : Prop := {
  fi_base : exists b, baseLayer c = Some b /\ is_Some (rl_layerDir b);
  fi_runtime : has_dir (runtimeLayer c);
  fi_app : has_dir (appLayer c);
  fi_app_ref : forall a, appLayer c = Some a -> rl_reference a = runnable;
  fi_outputs : appOutput c = None /\ runtimeOutput c = None /\ extensionOutput c = None
}.

Definition no_outputs (c : RunContext) : Prop := appOutput c = None /\ runtimeOutput c = None /\ extensionOutput c = None.

Lemma resolve_base_filled runnable options info c c' :
  resolve_base curArch repoDir dir_exists sha256_hex driver checkout s options info c = (c', Ok tt) ->
  (forall a, appLayer c = Some a -> rl_reference a = runnable) -> no_outputs c -> filled_in runnable c'.
Proof.
  unfold resolve_base. destruct (find_text _ _ _ _) as [base|]; [|done].
  destruct (match runtimeLayer _ with Some _ => _ | None => _ end) as [ext1|]; [|done].
  destruct (or_none _) as [ext2|]; [|done]. intros Hr Happ Hno.
  match type of Hr with resolveLayer _ _ _ _ _ ?d ?m ?c0 = _ => pose proof (resolveLayer_refs d m c0) as Hs end.
  rewrite Hr in Hs. destruct Hs as (Hb & _ & Ha & _).
  apply resolveLayer_ok in Hr as (Db & Dr & Da & O1 & O2 & O3).
  cbn [fst baseLayer appLayer set_layers appOutput runtimeOutput extensionOutput] in *. split; try done.
  - destruct (baseLayer c') as [b|]; [|done]. exists b. split; [done|]. by apply Db.
  - intros a Ea. rewrite Ea in Ha. destruct (appLayer c) as [a'|]; [|done]. injection Ha as ->. by apply Happ.
  - destruct Hno as (N1 & N2 & N3). by rewrite O1, O2, O3.
Qed.

Lemma resolve_filled runnable options c : 
  resolve curArch repoDir dir_exists sha256_hex driver checkout debug now s runnable options empty_context = (c, Ok tt) ->
  exists item, getLayerItem (cfg s) (rcache s) runnable (lit "binary") None = Ok item /\
    if bool_decide (pi_kind (l_info item) = lit "base")
    then baseLayer c = Some (new_layer runnable)
    else filled_in runnable c.
Proof.
  unfold resolve. destruct (getLayerItem _ _ _ _ _) as [item|] eqn:Ei; [|done]. intros Hr. exists item. split; [done|].
  revert Hr. cbv zeta. case_bool_decide; [destruct (resolveExtension _ _ _ _); [by intros [= <-]|done]|].
  case_bool_decide.
  - case_bool_decide.
    + intros Hr. eapply resolve_base_filled; [exact Hr|by intros a [= <-]|done].
    + destruct (find_text _ _ _ _) as [rt|]; [|done]. intros Hr.
      eapply resolve_base_filled; [exact Hr|by intros a [= <-]|done].
  - case_bool_decide; [|done]. intros Hr. by eapply resolve_base_filled; [exact Hr| |].
Qed.

Lemma getLayerItem_defined config c ref m sub d : getDefaultRepo config = Some d ->
  getLayerItem config c ref m sub <> Err terminated.
Proof.
  intros Hd. unfold getLayerItem. rewrite Hd. cbv zeta.
  destruct (queryLayerItem c (layer_query ref (Some _) _ sub)) as [|? [|]]; [|done|done].
  destruct (queryLayerItem c (layer_query ref None _ sub)); [|done].
  destruct (negb _); [done|]. by destruct (queryLayerItem c (layer_query ref None (lit "runtime") sub)).
Qed.

Lemma fill_extensions_defined permissions dir l extra d : getDefaultRepo (cfg s) = Some d ->
  exists r, fill_extensions s permissions dir l extra = Ok r.
Proof.
  intros Hd. revert extra. induction l as [|x l IH]; intros extra; cbn [fill_extensions]; [by eexists|].
  unfold fillPermissionsBinds, getCachedItem.
  pose proof (getLayerItem_defined (cfg s) (rcache s) (rl_reference x) (lit "binary") None d Hd) as Hn.
  destruct (getLayerItem _ _ _ _ _) as [item|code]; cbn [res_bind logged]; [apply IH|].
  destruct (Z.eqb_spec code terminated); [by subst|]. apply IH.
Qed.

Lemma extension_mounts_spec c l : extensionOutput c = None ->
  if existsb (fun x => bool_decide (rl_layerDir x = None)) l
  then extension_mounts c l = Err terminated
  else exists mounts, extension_mounts c l = Ok mounts.
Proof.
  intros Ho. induction l as [|x l IH]; cbn [existsb extension_mounts]; [by eexists|].
  rewrite Ho, (bool_decide_false (is_Some (A := str) None)) by by intros [? ?]. cbn [andb]. unfold layer_files.
  destruct (rl_layerDir x) as [dir|]; [rewrite bool_decide_false by done|rewrite bool_decide_true by done]; [|done].
  cbn [orb res_bind]. destruct (existsb _ l); [by rewrite IH|]. destruct IH as [mounts ->]. by eexists.
Qed.

(** After a successful [resolve] the configuration can be filled in, except that
    a directory that was never looked up is dereferenced: that of a base that is
    run by itself, and that of an extension whose directory is missing, though
    the latter is announced as ignored. *)
Theorem fill_defined runnable options c permissions getenv uid exists_ makeBundleDir dir b :
  resolve curArch repoDir dir_exists sha256_hex driver checkout debug now s runnable options empty_context = (c, Ok tt) ->
  makeBundleDir (containerID c) = Ok dir ->
  let filled := snd (fillContextCfg s permissions getenv uid exists_ makeBundleDir c b) in
  exists item, getLayerItem (cfg s) (rcache s) runnable (lit "binary") None = Ok item /\
  if bool_decide (pi_kind (l_info item) = lit "base") ||
     existsb (fun x => bool_decide (rl_layerDir x = None)) (extensionLayers c)
  then filled = Err terminated
  else exists cfg', filled = Ok cfg'.
Proof.
  intros Hr Hm filled. destruct (resolve_filled _ _ _ Hr) as (item & Hi & Hf). exists item. split; [done|].
  unfold filled, fillContextCfg. clear filled Hr.
  destruct (bool_decide (pi_kind (l_info item) = lit "base")); cbn [orb]; [by rewrite Hf, Hm|].
  destruct Hf as [(base & Hb & [bd Hbd]) Hrt Happ Href (O1 & O2 & O3)]. rewrite Hb, Hm. cbn [snd appOutput set_bundle].
  assert (Hd : exists d, getDefaultRepo (cfg s) = Some d).
  { unfold getLayerItem in Hi. destruct (getDefaultRepo (cfg s)) as [d|]; [by eexists|done]. }
  destruct Hd as [d Hd].
  assert (Hlayer : forall l, has_dir l -> exists p, output_or_layer None l = Ok p).
  { intros [l|] Hl; cbn [output_or_layer]; [|by eexists]. destruct (Hl l eq_refl) as [dl E].
    unfold layer_files. rewrite E. by eexists. }
  assert (Hfb : layer_files base = Ok (files_of bd)) by (unfold layer_files; by rewrite Hbd).
  rewrite Hfb. cbn [res_bind appLayer set_bundle]. rewrite O1.
  destruct (Hlayer _ Happ) as [pa ->]. cbn [res_bind runtimeOutput runtimeLayer set_bundle]. rewrite O2.
  destruct (Hlayer _ Hrt) as [pr ->]. cbn [res_bind extensionOutput extensionLayers set_bundle].
  pose proof (extension_mounts_spec (set_bundle dir c) (extensionLayers c) O3) as He.
  destruct (existsb _ _); [by rewrite He|]. destruct He as [mounts ->]. cbn [res_bind]. rewrite O3.
  unfold fillExtraAppMounts. cbn [appLayer bundle extensionLayers set_bundle].
  assert (Ha : exists r, (match appLayer c with
      | Some app => fillPermissionsBinds s permissions dir app (cc_extraMount b)
      | None => Ok (cc_extraMount b) end) = Ok r).
  { destruct (appLayer c) as [app|]; [|by eexists]. unfold fillPermissionsBinds, getCachedItem.
    rewrite (Href app eq_refl), Hi. by eexists. }
  destruct Ha as [r ->]. cbn [res_bind].
  destruct (fill_extensions_defined permissions dir (extensionLayers c) r d Hd) as [r' ->]. by eexists.
Qed.

(** *** The environment *)

(** An extension that may set a variable. *)
Definition may_set (k : str) (x : RuntimeLayer) : Prop :=
  is_Some (rl_layerDir x) /\ exists def allowEnv, rl_extensionOf x = Some def /\ ed_allowEnv def = Some allowEnv /\
    k ∈ allowEnv.*1.

Lemma extension_env_allowed id allowEnv env m k : is_Some (extension_env id allowEnv env m !! k) ->
  is_Some (m !! k) \/ k ∈ allowEnv.*1.
Proof.
  revert m. induction env as [|[name value] env IH]; intros m; cbn [extension_env]; [by left|].
  intros [Hm|Hk]%IH; [|by right]. destruct (allowed_value allowEnv name) as [al|] eqn:Ea; [|by left].
  destruct (decide (name = k)) as [->|Hne]; [|left; by rewrite lookup_insert_ne in Hm by done].
  right. unfold allowed_value in Ea. destruct (List.find _ _) as [[n v]|] eqn:Ef; [|done].
  apply find_some in Ef as [Hin%list_elem_of_In Hn]. apply bool_decide_eq_true in Hn. cbn in Hn. subst n.
  by apply (list_elem_of_fmap_2 fst) in Hin.
Qed.

Lemma resolve_extension_layers_env l m l' m' k :
  resolve_extension_layers repoDir dir_exists sha256_hex checkout s l m = Ok (l', m') -> is_Some (m' !! k) ->
  is_Some (m !! k) \/ exists x, x ∈ l' /\ may_set k x.
Proof.
  revert m l' m'. induction l as [|x l IH]; intros m l' m'; cbn [resolve_extension_layers]; [intros [= <- <-]; by left|].
  unfold rl_resolveLayer. destruct (layer_dir _ _ _ _ _ _ _ _) as [dir|c].
  - destruct (logged _) as [item|]; [|done]. cbn [res_bind].
    match goal with |- context [resolve_extension_layers _ _ _ _ _ l ?mm] => set (m1 := mm) end.
    destruct (resolve_extension_layers _ _ _ _ _ l m1) as [[l2 m2]|] eqn:E; [|done].
    intros [= <- <-] Hk. destruct (IH _ _ _ E Hk) as [Hm|(y & Hy & Hs)]; [|right; exists y; split; [by right|done]].
    unfold m1 in Hm. cbn [rl_extensionOf rl_reference] in Hm.
    destruct (rl_extensionOf x) as [def|] eqn:Ex; [|by left].
    destruct (ed_allowEnv def) as [allowEnv|] eqn:Ea; [|by left].
    destruct (_ ≫= ei_env) as [env|]; [|by left].
    destruct (extension_env_allowed _ _ _ _ _ Hm) as [?|Hin]; [by left|right].
    eexists. split; [left|]. split; [by eexists|]. by exists def, allowEnv.
  - destruct (_ =? terminated); [done|].
    destruct (resolve_extension_layers _ _ _ _ _ l m) as [[l2 m2]|] eqn:E; [|done].
    intros [= <- <-] Hk. destruct (IH _ _ _ E Hk) as [Hm|(y & Hy & Hs)]; [by left|right; exists y; split; [by right|done]].
Qed.

Lemma resolveLayer_env d m c c' : resolveLayer repoDir dir_exists sha256_hex checkout s d m c = (c', Ok tt) ->
  resolve_extension_layers repoDir dir_exists sha256_hex checkout s (extensionLayers c) (rc_environment c) =
  Ok (extensionLayers c', rc_environment c').
Proof.
  unfold resolveLayer. cbv zeta.
  destruct (resolve_some _ _ _ _ _ (baseLayer c) _ _) as [b [[]|]]; [|done].
  destruct (resolve_some _ _ _ _ _ (appLayer c) _ _) as [a [[]|]]; [|done].
  destruct (resolve_some _ _ _ _ _ (runtimeLayer c) _ _) as [r [[]|]]; [|done]. cbn [extensionLayers rc_environment set_layers].
  destruct (resolve_extension_layers _ _ _ _ _ _ _) as [[ext env]|]; [|done]. by intros [= <-].
Qed.

Lemma resolve_base_env options info c c' k :
  resolve_base curArch repoDir dir_exists sha256_hex driver checkout s options info c = (c', Ok tt) ->
  rc_environment c = ∅ -> is_Some (rc_environment c' !! k) -> exists x, x ∈ extensionLayers c' /\ may_set k x.
Proof.
  unfold resolve_base. destruct (find_text _ _ _ _) as [base|]; [|done].
  destruct (match runtimeLayer _ with Some _ => _ | None => _ end) as [ext1|]; [|done].
  destruct (or_none _) as [ext2|]; [|done]. intros Hr He Hk. apply resolveLayer_env in Hr.
  cbn [rc_environment set_layers] in Hr. destruct (resolve_extension_layers_env _ _ _ _ _ Hr Hk) as [Hm|Hx]; [|done].
  rewrite He, lookup_empty in Hm. by destruct Hm.
Qed.

(** The environment of a container has no variable from an extension but those
    that the package naming the extension allows it. *)
Theorem environment_allowed runnable options c k :
  resolve curArch repoDir dir_exists sha256_hex driver checkout debug now s runnable options empty_context = (c, Ok tt) ->
  is_Some (rc_environment c !! k) -> exists x, x ∈ extensionLayers c /\ may_set k x.
Proof.
  unfold resolve. destruct (getLayerItem _ _ _ _ _) as [item|]; [|done]. cbv zeta.
  case_bool_decide.
  { destruct (resolveExtension _ _ _ _); [|done]. intros [= <-]. cbn. rewrite lookup_empty. by intros [? ?]. }
  case_bool_decide.
  - case_bool_decide; [intros Hr; by apply (resolve_base_env _ _ _ _ _ Hr)|].
    destruct (find_text _ _ _ _) as [rt|]; [|done]. intros Hr. by apply (resolve_base_env _ _ _ _ _ Hr).
  - case_bool_decide; [|done]. intros Hr. by apply (resolve_base_env _ _ _ _ _ Hr).
Qed.

End context_facts.

(** ** Examples *)

#[local] Existing Instance qt_model.
#[local] Existing Instance std_sort_model.
#[local] Existing Instance json_model.
#[local] Existing Instance client_model.
#[local] Existing Instance yaml_model.

(** A base with an extension that may set [PATH]. *)
Definition path_extension : ExtensionDefine :=
  mkExtensionDefine (Some [(lit "PATH", lit "/bin")]) (lit "/opt") (lit "org.ext") (lit "1.0.0.1").
Definition run_base : RepositoryCacheLayersItem :=
  mkLayer (lit "c2") None
    (mkInfo [lit "x86_64"] [] (lit "main") None None None None (Some [path_extension])
       (lit "org.base") (lit "base") (lit "binary") (lit "base") None (lit "1.0") 0 None (lit "23.0.0.1"))
    (lit "stable").
Definition run_ext : RepositoryCacheLayersItem :=
  mkLayer (lit "c5") None
    (mkInfo [lit "x86_64"] [] (lit "main") None None None
       (Some (mkExtensionImpl (Some [(lit "LD_PRELOAD", lit "x.so"); (lit "PATH", lit "$PREFIX/bin:$ORIGIN")]) None)) None
       (lit "org.ext") (lit "extension") (lit "binary") (lit "ext") None (lit "1.0") 0 None (lit "1.0.0.1"))
    (lit "stable").

Definition run_repo : OSTreeRepo :=
  mkOR example_cfg (fun _ => None) [] (lit "https://s")
    (mkRC (with_layers example_cache [demo_layer; run_base; run_ext]) None None).

Definition run_ext_ref : Reference := mkRef (lit "main") (lit "org.ext") (isV1 (mkV1 1 0 0 (Some 1))) X86_64.

Abbreviation run_of there r :=
  (resolve (Ok X86_64) (lit "/r") there (fun t => t) None (fun _ => Ok tt) true 7 run_repo r default_resolve empty_context).

Definition everything (d : str) : bool := true.
Definition no_extension (d : str) : bool := negb (bool_decide (d = lit "/r/layers/c5")).

Definition the_context : RunContext := Eval vm_compute in fst (run_of everything demo_ref).
Definition lame_context : RunContext := Eval vm_compute in fst (run_of no_extension demo_ref).

Lemma run_resolves : run_of everything demo_ref = (the_context, Ok tt).
Proof. vm_compute. reflexivity. Qed.
Lemma run_lame : run_of no_extension demo_ref = (lame_context, Ok tt).
Proof. vm_compute. reflexivity. Qed.

Example run_path : rc_environment the_context = {[ lit "PATH" := lit "/opt/extensions/org.ext/bin:/bin" ]}.
Proof. vm_compute. reflexivity. Qed.

Example run_layers : rl_reference <$> context_layers the_context =
  [base_ref; demo_ref; run_ext_ref].
Proof. vm_compute. reflexivity. Qed.

Definition run_base_layer : RuntimeLayer := mkRuntimeLayer base_ref (Some (lit "/r/layers/c2")) false None.

Lemma run_base_in : run_base_layer ∈ context_layers the_context.
Proof. left. Qed.

Lemma run_item : getLayerItem (cfg run_repo) (rcache run_repo) demo_ref (lit "binary") None = Ok demo_layer.
Proof. by vm_compute. Qed.

Lemma run_repo_canonical : canonical (rc_layers (cache (rcache run_repo))).
Proof.
  repeat constructor; eexists; (split; [split; [by vm_compute|]|by vm_compute]);
    unfold parsed63, wf_v1, i64_max; cbn; (split; [lia|done]).
Qed.

Lemma run_repo_one_arch : one_arch (rc_layers (cache (rcache run_repo))).
Proof.
  intros a b Ha Hb _ _ _. cbn in Ha, Hb. rewrite !elem_of_cons in Ha, Hb.
  destruct Ha as [->|[->|[->|Ha%not_elem_of_nil]]], Hb as [->|[->|[->|Hb%not_elem_of_nil]]]; done.
Qed.

Lemma run_needs_witness :
  run_base_layer ∈ context_layers the_context /\
  (needs (Ok X86_64) None run_repo (l_info demo_layer) (rl_reference run_base_layer) /\
   run_base ∈ rc_layers (cache (ps_cache
     (Prune (lit "1.9") (Ok X86_64) example_hash (lit "/r") None working_env (fun t => t) run_repo (fun _ => true) []).1))).
Proof.
  split; [exact run_base_in|].
  destruct (run_needs (Ok X86_64) (lit "/r") everything (fun t => t) None (fun _ => Ok tt) true 7 run_repo demo_ref demo_layer
    the_context run_base_layer run_item eq_refl ltac:(discriminate) run_resolves run_base_in) as [E|[Hn Hk]];
    [apply (f_equal ref_id) in E; vm_compute in E; discriminate E|].
  split; [exact Hn|].
  exact (Hk run_repo_canonical run_repo_one_arch eq_refl (lit "1.9") example_hash working_env (fun t => t) (fun _ => true) []
    run_base (fun t => Permutation_refl t) ltac:(right; left) ltac:(vm_compute; reflexivity)).
Defined.

Definition the_users : result (list user_entry) :=
  Ok [mkUser true (Ok [mkProcess true (Ok true) (Ok (stateInfo the_context))])].

Lemma running_is_busy_witness :
  snd (isRefBusy free_lock the_users demo_ref (mkLock None [])) = Ok true.
Proof.
  exact (running_is_busy free_lock the_users [stateInfo the_context] the_context
    (mkRuntimeLayer demo_ref (Some (lit "/r/layers/c1")) false None) (mkLock None []) eq_refl
    (proj1 (running_elem the_users [stateInfo the_context] (stateInfo the_context) eq_refl) (list_elem_of_here _ _))
    (ex_intro _ 7 eq_refl) eq_refl ltac:(by right; left)).
Defined.

Definition no_builder : context_cfg := mkContextCfg [] [] None None None [] None ∅ None None None.

Definition fill_it (c : RunContext) : result context_cfg :=
  snd (fillContextCfg run_repo (fun _ => None) (fun _ => None) 1000 (fun _ => Ok false) (fun id => Ok (lit "/b")) c no_builder).

Lemma fill_defined_witness :
  snd (run_of no_extension demo_ref) = Ok tt /\ fill_it lame_context = Err terminated /\
  exists cfg', fill_it the_context = Ok cfg'.
Proof.
  split; [by rewrite run_lame|].
  pose proof (fill_defined (Ok X86_64) (lit "/r") no_extension (fun t => t) None (fun _ => Ok tt) true 7 run_repo demo_ref
    default_resolve lame_context (fun _ => None) (fun _ => None) 1000 (fun _ => Ok false) (fun id => Ok (lit "/b"))
    (lit "/b") no_builder run_lame eq_refl) as (item & _ & Hf).
  split; [|by eexists; vm_compute].
  assert (E : existsb (fun x => bool_decide (rl_layerDir x = None)) (extensionLayers lame_context) = true) by by vm_compute.
  rewrite E, orb_true_r in Hf. exact Hf.
Defined.

Lemma environment_allowed_witness : exists x, x ∈ extensionLayers the_context /\ may_set (lit "PATH") x.
Proof.
  exact (environment_allowed (Ok X86_64) (lit "/r") everything (fun t => t) None (fun _ => Ok tt) true 7 run_repo demo_ref
    default_resolve the_context (lit "PATH") run_resolves ltac:(by eexists; vm_compute)).
Defined.
