(* ===== verification/Init.v ===== *)
(** * The first process of a container ([ll-init.cpp]) and its client ([cli.cpp])

    [ll-init] starts the application, reaps what is left to it, forwards
    signals and runs commands that arrive at a socket; it leaves when [/proc]
    shows no other process.  What the kernel answers -- the events of a poll,
    the signals and the children they announce, the packets of a client, the
    entries of [/proc] -- are arguments; the handlers and the loop are functions
    of them, and a client that keeps the loop busy for ever is [Hang]. *)
From S2P Require Import Prelude Strings Sha256.

(** ** Wait statuses ([sys/wait.h]) *)

Definition WIFEXITED (status : Z) : bool := Z.land status 127 =? 0.
Definition WEXITSTATUS (status : Z) : Z := Z.shiftr (Z.land status 65280) 8.
Definition WTERMSIG (status : Z) : Z := Z.land status 127.
Definition WIFSIGNALED (status : Z) : bool := 0 <? Z.shiftr (wrap_s 8 (Z.land status 127 + 1)) 1.

Definition SIGCHLD : Z := 17.

(** ** Numbers ([std::stoi]) *)

Fixpoint span (f : ascii -> bool) (s : str) : str * str :=
  match s with
  | c :: s' => if f c then let '(a, b) := span f s' in (c :: a, b) else ([], s)
  | [] => ([], [])
  end.
Definition stoi (s : str) : option Z :=
  let s := (span is_space s).2 in
  let '(sign, s) := match s with
                    | "-"%char :: s => (-1, s)
                    | "+"%char :: s => (1, s)
                    | _ => (1, s)
                    end in
  let digits := (span is_digit s).1 in
  let n := sign * undec digits in
  if bool_decide (digits = []) then None
  else if (- 2 ^ 31 <=? n) && (n <=? i32_max) then Some n else None.

Example stoi_1 : stoi (lit " 42x") = Some 42. Proof. reflexivity. Qed.
Example stoi_2 : stoi (lit "self") = None. Proof. reflexivity. Qed.
Example stoi_3 : stoi (lit "-2147483649") = None. Proof. reflexivity. Qed.

(** ** Signals and children *)

Record WaitPidResult := mkWait { pid : Z; status : Z }.

(** A record read from the signal descriptor; for [SIGCHLD], the children that
    [waitpid] then returns and whether it fails in the end. *)
Record siginfo := mkSig { ssi_signo : Z; ssi_pid : Z; reaped : list (Z * Z); wait_failed : bool }.

Fixpoint reap (child : Z) (l : list (Z * Z)) (waitChild : WaitPidResult) : WaitPidResult :=
  match l with
  | [] => waitChild
  | (ret, st) :: l => reap child l (if ret =? child then mkWait child st else waitChild)
  end.

(** The handler and the signals it sends; [None] when it returns false. *)
Fixpoint handle_sigevent (child : Z) (reads : list siginfo) (failed : bool) (waitChild : WaitPidResult) :
    option WaitPidResult * list (Z * Z) :=
  match reads with
  | [] => (if failed then None else Some waitChild, [])
  | info :: reads =>
      if negb (ssi_signo info =? SIGCHLD) then
        let '(r, kills) := handle_sigevent child reads failed waitChild in
        (r, (if negb (ssi_pid info =? 0) then [(child, ssi_signo info)] else []) ++ kills)
      else
        let waitChild := reap child (reaped info) waitChild in
        if wait_failed info then (None, []) else handle_sigevent child reads failed waitChild
  end.

(** ** Other processes *)

(** The entries of [/proc] (is it a directory, its name); [None] when it cannot
    be opened. *)
Definition shouldWait (proc : option (list (bool * str))) : bool :=
  match proc with
  | None => false
  | Some entries =>
      existsb (fun e : bool * str => e.1 && match stoi e.2 with None => false | Some pid => negb (pid =? 1) end) entries
  end.

Definition handle_timerfdevent (failed : bool) (proc : option (list (bool * str))) : Z :=
  if failed then -1 else if shouldWait proc then 1 else 0.

(** The timer, in seconds: the first expiration and the interval. *)
Definition default_interval : Z := 3.
Definition timer_spec (env : option str) : Z * Z :=
  (default_interval, match env with Some s => default default_interval (stoi s) | None => default_interval end).
(** [timerfd_settime] refuses negative times. *)
Definition start_timer (created added : bool) (env : option str) : bool :=
  created && (0 <=? (timer_spec env).2) && added.

(** ** Commands of clients *)

Inductive packet := Data (bytes : str) | RecvError.

Definition NUL : ascii := "000"%char.
Definition buffer_size : nat := 4096.

(** Receiving the command: a packet longer than the buffer is cut (the socket is
    [SOCK_SEQPACKET]); when the peer has closed nothing more is received, and
    the loop goes on.  [None]: it never returns. *)
Fixpoint read_command (arg_len : Z) (packets : list packet) (command_buffer : str) : option (result str) :=
  match packets with
  | [] => if arg_len <=? Z.of_nat (length command_buffer) then Some (Ok command_buffer) else None
  | RecvError :: _ => Some (Err 0)
  | Data p :: packets =>
      let command_buffer := command_buffer ++ take buffer_size p in
      if arg_len <=? Z.of_nat (length command_buffer) then Some (Ok command_buffer)
      else read_command arg_len packets command_buffer
  end.

Fixpoint split_commands (current : str) (buffer : str) : list str :=
  match buffer with
  | [] => []
  | c :: buffer => if bool_decide (c = NUL) then current :: split_commands [] buffer
                   else split_commands (current ++ [c]) buffer
  end.

Definition parse_commands (command_buffer : str) : list str :=
  split_commands [] (if bool_decide (last command_buffer = Some NUL) then command_buffer else command_buffer ++ [NUL]).

(** A client: is it accepted, can the timeout be set, what it sends, can a child
    be forked. *)
Record client := mkClient { accepted : bool; timeout_set : bool; sent : list packet; forked : bool }.

Inductive handled :=
| Refused
| Delegated (argv : list str) (reply : Z)
| Spinning.

Definition handle_client (arg_max : Z) (c : client) : handled :=
  if negb (accepted c && timeout_set c) then Refused
  else
    match (match sent c with
           | RecvError :: _ => None
           | Data p :: rest => Some (le_read (take 8 p), rest)
           | [] => Some (0, [])
           end) with
    | None => Refused
    | Some (arg_len, packets) =>
        if arg_max <? arg_len then Refused
        else
          match read_command arg_len packets [] with
          | None => Spinning
          | Some (Err _) => Refused
          | Some (Ok []) => Refused
          | Some (Ok buffer) =>
              match parse_commands buffer with
              | [] => Refused
              | argv => Delegated argv (if forked c then 0 else -1)
              end
          end
    end.

(** ** The loop *)

Inductive init_event :=
| SignalEvent (reads : list siginfo) (failed : bool) (proc : option (list (bool * str))) (timer : bool)
| TimerEvent (failed : bool) (proc : option (list (bool * str)))
| ClientEvent (c : client).

Inductive poll := Interrupted | PollFailed | Events (events : list init_event).

Record init_state := mkInit {
  waitChild : WaitPidResult;
  childExitCode : Z;
  done_ : bool;
  timerfd : bool;
  unix_socket : bool;
  kills : list (Z * Z);
  commands : list (list str)
}.

Definition start (child : Z) (singleMode : bool) : init_state := mkInit (mkWait child 0) 0 false false (negb singleMode) [] [].

Inductive fate :=
| Running (st : init_state)
| Returned (st : init_state) (code : Z)
| Hang (st : init_state).

Section loop.
Variables (child arg_max : Z).

Definition on_signal (reads : list siginfo) (failed : bool) (proc : option (list (bool * str))) (timer : bool) (st : init_state) : fate :=
  let '(r, sent) := handle_sigevent (pid (waitChild st)) reads failed (waitChild st) in
  let st := mkInit (waitChild st) (childExitCode st) (done_ st) (timerfd st) (unix_socket st) (kills st ++ sent) (commands st) in
  match r with
  | None => Returned st (-1)
  | Some w =>
      if pid w =? child then
        let '(w, code) :=
          if WIFEXITED (status w) then (mkWait (-1) (status w), WEXITSTATUS (status w))
          else if WIFSIGNALED (status w) then (mkWait (-1) (status w), 128 + WTERMSIG (status w))
          else (w, childExitCode st) in
        let st := mkInit w code (done_ st || negb (shouldWait proc)) timer (unix_socket st) (kills st) (commands st) in
        if timer then Running st else Returned st (-1)
      else Running (mkInit w (childExitCode st) (done_ st) (timerfd st) (unix_socket st) (kills st) (commands st))
  end.

Definition with_done (d : bool) (st : init_state) : init_state :=
  mkInit (waitChild st) (childExitCode st) d (timerfd st) (unix_socket st) (kills st) (commands st).

Definition on_client (c : client) (st : init_state) : fate :=
  if negb (unix_socket st) then Running st
  else
    match handle_client arg_max c with
    | Refused => Running st
    | Delegated argv _ =>
        Running (mkInit (waitChild st) (childExitCode st) false (timerfd st) (unix_socket st) (kills st) (commands st ++ [argv]))
    | Spinning => Hang st
    end.

(** The events of one poll: [ret] is both their number, which bounds the loop,
    and the result of the timer's handler. *)
Fixpoint handle_events (i ret : Z) (events : list init_event) (st : init_state) : fate :=
  match events with
  | [] => Running st
  | event :: events =>
      if negb (i <? ret) then Running st
      else
        match event with
        | SignalEvent reads failed proc timer =>
            match on_signal reads failed proc timer st with
            | Running st => handle_events (i + 1) ret events st
            | end_ => end_
            end
        | TimerEvent failed proc =>
            if timerfd st then
              let ret := handle_timerfdevent failed proc in
              if ret =? -1 then Returned st (-1)
              else handle_events (i + 1) ret events (if ret =? 0 then with_done true st else st)
            else handle_events (i + 1) ret events st
        | ClientEvent c =>
            match on_client c st with
            | Running st => handle_events (i + 1) ret events st
            | end_ => end_
            end
        end
  end.

Fixpoint run_init (polls : list poll) (st : init_state) : fate :=
  match polls with
  | [] => Running st
  | Interrupted :: polls => run_init polls st
  | PollFailed :: _ => Returned st (-1)
  | Events events :: polls =>
      match handle_events 0 (Z.of_nat (length events)) events st with
      | Running st => if done_ st then Returned st (childExitCode st) else run_init polls st
      | end_ => end_
      end
  end.

End loop.

(** ** The client: [delegateToContainerInit] *)

Inductive send_answer := Sent (n : nat) | SendInterrupted | SendFailed.

(** Sending again after a partial send starts over at the beginning of the data. *)
Fixpoint send_data (answers : list send_answer) (data : str) (rest_len : nat) : bool * list packet :=
  match rest_len with
  | O => (true, [])
  | S _ =>
      match answers with
      | [] | SendFailed :: _ => (false, [])
      | SendInterrupted :: answers => send_data answers data rest_len
      | Sent n :: answers =>
          let '(ok, l) := send_data answers data (rest_len - n) in (ok, Data (take n (take rest_len data)) :: l)
      end
  end.

Definition quote (arg : str) : str := default [] (quoteBashArg (S (length arg)) arg).

Definition bash_content (commands : list str) : str := commands ≫= fun command => quote command ++ lit " ".
Definition delegated_argv (commands : list str) : list str := [lit "bash"; lit "--login"; lit "-c"; bash_content commands].
Definition command_data (commands : list str) : str :=
  (delegated_argv commands ≫= fun command => command ++ [NUL]) ++ [NUL].

(** What is sent; [None] when the function returns false before all of it is. *)
Definition delegate_packets (connected length_sent : bool) (answers : list send_answer) (commands : list str) : option (list packet) :=
  let data := command_data commands in
  if negb (connected && length_sent) then None
  else let '(ok, l) := send_data answers data (length data) in
       if ok then Some (Data (le_bytes 8 (Z.of_nat (length data))) :: l) else None.

(** [result] is what is received; it stays [-1] when nothing is. *)
Definition delegateToContainerInit (connected length_sent : bool) (answers : list send_answer) (reply : option Z) (commands : list str) : bool :=
  match delegate_packets connected length_sent answers commands with
  | None => false
  | Some _ => default (-1) reply =? 0
  end.

(** ** What the loop keeps *)

(** The code a wait status stands for. *)
Definition exit_code (st : Z) : Z := if WIFEXITED st then WEXITSTATUS st else 128 + WTERMSIG st.
Definition final_status (st : Z) : bool := WIFEXITED st || WIFSIGNALED st.

(** The status of the child among what a signal event reaps, or the one before. *)
Definition last_status (child : Z) (reads : list siginfo) (st : Z) : Z :=
  status (fold_left (fun w info => if ssi_signo info =? SIGCHLD then reap child (reaped info) w else w) reads (mkWait child st)).

Definition sound_reads (reads : list siginfo) : Prop :=
  Forall (fun info => Forall (fun r : Z * Z => 0 < r.1 /\ final_status r.2 = true) (reaped info)) reads.
Definition sound_event (e : init_event) : Prop :=
  match e with SignalEvent reads _ _ _ => sound_reads reads | _ => True end.
Definition events_of (p : poll) : list init_event := match p with Events events => events | _ => [] end.

Fixpoint first_signal (events : list init_event) : option (list siginfo) :=
  match events with
  | [] => None
  | SignalEvent reads _ _ _ :: _ => Some reads
  | _ :: events => first_signal events
  end.

Section invariant.
Variables (child arg_max : Z).
Hypothesis child_pid : 0 < child.

(** Before the first signal event, and after it. *)
Definition waiting (st : init_state) : Prop :=
  waitChild st = mkWait child 0 /\ done_ st = false /\ timerfd st = false /\ kills st = [].
Definition settled (code : Z) (st : init_state) : Prop :=
  pid (waitChild st) = -1 /\ childExitCode st = code /\ Forall (fun k => k.1 = child \/ k.1 = -1) (kills st).

Lemma reap_other l w : Forall (fun r : Z * Z => 0 < r.1 /\ final_status r.2 = true) l -> reap (-1) l w = w.
Proof using.
  induction 1 as [|[p s] l [Hp _] Hl IH]; [done|]. cbn [reap]. cbn in Hp. by destruct (Z.eqb_spec p (-1)); [lia|].
Qed.

Lemma reap_child l s : exists s', reap child l (mkWait child s) = mkWait child s' /\
  (Forall (fun r : Z * Z => 0 < r.1 /\ final_status r.2 = true) l -> final_status s = true -> final_status s' = true).
Proof using.
  revert s. induction l as [|[p q] l IH]; intros s; cbn [reap]; [by eauto|].
  destruct (Z.eqb_spec p child).
  - destruct (IH q) as (s' & E & F). exists s'. split; [done|]. intros H _. inversion H as [|?? [_ Hq] Hl]; subst. by apply F.
  - destruct (IH s) as (s' & E & F). exists s'. split; [done|]. intros H Hs. inversion H; subst. by apply F.
Qed.

Lemma sigevent_settled reads failed w r k : sound_reads reads -> handle_sigevent (-1) reads failed w = (r, k) ->
  (r = None \/ r = Some w) /\ Forall (fun k : Z * Z => k.1 = -1) k.
Proof using.
  revert r k. induction reads as [|info reads IH]; intros r k Hs; cbn [handle_sigevent].
  { intros [= <- <-]. split; [by destruct failed; [left|right]|constructor]. }
  inversion Hs as [|?? Hi Hr]; subst. destruct (negb (ssi_signo info =? SIGCHLD)).
  - destruct (handle_sigevent (-1) reads failed w) as [r' k'] eqn:E. intros [= <- <-]. destruct (IH r' k' Hr eq_refl) as [H1 H2].
    split; [done|]. destruct (negb _); [by constructor|done].
  - rewrite (reap_other _ _ Hi). destruct (wait_failed info); [intros [= <- <-]; split; [by left|constructor]|by apply IH].
Qed.

Lemma sigevent_waiting reads failed s r k : sound_reads reads -> final_status s = true ->
  handle_sigevent child reads failed (mkWait child s) = (r, k) ->
  (r = None \/ (r = Some (mkWait child (last_status child reads s)) /\ final_status (last_status child reads s) = true)) /\
  Forall (fun k : Z * Z => k.1 = child) k.
Proof using.
  revert s r k. induction reads as [|info reads IH]; intros s r k Hs Hf; cbn [handle_sigevent].
  { intros [= <- <-]. split; [by destruct failed; [left|right]|constructor]. }
  inversion Hs as [|?? Hi Hr]; subst. unfold last_status. cbn [fold_left]. destruct (ssi_signo info =? SIGCHLD); cbn [negb].
  - destruct (reap_child (reaped info) s) as (s' & E & F). rewrite E.
    destruct (wait_failed info); [intros [= <- <-]; split; [by left|constructor]|]. apply IH; [done|by apply F].
  - destruct (handle_sigevent child reads failed (mkWait child s)) as [r' k'] eqn:E. intros [= <- <-].
    destruct (IH s r' k' Hr Hf E) as [H1 H2]. split; [done|]. destruct (negb _); [by constructor|done].
Qed.

Lemma on_signal_settled reads failed proc timer code st : sound_reads reads -> settled code st ->
  match on_signal child reads failed proc timer st with
  | Running st' => settled code st' /\ done_ st' = done_ st
  | Returned _ c => c = -1
  | Hang _ => False
  end.
Proof using child_pid.
  intros Hs (Hp & Hc & Hk). unfold on_signal. rewrite Hp.
  destruct (handle_sigevent (-1) reads failed (waitChild st)) as [r k] eqn:E.
  destruct (sigevent_settled _ _ _ _ _ Hs E) as [[-> | ->] Hk']; [done|].
  rewrite Hp. replace (-1 =? child) with false by (symmetry; apply Z.eqb_neq; lia).
  split; [|done]. split_and!; [done|done|]. cbn. apply Forall_app. split; [done|].
  eapply Forall_impl; [exact Hk'|]. intros x ->. by right.
Qed.

Lemma on_signal_first reads failed proc timer st : sound_reads reads -> waiting st ->
  match on_signal child reads failed proc timer st with
  | Running st' => settled (exit_code (last_status child reads 0)) st' /\ done_ st' = negb (shouldWait proc)
  | Returned _ c => c = -1
  | Hang _ => False
  end.
Proof using child_pid.
  intros Hs (Hw & Hd & Ht & Hk). unfold on_signal. rewrite Hw. cbn [pid].
  destruct (handle_sigevent child reads failed (mkWait child 0)) as [r k] eqn:E.
  destruct (sigevent_waiting reads failed 0 r k Hs eq_refl E) as [[->|[-> Hf]] Hk']; [done|]. cbn [pid]. rewrite Z.eqb_refl.
  unfold exit_code. cbn [status]. unfold final_status in Hf.
  destruct (WIFEXITED (last_status child reads 0)); [|cbn [orb] in Hf; rewrite Hf]; cbn;
    (destruct timer; [|done]; rewrite Hd; split; [|done]; split_and!; [done|done|]; cbn; rewrite Hk;
     eapply Forall_impl; [exact Hk'|]; intros x ->; by left).
Qed.

Lemma on_client_keeps c st : match on_client arg_max c st with
  | Running st' => waitChild st' = waitChild st /\ childExitCode st' = childExitCode st /\ timerfd st' = timerfd st /\
                   kills st' = kills st /\ (done_ st = false -> done_ st' = false)
  | Hang _ => True
  | Returned _ _ => False
  end.
Proof using. unfold on_client. destruct (negb _); [done|]. by destruct (handle_client arg_max c). Qed.

Lemma events_settled i ret events code st : Forall sound_event events -> settled code st ->
  match handle_events child arg_max i ret events st with
  | Running st' => settled code st'
  | Returned _ c => c = -1
  | Hang _ => True
  end.
Proof using child_pid.
  intros Hs. revert i ret st. induction Hs as [|e events He Hs IH]; intros i ret st S; cbn [handle_events]; [done|].
  destruct (negb (i <? ret)); [done|]. destruct e as [reads failed proc timer|failed proc|c].
  - pose proof (on_signal_settled reads failed proc timer code st He S) as O.
    destruct (on_signal _ _ _ _ _ _); [by apply IH, O|done|done].
  - destruct (timerfd st); [|by apply IH]. destruct (_ =? -1); [done|]. apply IH. by destruct (_ =? 0).
  - pose proof (on_client_keeps c st) as O. destruct (on_client arg_max c st); [|done|done]. apply IH.
    destruct O as (E1 & E2 & _ & E4 & _), S as (S1 & S2 & S3). unfold settled. by rewrite E1, E2, E4.
Qed.

Lemma events_waiting i ret events st : Forall sound_event events -> waiting st -> ret = i + Z.of_nat (length events) ->
  match handle_events child arg_max i ret events st with
  | Running st' => match first_signal events with
                   | None => waiting st'
                   | Some reads => settled (exit_code (last_status child reads 0)) st'
                   end
  | Returned _ c => c = -1
  | Hang _ => True
  end.
Proof using child_pid.
  intros Hs. revert i st. induction Hs as [|e events He Hs IH]; intros i st W ->; cbn [handle_events first_signal]; [done|].
  replace (negb (i <? i + Z.of_nat (length (e :: events)))) with false
    by (symmetry; apply negb_false_iff, Z.ltb_lt; cbn [length]; lia).
  assert (forall e, i + Z.of_nat (length (e :: events)) = i + 1 + Z.of_nat (length events)) as Hl by (intros; cbn [length]; lia).
  destruct e as [reads failed proc timer|failed proc|c].
  - pose proof (on_signal_first reads failed proc timer st He W) as O.
    destruct (on_signal _ _ _ _ _ _); [|done|done]. apply events_settled; [done|apply O].
  - pose proof W as (_ & _ & W3 & _). rewrite W3. by apply IH.
  - pose proof (on_client_keeps c st) as O. destruct (on_client arg_max c st); [|done|done]. apply IH; [|done].
    destruct O as (E1 & _ & E3 & E4 & E5), W as (W1 & W2 & W3 & W4). unfold waiting. rewrite E1, E3, E4. auto.
Qed.

Lemma run_settled polls code st st' c : Forall sound_event (polls ≫= events_of) -> settled code st ->
  run_init child arg_max polls st = Returned st' c -> c = -1 \/ c = code.
Proof using child_pid.
  revert st. induction polls as [|[| |events] polls IH]; intros st Hs S; cbn [run_init]; try done; [by apply IH|by intros [= _ <-]; left|].
  rewrite bind_cons in Hs. cbn [events_of] in Hs. apply Forall_app in Hs as [He Hs].
  pose proof (events_settled 0 (Z.of_nat (length events)) events code st He S) as O.
  destruct (handle_events _ _ _ _ _ _) as [st1|st1 c1|st1]; [|intros [= _ <-]; by left|done].
  destruct (done_ st1); [intros [= _ <-]; right; apply O|by apply IH].
Qed.

Lemma run_waiting polls st st' c : Forall sound_event (polls ≫= events_of) -> waiting st ->
  run_init child arg_max polls st = Returned st' c ->
  c = -1 \/ exists reads, first_signal (polls ≫= events_of) = Some reads /\ c = exit_code (last_status child reads 0).
Proof using child_pid.
  revert st. induction polls as [|[| |events] polls IH]; intros st Hs W; cbn [run_init]; try done; [by apply IH|by intros [= _ <-]; left|].
  rewrite bind_cons in Hs |- *. cbn [events_of] in Hs |- *. apply Forall_app in Hs as [He Hs].
  pose proof (events_waiting 0 (Z.of_nat (length events)) events st He W eq_refl) as O.
  destruct (handle_events _ _ _ _ _ _) as [st1|st1 c1|st1]; [|intros [= _ <-]; by left|done].
  assert (forall l, first_signal (events ++ l) = match first_signal events with Some r => Some r | None => first_signal l end) as Hf.
  { intros l. clear. induction events as [|[]]; cbn; auto. }
  rewrite Hf. destruct (first_signal events) as [reads|].
  - assert (settled (exit_code (last_status child reads 0)) st1 -> run_init child arg_max polls st1 = Returned st' c ->
      c = -1 \/ c = exit_code (last_status child reads 0)) as R by (apply run_settled; done).
    destruct (done_ st1); [intros [= _ <-]|intros E; destruct (R O E)]; eauto. right. exists reads. split; [done|apply O].
  - pose proof O as (_ & Hd & _). rewrite Hd. by apply IH.
Qed.

End invariant.

(** ** The exit status *)

Lemma reap_absent child l w : Forall (fun r : Z * Z => r.1 <> child) l -> reap child l w = w.
Proof. induction 1 as [|[p s] l Hp Hl IH]; [done|]. cbn [reap]. cbn in Hp. by destruct (Z.eqb_spec p child). Qed.

Lemma last_status_absent child reads s : Forall (fun info => Forall (fun r : Z * Z => r.1 <> child) (reaped info)) reads ->
  last_status child reads s = s.
Proof.
  intros Hr. unfold last_status. induction Hr as [|info reads Hi Hr IH]; cbn [fold_left]; [done|].
  destruct (_ =? _); [|exact IH]. rewrite (reap_absent _ _ _ Hi). exact IH.
Qed.

(** What [ll-init] returns is decided by the first signal event it handles,
    whichever signal it is: the exit status of the application when that event
    reaps it, and 0 when it does not -- the status of an application that ends
    after some other signal or child is lost. *)
Theorem init_exit_status child arg_max single polls st c : 0 < child -> Forall sound_event (polls ≫= events_of) ->
  run_init child arg_max polls (start child single) = Returned st c -> c <> -1 ->
  exists reads, first_signal (polls ≫= events_of) = Some reads /\ c = exit_code (last_status child reads 0) /\
    (Forall (fun info => Forall (fun r : Z * Z => r.1 <> child) (reaped info)) reads -> c = 0).
Proof.
  intros Hc Hs E Hn. destruct (run_waiting child arg_max Hc polls (start child single) st c Hs) as [->|(reads & Hf & ->)];
    [by split_and!|done|done|].
  exists reads. split_and!; [done|done|]. intros Ha. by rewrite last_status_absent.
Qed.

(** ** When it leaves *)

(** Nobody else is seen: [/proc] cannot be opened, or none of the directories
    in it has the number of another process for its name. *)
Definition seen_alone (proc : option (list (bool * str))) : Prop :=
  forall entries, proc = Some entries -> forall name pid, (true, name) ∈ entries -> stoi name = Some pid -> pid = 1.

Lemma shouldWait_spec proc : shouldWait proc = false <-> seen_alone proc.
Proof.
  unfold shouldWait, seen_alone. destruct proc as [entries|]; [|done]. rewrite <- not_true_iff_false, existsb_exists. split.
  - intros Hn l [= <-] name n Hin En. destruct (Z.eqb_spec n 1) as [|Hne]; [done|]. destruct Hn. exists (true, name).
    split; [by apply list_elem_of_In|]. cbn. rewrite En. by rewrite (proj2 (Z.eqb_neq n 1) Hne).
  - intros Ha ([d name] & Hin & Hb). cbn in Hb. apply andb_true_iff in Hb as [-> Hb]. destruct (stoi name) as [n|] eqn:En; [|done].
    rewrite (Ha entries eq_refl name n) in Hb; [done| |done]. by apply list_elem_of_In.
Qed.

(** Handling the event looks at [/proc], and sees nobody else. *)
Inductive finds_alone (child : Z) (st : init_state) : init_event -> Prop :=
| alone_signal reads failed proc timer w sent :
    handle_sigevent (pid (waitChild st)) reads failed (waitChild st) = (Some w, sent) -> pid w = child ->
    seen_alone proc -> finds_alone child st (SignalEvent reads failed proc timer)
| alone_timer proc : timerfd st = true -> seen_alone proc -> finds_alone child st (TimerEvent false proc).

(** After the last look that found nobody, no command is taken. *)
Definition left_alone (child arg_max i ret : Z) (events : list init_event) (st st' : init_state) : Prop :=
  exists before e after st1, events = before ++ e :: after /\ handle_events child arg_max i ret before st = Running st1 /\
    finds_alone child st1 e /\ commands st' = commands st1.

Lemma left_alone_more child arg_max i ret i1 ret1 e events st st1 st' :
  (forall l, handle_events child arg_max i ret (e :: l) st = handle_events child arg_max i1 ret1 l st1) ->
  left_alone child arg_max i1 ret1 events st1 st' -> left_alone child arg_max i ret (e :: events) st st'.
Proof.
  intros Hstep (before & e' & after & st2 & -> & Hb & Hf & Hc). exists (e :: before), e', after, st2.
  split; [done|]. by rewrite Hstep.
Qed.

Lemma events_alone child arg_max i ret events st st' : handle_events child arg_max i ret events st = Running st' ->
  done_ st' = true -> (done_ st = true /\ commands st' = commands st) \/ left_alone child arg_max i ret events st st'.
Proof.
  intros E Ht. revert i ret st E. induction events as [|e events IH]; intros i ret st E; [injection E as ->; by left|].
  cbn [handle_events] in E. destruct (negb (i <? ret)) eqn:Ei; [injection E as ->; by left|].
  assert (IH' : forall i1 ret1 st1, (forall l, handle_events child arg_max i ret (e :: l) st = handle_events child arg_max i1 ret1 l st1) ->
    handle_events child arg_max i1 ret1 events st1 = Running st' -> commands st1 = commands st ->
    (done_ st1 = true -> done_ st = true \/ finds_alone child st e) ->
    (done_ st = true /\ commands st' = commands st) \/ left_alone child arg_max i ret (e :: events) st st').
  { intros i1 ret1 st1 Hstep E1 Hcmd Hd. destruct (IH i1 ret1 st1 E1) as [[Hd1 Hc1]|Hl]; [|right; by eapply left_alone_more].
    destruct (Hd Hd1) as [?|Hf]; [left; split; congruence|right]. exists [], e, events, st. split_and!; [done|done|done|congruence]. }
  destruct e as [reads failed proc timer|failed proc|c].
  - destruct (on_signal child reads failed proc timer st) as [st1| |] eqn:Eo; [|done|done].
    eapply (IH' _ _ st1); [intros l; cbn [handle_events]; by rewrite Ei, Eo|exact E|..]; unfold on_signal in Eo;
      destruct (handle_sigevent _ _ _ _) as [[w|] k] eqn:Eh; try done; cbn -[WIFEXITED WIFSIGNALED] in Eo;
      destruct (Z.eqb_spec (pid w) child) as [Hp|Hp];
      try (destruct (WIFEXITED (status w)), (WIFSIGNALED (status w)); destruct timer; try done);
      injection Eo as <-; cbn; try done; try (by left);
      intros [?|Hs%negb_true_iff]%orb_true_iff; [by left|right|by left|right|by left|right|by left|right];
      (eapply alone_signal; [exact Eh|exact Hp|by apply shouldWait_spec]).
  - destruct (timerfd st) eqn:Et.
    + destruct (handle_timerfdevent failed proc =? -1) eqn:Er; [done|].
      eapply IH'; [intros l; cbn [handle_events]; by rewrite Ei, Et, Er|exact E|by destruct (_ =? 0)|].
      unfold handle_timerfdevent in *. destruct failed; [done|]. destruct (shouldWait proc) eqn:Es; cbn; [by left|right].
      apply alone_timer; [done|by apply shouldWait_spec].
    + eapply IH'; [intros l; cbn [handle_events]; by rewrite Ei, Et|exact E|done|by left].
  - destruct (on_client arg_max c st) as [st1| |] eqn:Eo; [|done|done]. unfold on_client in Eo.
    destruct (negb (unix_socket st)) eqn:Eu.
    + injection Eo as <-. eapply IH'; [intros l; cbn [handle_events]; unfold on_client; by rewrite Ei, Eu|exact E|done|by left].
    + destruct (handle_client arg_max c) as [|argv reply|] eqn:Eh; [| |done]; injection Eo as <-.
      * eapply IH'; [intros l; cbn [handle_events]; unfold on_client; by rewrite Ei, Eu, Eh|exact E|done|by left].
      * destruct (IH _ _ _ E) as [[? _]|Hl]; [done|]. right.
        eapply left_alone_more; [|exact Hl]. intros l. cbn [handle_events]. unfold on_client. by rewrite Ei, Eu, Eh.
Qed.

(** An error ends it with -1. *)
Lemma events_error child arg_max i ret events st st' c : handle_events child arg_max i ret events st = Returned st' c -> c = -1.
Proof.
  revert i ret st. induction events as [|e events IH]; intros i ret st; cbn [handle_events]; [done|].
  destruct (negb (i <? ret)); [done|]. destruct e as [reads failed proc timer|failed proc|cl].
  - unfold on_signal. destruct (handle_sigevent _ _ _ _) as [[w|] k]; [|by intros [= _ <-]].
    destruct (pid w =? child); [|by apply IH].
    destruct (WIFEXITED (status w)), (WIFSIGNALED (status w)); (destruct timer; [by apply IH|by intros [= _ <-]]).
  - destruct (timerfd st); [|by apply IH]. destruct (_ =? -1); [by intros [= _ <-]|by apply IH].
  - pose proof (on_client_keeps arg_max cl st) as O. destruct (on_client arg_max cl st); [by apply IH|done|done].
Qed.

(** C32: when [ll-init] leaves without an error (with anything but -1), it does so
    right after the poll in which it last looked at [/proc] and saw nobody but
    itself -- or could not open it --, on a signal or an expiration of its timer;
    no command of a client was taken after that look, and the status is the
    recorded one.  And once it has a timer, the first expiration that sees nobody
    makes it leave. *)
Theorem init_leaves_alone child arg_max single polls st c :
  run_init child arg_max polls (start child single) = Returned st c -> c <> -1 ->
  (exists polls1 events polls2 st1, polls = polls1 ++ Events events :: polls2 /\
     run_init child arg_max polls1 (start child single) = Running st1 /\
     run_init child arg_max (polls1 ++ [Events events]) (start child single) = Returned st c /\ c = childExitCode st /\
     left_alone child arg_max 0 (Z.of_nat (length events)) events st1 st) /\
  (forall st1 proc polls1, timerfd st1 = true -> seen_alone proc ->
     run_init child arg_max (Events [TimerEvent false proc] :: polls1) st1 = Returned (with_done true st1) (childExitCode st1)).
Proof.
  intros E Hn. split.
  - assert (done_ (start child single) = false) as Hd by done. revert Hd E. generalize (start child single) as st0.
    induction polls as [|[| |events] polls IH]; intros st0 Hd E; cbn [run_init] in E; [done| |by injection E as _ <-|].
    { destruct (IH st0 Hd E) as (polls1 & events & polls2 & st1 & -> & H1 & H2 & H3). by exists (Interrupted :: polls1), events, polls2, st1. }
    destruct (handle_events _ _ _ _ _ _) as [st1|st1 c1|st1] eqn:Eh; [| |done].
    + destruct (done_ st1) eqn:Ed.
      * injection E as -> <-. exists [], events, polls, st0. split_and!; [done|done| |done|].
        -- cbn [app run_init]. by rewrite Eh, Ed.
        -- destruct (events_alone _ _ _ _ _ _ _ Eh Ed) as [[? _]|?]; [congruence|done].
      * destruct (IH st1 Ed E) as (polls1 & events' & polls2 & st2 & -> & E1 & E2 & E3).
        exists (Events events :: polls1), events', polls2, st2. split_and!; [done| | |apply E3|apply E3];
          cbn [app run_init]; by rewrite Eh, Ed.
    + injection E as _ <-. exfalso. apply Hn. by eapply events_error.
  - intros st1 proc polls1 Ht Hp%shouldWait_spec. cbn [run_init length handle_events]. cbn. rewrite Ht. unfold handle_timerfdevent. by rewrite Hp.
Qed.

(** ** Commands *)

Definition received (packets : list packet) : str := packets ≫= fun p => match p with Data b => take buffer_size b | RecvError => [] end.

Lemma read_command_none arg_len packets buffer : read_command arg_len packets buffer = None <->
  RecvError ∉ packets /\ Z.of_nat (length (buffer ++ received packets)) < arg_len.
Proof.
  revert buffer. induction packets as [|[p|] packets IH]; intros buffer; cbn [read_command].
  - rewrite app_nil_r. destruct (Z.leb_spec arg_len (Z.of_nat (length buffer))); split; try done; [lia|split; [by apply not_elem_of_nil|done]].
  - unfold received. rewrite bind_cons. fold (received packets). rewrite app_assoc.
    destruct (Z.leb_spec arg_len (Z.of_nat (length (buffer ++ take buffer_size p)))) as [Hl|Hl].
    + split; [done|]. intros [_ H]. rewrite length_app in H. lia.
    + rewrite IH. split; intros [H1 H2]; (split; [set_solver|done]).
  - split; [done|]. intros [H _]. exfalso. apply H. left.
Qed.

(** The loop that receives a command ends unless the peer keeps it: exactly
    when the peer has announced more than it sends, within the limit, and has
    closed -- no receive fails -- the handler never returns, and with it the
    process that has to reap and forward. *)
Theorem handle_client_returns arg_max c : handle_client arg_max c = Spinning <->
  accepted c = true /\ timeout_set c = true /\
  exists p rest, sent c = Data p :: rest /\ le_read (take 8 p) <= arg_max /\
    RecvError ∉ rest /\ Z.of_nat (length (received rest)) < le_read (take 8 p).
Proof.
  unfold handle_client. destruct (accepted c), (timeout_set c); cbn [andb negb]; try (split; [done|naive_solver]).
  destruct (sent c) as [|[p|] rest].
  - split; [|naive_solver]. destruct (arg_max <? 0); [done|]. cbn. done.
  - destruct (Z.ltb_spec arg_max (le_read (take 8 p))) as [Hl|Hl]; [split; [done|]; intros (_ & _ & p' & rest' & [= <- <-] & H & _); lia|].
    destruct (read_command (le_read (take 8 p)) rest []) as [[buf|]|] eqn:E.
    + split.
      * destruct buf; [done|]. by destruct (parse_commands _).
      * intros (_ & _ & p' & rest' & [= <- <-] & _ & H). by rewrite (proj2 (read_command_none _ _ [])) in E.
    + split; [done|]. intros (_ & _ & p' & rest' & [= <- <-] & _ & H). by rewrite (proj2 (read_command_none _ _ [])) in E.
    + split; [|done]. intros _. apply read_command_none in E as [E1 E2]. naive_solver.
  - split; [done|naive_solver].
Qed.

(** The words of a command line of plain, single-quoted and escaped characters
    (POSIX shell, 2.2 and 2.3): [started] says whether a word is being read. *)
Fixpoint sh_words (quoted started : bool) (current s : str) : option (list str) :=
  match s with
  | [] => if quoted then None else Some (if started then [current] else [])
  | c :: s =>
      if bool_decide (c = "'"%char) then sh_words (negb quoted) true current s
      else if quoted then sh_words quoted true (current ++ [c]) s
      else if bool_decide (c = " "%char) then
        if started then cons current <$> sh_words false false [] s else sh_words false false [] s
      else if bool_decide (c = "\"%char) then
        match s with [] => None | d :: s => sh_words false true (current ++ [d]) s end
      else sh_words false true (current ++ [c]) s
  end.

Example sh_words_1 : sh_words false false [] (lit "'a b' c\'d  ''") = Some [lit "a b"; lit "c'd"; []]. Proof. reflexivity. Qed.

Lemma quote_closed arg : quote arg = lit "'" ++ (arg ≫= quoted_chr) ++ lit "'".
Proof.
  unfold quote, quoteBashArg. pose proof (quote_loop_spec arg [] (S (length arg)) ltac:(lia)) as E. cbn [app length] in E. by rewrite E.
Qed.

Lemma sh_words_quoted arg current s : sh_words true true current ((arg ≫= quoted_chr) ++ "'"%char :: s) =
  sh_words false true (current ++ arg) s.
Proof.
  revert current. induction arg as [|c arg IH]; intros current; [cbn; by rewrite app_nil_r|].
  rewrite bind_cons. unfold quoted_chr at 1. case_bool_decide as Ec.
  - subst c. rewrite <- app_assoc.
    change (sh_words true true current (lit "'\''" ++ (arg ≫= quoted_chr) ++ "'"%char :: s))
      with (sh_words true true (current ++ ["'"%char]) ((arg ≫= quoted_chr) ++ "'"%char :: s)).
    rewrite IH. by rewrite <- app_assoc.
  - cbn [app sh_words]. rewrite bool_decide_false by done. rewrite IH. by rewrite <- app_assoc.
Qed.

Lemma bash_content_words commands : sh_words false false [] (bash_content commands) = Some commands.
Proof.
  induction commands as [|arg commands IH]; [done|]. unfold bash_content. rewrite bind_cons. fold (bash_content commands).
  rewrite quote_closed, <- !app_assoc.
  change (sh_words true true [] ((arg ≫= quoted_chr) ++ "'"%char :: " "%char :: bash_content commands) = Some (arg :: commands)).
  rewrite sh_words_quoted.
  change (cons ([] ++ arg) <$> sh_words false false [] (bash_content commands) = Some (arg :: commands)). by rewrite IH.
Qed.

Lemma split_commands_join l current rest : Forall (fun a => NUL ∉ a) l -> 
  split_commands current ((l ≫= fun a => a ++ [NUL]) ++ rest) =
  match l with [] => split_commands current rest | a :: l => (current ++ a) :: l ++ split_commands [] rest end.
Proof.
  intros Hl. revert current. induction Hl as [|a l Ha Hl IH]; intros current; [done|]. rewrite bind_cons.
  assert (forall cur s, split_commands cur ((a ++ [NUL]) ++ s) = (cur ++ a) :: split_commands [] s) as E.
  { clear IH. induction a as [|c a IH]; intros cur s; cbn; [by rewrite app_nil_r|].
    rewrite bool_decide_false by set_solver. rewrite IH by set_solver. by rewrite <- app_assoc. }
  rewrite <- app_assoc, E, IH. f_equal. by destruct l.
Qed.

Lemma bash_content_nul commands : Forall (fun a => NUL ∉ a) commands -> NUL ∉ bash_content commands.
Proof.
  intros Hc. unfold bash_content. intros Hin. apply list_elem_of_bind in Hin as (arg & Hin & Harg).
  rewrite quote_closed in Hin. rewrite Forall_forall in Hc. specialize (Hc arg Harg).
  rewrite !elem_of_app in Hin. destruct Hin as [[Hin|[Hin|Hin]]|Hin];
    try (apply list_elem_of_In in Hin; cbn in Hin; naive_solver).
  apply list_elem_of_bind in Hin as (c & Hin & Hc'). unfold quoted_chr in Hin. case_bool_decide.
  - apply list_elem_of_In in Hin. cbn in Hin. naive_solver.
  - apply list_elem_of_singleton in Hin as <-. done.
Qed.

Lemma parse_command_data commands : Forall (fun a => NUL ∉ a) commands ->
  parse_commands (command_data commands) = delegated_argv commands ++ [[]].
Proof.
  intros Hc. unfold parse_commands, command_data. rewrite last_snoc, bool_decide_true by done.
  rewrite split_commands_join; [|unfold delegated_argv; repeat constructor; try by apply (bool_decide_unpack _)].
  - done.
  - by apply bash_content_nul.
Qed.

(** The answer a client receives. *)
Definition reply_of (r : handled) : option Z := match r with Delegated _ reply => Some reply | _ => None end.

(** C26: a command that fits the buffer of [ll-init] arrives as it was given:
    the arguments the client packs are the ones [bash] is started with (and an
    empty one), and the line it reads consists of the words of the command.  A
    longer one is refused after the timeout, and the client says so. *)
Theorem delegate_runs commands arg_max (n := length (command_data commands)) : Forall (fun a => NUL ∉ a) commands ->
  Z.of_nat n < 2 ^ 64 -> Z.of_nat n <= arg_max ->
  exists packets, delegate_packets true true [Sent n] commands = Some packets /\
    let r := handle_client arg_max (mkClient true true (packets ++ [RecvError]) true) in
    r = (if (n <=? buffer_size)%nat then Delegated (delegated_argv commands ++ [[]]) 0 else Refused) /\
    delegateToContainerInit true true [Sent n] (reply_of r) commands = (n <=? buffer_size)%nat /\
    sh_words false false [] (bash_content commands) = Some commands.
Proof.
  intros Hc Hn Hm. assert (0 < n)%nat as Hpos by (unfold n, command_data; rewrite length_app; cbn; lia).
  assert (delegate_packets true true [Sent n] commands = Some [Data (le_bytes 8 (Z.of_nat n)); Data (command_data commands)]) as E.
  { unfold delegate_packets. cbn [andb negb]. fold n. destruct n as [|n'] eqn:En; [lia|]. cbn [send_data].
    rewrite Nat.sub_diag, take_take, Nat.min_id. cbn [send_data]. rewrite take_ge by (unfold n in En; lia). done. }
  exists [Data (le_bytes 8 (Z.of_nat n)); Data (command_data commands)]. split; [done|].
  match goal with |- let r := ?R in _ => assert (R = if (n <=? buffer_size)%nat then Delegated (delegated_argv commands ++ [[]]) 0 else Refused) as Hr end.
  - unfold handle_client. cbn [accepted timeout_set sent andb negb app].
    rewrite take_ge by (by rewrite le_bytes_length). rewrite le_read_bytes, Z.mod_small by (change (256 ^ Z.of_nat 8) with (2 ^ 64); lia).
    destruct (Z.ltb_spec arg_max (Z.of_nat n)); [lia|]. cbn [read_command app]. destruct (Nat.leb_spec n buffer_size) as [Hb|Hb].
    + rewrite take_ge by done. fold n. destruct (Z.leb_spec (Z.of_nat n) (Z.of_nat n)); [|lia].
      rewrite parse_command_data by done. destruct (command_data commands) eqn:Ed; [subst n; cbn in Hpos; lia|done].
    + rewrite length_take. destruct (Z.leb_spec (Z.of_nat n) (Z.of_nat (buffer_size `min` length (command_data commands)))); [fold n in H; lia|done].
  - cbn zeta. rewrite Hr. split; [done|]. split; [|apply bash_content_words].
    unfold delegateToContainerInit. rewrite E. by destruct (n <=? buffer_size)%nat.
Qed.

(** ** Examples *)

(** A signal from another process is forwarded before the application fails. *)
Definition example_polls : list poll :=
  [Events [SignalEvent [mkSig 28 9 [] false] false (Some [(true, lit "1"); (true, lit "7")]) true];
   Interrupted;
   Events [ClientEvent (mkClient true true [] true);
           SignalEvent [mkSig SIGCHLD 7 [(7, 256)] false] false (Some [(true, lit "1")]) true];
   Events [TimerEvent false (Some [(true, lit "1"); (true, lit "self")])]].

Definition example_end : init_state := mkInit (mkWait (-1) 0) 0 true true true [(7, 28)] [].

Lemma example_init_run : run_init 7 131072 example_polls (start 7 false) = Returned example_end 0.
Proof. vm_compute. reflexivity. Qed.

Lemma example_sound : Forall sound_event (example_polls ≫= events_of).
Proof. repeat constructor. Qed.

(** The application alone: its failure is reported. *)
Example run_fails : exists st,
  run_init 7 131072 [Events [SignalEvent [mkSig SIGCHLD 7 [(7, 256)] false] false (Some [(true, lit "1")]) true]] (start 7 true) = Returned st 1.
Proof. eexists. vm_compute. reflexivity. Qed.

Lemma init_exit_status_witness : run_init 7 131072 example_polls (start 7 false) = Returned example_end 0 /\
  exit_code 256 = 1 /\ exists reads, first_signal (example_polls ≫= events_of) = Some reads /\ 0 = exit_code (last_status 7 reads 0).
Proof.
  split; [exact example_init_run|]. split; [reflexivity|].
  destruct (init_exit_status 7 131072 false example_polls example_end 0) as (reads & Hf & Hc & _);
    [lia|exact example_sound|exact example_init_run|lia|].
  exists reads. split; [exact Hf|exact Hc].
Defined.

Lemma init_leaves_alone_witness : exists polls1 events polls2 st1, example_polls = polls1 ++ Events events :: polls2 /\
  left_alone 7 131072 0 (Z.of_nat (length events)) events st1 example_end.
Proof.
  destruct (init_leaves_alone 7 131072 false example_polls example_end 0)
    as [(polls1 & events & polls2 & st1 & E & _ & _ & _ & Hl) _]; [exact example_init_run|lia|].
  exists polls1, events, polls2, st1. split; [exact E|exact Hl].
Defined.

Lemma delegate_runs_witness : Z.of_nat (length (command_data [lit "echo"; lit "it's"])) = 35 /\
  exists packets, delegate_packets true true [Sent 35] [lit "echo"; lit "it's"] = Some packets /\
    handle_client 131072 (mkClient true true (packets ++ [RecvError]) true) =
      Delegated [lit "bash"; lit "--login"; lit "-c"; lit "'echo' 'it'\''s' "; []] 0.
Proof.
  split; [vm_compute; reflexivity|].
  destruct (delegate_runs [lit "echo"; lit "it's"] 131072) as (packets & Hp & Hr & _);
    [repeat constructor; by apply (bool_decide_unpack _)|vm_compute; reflexivity|vm_compute; discriminate|].
  exists packets. split; [exact Hp|exact Hr].
Defined.
