(* ===== verification/LayerFile.v ===== *)
(** * Layer files ([layer_file.cpp], [layer_packager.cpp], [packageinfo_handler.cpp])

    A layer file is a magic number of 40 bytes, the length of a JSON text in
    four bytes (little-endian), the text, and an erofs image.  A [LayerFile] is
    the open file: its bytes, the position of the device and the length that is
    remembered; reading moves the position.  [pack] writes a file and [unpack]
    mounts or extracts the image; the commands they run and the files they
    write answer through an environment. *)
From S2P Require Import Prelude Types Sha256.

(** ** Parameters *)

(** The JSON library with the generated conversions: what was printed is
    parsed, what was converted is converted back, and a text has no NUL. *)
Class JsonLib := {
  json : Type;
  json_of_info : PackageInfoV2 -> json;
  info_of_json : json -> option PackageInfoV2;
  old_of_json : json -> option PackageInfo;
  json_of_layer : str * json -> json;
  layer_of_json : json -> option (str * json);
  dump : json -> str;
  parse : str -> option json;
  parse_dump : forall j, parse (dump j) = Some j;
  parse_empty : parse [] = None;
  dump_text : forall j, "000"%char ∉ dump j;
  info_of_info : forall i, info_of_json (json_of_info i) = Some i;
  layer_of_layer : forall l, layer_of_json (json_of_layer l) = Some l
}.

Definition ec_AppInstallErofsNotFound : Z := 2010.

(** ** Package information *)

Definition PACKAGE_INFO_VERSION : str := lit "1.0".

Definition toPackageInfoV2 (oldInfo : PackageInfo) : PackageInfoV2 :=
  mkInfo (p1_arch oldInfo) (p1_base oldInfo) (default (lit "main") (p1_channel oldInfo)) (p1_command oldInfo) None
    (p1_description oldInfo) None None (p1_appid oldInfo) (p1_kind oldInfo) (packageInfoModule oldInfo) (p1_name oldInfo)
    (p1_runtime oldInfo) PACKAGE_INFO_VERSION (p1_size oldInfo) None (p1_version oldInfo).

Section layers.
Context `{JsonLib}.

Definition parsePackageInfo (j : json) : result PackageInfoV2 :=
  match info_of_json j with
  | Some pkgInfo => Ok pkgInfo
  | None => match old_of_json j with Some oldPkgInfo => Ok (toPackageInfoV2 oldPkgInfo) | None => Err err_default end
  end.

(** The same from a file; [None] when it cannot be opened. *)
Definition parsePackageInfo_file (file : option str) : result PackageInfoV2 :=
  match file with
  | None => Err err_default
  | Some text => match parse text with Some j => parsePackageInfo j | None => Err err_default end
  end.

(** ** The file *)

(** [leftJustified]. *)
Definition leftJustified (width : nat) (fill : ascii) (s : str) : str := s ++ replicate (width - length s) fill.
Definition magicNumber : str := leftJustified 40 "000"%char (lit "<<< deepin linglong layer archive >>>").

Record LayerFile := mkLayerFile { content : str; position : nat; metaInfoLengthValue : Z; cleanup : bool }.

(** [QIODevice::read]. *)
Definition read (n : nat) (f : LayerFile) : str * LayerFile :=
  let data := take n (drop (position f) (content f)) in
  (data, mkLayerFile (content f) (position f + length data) (metaInfoLengthValue f) (cleanup f)).

(** [New(path)]: the file when it can be opened. *)
Definition New (file : option str) : result LayerFile :=
  match file with
  | None => Err err_default
  | Some content =>
      let '(magic, f) := read (length magicNumber) (mkLayerFile content 0 0 false) in
      if bool_decide (magic = magicNumber) then Ok f else Err err_default
  end.

Definition setCleanStatus (status : bool) (f : LayerFile) : LayerFile :=
  mkLayerFile (content f) (position f) (metaInfoLengthValue f) status.

(** The length is read from the current position; a short read is rolled back,
    with the value 0. *)
Definition metaInfoLength (f : LayerFile) : result Z * LayerFile :=
  if 0 <? metaInfoLengthValue f then (Ok (metaInfoLengthValue f), f)
  else
    let '(data, f') := read 4 f in
    if (length data =? 4)%nat then
      (Ok (le_read data), mkLayerFile (content f') (position f') (le_read data) (cleanup f'))
    else (Err err_default, mkLayerFile (content f) (position f) 0 (cleanup f)).

(** What a C string holds. *)
Fixpoint c_string (s : str) : str :=
  match s with
  | c :: s => if bool_decide (c = "000"%char) then [] else c :: c_string s
  | [] => []
  end.

Definition metaInfo (f : LayerFile) : result (str * json) * LayerFile :=
  match metaInfoLength f with
  | (Err e, f) => (Err e, f)
  | (Ok ret, f) =>
      let '(rawData, f) := read (Z.to_nat ret) f in
      (match parse (c_string rawData) ≫= layer_of_json with Some layerInfo => Ok layerInfo | None => Err err_default end, f)
  end.

(** Computed with 64 bits and returned with 32. *)
Definition binaryDataOffset (f : LayerFile) : result Z * LayerFile :=
  match metaInfoLength f with
  | (Err e, f) => (Err e, f)
  | (Ok size, f) => (Ok (u32 (Z.of_nat (length magicNumber) + size + 4)), f)
  end.

(** ** Packing *)

Record pack_env := mkPackEnv {
  pk_open : bool;
  pk_write_magic : bool;
  pk_info : result PackageInfoV2;
  pk_write_size : bool;
  pk_write_data : bool;
  pk_erofs : option str;
  pk_cat : bool
}.

(** The bytes in front of the image. *)
Definition layer_head (info : PackageInfoV2) : str :=
  let data := dump (json_of_layer (lit "1", json_of_info info)) in
  magicNumber ++ le_bytes 4 (u32 (Z.of_nat (length data))) ++ data.

(** The file that is written, if any, and the result; when [cat] fails the
    error is dropped. *)
Definition pack (e : pack_env) : option str * result LayerFile :=
  if negb (pk_open e) then (None, Err err_default)
  else if negb (pk_write_magic e) then (Some [], Err err_default)
  else
    match pk_info e with
    | Err code => (Some magicNumber, Err code)
    | Ok info =>
        if negb (pk_write_size e) then (Some magicNumber, Err err_default)
        else if negb (pk_write_data e) then (Some (take 44 (layer_head info)), Err err_default)
        else
          match pk_erofs e with
          | None => (Some (layer_head info), Err err_default)
          | Some image =>
              let layer := layer_head info ++ (if pk_cat e then image else []) in
              (Some layer, New (Some layer))
          end
    end.

(** ** Unpacking *)

(** [copyFile]: blocks of 4096 bytes until one is empty. *)
Fixpoint copy_loop (fuel : nat) (f : LayerFile) (out : str) : option (str * LayerFile) :=
  match fuel with
  | O => None
  | S fuel =>
      let '(buff, f) := read 4096 f in
      match buff with
      | [] => Some (out, f)
      | _ => copy_loop fuel f (out ++ buff)
      end
  end.

Definition seek (n : nat) (f : LayerFile) : LayerFile := mkLayerFile (content f) n (metaInfoLengthValue f) (cleanup f).

Definition copyFile (written : bool) (f : LayerFile) (offset : Z) : result str * LayerFile :=
  let f := seek (Z.to_nat offset) f in
  match copy_loop (S (length (content f))) f [] with
  | Some (out, f) => (if written then Ok out else Err err_default, f)
  | None => (Err terminated, f)
  end.

(** What the result of [unpack] shows: a file mounted at an offset, or extracted. *)
Inductive unpacked :=
| Mounted (file : str) (offset : Z)
| Extracted (file : str).

(** The image the directory shows. *)
Definition image_of (u : unpacked) : str :=
  match u with Mounted file offset => drop (Z.to_nat offset) file | Extracted file => file end.

Record unpack_env := mkUnpackEnv {
  un_readable : bool;
  un_erofsfuse : result bool;
  un_fsck : result bool;
  un_written : bool;
  un_command : bool
}.

Definition unpack (e : unpack_env) (f : LayerFile) : result unpacked * LayerFile :=
  match binaryDataOffset f with
  | (Err code, f) => (Err code, f)
  | (Ok offset, f) =>
      match un_erofsfuse e with
      | Err code => (Err code, f)
      | Ok true =>
          let '(source, f) :=
            if un_readable e then (Ok (content f, offset), f)
            else let '(copy, f) := copyFile (un_written e) f offset in (copy <-r copy ;; Ok (copy, 0), f) in
          (s <-r source ;; if un_command e then Ok (Mounted s.1 s.2) else Err err_default, f)
      | Ok false =>
          match un_fsck e with
          | Err code => (Err code, f)
          | Ok true =>
              let '(copy, f) := copyFile (un_written e) f offset in
              (copy <-r copy ;; if un_command e then Ok (Extracted copy) else Err err_default, f)
          | Ok false => (Err ec_AppInstallErofsNotFound, f)
          end
      end
  end.

(** ** Facts *)

Lemma magic_length : length magicNumber = 40%nat.
Proof. reflexivity. Qed.

Lemma c_string_text s : "000"%char ∉ s -> c_string s = s.
Proof. induction s as [|c s IH]; intros Hs; [done|]. cbn. rewrite bool_decide_false by set_solver. by rewrite IH by set_solver. Qed.

(** An open file whose bytes start with a magic number, a length and a text. *)
Definition opened (bytes : str) : LayerFile := mkLayerFile bytes 40 0 false.

Lemma New_ok bytes f : New (Some bytes) = Ok f -> f = opened bytes /\ take 40 bytes = magicNumber.
Proof.
  unfold New, read. rewrite magic_length. cbn [position content drop]. case_bool_decide as E; [|done].
  intros [= <-]. split; [|done]. rewrite E, magic_length. done.
Qed.

Lemma metaInfoLength_opened bytes : metaInfoLength (opened bytes) =
  if (44 <=? length bytes)%nat
  then (Ok (le_read (take 4 (drop 40 bytes))), mkLayerFile bytes 44 (le_read (take 4 (drop 40 bytes))) false)
  else (Err err_default, opened bytes).
Proof.
  unfold metaInfoLength, read, opened. cbn [position content metaInfoLengthValue cleanup].
  change (0 <? 0) with false. cbv iota zeta. rewrite length_take, length_drop.
  destruct (Nat.leb_spec 44 (length bytes)) as [Hl|Hl].
  - replace (4 `min` (length bytes - 40))%nat with 4%nat by lia. done.
  - destruct (Nat.eqb_spec (4 `min` (length bytes - 40)) 4); [lia|done].
Qed.

Lemma copy_loop_all fuel f out : (length (drop (position f) (content f)) < fuel)%nat ->
  exists f', copy_loop fuel f out = Some (out ++ drop (position f) (content f), f').
Proof.
  revert f out. induction fuel as [|fuel IH]; intros f out Hf; [lia|]. cbn [copy_loop]. unfold read.
  set (rest := drop (position f) (content f)) in *. destruct (take 4096 rest) as [|c l] eqn:E.
  - exists (mkLayerFile (content f) (position f + length (@nil ascii)) (metaInfoLengthValue f) (cleanup f)).
    destruct rest; [by rewrite app_nil_r|done].
  - cbn [content position]. rewrite <- E. edestruct IH as (f' & Hf'); [|exists f'; rewrite Hf'].
    + cbn [content position]. rewrite <- drop_drop. fold rest. rewrite length_drop, length_take.
      assert (0 < length rest)%nat by (destruct rest; [done|cbn; lia]). lia.
    + cbn [content position]. rewrite <- drop_drop. fold rest. rewrite length_take, <- app_assoc.
      f_equal. f_equal. f_equal. destruct (Nat.le_gt_cases 4096 (length rest)) as [Hr|Hr].
      * replace (4096 `min` length rest)%nat with 4096%nat by lia. apply take_drop.
      * rewrite take_ge by lia. replace (4096 `min` length rest)%nat with (length rest) by lia. by rewrite drop_all, app_nil_r.
Qed.

Lemma copyFile_spec written f offset copy f' : copyFile written f offset = (Ok copy, f') ->
  copy = drop (Z.to_nat offset) (content f).
Proof.
  unfold copyFile. destruct (copy_loop_all (S (length (content (seek (Z.to_nat offset) f)))) (seek (Z.to_nat offset) f) []) as (f1 & E).
  { cbn [seek content position]. rewrite length_drop. lia. }
  rewrite E. destruct written; [|done]. by intros [= <- _].
Qed.

Lemma unpack_image e f u f' : unpack e f = (Ok u, f') ->
  exists offset f1, binaryDataOffset f = (Ok offset, f1) /\ content f1 = content f /\ image_of u = drop (Z.to_nat offset) (content f).
Proof.
  unfold unpack. assert (forall o f1, binaryDataOffset f = (o, f1) -> content f1 = content f) as Hc.
  { intros o f1. unfold binaryDataOffset, metaInfoLength, read. destruct (0 <? _); [by intros [= _ <-]|].
    destruct (_ =? _)%nat; by intros [= _ <-]. }
  destruct (binaryDataOffset f) as [[offset|] f1] eqn:E; [|done]. specialize (Hc _ _ eq_refl).
  intros Hu. exists offset, f1. split_and!; [done|done|]. rewrite <- Hc. revert Hu.
  destruct (un_erofsfuse e) as [[]|]; [| |done].
  - destruct (un_readable e).
    + cbn. destruct (un_command e); [|done]. by intros [= <- _].
    + destruct (copyFile _ _ _) as [[copy|] f2] eqn:Ec; [|done]. apply copyFile_spec in Ec. cbn.
      destruct (un_command e); [|done]. by intros [= <- _].
  - destruct (un_fsck e) as [[]|]; [|done|done].
    destruct (copyFile _ _ _) as [[copy|] f2] eqn:Ec; [|done]. apply copyFile_spec in Ec. cbn.
    destruct (un_command e); [|done]. by intros [= <- _].
Qed.

(** ** Properties *)

(** The offset of the image that [binaryDataOffset] reports has 32 bits: it
    is the end of the text when that fits, and otherwise wraps around into the
    first 44 bytes; there is none for a file that ends before its length. *)
Theorem layer_offset bytes f (size := le_read (take 4 (drop 40 bytes))) : New (Some bytes) = Ok f ->
  if (44 <=? length bytes)%nat
  then exists offset, fst (binaryDataOffset f) = Ok offset /\ 0 <= offset < 2 ^ 32 /\
         (offset = 44 + size \/ (2 ^ 32 <= 44 + size /\ offset = 44 + size - 2 ^ 32 /\ offset < 44))
  else binaryDataOffset f = (Err err_default, f).
Proof.
  intros [-> _]%New_ok. unfold binaryDataOffset. rewrite metaInfoLength_opened. destruct (Nat.leb_spec 44 (length bytes)); [|done].
  fold size. rewrite magic_length. cbn [fst].
  assert (0 <= size < 2 ^ 32) as Hs.
  { unfold size. pose proof (le_read_bound (take 4 (drop 40 bytes))) as Hb. rewrite length_take, length_drop in Hb.
    replace (4 `min` (length bytes - 40))%nat with 4%nat in Hb by lia. exact Hb. }
  exists (u32 (40 + size + 4)). split; [done|]. unfold u32, wrap_u. split; [by apply Z.mod_pos_bound|].
  destruct (Z.lt_ge_cases (44 + size) (2 ^ 32)) as [Hl|Hl].
  - left. rewrite Z.mod_small by lia. lia.
  - right. assert ((40 + size + 4) mod 2 ^ 32 = 44 + size - 2 ^ 32) as ->; [|lia].
    replace (40 + size + 4) with ((44 + size - 2 ^ 32) + 1 * 2 ^ 32) by lia. rewrite Z.mod_add by lia. apply Z.mod_small. lia.
Qed.

Lemma head_length info : length (layer_head info) = (44 + length (dump (json_of_layer (lit "1", json_of_info info))))%nat.
Proof. unfold layer_head. rewrite !length_app, le_bytes_length. done. Qed.

Lemma packed_offset info image (n := Z.of_nat (length (dump (json_of_layer (lit "1", json_of_info info))))) : n + 44 < 2 ^ 32 ->
  let bytes := layer_head info ++ image in
  metaInfoLength (opened bytes) = (Ok n, mkLayerFile bytes 44 n false) /\ New (Some bytes) = Ok (opened bytes).
Proof.
  intros Hn bytes. assert (E : drop 40 bytes = le_bytes 4 (u32 n) ++ dump (json_of_layer (lit "1", json_of_info info)) ++ image).
  { unfold bytes, layer_head. rewrite <- !app_assoc. by rewrite drop_app_length' by apply magic_length. }
  split.
  - rewrite metaInfoLength_opened. destruct (Nat.leb_spec 44 (length bytes)) as [_|Hl];
      [|unfold bytes in Hl; rewrite length_app, head_length in Hl; lia].
    rewrite E, take_app_length' by (by rewrite le_bytes_length). rewrite le_read_bytes. change (256 ^ Z.of_nat 4) with (2 ^ 32).
    unfold u32, wrap_u. by rewrite Z.mod_mod, Z.mod_small by lia.
  - unfold New, read. cbn [position content drop]. rewrite magic_length, bool_decide_true; [done|].
    unfold bytes, layer_head. rewrite <- !app_assoc, drop_0. by rewrite take_app_length'.
Qed.

(** C24: a layer that is packed is read back: the file opens, its information is
    that of the directory, and whichever way it is unpacked -- mounted in place,
    mounted from a copy or extracted -- the directory shows the erofs image
    that was packed, before and after the information has been read. *)
Theorem layer_roundtrip info image e : pk_open e = true -> pk_write_magic e = true -> pk_info e = Ok info ->
  pk_write_size e = true -> pk_write_data e = true -> pk_erofs e = Some image -> pk_cat e = true ->
  Z.of_nat (length (dump (json_of_layer (lit "1", json_of_info info)))) + 44 < 2 ^ 32 ->
  exists layer f f1, pack e = (Some layer, Ok f) /\ metaInfo f = (Ok (lit "1", json_of_info info), f1) /\
    parsePackageInfo (json_of_info info) = Ok info /\
    (forall e' f0 u f', f0 = f \/ f0 = f1 -> unpack e' f0 = (Ok u, f') -> image_of u = image).
Proof.
  intros H1 H2 H3 H4 H5 H6 H7 Hn. destruct (packed_offset info image Hn) as [L N].
  set (n := Z.of_nat (length (dump (json_of_layer (lit "1", json_of_info info))))) in *.
  set (bytes := layer_head info ++ image) in *.
  assert (Hd : drop (44 + Z.to_nat n) bytes = image).
  { unfold bytes. apply drop_app_length'. rewrite head_length. unfold n. lia. }
  assert (Ho : u32 (Z.of_nat 40 + n + 4) = n + 44) by (unfold u32, wrap_u; rewrite Z.mod_small; lia).
  exists bytes, (opened bytes), (mkLayerFile bytes (44 + Z.to_nat n) n false). split_and!.
  - unfold pack. rewrite H1, H2, H3, H4, H5, H6, H7. cbn [negb]. fold bytes. by rewrite N.
  - unfold metaInfo. rewrite L. unfold read. cbn [position content metaInfoLengthValue cleanup].
    assert (Et : take (Z.to_nat n) (drop 44 bytes) = dump (json_of_layer (lit "1", json_of_info info))).
    { unfold bytes, layer_head. rewrite app_assoc, <- app_assoc. rewrite drop_app_length' by (rewrite length_app, le_bytes_length; done).
      rewrite take_app_length' by (unfold n; lia). done. }
    rewrite Et, c_string_text, parse_dump by apply dump_text. cbn. rewrite layer_of_layer. f_equal. unfold n. by rewrite Nat2Z.id.
  - unfold parsePackageInfo. by rewrite info_of_info.
  - intros e' f0 u f' Hf Hu. destruct (unpack_image e' f0 u f' Hu) as (offset & f2 & Eo & _ & ->).
    destruct Hf as [-> | ->]; unfold binaryDataOffset in Eo.
    + rewrite L in Eo. rewrite magic_length, Ho in Eo. injection Eo as <- _. cbn [opened content]. rewrite <- Hd. f_equal. lia.
    + unfold metaInfoLength in Eo. cbn [metaInfoLengthValue content] in Eo |- *.
      assert (0 < n) as Hpos.
      { unfold n. destruct (dump (json_of_layer (lit "1", json_of_info info))) eqn:Ed; [|cbn; lia].
        pose proof (parse_dump (json_of_layer (lit "1", json_of_info info))) as Hp. by rewrite Ed, parse_empty in Hp. }
      destruct (Z.ltb_spec 0 n); [|lia]. rewrite magic_length, Ho in Eo. injection Eo as <- _. rewrite <- Hd. f_equal. lia.
Qed.
End layers.

(** ** Examples *)

#[export] Instance ExtensionDefine_countable : Countable ExtensionDefine.
Proof.
  refine (inj_countable' (fun e => (ed_allowEnv e, ed_directory e, ed_name e, ed_version e))
    (fun '(a, b, c, d) => mkExtensionDefine a b c d) _). by intros [].
Defined.
#[export] Instance ExtensionImpl_countable : Countable ExtensionImpl.
Proof. refine (inj_countable' (fun e => (ei_env e, ei_libs e)) (fun '(a, b) => mkExtensionImpl a b) _). by intros []. Defined.
(** The fields of a record, as a list. *)
Definition info_field : Type := str + (list str + (option str + (Z + (option ExtensionImpl + option (list ExtensionDefine))))).
Definition info_fields (i : PackageInfoV2) : list info_field :=
  [inr (inl (pi_arch i)); inl (pi_base i); inl (pi_channel i); inr (inr (inr (inr (inl (pi_extImpl i)))));
   inr (inr (inr (inr (inr (pi_extensions i))))); inl (pi_id i); inl (pi_kind i); inl (packageInfoV2Module i); inl (pi_name i);
   inl (pi_schemaVersion i); inr (inr (inr (inl (pi_size i)))); inl (pi_version i)] ++
  [inr (inr (inl (pi_compatibleVersion i))); inr (inr (inl (pi_description i))); inr (inr (inl (pi_runtime i))); inr (inr (inl (pi_uuid i)))] ++
  match pi_command i with Some c => [inr (inl c)] | None => [] end.
Definition fields_info (l : list info_field) : option PackageInfoV2 :=
  match l with
  | inr (inl arch) :: inl base :: inl channel :: inr (inr (inr (inr (inl ext)))) :: inr (inr (inr (inr (inr exts)))) :: inl id :: inl kind
    :: inl module :: inl name :: inl schema :: inr (inr (inr (inl size))) :: inl version
    :: inr (inr (inl compatible)) :: inr (inr (inl description)) :: inr (inr (inl runtime)) :: inr (inr (inl uuid)) :: rest =>
      Some (mkInfo arch base channel (match rest with inr (inl c) :: _ => Some c | _ => None end) compatible description ext exts
              id kind module name runtime schema size uuid version)
  | _ => None
  end.
#[export] Instance PackageInfoV2_countable : Countable PackageInfoV2.
Proof. refine (inj_countable info_fields fields_info _). by intros [??? [c|] ?????????????]. Defined.

(** Binary digits, the least significant first. *)
Fixpoint pos_text (p : positive) : str :=
  match p with
  | xH => lit "."
  | xO p => "0"%char :: pos_text p
  | xI p => "1"%char :: pos_text p
  end.
Fixpoint text_pos (s : str) : option positive :=
  match s with
  | "0"%char :: s => xO <$> text_pos s
  | "1"%char :: s => xI <$> text_pos s
  | "."%char :: _ => Some xH
  | _ => None
  end.
Lemma text_pos_text p : text_pos (pos_text p) = Some p.
Proof. induction p as [p IH|p IH|]; cbn; by rewrite ?IH. Qed.
Lemma pos_text_nul p : "000"%char ∉ pos_text p.
Proof. induction p as [p IH|p IH|]; cbn; [by apply not_elem_of_cons..|]. by apply (bool_decide_unpack _). Qed.

(** Layer records around package information, printed as a number. *)
Definition json_lib_model : JsonLib.
Proof.
  refine {|
    json := list str * PackageInfoV2;
    json_of_info := fun i => ([], i);
    info_of_json := fun j => match j.1 with [] => Some j.2 | _ => None end;
    old_of_json := fun _ => None;
    json_of_layer := fun l => (l.1 :: l.2.1, l.2.2);
    layer_of_json := fun j => match j.1 with v :: vs => Some (v, (vs, j.2)) | [] => None end;
    dump := fun j => pos_text (encode j);
    parse := fun s => text_pos s ≫= decode
  |}.
  - intros j. rewrite text_pos_text. cbn. apply decode_encode.
  - done.
  - intros j. apply pos_text_nul.
  - done.
  - by intros [v [vs i]].
Defined.
#[local] Existing Instance json_lib_model.

Definition example_info : PackageInfoV2 :=
  mkInfo [lit "x86_64"] (lit "b") (lit "main") None None None None None (lit "a") (lit "app") (lit "binary") (lit "n") None
    (lit "1.0") 7 None (lit "1.2.3").

Definition example_env : pack_env := mkPackEnv true true (Ok example_info) true true (Some (lit "EROFS")) true.

Lemma layer_roundtrip_witness :
  Z.of_nat (length (dump (json_of_layer (lit "1", json_of_info example_info)))) + 44 < 2 ^ 32 /\
  exists layer f f1, pack example_env = (Some layer, Ok f) /\ metaInfo f = (Ok (lit "1", json_of_info example_info), f1) /\
    (forall e' u f', unpack e' f1 = (Ok u, f') -> image_of u = lit "EROFS").
Proof.
  assert (Hn : Z.of_nat (length (dump (json_of_layer (lit "1", json_of_info example_info)))) + 44 < 2 ^ 32)
    by (vm_compute; reflexivity).
  split; [exact Hn|].
  destruct (layer_roundtrip example_info (lit "EROFS") example_env eq_refl eq_refl eq_refl eq_refl eq_refl eq_refl eq_refl Hn)
    as (layer & f & f1 & H1 & H2 & _ & H4).
  exists layer, f, f1. split; [exact H1|]. split; [exact H2|]. intros e' u f' Hu. exact (H4 e' f1 u f' (or_intror eq_refl) Hu).
Defined.

(** A length of 2^32 - 1 puts the image inside the magic number. *)
Definition wrapping : str := magicNumber ++ replicate 4 "255"%char.

Lemma layer_offset_witness : New (Some wrapping) = Ok (opened wrapping) /\
  exists offset, fst (binaryDataOffset (opened wrapping)) = Ok offset /\ 0 <= offset < 2 ^ 32 /\ offset = 43.
Proof.
  assert (Hn : New (Some wrapping) = Ok (opened wrapping)) by (vm_compute; reflexivity). split; [exact Hn|].
  destruct (layer_offset wrapping (opened wrapping) Hn) as (o & H1 & H2 & _). exists o. split; [exact H1|]. split; [exact H2|].
  vm_compute in H1. by injection H1 as <-.
Defined.
