(* ===== verification/LightElf.v ===== *)
(** * Sections of the running program ([apps/uab/header/src/light_elf.h])

    A bundle is an ELF program that reads its own file.  [Elf] holds the bytes
    of the file, its header and the table of section names; the constructor
    throws ([Throws]) and the search for a section may, while an access outside
    of a buffer is [Undefined].  The layout is that of 64-bit ELF, little-endian
    ([elf.h]). *)
From S2P Require Import Prelude Sha256.

Inductive access (A : Type) :=
| Val (a : A)
| Throws
| Undefined.
Arguments Val {A} a.
Arguments Throws {A}.
Arguments Undefined {A}.

Definition acc_bind {A B} (x : access A) (f : A -> access B) : access B :=
  match x with Val a => f a | Throws => Throws | Undefined => Undefined end.
Notation "x <-a c1 ;; c2" := (acc_bind c1 (fun x => c2)) (at level 100, c1 at next level, right associativity) : res_scope.
Notation "c1 ;;a c2" := (acc_bind c1 (fun _ => c2)) (at level 100, c2 at level 200, right associativity) : res_scope.

(** ** Layout *)

(** A little-endian field of [n] bytes. *)
Definition field (off n : nat) (l : str) : Z := le_read (take n (drop off l)).

Definition section_size : nat := 64.

Definition e_shoff (h : str) : Z := field 40 8 h.
Definition e_shentsize (h : str) : Z := field 58 2 h.
Definition e_shnum (h : str) : Z := field 60 2 h.
Definition e_shstrndx (h : str) : Z := field 62 2 h.

Definition sh_name (s : str) : Z := field 0 4 s.
Definition sh_type (s : str) : Z := field 4 4 s.
Definition sh_offset (s : str) : Z := field 24 8 s.
Definition sh_size (s : str) : Z := field 32 8 s.
Definition sh_link (s : str) : Z := field 40 4 s.

Definition ELFMAG : str := ["127"%char; "E"%char; "L"%char; "F"%char].
Definition SHN_UNDEF : Z := 0.
Definition SHN_XINDEX : Z := 65535.
Definition SHT_STRTAB : Z := 3.

(** ** Reading *)

(** [pread]: [None] is -1; negative offsets are refused. *)
Definition pread (content : str) (n off : Z) : option str :=
  if u64 off <? 2 ^ 63 then Some (take (Z.to_nat n) (drop (Z.to_nat (u64 off)) content)) else None.

(** A structure that has to be read whole. *)
Definition read_struct (content : str) (off : Z) : access str :=
  match pread content (Z.of_nat section_size) off with
  | None => Throws
  | Some bytes => if (length bytes =? section_size)%nat then Val bytes else Throws
  end.

(** The bytes of a zeroed buffer after a read into it. *)
Definition filled (size : Z) (bytes : str) : str := bytes ++ replicate (Z.to_nat size - length bytes) "000"%char.

Record Elf := mkElf { file : str; header : str; rawSectionNames : str }.

(** The constructor; [can_allocate] answers for the vector.  The index of the
    table of names is a 16-bit variable, also when it comes from [sh_link]. *)
Definition open_elf (can_allocate : Z -> bool) (content : option str) : access Elf :=
  match content with
  | None => Throws
  | Some content =>
      elfHeader <-a read_struct content 0 ;;
      if negb (bool_decide (take 4 elfHeader = ELFMAG)) then Throws
      else if e_shoff elfHeader =? 0 then Throws
      else if e_shstrndx elfHeader =? SHN_UNDEF then Throws
      else
        shdrstrndx <-a (if e_shstrndx elfHeader =? SHN_XINDEX then
                          shdr <-a read_struct content (e_shoff elfHeader) ;;
                          if sh_link shdr =? 0 then Throws else Val (wrap_u 16 (sh_link shdr))
                        else Val (e_shstrndx elfHeader)) ;;
        (if shdrstrndx * e_shentsize elfHeader <=? i32_max then Val tt else Undefined) ;;a
        shdr <-a read_struct content (e_shoff elfHeader + shdrstrndx * e_shentsize elfHeader) ;;
        if negb (sh_type shdr =? SHT_STRTAB) then Throws
        else if negb (can_allocate (sh_size shdr)) then Throws
        else
          match pread content (sh_size shdr) (sh_offset shdr) with
          | None => Throws
          | Some rawData => Val (mkElf content elfHeader (filled (sh_size shdr) rawData))
          end
  end.

(** A C string in a buffer; [None] when it does not end in it. *)
Fixpoint c_string_at (l : str) : option str :=
  match l with
  | [] => None
  | c :: l => if bool_decide (c = "000"%char) then Some [] else cons c <$> c_string_at l
  end.

(** The loop over the table: [shdr] is the buffer that is read into, of
    [section_size] bytes. *)
Fixpoint find_section (e : Elf) (name : str) (n : nat) (offset : Z) (shdr : str) : access (option str) :=
  match n with
  | O => Val None
  | S n =>
      match pread (file e) (e_shentsize (header e)) offset with
      | None => Throws
      | Some bytes =>
          if (section_size <? length bytes)%nat then Undefined
          else
            let shdr := bytes ++ drop (length bytes) shdr in
            match c_string_at (drop (Z.to_nat (sh_name shdr)) (rawSectionNames e)) with
            | None => Undefined
            | Some curName =>
                if negb (bool_decide (curName = [])) && bool_decide (curName = name) then Val (Some shdr)
                else find_section e name n (u64 (offset + e_shentsize (header e))) shdr
            end
      end
  end.

(** [uninitialised] is what the buffer holds at first. *)
Definition getSectionHeader (uninitialised : str) (e : Elf) (name : str) : access (option str) :=
  find_section e name (Z.to_nat (e_shnum (header e))) (e_shoff (header e)) uninitialised.

(** ** The table of sections *)

(** The [i]-th entry and the name it refers to. *)
Definition entry (e : Elf) (i : nat) : str :=
  take section_size (drop (Z.to_nat (e_shoff (header e)) + i * section_size) (file e)).
Definition entry_name (e : Elf) (i : nat) : option str :=
  c_string_at (drop (Z.to_nat (sh_name (entry e i))) (rawSectionNames e)).

(** The file has its whole table, with entries of the right size, and every
    name ends in the table of names. *)
Record well_formed (e : Elf) : Prop := {
  wf_entsize : e_shentsize (header e) = Z.of_nat section_size;
  wf_table : e_shoff (header e) + e_shnum (header e) * Z.of_nat section_size <= Z.of_nat (length (file e)) < 2 ^ 63;
  wf_names : forall i, (i < Z.to_nat (e_shnum (header e)))%nat -> exists name, entry_name e i = Some name
}.

(** The first section of a name. *)
Definition lookup_section (e : Elf) (name : str) : option str :=
  entry e <$> List.find (fun i => bool_decide (entry_name e i = Some name) && negb (bool_decide (name = [])))
                (seq 0 (Z.to_nat (e_shnum (header e)))).

Lemma field_nonneg off n l : 0 <= field off n l.
Proof. apply le_read_bound. Qed.

Lemma find_section_wf e name n i shdr : well_formed e -> (i + n)%nat = Z.to_nat (e_shnum (header e)) -> length shdr = section_size ->
  find_section e name n (e_shoff (header e) + Z.of_nat (i * section_size)) shdr =
  Val (entry e <$> List.find (fun i => bool_decide (entry_name e i = Some name) && negb (bool_decide (name = []))) (seq i n)).
Proof.
  intros [W1 W2 W3]. revert i shdr. induction n as [|n IH]; intros i shdr Hi Hl; [done|]. cbn [find_section seq List.find].
  pose proof (field_nonneg 40 8 (header e)) as Hp. fold (e_shoff (header e)) in Hp.
  pose proof (field_nonneg 60 2 (header e)) as Hq. fold (e_shnum (header e)) in Hq.
  set (off := e_shoff (header e) + Z.of_nat (i * section_size)).
  assert (0 <= off /\ off + 64 <= Z.of_nat (length (file e)) /\ off + 64 < 2 ^ 63) as (Ho & Ho' & Ho'').
  { unfold off, section_size in *. nia. }
  assert (u64 off = off) as Eu by (unfold u64, wrap_u; apply Z.mod_small; lia).
  assert (Z.to_nat off = (Z.to_nat (e_shoff (header e)) + i * section_size)%nat) as En by (unfold off; lia).
  unfold pread. rewrite Eu, W1, Nat2Z.id. destruct (Z.ltb_spec off (2 ^ 63)); [|lia].
  assert (Hb : length (take section_size (drop (Z.to_nat off) (file e))) = section_size).
  { rewrite length_take, length_drop. unfold section_size in *. lia. }
  rewrite Hb. destruct (Nat.ltb_spec section_size section_size); [lia|].
  rewrite (drop_ge shdr), app_nil_r by lia. rewrite En. fold (entry e i). 
  destruct (W3 i ltac:(lia)) as (cur & Hc). fold (entry_name e i). rewrite Hc.
  destruct (bool_decide_reflect (cur = name)) as [->|Hn].
  - rewrite (bool_decide_true (Some name = Some name)) by done. destruct (bool_decide_reflect (name = [])) as [->|Hne]; cbn [negb andb]; [|done].
    replace (u64 (off + Z.of_nat section_size)) with (e_shoff (header e) + Z.of_nat (S i * section_size)).
    + apply IH; [lia|]. unfold entry. by rewrite <- En.
    + unfold u64, wrap_u. rewrite Z.mod_small; unfold off, section_size in *; lia.
  - rewrite andb_false_r, (bool_decide_false (Some cur = Some name)) by (by intros [= ->]). cbn [andb].
    replace (u64 (off + Z.of_nat section_size)) with (e_shoff (header e) + Z.of_nat (S i * section_size)).
    + apply IH; [lia|]. unfold entry. by rewrite <- En.
    + unfold u64, wrap_u. rewrite Z.mod_small; unfold off, section_size in *; lia.
Qed.

Lemma getSectionHeader_wf e name uninitialised : length uninitialised = section_size -> well_formed e ->
  getSectionHeader uninitialised e name = Val (lookup_section e name).
Proof.
  intros Hl W. unfold getSectionHeader, lookup_section.
  replace (e_shoff (header e)) with (e_shoff (header e) + Z.of_nat (0 * section_size)) by lia. by apply find_section_wf.
Qed.

(** C37: in a file whose table is complete and whose names end in the table of
    names, the search stays inside its buffers and finds the first section of
    the name, whatever the uninitialised buffer held; a first entry whose name
    does not end in the table makes it read beyond the table. *)
Theorem getSectionHeader_bounds e name uninitialised : length uninitialised = section_size ->
  (well_formed e -> getSectionHeader uninitialised e name = Val (lookup_section e name)) /\
  (e_shentsize (header e) = Z.of_nat section_size -> e_shoff (header e) + Z.of_nat section_size <= Z.of_nat (length (file e)) < 2 ^ 63 ->
   0 < e_shnum (header e) -> entry_name e 0 = None -> getSectionHeader uninitialised e name = Undefined).
Proof.
  intros Hl. pose proof (field_nonneg 40 8 (header e)) as Hp. fold (e_shoff (header e)) in Hp. split.
  - intros W. by apply getSectionHeader_wf.
  - intros W1 W2 Hn He. unfold getSectionHeader. destruct (Z.to_nat (e_shnum (header e))) as [|n] eqn:En; [lia|]. cbn [find_section].
    assert (u64 (e_shoff (header e)) = e_shoff (header e)) as Eu
      by (unfold u64, wrap_u; apply Z.mod_small; unfold section_size in W2; lia).
    unfold pread. rewrite Eu, W1, Nat2Z.id. destruct (Z.ltb_spec (e_shoff (header e)) (2 ^ 63)); [|lia].
    assert (Hb : length (take section_size (drop (Z.to_nat (e_shoff (header e))) (file e))) = section_size)
      by (rewrite length_take, length_drop; lia).
    rewrite Hb. destruct (Nat.ltb_spec section_size section_size); [lia|]. rewrite (drop_ge uninitialised), app_nil_r by lia.
    unfold entry_name, entry in He. rewrite Nat.add_0_r in He. by rewrite He.
Qed.

(** ** Examples *)

Definition example_header : str :=
  ELFMAG ++ replicate 36 "000"%char ++ le_bytes 8 64 ++ replicate 10 "000"%char ++ le_bytes 2 64 ++ le_bytes 2 3 ++ le_bytes 2 1.
Definition example_section (name type off size : Z) : str :=
  le_bytes 4 name ++ le_bytes 4 type ++ replicate 16 "000"%char ++ le_bytes 8 off ++ le_bytes 8 size ++ replicate 24 "000"%char.
Definition example_names : str := ["000"%char] ++ lit ".shstrtab" ++ ["000"%char] ++ lit "linglong.meta" ++ ["000"%char].
Definition example_file : str :=
  example_header ++ example_section 0 0 0 0 ++ example_section 1 3 256 25 ++ example_section 11 1 281 2 ++ example_names ++ lit "{}".
Definition example_elf : Elf := mkElf example_file example_header example_names.

Lemma example_opens : open_elf (fun _ => true) (Some example_file) = Val example_elf.
Proof. vm_compute. reflexivity. Qed.

Lemma example_well_formed : well_formed example_elf.
Proof.
  split; [vm_compute; reflexivity|vm_compute; split; [discriminate|reflexivity]|].
  intros i Hi. change (Z.to_nat (e_shnum (header example_elf))) with 3%nat in Hi.
  do 3 (destruct i as [|i]; [eexists; vm_compute; reflexivity|]). lia.
Qed.

Lemma getSectionHeader_bounds_witness :
  getSectionHeader (replicate 64 "255"%char) example_elf (lit "linglong.meta") = Val (Some (example_section 11 1 281 2)).
Proof.
  destruct (getSectionHeader_bounds example_elf (lit "linglong.meta") (replicate 64 "255"%char) eq_refl) as [H _].
  rewrite (H example_well_formed). vm_compute. reflexivity.
Defined.
