(* ===== verification/Uab.v ===== *)
(** * Bundles ([uab_file.cpp], [apps/uab/header/src/main.cpp], [uab_packager.cpp])

    A bundle (UAB) is a program with an erofs image and a description in ELF
    sections.  [UABFile] is how the package manager reads it: which sections
    libelf finds is an argument.  The program checks and mounts itself with its
    own reader of sections ([LightElf]).  The packager chooses the files of each
    layer and records the digest of the image. *)
From stdpp Require Import functions.
From S2P Require Import Prelude Types Sha256 Path LayerFile LightElf.

(** ** Hexadecimal digits *)

Definition hex_digit (n : Z) : ascii := ascii_of_N (Z.to_N (if n <? 10 then 48 + n else 87 + n)).
(** [toHex], and [std::hex] with width two. *)
Definition toHex (l : str) : str := l ≫= fun c => [hex_digit (byte_val c / 16); hex_digit (byte_val c mod 16)].

(** ** The description *)

Record UabLayer := mkUabLayer { ul_info : PackageInfoV2; ul_minified : bool }.
Record Sections := mkSections { sec_bundle : str; sec_icon : option str }.
Record UabMetaInfo := mkMeta {
  um_digest : str;
  um_layers : list UabLayer;
  um_onlyApp : option bool;
  um_sections : Sections;
  um_uuid : str
}.

(** The JSON library for descriptions: parsing a text, and reading a
    description from what was parsed, which throws when it is not one. *)
Class MetaJson := {
  mjson : Type;
  mparse : str -> option mjson;
  mget : mjson -> option UabMetaInfo;
  mdump : UabMetaInfo -> str;
  mparse_dump : forall m, exists j, mparse (mdump m) = Some j /\ mget j = Some m;
  mdump_nonempty : forall m, mdump m <> []
}.

Definition meta_section : str := lit "linglong.meta".
Definition bundle_section : str := lit "linglong.bundle".

(** ** [UABFile] *)

Section uab_file.
Context `{MetaJson}.
(** What libelf finds: the names of the sections with offsets and sizes. *)
Variable sections : result (list (str * (Z * Z))).
Variable content : str.

Definition uab_getSectionHeader (section : str) : result (Z * Z) :=
  l <-r sections ;;
  match List.find (fun s : str * (Z * Z) => bool_decide (s.1 = section)) l with
  | Some s => Ok s.2
  | None => Err err_default
  end.

(** [seek] and [read]: an offset or a length that is negative as a [qint64] is
    refused; the device is then at its start. *)
Definition device_at (offset : Z) : str := if offset <? 2 ^ 63 then drop (Z.to_nat offset) content else content.
Definition device_read (offset n : Z) : str := if n <? 2 ^ 63 then take (Z.to_nat n) (device_at offset) else [].

Definition getMetaInfo : result UabMetaInfo :=
  metaSh <-r uab_getSectionHeader meta_section ;;
  match device_read metaSh.1 metaSh.2 with
  | [] => Err err_default
  | metaInfo =>
      match mparse metaInfo with
      | None => Err err_default
      | Some content => match mget content with Some m => Ok m | None => Err terminated end
      end
  end.

Definition buf_size : nat := 4096.

(** The loop of [verify]: the blocks that are read, until the length that is
    left is zero; it is unsigned, so [<= 0] means that. *)
Fixpoint verify_loop (fuel : nat) (rest : str) (bundleLength : Z) (added : str) : option str :=
  match fuel with
  | O => None
  | S fuel =>
      match take buf_size rest with
      | [] => Some []
      | buf =>
          let added := added ++ buf in
          let bundleLength := u64 (bundleLength - Z.of_nat (length buf)) in
          if bundleLength <=? 0 then Some (toHex (Fips.hash added))
          else verify_loop fuel (drop buf_size rest) bundleLength added
      end
  end.

Definition verify : result bool :=
  metaInfo <-r getMetaInfo ;;
  match uab_getSectionHeader (sec_bundle (um_sections metaInfo)) with
  | Err _ => Err err_default
  | Ok bundleSh =>
      match verify_loop (S (length content)) (device_at bundleSh.1) bundleSh.2 [] with
      | Some digest => Ok (bool_decide (um_digest metaInfo = digest))
      | None => Err terminated
      end
  end.

(** The loops of [saveErofsToFile] and [extractSignData]: [read] on a file that
    has ended returns nothing and the length does not change; [None] when the
    fuel runs out. *)
Fixpoint save_loop (fuel : nat) (rest : str) (bundleLength : Z) (ofs : str) : option str :=
  match fuel with
  | O => None
  | S fuel =>
      if bundleLength <=? 0 then Some ofs
      else
        let buf := take (Z.to_nat (bundleLength `min` Z.of_nat buf_size)) rest in
        save_loop fuel (drop (length buf) rest) (bundleLength - Z.of_nat (length buf)) (ofs ++ buf)
  end.

(** The image and whether it could be written; the fuel is the caller's. *)
Definition saveErofsToFile (fuel : nat) (written : bool) : option (result str) :=
  match (metaInfo <-r getMetaInfo ;; uab_getSectionHeader (sec_bundle (um_sections metaInfo))) with
  | Err e => Some (Err e)
  | Ok bundleSh =>
      (fun ofs => if written then Ok ofs else Err err_default) <$> save_loop fuel (device_at bundleSh.1) bundleSh.2 []
  end.

(** The signature, when there is one and the bundle is unpacked. *)
Definition extractSignData (fuel : nat) (unpacked opened : bool) : option (result (option str)) :=
  if negb unpacked then Some (Err err_default)
  else
    match uab_getSectionHeader (lit "linglong.bundle.sign") with
    | Err _ => Some (Ok None)
    | Ok signSection =>
        if negb opened then Some (Err err_default)
        else (fun tar => Ok (Some tar)) <$> save_loop fuel (device_at signSection.1) signSection.2 []
    end.

Record uab_env := mkUabEnv {
  ue_mkdir : bool;
  ue_mkdir_temp : bool;
  ue_erofsfuse : bool;
  ue_readable : bool;
  ue_fsck : bool;
  ue_written : bool;
  ue_command : bool
}.

Definition uab_unpack (fuel : nat) (e : uab_env) : option (result unpacked) :=
  match (metaInfo <-r getMetaInfo ;; uab_getSectionHeader (sec_bundle (um_sections metaInfo))) with
  | Err code => Some (Err code)
  | Ok bundleSh =>
      if negb (ue_mkdir e || ue_mkdir_temp e) then Some (Err err_default)
      else if ue_erofsfuse e then
        source ← (if ue_readable e then Some (Ok (content, bundleSh.1))
                  else (fun r => file <-r r ;; Ok (file, 0)) <$> saveErofsToFile fuel (ue_written e)) ;
        Some (s <-r source ;; if ue_command e then Ok (Mounted s.1 s.2) else Err err_default)
      else if ue_fsck e then
        saved ← saveErofsToFile fuel (ue_written e) ;
        Some (file <-r saved ;; if ue_command e then Ok (Extracted file) else Err err_default)
      else Some (Err ec_AppInstallErofsNotFound)
  end.

End uab_file.

(** ** The program *)

Section header.
Context `{MetaJson}.

Definition MiB : Z := 1024 * 1024.

(** [statvfs] returns 0 or -1, never more, so [block_size] stays 0. *)
Definition getChunkSize (pagesize : option Z) (bundleSize : Z) : Z :=
  let base_block := default 4096 pagesize in
  if bundleSize <=? 10 * MiB then 64 * base_block
  else if bundleSize <=? 100 * MiB then 128 * base_block
  else 256 * base_block.

(** The blocks [pread] returns: at most [chunk] bytes, and fewer when
    [short] says so. *)
Fixpoint read_blocks (fuel : nat) (short : nat -> nat) (chunk total : nat) (rest : str) : list str :=
  match fuel with
  | O => []
  | S fuel =>
      match take ((chunk `min` total) - short total) rest with
      | [] => []
      | buffer => buffer :: read_blocks fuel short chunk (total - length buffer) (drop (length buffer) rest)
      end
  end.

(** [mmap] maps the whole image, or else blocks are read. *)
Definition calculateDigest (mapped : bool) (short : nat -> nat) (pagesize : option Z) (content : str) (bundleOffset bundleLength : Z) : str :=
  let rest := drop (Z.to_nat bundleOffset) content in
  toHex (sha256 (if mapped then [take (Z.to_nat bundleLength) rest]
                 else read_blocks (Z.to_nat bundleLength) short (Z.to_nat (getChunkSize pagesize bundleLength)) (Z.to_nat bundleLength) rest)).

(** The part of [mountSelfBundle] before the file system is started. *)
Definition bundle_checked (mapped : bool) (short : nat -> nat) (pagesize : option Z) (uninitialised : str) (elf : Elf) (meta : UabMetaInfo) : access bool :=
  bundleSh <-a getSectionHeader uninitialised elf (sec_bundle (um_sections meta)) ;;
  match bundleSh with
  | None => Val false
  | Some sh => Val (bool_decide (calculateDigest mapped short pagesize (file elf) (sh_offset sh) (sh_size sh) = um_digest meta))
  end.

Definition header_getMetaInfo (uninitialised : str) (elf : Elf) : access (option UabMetaInfo) :=
  metaSh <-a getSectionHeader uninitialised elf meta_section ;;
  match metaSh with
  | None => Val None
  | Some sh =>
      match pread (file elf) (sh_size sh) (sh_offset sh) with
      | None => Val None
      | Some bytes =>
          match mparse (filled (sh_size sh) bytes) with
          | None => Val None
          | Some j => match mget j with Some m => Val (Some m) | None => Throws end
          end
      end
  end.

(** The layer the loader runs: the first application. *)
Definition app_of (meta : UabMetaInfo) : option (str * str) :=
  match List.find (fun l => bool_decide (pi_kind (ul_info l) = lit "app")) (um_layers meta) with
  | Some l => if bool_decide (pi_id (ul_info l) = []) || bool_decide (packageInfoV2Module (ul_info l) = []) then None
              else Some (pi_id (ul_info l), packageInfoV2Module (ul_info l))
  | None => None
  end.

Inductive header_action :=
| PrintMeta
| ExtractTo
| NotRunnable
| RunLoader (approot : str)
| ExitWith (code : Z).

(** What [main] does after its options: [mounted] is the outcome of the checks
    and of starting the file system, [root] the mount point. *)
Definition header_main (printMeta extract : bool) (mounted : Z) (root : str) (meta : option UabMetaInfo) : header_action :=
  match meta with
  | None => ExitWith (-1)
  | Some meta =>
      if printMeta then PrintMeta
      else if negb (mounted =? 0) then ExitWith mounted
      else if extract then ExtractTo
      else if negb (default false (um_onlyApp meta)) then NotRunnable
      else match app_of meta with
           | None => ExitWith 1
           | Some (appID, module) => RunLoader (root ++ lit "/layers/" ++ appID ++ lit "/" ++ module ++ lit "/files")
           end
  end.

End header.

(** ** The packager *)

(** What a link leads to. *)
Inductive target := ToDirectory | ToOther | Dangling.
#[global] Instance target_eq_dec : EqDecision target.
Proof. solve_decision. Defined.
Inductive file_kind := Regular | Symlink (to : target) | Directory | OtherFile.
#[global] Instance file_kind_eq_dec : EqDecision file_kind.
Proof. solve_decision. Defined.

Section packager.
Context `{MetaJson}.

(** [exclude] and [include]: files are recorded up to the first that is not an
    absolute path. *)
Fixpoint record_files (files : list str) (l : gset str) : gset str * result unit :=
  match files with
  | [] => (l, Ok tt)
  | file :: files => if is_prefix (lit "/") file then record_files files ({[file]} ∪ l) else (l, Err err_default)
  end.

(** The lines of the list that are not empty or comments. *)
Definition loadBlackList (file : option str) : result (gset str) :=
  match file with
  | None => Err err_default
  | Some text => Ok (list_to_set (filter (fun line => line <> [] /\ is_prefix (lit "#") line = false) (split_on "010"%char text)))
  end.

(** What is below the directory of the files of a layer: paths with their kinds,
    in the order of the directory iterator. *)
Definition tree := list (str * file_kind).

Definition symlink_status (t : tree) (path : str) : option file_kind :=
  snd <$> List.find (fun e : str * file_kind => bool_decide (e.1 = path)) t.
Definition inside (t : tree) (dir : str) : tree := List.filter (fun e : str * file_kind => is_prefix (dir ++ lit "/") e.1) t.
(** [is_directory] follows a link, and reports an error for one that leads
    nowhere. *)
Definition is_directory (k : file_kind) : bool := bool_decide (k = Directory) || bool_decide (k = Symlink ToDirectory).

(** [expandPaths] for one file: an entry that does not exist is an error,
    because [symlink_status] reports it through its error code. *)
Definition expand_path (filesDir : str) (t : tree) (originalEntry : str) : result (list str) :=
  let entry := path_div filesDir (drop 1 originalEntry) in
  match symlink_status t entry with
  | None => Err err_default
  | Some Regular => Ok [entry]
  | Some Directory =>
      if existsb (fun e : str * file_kind => bool_decide (snd e = Symlink Dangling)) (inside t entry) then Err err_default
      else Ok (fst <$> List.filter (fun e : str * file_kind => negb (is_directory (snd e))) (inside t entry))
  | Some _ => Ok []
  end.
Fixpoint expand_all (filesDir : str) (t : tree) (files : list str) : result (gset str) :=
  match files with
  | [] => Ok ∅
  | f :: files =>
      l <-r expand_path filesDir t f ;;
      s <-r expand_all filesDir t files ;;
      Ok (list_to_set l ∪ s)
  end.
Definition expandPaths (filesDir : str) (t : tree) (files : gset str) : result (gset str) := expand_all filesDir t (elements files).

Definition black_listed (blackList : gset str) (fileName : str) : bool :=
  existsb (fun entry => is_prefix fileName entry || is_prefix entry fileName) (elements blackList).
Definition filename (path : str) : str := default [] (last (components path)).

Definition filter_file (blackList excludes : gset str) (acc : bool * gset str) (e : str * file_kind) : bool * gset str :=
  match snd e with
  | Regular | Symlink _ =>
      if black_listed blackList (filename e.1) then acc
      else if bool_decide (e.1 ∈ excludes) then (true, acc.2)
      else (acc.1, {[e.1]} ∪ acc.2)
  | _ => acc
  end.

Definition filteringFiles (filesDir : str) (t : option tree) (excludeFiles includeFiles blackList : gset str) :
    result (bool * gset str) :=
  match t with
  | None => Err err_default
  | Some t =>
      expandedExcludes <-r expandPaths filesDir t excludeFiles ;;
      expandedInclude <-r expandPaths filesDir t includeFiles ;;
      let '(minified, allFiles) := fold_left (filter_file blackList (expandedExcludes ∖ expandedInclude)) t (false, ∅) in
      Ok (minified, allFiles ∪ expandedInclude)
  end.

(** *** The layers of an executable bundle *)

Definition is_base_layer (info : PackageInfoV2) : bool :=
  bool_decide (pi_kind info = lit "base") || bool_decide (pi_id info = lit "org.deepin.base")
  || bool_decide (pi_id info = lit "org.deepin.foundation") || bool_decide (pi_id info = lit "com.uniontech.foundation").

(** The base, which is the last one, and the layers that stay. *)
Fixpoint split_base (loader : str) (layers : list PackageInfoV2) (base : option PackageInfoV2) : option PackageInfoV2 * list PackageInfoV2 :=
  match layers with
  | [] => (base, [])
  | info :: layers =>
      if is_base_layer info then split_base loader layers (Some info)
      else if bool_decide (pi_kind info = lit "runtime") && negb (bool_decide (loader = [])) then split_base loader layers base
      else let '(b, l) := split_base loader layers base in (b, info :: l)
  end.

Definition set_uuid (uuid : str) (i : PackageInfoV2) : PackageInfoV2 :=
  mkInfo (pi_arch i) (pi_base i) (pi_channel i) (pi_command i) (pi_compatibleVersion i) (pi_description i) (pi_extImpl i)
    (pi_extensions i) (pi_id i) (pi_kind i) (packageInfoV2Module i) (pi_name i) (pi_runtime i) (pi_schemaVersion i)
    (pi_size i) (Some uuid) (pi_version i).
Definition set_size (size : Z) (i : PackageInfoV2) : PackageInfoV2 :=
  mkInfo (pi_arch i) (pi_base i) (pi_channel i) (pi_command i) (pi_compatibleVersion i) (pi_description i) (pi_extImpl i)
    (pi_extensions i) (pi_id i) (pi_kind i) (packageInfoV2Module i) (pi_name i) (pi_runtime i) (pi_schemaVersion i)
    size (pi_uuid i) (pi_version i).

(** The record of one exported layer: [minified] from its filter, [size] the
    size of its files afterwards. *)
Definition export_layer (uuid : str) (meta_layers : list UabLayer) (layer : PackageInfoV2 * bool * Z) : list UabLayer :=
  let '(info, minified, size) := layer in
  if bool_decide (pi_kind info = lit "app") then
    let hasMinifiedDeps := existsb ul_minified (meta_layers ++ [mkUabLayer info minified]) in
    meta_layers ++ [mkUabLayer (if hasMinifiedDeps then set_uuid uuid info else info) minified]
  else if bool_decide (pi_kind info = lit "runtime") then meta_layers ++ [mkUabLayer (set_size size info) minified]
  else meta_layers ++ [mkUabLayer info minified].

Definition export_layers (uuid : str) (layers : list (PackageInfoV2 * bool * Z)) : list UabLayer :=
  fold_left (export_layer uuid) layers [].

(** *** The image and the description *)

Definition packBundle (image : option str) (readable added : bool) (meta : UabMetaInfo) : result UabMetaInfo :=
  match image with
  | None => Err err_default
  | Some image =>
      if negb readable then Err err_default
      else if negb added then Err err_default
      else Ok (mkMeta (toHex (Fips.hash image)) (um_layers meta) (um_onlyApp meta)
                 (mkSections bundle_section (sec_icon (um_sections meta))) (um_uuid meta))
  end.

(** The text of the section that is added. *)
Definition packMetaInfo (opened written added : bool) (meta : UabMetaInfo) : result str :=
  if negb (opened && written && added) then Err err_default else Ok (mdump meta).

End packager.

(** ** Checking the image *)

Lemma take_length_take {A} n (l : list A) : take (length (take n l)) l = take n l.
Proof. by rewrite length_take, <- take_take, (take_ge l (length l)). Qed.

Lemma buf_size_pos : (0 < buf_size)%nat.
Proof. apply Nat.ltb_lt. reflexivity. Qed.

(** When the loop of [verify] ends with a digest: the image is there and not
    empty, and its blocks are whole or the file ends with it. *)
Definition whole (L : Z) (rest : str) : bool :=
  (0 <? L) && (L <=? Z.of_nat (length rest)) && ((L mod 4096 =? 0) || (L =? Z.of_nat (length rest))).

Lemma whole_step L rest (n := length (take buf_size rest)) : Z.of_nat (length rest) < 2 ^ 63 -> 0 <= L < 2 ^ 64 -> (0 < n)%nat ->
  let L' := u64 (L - Z.of_nat n) in
  if L' <=? 0 then whole L rest = true /\ L = Z.of_nat n
  else 0 <= L' < 2 ^ 64 /\ whole L' (drop buf_size rest) = whole L rest /\ (whole L rest = true -> L' = L - 4096 /\ 4096 <= L).
Proof.
  intros Hr HL Hn L'. assert (Hn' : n = (buf_size `min` length rest)%nat) by (unfold n; by rewrite length_take).
  unfold buf_size in Hn' |- *. change 4096%nat with (Z.to_nat 4096) in *.
  destruct (Z.lt_ge_cases L (Z.of_nat n)) as [Hlt|Hge].
  - assert (L' = L - Z.of_nat n + 2 ^ 64) as E.
    { unfold L', u64, wrap_u. symmetry. apply (Z.mod_unique _ _ (-1)); lia. }
    destruct (Z.leb_spec L' 0); [lia|]. split; [lia|].
    assert (whole L rest = false) as ->.
    { unfold whole. destruct (Z.ltb_spec 0 L); [|done]. destruct (Z.leb_spec L (Z.of_nat (length rest))); [|done]. cbn [andb].
      rewrite Z.mod_small by lia. destruct (Z.eqb_spec L 0); [lia|]. destruct (Z.eqb_spec L (Z.of_nat (length rest))); [lia|done]. }
    split; [|done]. unfold whole. rewrite length_drop. destruct (Z.leb_spec L' (Z.of_nat (length rest - Z.to_nat 4096))); [lia|].
    by rewrite andb_false_r.
  - assert (L' = L - Z.of_nat n) as E by (unfold L', u64, wrap_u; apply Z.mod_small; lia).
    destruct (Z.leb_spec L' 0) as [H0|H0].
    + assert (L = Z.of_nat n) as EL by lia. split; [|done]. unfold whole. destruct (Z.ltb_spec 0 L); [|lia].
      destruct (Z.leb_spec L (Z.of_nat (length rest))); [|lia]. cbn [andb]. apply orb_true_iff. rewrite !Z.eqb_eq.
      destruct (Nat.le_gt_cases (Z.to_nat 4096) (length rest)); [left|right; lia]. replace L with 4096 by lia. done.
    + split; [lia|]. unfold whole. rewrite length_drop, E.
      destruct (Nat.le_gt_cases (Z.to_nat 4096) (length rest)) as [Hl|Hl].
      * replace (Z.of_nat n) with 4096 by lia. replace ((L - 4096) mod 4096) with (L mod 4096)
          by (replace (L - 4096) with (L + (-1) * 4096) by lia; by rewrite Z.mod_add by lia).
        split; [|intros Hw; lia]. f_equal; [f_equal|f_equal].
        -- destruct (Z.ltb_spec 0 (L - 4096)), (Z.ltb_spec 0 L); lia.
        -- destruct (Z.leb_spec (L - 4096) (Z.of_nat (length rest - Z.to_nat 4096))), (Z.leb_spec L (Z.of_nat (length rest))); lia.
        -- destruct (Z.eqb_spec (L - 4096) (Z.of_nat (length rest - Z.to_nat 4096))), (Z.eqb_spec L (Z.of_nat (length rest))); lia.
      * destruct (Z.leb_spec (L - Z.of_nat n) (Z.of_nat (length rest - Z.to_nat 4096))); [lia|].
        destruct (Z.leb_spec L (Z.of_nat (length rest))); [lia|]. rewrite !andb_false_r. done.
Qed.

Lemma verify_loop_spec fuel rest L added : (length rest < fuel)%nat -> Z.of_nat (length rest) < 2 ^ 63 -> 0 <= L < 2 ^ 64 ->
  verify_loop fuel rest L added = Some (if whole L rest then toHex (Fips.hash (added ++ take (Z.to_nat L) rest)) else []).
Proof.
  revert rest L added. induction fuel as [|fuel IH]; intros rest L added Hf Hr HL; [lia|]. cbn [verify_loop].
  destruct (take buf_size rest) as [|c l] eqn:Et.
  { assert (rest = []) as ->.
    { destruct rest as [|c l]; [done|]. apply (f_equal length) in Et. rewrite length_take in Et. cbn [length] in Et.
      pose proof buf_size_pos. lia. }
    unfold whole. cbn [length].
    destruct (Z.ltb_spec 0 L); [|done]. destruct (Z.leb_spec L (Z.of_nat 0)); [lia|done]. }
  assert (0 < length (take buf_size rest))%nat as Hn by (rewrite Et; cbn; lia). rewrite <- Et.
  pose proof (whole_step L rest Hr HL Hn) as W. cbn zeta in W.
  destruct (u64 (L - Z.of_nat (length (take buf_size rest))) <=? 0).
  - destruct W as [Hw EL]. rewrite Hw, EL, Nat2Z.id, take_length_take. reflexivity.
  - destruct W as (H1 & H2 & H3). rewrite IH; [|rewrite length_drop; rewrite length_take in Hn; lia|rewrite length_drop; lia|done].
    rewrite H2. destruct (whole L rest); [|done]. destruct (H3 eq_refl) as [-> H4]. rewrite <- app_assoc.
    replace (Z.to_nat L) with (buf_size + Z.to_nat (L - 4096))%nat by (unfold buf_size; lia). 
    rewrite <- take_take_drop. reflexivity.
Qed.

Lemma verify_section `{MetaJson} sections content meta off size : Z.of_nat (length content) < 2 ^ 63 ->
  getMetaInfo sections content = Ok meta -> uab_getSectionHeader sections (sec_bundle (um_sections meta)) = Ok (off, size) ->
  0 <= off < 2 ^ 63 -> 0 <= size < 2 ^ 64 ->
  let rest := drop (Z.to_nat off) content in
  verify sections content =
    Ok (bool_decide (um_digest meta = if whole size rest then toHex (Fips.hash (take (Z.to_nat size) rest)) else [])).
Proof.
  intros Hc Hm Hs Ho Hsz rest. unfold verify. rewrite Hm. cbn [res_bind]. rewrite Hs. cbn [fst snd].
  unfold device_at. destruct (Z.ltb_spec off (2 ^ 63)); [|lia]. fold rest.
  assert (length rest <= length content)%nat by (unfold rest; rewrite length_drop; lia).
  rewrite verify_loop_spec by lia. reflexivity.
Qed.

(** [verify] answers whether the digest of the description is the SHA-256
    of the image section -- when the blocks that are read make up the section,
    that is, when its length is a multiple of the block size or the file ends
    with it; otherwise the unsigned length that is left passes zero, the rest of
    the file is read and the digest is compared with the empty text. *)
Theorem verify_spec `{MetaJson} sections content meta off size : Z.of_nat (length content) < 2 ^ 63 ->
  getMetaInfo sections content = Ok meta -> uab_getSectionHeader sections (sec_bundle (um_sections meta)) = Ok (off, size) ->
  0 <= off < 2 ^ 63 -> 0 <= size < 2 ^ 64 ->
  let rest := drop (Z.to_nat off) content in
  verify sections content =
    Ok (bool_decide (um_digest meta = if whole size rest then toHex (Fips.hash (take (Z.to_nat size) rest)) else [])).
Proof. apply verify_section. Qed.

(** ** Copying the image *)

Lemma save_loop_ends fuel rest L out : 0 <= L <= Z.of_nat (length rest) -> (Z.to_nat L < fuel)%nat ->
  save_loop fuel rest L out = Some (out ++ take (Z.to_nat L) rest).
Proof.
  revert rest L out. induction fuel as [|fuel IH]; intros rest L out HL Hf; [lia|]. cbn [save_loop].
  destruct (Z.leb_spec L 0).
  - replace L with 0 by lia. cbn [Z.to_nat]. by rewrite take_0, app_nil_r.
  - set (n := Z.to_nat (L `min` Z.of_nat buf_size)). pose proof buf_size_pos as Hb.
    assert (length (take n rest) = n) as Hn by (rewrite length_take; unfold n; lia). rewrite Hn.
    rewrite IH; [|rewrite length_drop; unfold n; lia|unfold n; lia]. rewrite <- app_assoc. 
    replace (Z.to_nat L) with (n + Z.to_nat (L - Z.of_nat n))%nat by (unfold n; lia). by rewrite <- take_take_drop.
Qed.

Lemma save_loop_stuck fuel rest L out : Z.of_nat (length rest) < L -> save_loop fuel rest L out = None.
Proof.
  revert rest L out. induction fuel as [|fuel IH]; intros rest L out HL; [done|]. cbn [save_loop].
  destruct (Z.leb_spec L 0); [lia|]. apply IH. rewrite length_drop, length_take. lia.
Qed.

(** Copying the image ends exactly when the section lies in the file, and
    then the copy is the section; for a file that was cut short the loop reads
    nothing for ever. *)
Theorem saveErofs_returns `{MetaJson} sections content meta off size : getMetaInfo sections content = Ok meta ->
  uab_getSectionHeader sections (sec_bundle (um_sections meta)) = Ok (off, size) -> 0 <= off < 2 ^ 63 -> 0 <= size ->
  let rest := drop (Z.to_nat off) content in
  if size <=? Z.of_nat (length rest)
  then forall fuel, (Z.to_nat size < fuel)%nat -> saveErofsToFile sections content fuel true = Some (Ok (take (Z.to_nat size) rest))
  else forall fuel written, saveErofsToFile sections content fuel written = None.
Proof.
  intros Hm Hs Ho Hsz rest. unfold saveErofsToFile. rewrite Hm. cbn [res_bind]. rewrite Hs. cbn [fst snd].
  unfold device_at. destruct (Z.ltb_spec off (2 ^ 63)); [|lia]. fold rest.
  destruct (Z.leb_spec size (Z.of_nat (length rest))).
  - intros fuel Hf. by rewrite save_loop_ends by lia.
  - intros fuel written. by rewrite save_loop_stuck by lia.
Qed.

(** ** The digest of the program *)

Lemma read_blocks_join fuel short chunk total rest : (total <= fuel)%nat -> (total <= length rest)%nat ->
  (forall t, (0 < t)%nat -> (short t < chunk `min` t)%nat) -> mjoin (read_blocks fuel short chunk total rest) = take total rest.
Proof.
  revert total rest. induction fuel as [|fuel IH]; intros total rest Hf Hr Hs; [by replace total with O by lia; rewrite take_0|].
  cbn [read_blocks]. destruct total as [|total'] eqn:Et; [by rewrite Nat.min_0_r, Nat.sub_0_l, !take_0|]. rewrite <- Et in *.
  set (n := ((chunk `min` total) - short total)%nat). specialize (Hs total ltac:(lia)) as Hsn.
  assert (length (take n rest) = n) as Hn by (rewrite length_take; unfold n; lia).
  destruct (take n rest) as [|c l] eqn:E; [cbn in Hn; unfold n in Hn; lia|]. rewrite <- E in *.
  change (mjoin (take n rest :: ?l)) with (take n rest ++ mjoin l). cbn [mjoin list_join].
  rewrite Hn, IH; [|unfold n; lia|rewrite length_drop; unfold n; lia|done]. rewrite take_take_drop. f_equal. unfold n; lia.
Qed.

Lemma read_blocks_lengths fuel short chunk total rest : Forall (fun b => (length b <= total)%nat) (read_blocks fuel short chunk total rest).
Proof.
  revert total rest. induction fuel as [|fuel IH]; intros total rest; cbn [read_blocks]; [constructor|].
  destruct (take _ rest) as [|c l] eqn:E; [constructor|]. rewrite <- E. constructor; [rewrite length_take; lia|].
  eapply Forall_impl; [apply IH|]. cbn. lia.
Qed.

Lemma calculateDigest_hash mapped short pagesize content off len : 0 <= off -> 0 <= len < 2 ^ 63 ->
  (Z.to_nat len <= length (drop (Z.to_nat off) content))%nat ->
  (forall t, (0 < t)%nat -> (short t < Z.to_nat (getChunkSize pagesize len) `min` t)%nat) ->
  calculateDigest mapped short pagesize content off len = toHex (Fips.hash (take (Z.to_nat len) (drop (Z.to_nat off) content))).
Proof.
  intros Ho Hl Hr Hs. unfold calculateDigest. f_equal. set (rest := drop (Z.to_nat off) content) in *. destruct mapped.
  - rewrite sha256_hash; [cbn [mjoin list_join]; by rewrite app_nil_r|]. constructor; [|constructor]. rewrite length_take. lia.
  - rewrite sha256_hash; [by rewrite read_blocks_join by (done || lia)|].
    eapply Forall_impl; [apply read_blocks_lengths|]. cbn. intros b Hb. lia.
Qed.

(** ** From the packager to the checks *)

(** What [objcopy] leaves: the two sections hold the texts that were added. *)
Record bundled (sections : result (list (str * (Z * Z)))) (content text image : str) (moff off : Z) : Prop := {
  bd_size : Z.of_nat (length content) < 2 ^ 63;
  bd_meta : uab_getSectionHeader sections meta_section = Ok (moff, Z.of_nat (length text));
  bd_text : 0 <= moff /\ take (length text) (drop (Z.to_nat moff) content) = text;
  bd_bundle : uab_getSectionHeader sections bundle_section = Ok (off, Z.of_nat (length image));
  bd_image : 0 <= off /\ take (length image) (drop (Z.to_nat off) content) = image
}.

Lemma section_inside (text content : str) off : text <> [] -> 0 <= off -> take (length text) (drop (Z.to_nat off) content) = text ->
  off + Z.of_nat (length text) <= Z.of_nat (length content) /\ (length text <= length (drop (Z.to_nat off) content))%nat.
Proof.
  intros Ht Ho E. assert (length text <= length (drop (Z.to_nat off) content))%nat as Hl.
  { rewrite <- E at 1. rewrite length_take. lia. }
  split; [|done]. rewrite length_drop in Hl. assert (0 < length text)%nat by (destruct text; [done|cbn; lia]). lia.
Qed.

(** C17: what the packager makes passes every check: the package manager reads
    the description that was written and finds the digest right, it can copy
    the image, and the program itself accepts its image whichever way it reads
    it -- for an image of whole blocks, or one that ends the file. *)
Theorem uab_verified `{MetaJson} sections content image meta0 meta text moff off : packBundle (Some image) true true meta0 = Ok meta ->
  packMetaInfo true true true meta = Ok text -> bundled sections content text image moff off -> image <> [] ->
  Z.of_nat (length image) mod 4096 = 0 \/ off + Z.of_nat (length image) = Z.of_nat (length content) ->
  getMetaInfo sections content = Ok meta /\ verify sections content = Ok true /\
  saveErofsToFile sections content (S (length image)) true = Some (Ok image) /\
  (forall elf uninitialised sh mapped short pagesize, file elf = content -> well_formed elf -> length uninitialised = section_size ->
     lookup_section elf bundle_section = Some sh -> sh_offset sh = off -> sh_size sh = Z.of_nat (length image) ->
     (forall t, (0 < t)%nat -> (short t < Z.to_nat (getChunkSize pagesize (Z.of_nat (length image))) `min` t)%nat) ->
     bundle_checked mapped short pagesize uninitialised elf meta = Val true).
Proof.
  intros Hp Ht [B1 B2 [B3 B4] B5 [B6 B7]] Hi Hw. unfold packBundle in Hp. cbn [negb] in Hp. injection Hp as <-.
  set (meta := mkMeta _ _ _ _ _) in *. unfold packMetaInfo in Ht. cbn [andb negb] in Ht. injection Ht as <-.
  pose proof (section_inside _ _ _ Hi B6 B7) as [I1 I2]. pose proof (section_inside _ _ _ (mdump_nonempty meta) B3 B4) as [M1 _].
  assert (G : getMetaInfo sections content = Ok meta).
  { unfold getMetaInfo. rewrite B2. cbn [res_bind fst snd]. unfold device_read, device_at.
    destruct (Z.ltb_spec (Z.of_nat (length (mdump meta))) (2 ^ 63)); [|lia]. destruct (Z.ltb_spec moff (2 ^ 63)); [|lia].
    rewrite Nat2Z.id, B4. destruct (mparse_dump meta) as (j & Ej & Eg).
    destruct (mdump meta) eqn:Ed; [by apply mdump_nonempty in Ed|]. by rewrite Ej, Eg. }
  assert (W : whole (Z.of_nat (length image)) (drop (Z.to_nat off) content) = true).
  { unfold whole. destruct (Z.ltb_spec 0 (Z.of_nat (length image))); [|destruct image; [done|cbn in *; lia]].
    destruct (Z.leb_spec (Z.of_nat (length image)) (Z.of_nat (length (drop (Z.to_nat off) content)))); [|lia]. cbn [andb].
    apply orb_true_iff. rewrite !Z.eqb_eq, length_drop. destruct Hw; [by left|right; lia]. }
  split; [exact G|]. split_and!.
  - unfold verify. rewrite G. cbn [res_bind]. change (sec_bundle (um_sections meta)) with bundle_section. rewrite B5. cbn [fst snd].
    unfold device_at. destruct (Z.ltb_spec off (2 ^ 63)); [|lia].
    rewrite verify_loop_spec by (try (rewrite length_drop); lia). rewrite W, Nat2Z.id, B7. cbn [app].
    by rewrite bool_decide_true.
  - unfold saveErofsToFile. rewrite G. cbn [res_bind]. change (sec_bundle (um_sections meta)) with bundle_section. rewrite B5. cbn [fst snd].
    unfold device_at. destruct (Z.ltb_spec off (2 ^ 63)); [|lia]. rewrite save_loop_ends by lia. by rewrite Nat2Z.id, B7.
  - intros elf uninit sh mapped short pagesize <- Hwf Hu Hl Hso Hss Hsh. unfold bundle_checked.
    change (sec_bundle (um_sections meta)) with bundle_section. rewrite getSectionHeader_wf, Hl by done. cbn [acc_bind].
    rewrite Hso, Hss, calculateDigest_hash by (rewrite ?Nat2Z.id; done || lia). rewrite Nat2Z.id, B7. by rewrite bool_decide_true.
Qed.

(** ** The files of a layer *)

Definition plain (e : str * file_kind) : Prop := match snd e with Regular | Symlink _ => True | _ => False end.

Lemma filter_fold black excludes t acc : let r := fold_left (filter_file black excludes) t acc in
  (forall p, p ∈ r.2 <-> p ∈ acc.2 \/ exists k, (p, k) ∈ t /\ plain (p, k) /\ black_listed black (filename p) = false /\ p ∉ excludes) /\
  (r.1 = true <-> acc.1 = true \/ exists p k, (p, k) ∈ t /\ plain (p, k) /\ black_listed black (filename p) = false /\ p ∈ excludes).
Proof.
  revert acc. induction t as [|[q k] t IH]; intros acc; cbn zeta; cbn [fold_left].
  { split; [intros p|]; split; [by left|intros [?|(k & Hk & _)]; [done|by apply elem_of_nil in Hk]|by left|].
    intros [?|(p & k & Hk & _)]; [done|by apply elem_of_nil in Hk]. }
  destruct (IH (filter_file black excludes acc (q, k))) as [I1 I2]. split.
  - intros p. rewrite I1. assert (p ∈ (filter_file black excludes acc (q, k)).2 <->
      p ∈ acc.2 \/ (p = q /\ plain (p, k) /\ black_listed black (filename p) = false /\ p ∉ excludes)) as ->.
    { unfold filter_file, plain. cbn [fst snd]. destruct k; try (split; [by left|]; intros [?|(_ & [] & _)]; done).
      all: destruct (black_listed black (filename q)) eqn:Eb; [split; [by left|]; intros [?|(-> & _ & ? & _)]; [done|congruence]|].
      all: case_bool_decide as Ex; cbn [fst snd]; [split; [by left|]; intros [?|(-> & _ & _ & ?)]; done|].
      all: rewrite elem_of_union, elem_of_singleton; split; [intros [->|?]; [right|by left]|intros [?|(-> & _)]; auto]; auto. }
    split.
    + intros [[?|(-> & H1)]|(k' & Hk & H1)]; [by left|right; exists k; split; [left|done]|right; exists k'; split; [by right|done]].
    + intros [?|(k' & Hk & H1)]; [by left; left|]. apply elem_of_cons in Hk as [[= -> ->]|Hk]; [left; right|right]; eauto.
  - rewrite I2. assert ((filter_file black excludes acc (q, k)).1 = true <->
      acc.1 = true \/ (plain (q, k) /\ black_listed black (filename q) = false /\ q ∈ excludes)) as ->.
    { unfold filter_file, plain. cbn [fst snd]. destruct k; try (split; [by left|]; intros [?|([] & _)]; done).
      all: destruct (black_listed black (filename q)) eqn:Eb; [split; [by left|]; intros [?|(_ & ? & _)]; done|].
      all: case_bool_decide as Ex; cbn [fst snd]; [split; [right; auto|done]|split; [by left|]; intros [?|(_ & _ & ?)]; done]. }
    split.
    + intros [[?|H1]|(p & k' & Hk & H1)]; [by left|right; exists q, k; split; [left|done]|right; exists p, k'; split; [by right|done]].
    + intros [?|(p & k' & Hk & H1)]; [by left; left|]. apply elem_of_cons in Hk as [[= -> ->]|Hk]; [left; right|right]; eauto.
Qed.

Lemma expand_all_exist filesDir t files s : expand_all filesDir t files = Ok s ->
  forall f, f ∈ files -> symlink_status t (path_div filesDir (drop 1 f)) <> None.
Proof.
  revert s. induction files as [|g files IH]; intros s E f Hf; [by apply elem_of_nil in Hf|]. cbn [expand_all] in E.
  apply res_bind_ok in E as (l & E1 & E). apply res_bind_ok in E as (s' & E2 & _).
  apply elem_of_cons in Hf as [->|Hf]; [|by eapply IH]. unfold expand_path in E1. by destruct (symlink_status _ _).
Qed.

(** The files a layer contributes to an executable bundle are its plain
    files and links that are neither on the black list nor excluded -- being
    included wins over being excluded -- together with the included ones; the
    layer counts as minified exactly when an exclusion took a file away.  All
    that only when every file a filter names exists in this very layer. *)
Theorem filteringFiles_spec filesDir t excludeFiles includeFiles blackList minified files :
  filteringFiles filesDir (Some t) excludeFiles includeFiles blackList = Ok (minified, files) ->
  exists E I, expandPaths filesDir t excludeFiles = Ok E /\ expandPaths filesDir t includeFiles = Ok I /\
    (forall p, p ∈ files <-> p ∈ I \/ exists k, (p, k) ∈ t /\ plain (p, k) /\
       black_listed blackList (filename p) = false /\ (p ∈ E -> p ∈ I)) /\
    (minified = true <-> exists p k, (p, k) ∈ t /\ plain (p, k) /\ black_listed blackList (filename p) = false /\ p ∈ E /\ p ∉ I) /\
    (forall f, f ∈ excludeFiles ∪ includeFiles -> symlink_status t (path_div filesDir (drop 1 f)) <> None).
Proof.
  unfold filteringFiles. intros H. apply res_bind_ok in H as (E & HE & H). apply res_bind_ok in H as (I & HI & H).
  exists E, I. split; [done|]. split; [done|].
  destruct (fold_left _ _ _) as [mi fs] eqn:Ef. injection H as <- <-.
  pose proof (filter_fold blackList (E ∖ I) t (false, ∅)) as F. cbn zeta in F. rewrite Ef in F. cbn [fst snd] in F. destruct F as [F1 F2].
  split_and!.
  - intros p. rewrite elem_of_union, F1. split.
    + intros [[?|(k & H1 & H2 & H3 & H4)]|?]; [set_solver| |by left]. right. exists k. split_and!; [done..|]. intros Hp.
      destruct (decide (p ∈ I)); [done|]. exfalso. apply H4. set_solver.
    + intros [?|(k & H1 & H2 & H3 & H4)]; [by right|]. left. right. exists k. split_and!; [done..|]. set_solver.
  - rewrite F2. split.
    + intros [?|(p & k & H1 & H2 & H3 & H4)]; [done|]. exists p, k. set_solver.
    + intros (p & k & H1 & H2 & H3 & H4). right. exists p, k. set_solver.
  - intros f Hf. apply elem_of_union in Hf as [Hf|Hf]; [eapply expand_all_exist; [exact HE|]|eapply expand_all_exist; [exact HI|]];
      by apply elem_of_elements.
Qed.

(** ** Examples *)

#[export] Instance UabLayer_eq_dec : EqDecision UabLayer.
Proof. solve_decision. Defined.
#[export] Instance UabLayer_countable : Countable UabLayer.
Proof. refine (inj_countable' (fun l => (ul_info l, ul_minified l)) (fun '(a, b) => mkUabLayer a b) _). by intros []. Defined.
#[export] Instance Sections_eq_dec : EqDecision Sections.
Proof. solve_decision. Defined.
#[export] Instance UabMetaInfo_eq_dec : EqDecision UabMetaInfo.
Proof. solve_decision. Defined.

(** A description as a list of its texts, its optional fields and its layers. *)
Definition meta_fields (m : UabMetaInfo) : list (str + option str * option bool + UabLayer) :=
  inl (inl (um_digest m)) :: inl (inl (um_uuid m)) :: inl (inl (sec_bundle (um_sections m)))
  :: inl (inr (sec_icon (um_sections m), um_onlyApp m)) :: (inr <$> um_layers m).
Definition fields_meta (l : list (str + option str * option bool + UabLayer)) : option UabMetaInfo :=
  match l with
  | inl (inl d) :: inl (inl u) :: inl (inl b) :: inl (inr (i, o)) :: layers =>
      Some (mkMeta d (omap (fun x => match x with inr l => Some l | _ => None end) layers) o (mkSections b i) u)
  | _ => None
  end.
Lemma fields_meta_fields m : fields_meta (meta_fields m) = Some m.
Proof. destruct m as [d ls o [b i] u]. cbn. do 2 f_equal. induction ls; cbn in *; congruence. Qed.

Definition meta_json_model : MetaJson.
Proof.
  refine {| mjson := list (str + option str * option bool + UabLayer);
            mparse := fun s => text_pos s ≫= decode;
            mget := fields_meta;
            mdump := fun m => pos_text (encode (meta_fields m)) |}.
  - intros m. exists (meta_fields m). rewrite text_pos_text. cbn. split; [apply decode_encode|apply fields_meta_fields].
  - intros m. by destruct (encode _).
Defined.
#[local] Existing Instance meta_json_model.

(** A program with two sections besides the names: the description and the
    image. *)
Definition example_image : str := lit "EROFS".
Definition example_meta : UabMetaInfo :=
  mkMeta (toHex (Fips.hash example_image)) [mkUabLayer example_info false] (Some true) (mkSections bundle_section None) (lit "u").
Definition uab_names : str :=
  ["000"%char] ++ lit ".shstrtab" ++ ["000"%char] ++ meta_section ++ ["000"%char] ++ bundle_section ++ ["000"%char].
Definition example_text : str := mdump example_meta.
Definition text_size : Z := Z.of_nat (length example_text).
Definition uab_header : str :=
  ELFMAG ++ replicate 36 "000"%char ++ le_bytes 8 64 ++ replicate 10 "000"%char ++ le_bytes 2 64 ++ le_bytes 2 4 ++ le_bytes 2 1.
Definition example_uab : str :=
  uab_header ++ example_section 0 0 0 0 ++ example_section 1 3 320 41 ++ example_section 11 1 361 text_size
  ++ example_section 25 1 (361 + text_size) 5 ++ uab_names ++ example_text ++ example_image.
Definition uab_sections : result (list (str * (Z * Z))) :=
  Ok [(lit ".shstrtab", (320, 41)); (meta_section, (361, text_size)); (bundle_section, (361 + text_size, 5))].
Definition uab_elf : Elf := mkElf example_uab uab_header uab_names.

Lemma uab_bundled : bundled uab_sections example_uab example_text example_image 361 (361 + text_size).
Proof. by split; vm_compute. Qed.

Lemma uab_well_formed : well_formed uab_elf.
Proof.
  split; [vm_compute; reflexivity|vm_compute; split; [discriminate|reflexivity]|].
  intros i Hi. change (Z.to_nat (e_shnum (header uab_elf))) with 4%nat in Hi.
  do 4 (destruct i as [|i]; [eexists; vm_compute; reflexivity|]). lia.
Qed.

Lemma uab_lookup : lookup_section uab_elf bundle_section = Some (example_section 25 1 (361 + text_size) 5).
Proof. vm_compute. reflexivity. Qed.

Lemma uab_ends : (361 + text_size) + Z.of_nat (length example_image) = Z.of_nat (length example_uab).
Proof. vm_compute. reflexivity. Qed.

Lemma uab_verified_witness :
  getMetaInfo uab_sections example_uab = Ok example_meta /\ verify uab_sections example_uab = Ok true /\
  bundle_checked false (fun _ => O) None (replicate 64 "255"%char) uab_elf example_meta = Val true.
Proof.
  pose (meta0 := mkMeta [] [mkUabLayer example_info false] (Some true) (mkSections [] None) (lit "u")).
  pose proof (uab_verified uab_sections example_uab example_image meta0 example_meta example_text 361 (361 + text_size)
    eq_refl eq_refl uab_bundled) as U.
  destruct (U ltac:(discriminate) (or_intror uab_ends)) as (H1 & H2 & _ & H3).
  split; [exact H1|]. split; [exact H2|].
  refine (H3 uab_elf (replicate 64 "255"%char) _ false (fun _ => O) None eq_refl uab_well_formed eq_refl uab_lookup _ _ _); [vm_compute; reflexivity..|].
  intros t Ht. apply Nat.min_glb_lt; [apply (Z2Nat.inj_lt 0); vm_compute; (reflexivity || discriminate)|done].
Defined.

Lemma uab_offset : 0 <= 361 + text_size < 2 ^ 63.
Proof. vm_compute. split; [discriminate|reflexivity]. Qed.
Lemma uab_digest : um_digest example_meta <> [].
Proof. vm_compute. discriminate. Qed.

(** A file that goes on after an image of five bytes: the rest is read and the
    digest is compared with the empty text. *)
Definition longer_uab : str := example_uab ++ lit "more".
Lemma longer_meta : getMetaInfo uab_sections longer_uab = Ok example_meta.
Proof. vm_compute. reflexivity. Qed.
Lemma longer_not_whole : whole 5 (drop (Z.to_nat (361 + text_size)) longer_uab) = false.
Proof. vm_compute. reflexivity. Qed.

Lemma verify_spec_witness : Z.of_nat (length longer_uab) < 2 ^ 63 /\ verify uab_sections longer_uab = Ok false.
Proof.
  assert (Z.of_nat (length longer_uab) < 2 ^ 63) as Hl by (vm_compute; reflexivity). split; [exact Hl|].
  rewrite (verify_spec uab_sections longer_uab example_meta (361 + text_size) 5 Hl longer_meta eq_refl uab_offset ltac:(lia)).
  rewrite longer_not_whole, bool_decide_false by exact uab_digest. reflexivity.
Defined.

(** A directory is excluded but for one of its files. *)
Definition example_tree : tree :=
  [(lit "/f/a", Regular); (lit "/f/d", Directory); (lit "/f/d/x", Regular); (lit "/f/d/y", Regular); (lit "/f/libc.so", Symlink ToOther)].

Definition example_filtered : result (bool * gset str) :=
  filteringFiles (lit "/f") (Some example_tree) {[lit "/d"]} {[lit "/d/x"]} {[lit "libc.so"]}.

Lemma filteringFiles_spec_witness :
  exists files, example_filtered = Ok (true, files) /\
    lit "/f/a" ∈ files /\ lit "/f/d/x" ∈ files /\ lit "/f/d/y" ∉ files /\ lit "/f/libc.so" ∉ files.
Proof.
  assert (match example_filtered with Ok (_, files) => elements files ≡ₚ [lit "/f/a"; lit "/f/d/x"] | Err _ => False end) as Ee
    by (apply (bool_decide_unpack _); vm_compute; reflexivity).
  destruct example_filtered as [[m files]|e] eqn:E; [|destruct Ee].
  destruct (filteringFiles_spec (lit "/f") example_tree {[lit "/d"]} {[lit "/d/x"]} {[lit "libc.so"]} m files E) as (Ex & In & HE & HI & Hf & Hm & _).
  assert (match expandPaths (lit "/f") example_tree {[lit "/d"]} with Ok l => lit "/f/d/y" ∈ l | Err _ => False end) as He
    by (apply (bool_decide_unpack _); vm_compute; reflexivity).
  assert (match expandPaths (lit "/f") example_tree {[lit "/d/x"]} with Ok l => lit "/f/d/y" ∉ l | Err _ => False end) as Hi
    by (apply (bool_decide_unpack _); vm_compute; reflexivity).
  rewrite HE in He. rewrite HI in Hi. exists files. split_and!.
  - f_equal. f_equal. apply Hm. exists (lit "/f/d/y"), Regular.
    split_and!; [|exact I|vm_compute; reflexivity|exact He|exact Hi]. apply (bool_decide_unpack _). vm_compute. reflexivity.
  - apply elem_of_elements. rewrite Ee. apply (bool_decide_unpack _). vm_compute. reflexivity.
  - apply elem_of_elements. rewrite Ee. apply (bool_decide_unpack _). vm_compute. reflexivity.
  - rewrite <- elem_of_elements, Ee. apply (bool_decide_unpack _). vm_compute. reflexivity.
  - rewrite <- elem_of_elements, Ee. apply (bool_decide_unpack _). vm_compute. reflexivity.
Defined.

(** The same bundle, whole and cut two bytes before its end. *)
Definition cut_uab : str := take (length example_uab - 2) example_uab.
Lemma cut_meta : getMetaInfo uab_sections cut_uab = Ok example_meta.
Proof. vm_compute. reflexivity. Qed.
Lemma cut_image : (5 <=? Z.of_nat (length (drop (Z.to_nat (361 + text_size)) cut_uab))) = false.
Proof. vm_compute. reflexivity. Qed.

Lemma saveErofs_returns_witness : forall fuel, saveErofsToFile uab_sections cut_uab fuel true = None.
Proof.
  pose proof (saveErofs_returns uab_sections cut_uab example_meta (361 + text_size) 5 cut_meta eq_refl uab_offset ltac:(lia)) as S.
  cbn zeta in S. rewrite cut_image in S. intros fuel. apply S.
Defined.
