(* ===== verification/PackageFiles.v ===== *)
(** * Packages from files ([package_manager/package_manager.cpp])

    [installFromLayer] and [installFromUAB] with the jobs they queue,
    [InstallFromFile], [deferredUninstall] and [setConfiguration].  Layer files
    and bundles are read by [LayerFile] and [Uab], the requests are weighed by
    [PackageManager], and the jobs are programs of [PackageJobs]: [None] also
    stands for a job that never returns. *)
From stdpp Require Import functions.
From S2P Require Import Prelude Qt Types Semver Version Reference RepoConfig RepoCache.
From S2P Require Import OstreeRepo MergeModules Prune PackageTask PackageManager.
From S2P Require Import PackageJobs Sha256 LayerFile Uab.

(** ** What the outside answers *)

(** [OSTreeRepo::importLayerDir]: does the directory exist, the commit, the new
    layer directory, the checkout, the record. *)
Record import_env := mkImport {
  im_exists : bool;
  im_commit : result str;
  im_dir : result unit;
  im_checkout : result unit;
  im_write : write_env
}.

(** The record in an unpacked image, the answers to an interaction ([None]: one
    that is not a reply), and the directories of a bundle. *)
Record file_env := mkFileEnv {
  fe_reply : nat -> option str;
  fe_import : nat -> import_env;
  fe_image_info : str -> result PackageInfoV2;
  fe_valid : nat -> str -> bool;
  fe_unpack : nat -> unpack_env;
  fe_uab : nat -> uab_env;
  fe_layers : nat -> bool;
  fe_layer_dir : nat -> str * str -> result bool;
  fe_layer_info : nat -> str * str -> result PackageInfoV2;
  fe_sign_opened : nat -> bool
}.

(** The iteration over an [std::unordered_map] of groups. *)
Class GroupOrder := {
  groups_in_order : list (str * list RepositoryCacheLayersItem) -> list (str * list RepositoryCacheLayersItem);
  groups_perm : forall l, groups_in_order l ≡ₚ l
}.

#[local] Notation "x <-j m ;; k" := (bind m (fun x => k)) (at level 100, m at next level, right associativity).
#[local] Notation "m ;;j k" := (bind m (fun _ => k)) (at level 100, right associativity).

Section package_files.
Context `{Client} `{Qt} `{StdSort} `{Json} `{Yaml} `{JsonLib} `{MetaJson} `{GroupOrder}.
Variable curArch : result Architecture.
Variable ll_version : str.
Variable sha256_hex : str -> str.
Variable repoDir : str.
Variable e : job_env.
Variable fe : file_env.

(** ** Requests *)

(** [file]: the bytes behind the descriptor. *)
Definition installFromLayer (s : OSTreeRepo) (dir_exists valid : str -> bool) (file : option str) (force skipInteraction : bool) : reply :=
  match LayerFile.New file with
  | Err c => Refuse c
  | Ok layerFile =>
      match fst (metaInfo layerFile) with
      | Err c => Refuse c
      | Ok metaInfo =>
          match parsePackageInfo (snd metaInfo) with
          | Err c => Refuse c
          | Ok packageInfo => install_package curArch repoDir dir_exists s packageInfo force skipInteraction valid
          end
      end
  end.

Definition is_app_layer (layer : UabLayer) : bool := bool_decide (pi_kind (ul_info layer) = lit "app").

(** [find_if], [erase] and [insert] in front. *)
Fixpoint take_app (layers : list UabLayer) : option (UabLayer * list UabLayer) :=
  match layers with
  | [] => None
  | l :: rest => if is_app_layer l then Some (l, rest) else r ← take_app rest; Some (r.1, l :: r.2)
  end.

(** [sections] and [content] are the bundle when libelf accepts it; the hooks
    check its signature. *)
Definition installFromUAB (s : OSTreeRepo) (dir_exists valid : str -> bool) (valid_fd : bool) (parsed hooks : result unit)
    (loaded : result (result (list (str * (Z * Z))) * str)) (force skipInteraction : bool) : reply :=
  if negb valid_fd then Refuse (-1)
  else
    match parsed with
    | Err c => Refuse c
    | Ok _ =>
        match hooks with
        | Err _ => Refuse (-1)
        | Ok _ =>
            match loaded with
            | Err c => Refuse c
            | Ok (sections, content) =>
                match verify sections content with
                | Err c => Refuse c
                | Ok false => Refuse (-1)
                | Ok true =>
                    match Uab.getMetaInfo sections content with
                    | Err c => Refuse c
                    | Ok metaInfo =>
                        match take_app (um_layers metaInfo) with
                        | None => Refuse (-1)
                        | Some (app, _) =>
                            install_package curArch repoDir dir_exists s (ul_info app) force skipInteraction valid
                        end
                    end
                end
            end
        end
    end.

Inductive installer := Layer | Bundle.

Definition InstallFromFile (opts : result (bool * bool)) (fileType : str) (start : installer -> bool -> bool -> reply) : reply :=
  match opts with
  | Err c => Refuse c
  | Ok (force, skipInteraction) =>
      if bool_decide (fileType = lit "layer") then start Layer force skipInteraction
      else if bool_decide (fileType = lit "uab") then start Bundle force skipInteraction
      else Refuse err_default
  end.

(** ** Importing *)

(** The reference a record gives; a record without an architecture ends the
    daemon. *)
Definition reference_of (info : PackageInfoV2) : J (result Reference) := try (ref_fromPackageInfo info).

(** A layer that is there already is an error with the code 0. *)
Definition importLayerDir (info : PackageInfoV2) (subRef : option str) : J (result unit) :=
  env <-j ask (fe_import fe) ;;
  if negb (im_exists env) then ret (Err err_default)
  else
    reference <-j reference_of info ;;
    match reference with
    | Err c => ret (Err c)
    | Ok reference =>
        present <-j repo_getLayerDir_sub repoDir e reference (packageInfoV2Module info) subRef ;;
        match present with
        | Ok _ => ret (Err 0)
        | Err _ =>
            match im_commit env, im_dir env with
            | Err c, _ => ret (Err c)
            | Ok _, Err c => ret (Err c)
            | Ok commitID, Ok _ =>
                handleRepositoryUpdate ll_version (im_checkout env) (im_write env) (mkLayer commitID None info (lit "local"))
            end
        end
    end.

(** The user is asked about an upgrade. *)
Definition interaction (upgrade skipInteraction : bool) : J unit :=
  if negb (upgrade && negb skipInteraction) then ret tt
  else
    action <-j ask (fe_reply fe) ;;
    match action with
    | None => die
    | Some action => if bool_decide (action = lit "yes") then ret tt else taskContext (CallState Canceled None)
    end.

(** ** The job of a layer file *)

(** After the import of an application: [localRef] is the installed version. *)
Definition layer_imported (info : PackageInfoV2) (localRef : option Reference) (module : str) : J unit :=
  modules <-j gets (fun s => match localRef with Some r => getModuleList (rcache (j_repo s)) r | None => [] end) ;;
  if match localRef with Some _ => negb (include modules module) | None => false end then ret tt
  else
    newRef <-j reference_of info ;;
    match newRef with
    | Err c => taskContext (CallError c)
    | Ok newRef =>
        generated <-j tryGenerateCache e newRef ;;
        match generated, localRef with
        | Err c, _ => taskContext (CallError c)
        | Ok _, None => event (Exported newRef)
        | Ok _, Some localRef =>
            removeAfterInstall ll_version sha256_hex e localRef newRef [module] ;;j
            hooks <-j executePostInstallHooks repoDir e newRef ;;
            match hooks with
            | Err c => taskContext (CallError c)
            | Ok _ => ret tt
            end
        end
    end.

(** What is done with the record of the unpacked image. *)
Definition install_image (info : PackageInfoV2) (localRef : option Reference) (module : str) : J unit :=
  pullDependency curArch ll_version repoDir e info module ;;j
  done <-j isTaskDone ;;
  if done then ret tt
  else
    result <-j importLayerDir info None ;;
    match result with
    | Err c => taskContext (CallError c)
    | Ok _ =>
        taskContext (CallState Succeed None) ;;j
        if negb (is_main module) then ret tt
        else if negb (bool_decide (pi_kind info = lit "app")) then ret tt
        else layer_imported info localRef module
    end.

Definition install_layer (layerFile : LayerFile) (localRef : option Reference) (module : str) (skipInteraction upgrade : bool) : J unit :=
  interaction upgrade skipInteraction ;;j
  done <-j isTaskDone ;;
  if done then ret tt
  else
    taskContext (CallState Processing None) ;;j
    taskContext (CallSubState PreAction) ;;j
    env <-j ask (fe_unpack fe) ;;
    match fst (LayerFile.unpack env layerFile) with
    | Err c => taskContext (CallError c)
    | Ok layerDir =>
        match fe_image_info fe (image_of layerDir) with
        | Err c => taskContext (CallError c)
        | Ok info => install_image info localRef module
        end
    end.

(** ** The job of a bundle *)

(** Whether a layer is imported: [None], the job has failed; [Some false], it is
    skipped.  [sign] is what [extractSignData] gives, if it ever returns. *)
Definition prepare_app (info : PackageInfoV2) (onlyApp : bool) (sign : option (result (option str))) : J (option bool) :=
  match sign with
  | None => die
  | Some (Err c) => taskContext (CallError c) ;;j ret None
  | Some (Ok _) =>
      (if onlyApp then pullDependency curArch ll_version repoDir e info (lit "binary") else ret tt) ;;j
      ret (Some true)
  end.

(** Other layers are skipped when only the application is wanted, or when the
    same version is installed. *)
Definition prepare_other (info : PackageInfoV2) (ref : Reference) (onlyApp : bool) : J (option bool) :=
  if onlyApp then ret (Some false)
  else
    match fuzzy_parse (ref_id ref ++ lit "/" ++ ver_toString (ref_version ref)) with
    | Err _ => die
    | Ok fuzzyRef =>
        localRef <-j on_repo (fun s => clearReference curArch s fuzzyRef local_only (lit "binary") None) ;;
        match localRef with
        | Err _ => ret (Some true)
        | Ok localRef =>
            layerDir <-j repo_getLayerDir repoDir e localRef (packageInfoV2Module info) ;;
            valid <-j ask (fe_valid fe) ;;
            match layerDir with
            | Ok dir => ret (Some (negb (valid dir && ver_eq (ref_version ref) (ref_version localRef))))
            | Err _ => ret (Some true)
            end
        end
    end.

Section bundle.
Variable sections : result (list (str * (Z * Z))).
Variable content : str.

(** Enough for the loops over a section inside of the file. *)
Definition uab_fuel : nat := S (length content).

(** One layer: [false], the job has failed. *)
Definition import_layer (metaInfo : UabMetaInfo) (layer : UabLayer) (t : Transaction) : J (bool * Transaction) :=
  let onlyApp := default false (um_onlyApp metaInfo) in
  let isAppLayer := is_app_layer layer in
  let subRef := if ul_minified layer && negb isAppLayer then Some (um_uuid metaInfo) else None in
  let key := (pi_id (ul_info layer), packageInfoV2Module (ul_info layer)) in
  exists_ <-j ask (fun n => fe_layer_dir fe n key) ;;
  match exists_ with
  | Err _ | Ok false => failed ;;j ret (false, t)
  | Ok true =>
      infoRet <-j ask (fun n => fe_layer_info fe n key) ;;
      match infoRet with
      | Err c => taskContext (CallError c) ;;j ret (false, t)
      | Ok info =>
          refRet <-j reference_of info ;;
          match refRet with
          | Err c => taskContext (CallError c) ;;j ret (false, t)
          | Ok ref =>
              opened <-j ask (fe_sign_opened fe) ;;
              go <-j (if isAppLayer then prepare_app info onlyApp (extractSignData sections content uab_fuel true opened)
                      else prepare_other info ref onlyApp) ;;
              match go with
              | None => ret (false, t)
              | Some false => ret (true, t)
              | Some true =>
                  r <-j importLayerDir info subRef ;;
                  match r with
                  | Err c => taskContext (CallError c) ;;j ret (false, t)
                  | Ok _ => ret (true, (repo_remove_sub ll_version e ref (packageInfoV2Module info) subRef ;;j ret tt) :: t)
                  end
              end
          end
      end
  end.

Fixpoint import_layers (metaInfo : UabMetaInfo) (layers : list UabLayer) (t : Transaction) : J (bool * Transaction) :=
  match layers with
  | [] => ret (true, t)
  | layer :: rest =>
      done <-j isTaskDone ;;
      if done then ret (false, t)
      else
        r <-j import_layer metaInfo layer t ;;
        if fst r then import_layers metaInfo rest (snd r) else ret r
  end.

(** After the imports: [false], the job has failed. *)
Definition replace_old (newAppRef : Reference) (oldAppRef : option Reference) : J bool :=
  match oldAppRef with
  | Some old =>
      modules <-j gets (fun s => getModuleList (rcache (j_repo s)) old) ;;
      removeAfterInstall ll_version sha256_hex e old newAppRef modules ;;j
      ret true
  | None =>
      repo_mergeModules ll_version sha256_hex e ;;j
      event (Exported newAppRef) ;;j
      result <-j tryGenerateCache e newAppRef ;;
      match result with
      | Err _ => failed ;;j ret false
      | Ok _ => ret true
      end
  end.

Definition finish_uab (newAppRef : Reference) (oldAppRef : option Reference) : J bool :=
  go <-j replace_old newAppRef oldAppRef ;;
  if negb go then ret false
  else
    hooks <-j executePostInstallHooks repoDir e newAppRef ;;
    match hooks with
    | Err c => taskContext (CallError c) ;;j ret false
    | Ok _ => ret true
    end.

(** The layers of a bundle, from the import of the first one: whether the
    transaction is committed. *)
Definition install_layers (metaInfo : UabMetaInfo) (layers : list UabLayer) (newAppRef : Reference) (oldAppRef : option Reference) : J bool :=
  r <-j import_layers metaInfo layers [] ;;
  if negb (fst r) then rollback (snd r) ;;j ret false
  else
    ok <-j finish_uab newAppRef oldAppRef ;;
    if ok then ret true else rollback (snd r) ;;j ret false.

(** [layers]: those of the description, the application in front. *)
Definition install_uab (metaInfo : UabMetaInfo) (layers : list UabLayer) (newAppRef : Reference) (oldAppRef : option Reference)
    (skipInteraction upgrade : bool) : J unit :=
  interaction upgrade skipInteraction ;;j
  done <-j isTaskDone ;;
  if done then ret tt
  else
    taskContext (CallState Processing None) ;;j
    taskContext (CallSubState PreAction) ;;j
    env <-j ask (fe_uab fe) ;;
    match uab_unpack sections content uab_fuel env with
    | None => die
    | Some (Err c) => taskContext (CallError c)
    | Some (Ok _) =>
        done <-j isTaskDone ;;
        if done then ret tt
        else
          there <-j ask (fe_layers fe) ;;
          if negb there || negb (existsb is_app_layer layers) then failed
          else
            ok <-j install_layers metaInfo layers newAppRef oldAppRef ;;
            if ok then taskContext (CallState Succeed None) else ret tt
    end.

End bundle.

(** ** Removing later *)

Definition deleted_layers (c : RepoCache) : list RepositoryCacheLayersItem :=
  queryLayerItem c (mkQuery None None None None None None (Some true)).

(** [try_emplace] and [push_back] by the text of the reference; [None] when one
    cannot be read. *)
Fixpoint put_group (key : str) (item : RepositoryCacheLayersItem) (l : list (str * list RepositoryCacheLayersItem))
    : list (str * list RepositoryCacheLayersItem) :=
  match l with
  | [] => [(key, [item])]
  | g :: rest => if bool_decide (g.1 = key) then (key, g.2 ++ [item]) :: rest else g :: put_group key item rest
  end.
Fixpoint group_layers (items : list RepositoryCacheLayersItem) (groups : list (str * list RepositoryCacheLayersItem))
    : option (list (str * list RepositoryCacheLayersItem)) :=
  match items with
  | [] => Some groups
  | item :: rest =>
      match ref_fromPackageInfo (l_info item) with
      | Err _ => None
      | Ok ref => group_layers rest (put_group (ref_toString ref) item groups)
      end
  end.

(** The groups no container runs. *)
Definition not_running (running : list ContainerProcessStateInfo) (groups : list (str * list RepositoryCacheLayersItem))
    : list (str * list RepositoryCacheLayersItem) :=
  List.filter (fun g => negb (existsb (fun c => bool_decide (ct_app c = fst g)) running)) groups.

Fixpoint remove_items (ref : Reference) (items : list RepositoryCacheLayersItem) : J unit :=
  match items with
  | [] => ret tt
  | item :: rest =>
      (if is_main (packageInfoV2Module (l_info item)) then removeCache e ref ;;j ret tt else ret tt) ;;j
      repo_remove_sub ll_version e ref (packageInfoV2Module (l_info item)) (pi_uuid (l_info item)) ;;j
      remove_items ref rest
  end.

(** The reference that is exported afterwards is read from an error when no
    version is left. *)
Fixpoint uninstall_groups (groups : list (str * list RepositoryCacheLayersItem)) : J unit :=
  match groups with
  | [] => ret tt
  | (key, items) :: rest =>
      pkgRef <-j try (ref_parse key) ;;
      match pkgRef with
      | Err _ => ret tt
      | Ok pkgRef =>
          event (Unexported pkgRef) ;;j
          remove_items pkgRef items ;;j
          repo_mergeModules ll_version sha256_hex e ;;j
          match fuzzy_create (Some (ref_channel pkgRef)) (ref_id pkgRef) None (Some (ref_arch pkgRef)) with
          | Err _ => ret tt
          | Ok fuzzy =>
              latestRef <-j on_repo (fun s => clearReference curArch s fuzzy local_only (lit "binary") None) ;;
              match latestRef with
              | Err _ => die
              | Ok latestRef => event (Exported latestRef) ;;j uninstall_groups rest
              end
          end
      end
  end.

Definition on_lock {A} (f : lock_state -> lock_state * A) : J A := fun s =>
  let '(l, a) := f (j_lock s) in (mkJob (j_task s) (j_repo s) (j_merged s) l (j_events s) (j_time s), Some a).

Definition deferredUninstall : J unit :=
  env <-j ask (je_lock e) ;;
  locked <-j on_lock (lockRepo env) ;;
  match locked with
  | Err _ => ret tt
  | Ok _ =>
      deleted <-j gets (fun s => deleted_layers (rcache (j_repo s))) ;;
      (match group_layers deleted [] with
       | None | Some [] => ret tt
       | Some groups =>
           run <-j ask (je_running e) ;;
           match getAllRunningContainers run with
           | Err _ => ret tt
           | Ok running => uninstall_groups (groups_in_order (not_running running groups))
           end
       end) ;;j
      on_lock (unlockRepo env) ;;j
      ret tt
  end.

(** ** The configuration *)

Definition setConfiguration (config_yaml : str) (env : config_env) (repo : ostree) (s : OSTreeRepo)
    (parameters : result RepoConfigV2) : OSTreeRepo * result unit :=
  match parameters with
  | Err c => (s, Err c)
  | Ok newCfg =>
      if bool_decide (newCfg = cfg s) then (s, Ok tt)
      else if negb (existsb (fun r => bool_decide (repo_alias r = c2_defaultRepo newCfg)) (c2_repos newCfg)) then (s, Err err_default)
      else setConfig config_yaml ll_version env repo newCfg s
  end.

End package_files.

(** ** Requests: what is checked before a job is queued *)

Section requests.
Context `{Client} `{Qt} `{StdSort} `{Json} `{Yaml} `{JsonLib} `{MetaJson}.
Variable curArch : result Architecture.
Variable repoDir : str.

(** The module of the package that is installed in a version: its directory
    holds a package. *)
Definition module_installed (s : OSTreeRepo) (dir_exists valid : str -> bool) (ref : Reference) (module : str) : Prop :=
  exists layer dir, getLayerItem (cfg s) (rcache s) ref module None = Ok layer /\
    getLayerDir repoDir dir_exists layer = Ok dir /\ valid dir = true.

(** The job of a package from a file, and why it may start. *)
Inductive file_job (s : OSTreeRepo) (dir_exists valid : str -> bool) (info : PackageInfoV2) (force skipInteraction : bool) : reply -> Prop :=
| file_job_intro ref fuzzyRef local upgrade :
    ref_fromPackageInfo info = Ok ref -> curArch = Ok (ref_arch ref) -> fuzzy_parse (ref_id ref) = Ok fuzzyRef ->
    match local with
    | Some l => find_installed curArch s fuzzyRef = Ok l
    | None => exists c, find_installed curArch s fuzzyRef = Err c
    end ->
    (forall l, local = Some l -> module_installed s dir_exists valid l (packageInfoV2Module info) ->
       ver_eq (ref_version ref) (ref_version l) = false /\ upgrade = ver_gt (ref_version ref) (ref_version l) /\
       (upgrade = true \/ force = true)) ->
    file_job s dir_exists valid info force skipInteraction
      (AddTask [refSpec_of (lit "local") ref (packageInfoV2Module info)]
         (InstallFile ref local (packageInfoV2Module info) skipInteraction upgrade)).

Lemma weigh_ok already downgrade force local ref upgrade : weigh already downgrade force local ref = Ok upgrade ->
  match local with
  | None => upgrade = false
  | Some l => ver_eq (ref_version ref) (ref_version l) = false /\ upgrade = ver_gt (ref_version ref) (ref_version l) /\
      (upgrade = true \/ force = true)
  end.
Proof.
  unfold weigh. destruct local as [l|]; [|by intros [= <-]]. destruct (ver_eq _ _); [done|].
  destruct (ver_gt _ _); [intros [= <-]; auto|]. destruct force; [intros [= <-]; auto|done].
Qed.

Lemma install_package_starts s dir_exists valid info force skipInteraction refs j :
  install_package curArch repoDir dir_exists s info force skipInteraction valid = AddTask refs j ->
  file_job s dir_exists valid info force skipInteraction (AddTask refs j).
Proof.
  unfold install_package. destruct (pi_arch info) as [|arch0 archs] eqn:Earch; [done|].
  destruct (arch_parse arch0) as [architecture|] eqn:Ep; [|done]. destruct curArch as [currentArch|] eqn:Ec; [|done].
  case_bool_decide as Ea; [|done]. cbn [negb]. subst currentArch.
  destruct (version_parse _ _) as [v|]; [|done]. destruct (ref_fromPackageInfo info) as [ref|] eqn:Er; [|done].
  destruct (fuzzy_parse (ref_id ref)) as [fuzzyRef|] eqn:Ef; [|done].
  destruct (logged (find_installed (Ok architecture) s fuzzyRef)) as [local|] eqn:El; [|done]. cbv zeta.
  destruct (weigh _ _ _ _ _) as [upgrade|] eqn:Ew; [|done]. intros [= <- <-]. apply weigh_ok in Ew.
  pose proof Er as (_ & _ & _ & a & Ha & Hp)%fromPackageInfo_inv. rewrite Earch in Ha. injection Ha as <-.
  rewrite Ep in Hp. injection Hp as ->. rewrite <- Ec in *. econstructor; [done|by rewrite Ec|exact Ef|..].
  - rewrite Ec in *. unfold logged in El. destruct (find_installed _ s fuzzyRef) as [l|c]; [by injection El as <-|].
    destruct (c =? terminated); [done|]. injection El as <-. eauto.
  - intros l -> (layer & dir & E1 & E2 & E3). rewrite E1 in Ew. cbn [res_bind] in Ew. by rewrite E2, E3 in Ew.
Qed.

Lemma take_app_spec layers app rest : take_app layers = Some (app, rest) -> app ∈ layers /\ is_app_layer app = true.
Proof.
  revert app rest. induction layers as [|l layers IH]; intros app rest E; [done|]. cbn [take_app] in E.
  destruct (is_app_layer l) eqn:El; [injection E as <- <-; split; [left|done]|].
  destruct (take_app layers) as [[a r]|]; [|done]. injection E as <- <-. destruct (IH a r eq_refl). split; [by right|done].
Qed.

(** C19: a bundle is only installed after it has been checked: the job is that
    of an application layer of its description, for the host's architecture,
    never of the installed version and of an older one only by force; and the
    digest of the description is that of the image section -- or the empty
    text, with an image the loop of [verify] does not end at. *)
Theorem uab_request_checked s dir_exists valid parsed hooks sections content force skipInteraction refs j :
  Z.of_nat (length content) < 2 ^ 63 ->
  (forall section off size, uab_getSectionHeader sections section = Ok (off, size) -> 0 <= off < 2 ^ 63 /\ 0 <= size < 2 ^ 64) ->
  installFromUAB curArch repoDir s dir_exists valid true parsed hooks (Ok (sections, content)) force skipInteraction = AddTask refs j ->
  exists metaInfo app off size, Uab.getMetaInfo sections content = Ok metaInfo /\
    app ∈ um_layers metaInfo /\ pi_kind (ul_info app) = lit "app" /\
    file_job s dir_exists valid (ul_info app) force skipInteraction (AddTask refs j) /\
    uab_getSectionHeader sections (sec_bundle (um_sections metaInfo)) = Ok (off, size) /\
    let rest := drop (Z.to_nat off) content in
    (if whole size rest then um_digest metaInfo = toHex (Fips.hash (take (Z.to_nat size) rest)) else um_digest metaInfo = []).
Proof.
  intros Hc Hs. unfold installFromUAB. cbn [negb]. destruct parsed; [|done]. destruct hooks; [|done].
  destruct (verify sections content) as [[]|] eqn:Ev; [|done..].
  destruct (Uab.getMetaInfo sections content) as [metaInfo|] eqn:Em; [|done].
  destruct (take_app (um_layers metaInfo)) as [[app others]|] eqn:Et; [|done]. intros Hi%install_package_starts.
  apply take_app_spec in Et as [Hin Happ]. unfold is_app_layer in Happ. apply bool_decide_eq_true in Happ.
  pose proof Ev as Ev'. unfold verify in Ev'. rewrite Em in Ev'. cbn [res_bind] in Ev'.
  destruct (uab_getSectionHeader sections (sec_bundle (um_sections metaInfo))) as [[off size]|] eqn:Eh; [|done]. clear Ev'.
  exists metaInfo, app, off, size. split_and!; [done..|]. destruct (Hs _ _ _ Eh) as [Ho Hz].
  pose proof (verify_section sections content metaInfo off size Hc Em Eh Ho Hz) as V. cbn zeta in V |- *. rewrite Ev in V. injection V as V.
  symmetry in V. apply bool_decide_eq_true in V. by destruct (whole _ _).
Qed.
End requests.

(** ** What the jobs change *)

Section file_jobs.
Context `{Client} `{Qt} `{StdSort} `{Json} `{Yaml} `{JsonLib} `{MetaJson} `{GroupOrder}.
Variable curArch : result Architecture.
Variable ll_version : str.
Variable sha256_hex : str -> str.
Variable repoDir : str.
Variable e : job_env.
Variable fe : file_env.

Section steps.
Variable R : Reference -> Prop.

#[local] Hint Resolve op_remove_sub op_remove op_merge op_getLayerItem op_getLayerDir_sub op_getLayerDir op_removeCache
  op_tryGenerateCache op_installHooks op_busy op_rollback : jobs.

(** A record with a version that compares. *)
Definition good_info (info : PackageInfoV2) : Prop :=
  exists v, version_parse (pi_version info) default_options = Ok v /\ parsed63 v.

Lemma op_reference info : op R (fun r => match r with Ok ref => ref_fromPackageInfo info = Ok ref | Err _ => True end) (reference_of info).
Proof.
  unfold reference_of, try. destruct (ref_fromPackageInfo info) as [ref|c]; [by apply op_ret|].
  destruct (c =? terminated); [apply op_die|by apply op_ret].
Qed.

Lemma op_import info subRef : good_info info -> op R (fun _ => True) (importLayerDir ll_version repoDir e fe info subRef).
Proof.
  intros (v & Hv). unfold importLayerDir. pose proof (op_reference info) as Hr.
  eapply op_bind; [apply op_asked|]. intros env _. destruct (negb _); [by apply op_ret|].
  eapply op_bind; [exact Hr|]. intros [ref|c] _; [|by apply op_ret].
  eapply op_bind; [apply op_getLayerDir_sub|]. intros [|] _; [by apply op_ret|].
  destruct (im_commit env) as [commitID|]; [|by apply op_ret]. destruct (im_dir env); [|by apply op_ret].
  unfold handleRepositoryUpdate. destruct (im_checkout env); [|by apply op_ret]. apply op_cache. intros s Hc. unfold with_cache.
  pose proof (addLayerItem_changed ll_version R (im_write env) (rcache s) (mkLayer commitID None info (lit "local")) v Hv) as Ha.
  by destruct (addLayerItem _ _ _ _).
Qed.

Lemma op_interaction upgrade skip : op R (fun _ => True) (interaction fe upgrade skip).
Proof. unfold interaction. job. Qed.

(** The records that are met name no dependency outside of [R]. *)
Definition needs_in (info : PackageInfoV2) : Prop :=
  dependency_in R (pi_base info) /\ forall text, pi_runtime info = Some text -> dependency_in R text.

Hypothesis pulls : good_pulls e.

#[local] Hint Resolve op_removeAfterInstall : jobs.

Lemma op_layer_imported info localRef module : (forall l, localRef = Some l -> R l) ->
  op R (fun _ => True) (layer_imported ll_version sha256_hex repoDir e info localRef module).
Proof using pulls.
  intros Hl. unfold layer_imported. eapply op_bind; [apply op_gets|]. intros modules _.
  match goal with |- op _ _ (if ?b then _ else _) => destruct b end; [by apply op_ret|].
  eapply op_bind; [apply op_reference|]. intros [newRef|c] _; [|job].
  eapply op_bind; [apply op_tryGenerateCache|]. intros [u|c] _; [|job]. destruct localRef as [l|]; [|job].
  apply op_seq; [|job]. apply op_removeAfterInstall; [done|by apply Hl].
Qed.
End steps.

(** A layer is recorded when the import succeeds. *)
Lemma import_adds info subRef s s' u : importLayerDir ll_version repoDir e fe info subRef s = (s', Some (Ok u)) ->
  exists y, y ∈ layers s' /\ l_info y = info /\ l_repo y = lit "local".
Proof.
  unfold importLayerDir, bind, ask, reference_of, try, ret, die.
  set (env := fe_import fe (j_time s)). destruct (negb _); [done|].
  destruct (ref_fromPackageInfo info) as [ref|c]; [|by destruct (c =? terminated)].
  match goal with |- context [repo_getLayerDir_sub ?a ?b ?c ?d ?f ?g] => destruct (repo_getLayerDir_sub a b c d f g) as [s1 [[dir|?]|]] end; [done| |done].
  destruct (im_commit env) as [commitID|]; [|done]. destruct (im_dir env); [|done].
  unfold handleRepositoryUpdate, on_repo, with_cache, try, ret, die. destruct (im_checkout env); [|done].
  set (item := mkLayer commitID None info (lit "local")). unfold addLayerItem.
  destruct (findMatchingItem (rcache (j_repo s1)) item); [done|].
  match goal with |- context [writeToDisk ?v ?w ?c] => pose proof (write_cases v w c) as Hw end.
  destruct (writeToDisk _ _ _) as [c' [u'|c1]]; [|by destruct (c1 =? terminated)].
  destruct Hw as [Hw _]. intros [= <- _]. exists item. split_and!; [|done|done]. cbn. rewrite Hw. cbn.
  apply elem_of_app. right. left.
Qed.

(** *** A layer file *)

(** No record names a dependency with this id. *)
Definition not_needed (info : PackageInfoV2) (id : str) : Prop := forall text fuzzy,
  text = pi_base info \/ pi_runtime info = Some text -> fuzzy_parse text = Ok fuzzy -> fz_id fuzzy <> id.

Lemma not_needed_in info id : not_needed info id -> needs_in (fun r => ref_id r <> id) info.
Proof. intros Hn. split; [|intros text Et]; intros fuzzy r Ef ->; eapply Hn; eauto. Qed.

(** A layer with the record of an image is there. *)
Definition imported (l : list RepositoryCacheLayersItem) : Prop :=
  exists y image, y ∈ l /\ fe_image_info fe image = Ok (l_info y) /\ l_repo y = lit "local".

Section layer_job.
Variable x : RepositoryCacheLayersItem.
Variable localRef : option Reference.
Hypothesis pulls : good_pulls e.
Hypothesis images : forall image info, fe_image_info fe image = Ok info ->
  good_info info /\ not_needed info (pi_id (l_info x)) /\
  forall old, localRef = Some old -> pi_version info <> ver_toString (ref_version old).

Definition layer_kept (l : list RepositoryCacheLayersItem) : Prop :=
  x ∈ l \/ (imported l /\ exists old, localRef = Some old /\ texts_of old x).

Lemma layer_imported_keeps info module s image : fe_image_info fe image = Ok info -> comparable (layers s) -> imported (layers s) -> x ∈ layers s ->
  layer_kept (layers (layer_imported ll_version sha256_hex repoDir e info localRef module s).1).
Proof using pulls images.
  intros Hi Hc Him Hx.
  set (R := fun r => localRef = Some r).
  set (I := fun l => imported l /\ (x ∈ l \/ exists old, localRef = Some old /\ texts_of old x)).
  assert (Hstep : forall l l', changed R l l' -> I l -> I l').
  { intros l l' Hch [(y & im & Hy & Ey & Er) Hxl]. split.
    - exists y, im. split; [|done]. apply (changed_keeps _ _ _ _ Hch Hy). intros r Hr (_ & _ & Hv).
      destruct (images im (l_info y) Ey) as (_ & _ & Hn). by apply (Hn r Hr).
    - destruct Hxl as [Hxl|Hold]; [|by right]. destruct localRef as [old|] eqn:El.
      + destruct (decide (texts_of old x)) as [Ht|Ht]; [right; eauto|left]. apply (changed_keeps _ _ _ _ Hch Hxl).
        intros r Hr. unfold R in Hr. congruence.
      + left. apply (changed_keeps _ _ _ _ Hch Hxl). done. }
  assert (Hup : upto I layer_kept (layer_imported ll_version sha256_hex repoDir e info localRef module)).
  { eapply (upto_op R); [exact Hstep| |apply op_layer_imported; [done|by intros l ->]].
    intros l [Him' [Hxl|Hold]]; [by left|right; by split]. }
  apply Hup; [done|]. split; [done|by left].
Qed.

Lemma install_image_keeps info module s image : fe_image_info fe image = Ok info -> comparable (layers s) -> x ∈ layers s ->
  layer_kept (layers (install_image curArch ll_version sha256_hex repoDir e fe info localRef module s).1).
Proof using pulls images.
  intros Hi. destruct (images image info Hi) as (Hg & Hn & _). apply not_needed_in in Hn as [Hb Hr].
  set (R := fun r => ref_id r <> pi_id (l_info x)) in *.
  assert (Hkeep : forall l l', changed R l l' -> x ∈ l -> x ∈ l').
  { intros l l' Hch Hx. apply (changed_keeps _ _ _ _ Hch Hx). intros r Hr' (Hid & _). by apply Hr'. }
  assert (Henough : forall l, x ∈ l -> layer_kept l) by (by left).
  pose proof (fun A B => @upto_bind _ _ R (fun l => x ∈ l) layer_kept Hkeep Henough A B) as Hbind.
  pose proof (fun A => @upto_op _ _ R (fun l => x ∈ l) layer_kept Hkeep Henough A) as Hop.
  revert s. change (upto (fun l => x ∈ l) layer_kept
    (install_image curArch ll_version sha256_hex repoDir e fe info localRef module)).
  unfold install_image. eapply Hbind; [by apply op_pullDependency|intros _ _]. eapply Hbind; [apply op_gets|intros done _].
  destruct done; [by eapply Hop, (op_ret R (fun _ => True))|].
  intros s Hc Hx. unfold bind at 1. pose proof (op_import R info None Hg s Hc) as Ho.
  destruct (importLayerDir _ _ _ _ _ _ s) as [s1 [[u|c]|]] eqn:Ei; destruct Ho as [Hch _].
  - apply import_adds in Ei as (y & Hy & Ey & Er).
    assert (Him : imported (layers s1)) by (exists y, image; rewrite Ey; auto).
    pose proof (changed_comparable _ _ _ Hch Hc) as Hc1. apply (Hkeep _ _ Hch) in Hx.
    unfold bind, taskContext, PackageJobs.on_task. set (s2 := set_task _ s1).
    destruct (negb (is_main module)); [by left|]. destruct (negb _); [by left|].
    by apply (layer_imported_keeps info module s2 image).
  - left. by apply (Hkeep _ _ Hch).
  - left. by apply (Hkeep _ _ Hch).
Qed.

(** Whatever fails on the way, an installed layer survives the installation
    of a layer file, unless it belongs to the version that is replaced; and that
    one only goes when the new version has been imported. *)
Theorem layer_file_keeps layerFile module skipInteraction upgrade s : comparable (layers s) -> x ∈ layers s ->
  let s' := fst (install_layer curArch ll_version sha256_hex repoDir e fe layerFile localRef module skipInteraction upgrade s) in
  x ∈ layers s' \/ (imported (layers s') /\ exists old, localRef = Some old /\ texts_of old x).
Proof using pulls images.
  intros Hc Hx. cbv zeta. revert s Hc Hx. set (R := fun _ : Reference => False).
  assert (Hkeep : forall l l', changed R l l' -> x ∈ l -> x ∈ l').
  { intros l l' Hch Hx. by apply (changed_keeps _ _ _ _ Hch Hx). }
  assert (Henough : forall l, x ∈ l -> layer_kept l) by (by left).
  pose proof (fun A B => @upto_bind _ _ R (fun l => x ∈ l) layer_kept Hkeep Henough A B) as Hbind.
  pose proof (fun A => @upto_op _ _ R (fun l => x ∈ l) layer_kept Hkeep Henough A) as Hop.
  change (upto (fun l => x ∈ l) layer_kept
    (install_layer curArch ll_version sha256_hex repoDir e fe layerFile localRef module skipInteraction upgrade)).
  unfold install_layer. eapply Hbind; [apply op_interaction|intros _ _]. eapply Hbind; [apply op_gets|intros done _].
  destruct done; [by eapply Hop, (op_ret R (fun _ => True))|]. eapply Hbind; [apply op_task|intros _ _].
  eapply Hbind; [apply op_task|intros _ _]. eapply Hbind; [apply op_asked|intros env _].
  destruct (LayerFile.unpack env layerFile) as [[u|c] f]; cbn [fst]; [|eapply Hop, op_task].
  destruct (fe_image_info fe (image_of u)) as [info|c] eqn:Ei; [|eapply Hop, op_task].
  intros s Hc Hx. by apply (install_image_keeps info module s (image_of u)).
Qed.
End layer_job.

(** *** A bundle *)

Section bundle_steps.
Variables R U : Reference -> Prop.
Variable sections : result (list (str * (Z * Z))).
Variable content : str.
Hypothesis pulls : good_pulls e.
(** Imports only add layers, and pull the dependencies in [R]; the layers of the
    bundle are in [U]. *)
Hypothesis infos : forall n key info, fe_layer_info fe n key = Ok info ->
  good_info info /\ needs_in R info /\ forall ref, ref_fromPackageInfo info = Ok ref -> U ref.

Abbreviation undo t := (Forall (op U (fun _ => True)) t).

Lemma op_prepare_app info onlyApp sign : needs_in R info ->
  op R (fun _ => True) (prepare_app curArch ll_version repoDir e info onlyApp sign).
Proof using pulls.
  intros [Hb Hr]. unfold prepare_app. destruct sign as [[o|c]|]; [|job|apply op_die].
  apply op_seq; [|by apply op_ret]. destruct onlyApp; [by apply op_pullDependency|by apply op_ret].
Qed.

Lemma op_prepare_other info ref onlyApp : op R (fun _ => True) (prepare_other curArch repoDir e fe info ref onlyApp).
Proof using.
  unfold prepare_other. destruct onlyApp; [by apply op_ret|]. destruct (fuzzy_parse _); [|apply op_die].
  eapply op_bind.
  { eapply op_any, (op_repo R (fun _ => True)). intros s _. unfold clearReference. cbn [local_only forceRemote semanticMatching fallbackToRemote].
    destruct (clearReferenceLocal _ _ _ _); [done|]. cbn [negb orb]. done. }
  intros [l|c] _; [|by apply op_ret]. eapply op_bind; [apply op_getLayerDir|]. intros dir _.
  eapply op_bind; [apply op_asked|]. intros valid _. destruct dir; by apply op_ret.
Qed.

Lemma op_import_layer metaInfo layer t : undo t ->
  op R (fun r => undo (snd r)) (import_layer curArch ll_version repoDir e fe sections content metaInfo layer t).
Proof using pulls infos.
  intros Ht. unfold import_layer. cbv zeta. set (key := (_, _)).
  eapply op_bind; [apply op_asked|]. intros [[|]|c] _; [|apply op_seq; [apply op_task|by apply op_ret]..].
  eapply op_bind; [apply (op_ask R (fun r => match r with Ok info => good_info info /\ needs_in R info /\
    forall ref, ref_fromPackageInfo info = Ok ref -> U ref | Err _ => True end));
    intros n; destruct (fe_layer_info fe n key) eqn:Ek; [by eapply infos|done]|].
  intros [info|c] Hi; [|apply op_seq; [apply op_task|by apply op_ret]]. destruct Hi as (Hg & Hn & HU).
  eapply op_bind; [apply op_reference|]. intros [ref|c] Hr; [|apply op_seq; [apply op_task|by apply op_ret]].
  eapply op_bind; [apply op_asked|]. intros opened _. eapply (op_bind _ (fun _ => True)).
  { destruct (is_app_layer layer); [by apply op_prepare_app|apply op_prepare_other]. }
  intros [[|]|] _; [|by apply op_ret..]. eapply op_bind; [by apply op_import|]. intros [u|c] _.
  - apply op_ret. constructor; [|done]. apply op_seq; [apply op_remove_sub; by apply HU|by apply op_ret].
  - apply op_seq; [apply op_task|by apply op_ret].
Qed.

Lemma op_import_layers metaInfo l t : undo t ->
  op R (fun r => undo (snd r)) (import_layers curArch ll_version repoDir e fe sections content metaInfo l t).
Proof using pulls infos.
  revert t. induction l as [|layer l IH]; intros t Ht; cbn [import_layers]; [by apply op_ret|].
  eapply op_bind; [apply op_gets|]. intros done _. destruct done; [by apply op_ret|].
  eapply op_bind; [by apply op_import_layer|]. intros r Hr. destruct (fst r); [by apply IH|by apply op_ret].
Qed.
End bundle_steps.

Lemma op_finish (R : Reference -> Prop) newAppRef oldAppRef : good_pulls e -> (forall old, oldAppRef = Some old -> R old) ->
  op R (fun _ => True) (finish_uab ll_version sha256_hex repoDir e newAppRef oldAppRef).
Proof.
  intros Hp Ho. unfold finish_uab. eapply (op_bind _ (fun _ => True)).
  - unfold replace_old. destruct oldAppRef as [old|].
    + eapply op_bind; [apply op_gets|]. intros modules _. apply op_seq; [apply op_removeAfterInstall; [done|by apply Ho]|by apply op_ret].
    + apply op_seq; [apply op_merge|]. apply op_seq; [apply op_event|]. eapply op_bind; [apply op_tryGenerateCache|].
      intros [|] _; [by apply op_ret|apply op_seq; [apply op_task|by apply op_ret]].
  - intros go _. destruct (negb go); [by apply op_ret|]. eapply op_bind; [apply op_installHooks|].
    intros [|] _; [by apply op_ret|apply op_seq; [apply op_task|by apply op_ret]].
Qed.

Section bundle_job.
Variable sections : result (list (str * (Z * Z))).
Variable content : str.
Variable metaInfo : UabMetaInfo.
Variables newAppRef : Reference.
Variable oldAppRef : option Reference.
Hypothesis pulls : good_pulls e.

(** The references the job may touch: the version it replaces, the layers of the
    bundle, and what their records name. *)
Inductive bundle_touches : Reference -> Prop :=
| touch_old r : oldAppRef = Some r -> bundle_touches r
| touch_layer n key info r : fe_layer_info fe n key = Ok info -> ref_fromPackageInfo info = Ok r -> bundle_touches r
| touch_dependency n key info text fuzzy r : fe_layer_info fe n key = Ok info ->
    text = pi_base info \/ pi_runtime info = Some text -> fuzzy_parse text = Ok fuzzy -> ref_id r = fz_id fuzzy -> bundle_touches r.

Lemma touches_needs n key info : fe_layer_info fe n key = Ok info -> needs_in bundle_touches info.
Proof using. intros Hi. split; [|intros text Et]; intros fuzzy r Ef Er; eapply touch_dependency; eauto. Qed.

Lemma op_install_layers bundle : (forall n key info, fe_layer_info fe n key = Ok info -> good_info info) ->
  op bundle_touches (fun _ => True)
    (install_layers curArch ll_version sha256_hex repoDir e fe sections content metaInfo bundle newAppRef oldAppRef).
Proof using pulls.
  intros Hg. unfold install_layers.
  eapply op_bind; [apply (op_import_layers bundle_touches bundle_touches); [done| |by constructor]|].
  { intros n key info Hi. split_and!; [by eapply Hg|by eapply touches_needs|]. intros ref Hr. by eapply touch_layer. }
  intros r Hr. destruct (negb (fst r)).
  - apply op_seq; [by apply op_rollback|by apply op_ret].
  - eapply op_bind; [apply op_finish; [done|apply touch_old]|]. intros [] _; [by apply op_ret|].
    apply op_seq; [by apply op_rollback|by apply op_ret].
Qed.

(** C20: whatever fails on the way, and through all its rollbacks, the installation
    of a bundle leaves every installed layer alone that does not belong to the
    replaced version, to a layer of the bundle or to what these depend on. *)
Theorem bundle_keeps bundle skipInteraction upgrade s x : comparable (layers s) ->
  (forall n key info, fe_layer_info fe n key = Ok info -> good_info info) ->
  x ∈ layers s -> (forall r, bundle_touches r -> ~ texts_of r x) ->
  x ∈ layers (fst (install_uab curArch ll_version sha256_hex repoDir e fe sections content metaInfo bundle newAppRef oldAppRef
                     skipInteraction upgrade s)).
Proof using pulls.
  intros Hc Hg Hx Hn. cut (op bundle_touches (fun _ => True) (install_uab curArch ll_version sha256_hex repoDir e fe sections content
    metaInfo bundle newAppRef oldAppRef skipInteraction upgrade)).
  { intros Ho. specialize (Ho s Hc). destruct (install_uab _ _ _ _ _ _ _ _ _ _ _ _ _ _ s) as [s' a]. destruct Ho as [Hch _].
    by apply (changed_keeps _ _ _ _ Hch Hx). }
  clear s Hc x Hx Hn. unfold install_uab. apply op_seq; [apply op_interaction|]. eapply op_bind; [apply op_gets|]. intros done _.
  destruct done; [by apply op_ret|]. apply op_seq; [apply op_task|]. apply op_seq; [apply op_task|].
  eapply op_bind; [apply op_asked|]. intros env _. destruct (uab_unpack _ _ _ _) as [[u|c]|]; [|apply op_task|apply op_die].
  eapply op_bind; [apply op_gets|]. intros done _. destruct done; [by apply op_ret|].
  eapply op_bind; [apply op_asked|]. intros there _. destruct (_ || _); [apply op_task|].
  eapply op_bind; [by apply op_install_layers|]. intros [] _; [apply op_task|by apply op_ret].
Qed.

(** *** A bundle that is committed *)

Definition key_of (layer : UabLayer) : str * str := (pi_id (ul_info layer), packageInfoV2Module (ul_info layer)).

(** The record of a layer of the bundle is recorded. *)
Definition recorded (layer : UabLayer) (l : list RepositoryCacheLayersItem) : Prop :=
  exists n info y, fe_layer_info fe n (key_of layer) = Ok info /\ y ∈ l /\ l_info y = info /\ l_repo y = lit "local".

Lemma import_layer_app layer t s s' t' : is_app_layer layer = true ->
  import_layer curArch ll_version repoDir e fe sections content metaInfo layer t s = (s', Some (true, t')) ->
  recorded layer (layers s').
Proof using.
  intros Ha. unfold import_layer. rewrite Ha. cbv zeta. unfold bind at 1, ask at 1. fold (key_of layer).
  destruct (fe_layer_dir fe _ _) as [[|]|]; [|done..]. unfold bind at 1, ask at 1. set (n := j_time _).
  destruct (fe_layer_info fe n (key_of layer)) as [info|c] eqn:Ei; [|done]. unfold bind at 1. destruct (reference_of info _) as [s1 [[ref|]|]]; [|done..].
  unfold bind at 1, ask at 1. unfold bind at 1. destruct (prepare_app _ _ _ _ _ _ _ _) as [s2 [[go|]|]] eqn:Ep; [|done..].
  destruct go; cbn [ret].
  - unfold bind at 1. destruct (importLayerDir _ _ _ _ _ _ s2) as [s3 [[u|]|]] eqn:Em; [|done..]. intros [= <- _].
    apply import_adds in Em as (y & Hy & E1 & E2). by exists n, info, y.
  - exfalso. revert Ep. unfold prepare_app. destruct (extractSignData _ _ _ _ _) as [[|]|]; [|done..].
    match goal with |- bind ?m _ ?s = _ -> _ => unfold bind; by destruct (m s) as [s4 [|]] end.
Qed.

Section committed.
Variable app : UabLayer.
Hypothesis is_app : is_app_layer app = true.
(** No record of the bundle depends on the application, and the version that is
    replaced is another one. *)
Hypothesis apart : forall n key info, fe_layer_info fe n key = Ok info ->
  good_info info /\ forall n' info', fe_layer_info fe n' (key_of app) = Ok info' ->
    not_needed info (pi_id info') /\ forall old, oldAppRef = Some old -> pi_version info' <> ver_toString (ref_version old).

(** References that are not those of a record of the application. *)
Definition other (r : Reference) : Prop :=
  forall n info, fe_layer_info fe n (key_of app) = Ok info ->
    ref_id r <> pi_id info \/ ver_toString (ref_version r) <> pi_version info.

Lemma recorded_changed l l' : changed other l l' -> recorded app l -> recorded app l'.
Proof using.
  intros Hch (n & info & y & Hi & Hy & E & Er). exists n, info, y. split_and!; [done| |done|done].
  apply (changed_keeps _ _ _ _ Hch Hy). intros r Hr (Hid & _ & Hv). destruct (Hr n info Hi) as [Hn|Hn]; congruence.
Qed.

Lemma other_infos n key info : fe_layer_info fe n key = Ok info ->
  good_info info /\ needs_in other info /\ forall ref, ref_fromPackageInfo info = Ok ref -> True.
Proof using apart.
  intros Hi. destruct (apart n key info Hi) as [Hg Ha]. split_and!; [done| |done].
  split; [|intros text Et]; intros fuzzy r Ef Er n' info' Hi'; left; rewrite Er; destruct (Ha n' info' Hi') as [Hn _]; eapply Hn; eauto.
Qed.

Lemma import_layers_app bundle t s s' t' : app ∈ bundle -> comparable (layers s) ->
  Forall (op (fun _ => True) (fun _ => True)) t ->
  import_layers curArch ll_version repoDir e fe sections content metaInfo bundle t s = (s', Some (true, t')) ->
  recorded app (layers s').
Proof using pulls is_app apart.
  pose proof (op_import_layer other (fun _ => True) sections content pulls other_infos metaInfo) as Hone.
  pose proof (op_import_layers other (fun _ => True) sections content pulls other_infos metaInfo) as Hall.
  revert t s. induction bundle as [|layer bundle IH]; intros t s Hin Hc Ht; [by apply elem_of_nil in Hin|]. cbn [import_layers].
  unfold bind at 1, isTaskDone, gets. destruct (done_subState _); [done|]. unfold bind.
  pose proof (Hone layer t Ht s Hc) as Ho.
  destruct (import_layer _ _ _ _ _ _ _ _ layer t s) as [s1 [[[|] t1]|]] eqn:E1; cbn [fst snd]; [|done..].
  destruct Ho as [Hch1 Ht1]. cbn [snd] in Ht1. pose proof (changed_comparable _ _ _ Hch1 Hc) as Hc1.
  apply elem_of_cons in Hin as [El|Hin]; [|by apply IH]. intros E2. rewrite <- El in E1.
  apply import_layer_app in E1; [|done].
  pose proof (Hall bundle t1 Ht1 s1 Hc1) as Ho2.
  rewrite E2 in Ho2. destruct Ho2 as [Hch2 _]. by apply (recorded_changed _ _ Hch2).
Qed.

(** When the installation of a bundle is committed, the record of its
    application is that of a layer in the repository. *)
Theorem bundle_installed bundle s s' : app ∈ bundle -> comparable (layers s) ->
  install_layers curArch ll_version sha256_hex repoDir e fe sections content metaInfo bundle newAppRef oldAppRef s = (s', Some true) ->
  recorded app (layers s').
Proof using pulls is_app apart.
  intros Hin Hc. unfold install_layers, bind at 1.
  destruct (import_layers _ _ _ _ _ _ _ _ bundle [] s) as [s1 [[[|] t]|]] eqn:E1; cbn [fst snd negb]; [| |done].
  - pose proof (op_import_layers other (fun _ => True) sections content pulls other_infos metaInfo bundle [] ltac:(constructor) s Hc) as Ho.
    rewrite E1 in Ho. destruct Ho as [Hch1 _]. pose proof (changed_comparable _ _ _ Hch1 Hc) as Hc1.
    apply import_layers_app in E1; [|done..|constructor].
    assert (Ho2 : op other (fun _ => True) (finish_uab ll_version sha256_hex repoDir e newAppRef oldAppRef)).
    { apply op_finish; [done|]. intros old Eo n info Hi. right. destruct (apart n _ info Hi) as [_ Ha].
      destruct (Ha n info Hi) as [_ Hv]. intros Ev. by apply (Hv old Eo). }
    unfold bind at 1. specialize (Ho2 s1 Hc1). destruct (finish_uab _ _ _ _ _ _ s1) as [s2 [[|]|]]; [|intros Er|done].
    + intros [= <-]. destruct Ho2 as [Hch2 _]. by apply (recorded_changed _ _ Hch2).
    + unfold bind in Er. by destruct (rollback t s2) as [s3 [|]].
  - unfold bind. by destruct (rollback t s1) as [s3 [|]].
Qed.
End committed.
End bundle_job.

(** *** Removing later *)

Section deferred.
Hypothesis pulls : good_pulls e.

Lemma op_remove_items (R : Reference -> Prop) ref items : R ref -> op R (fun _ => True) (remove_items ll_version e ref items).
Proof using.
  intros HR. induction items as [|item items IH]; cbn [remove_items]; [by apply op_ret|].
  apply op_seq; [destruct (is_main _); [apply op_seq; [apply op_removeCache|by apply op_ret]|by apply op_ret]|].
  apply op_seq; [by apply op_remove_sub|done].
Qed.

Lemma op_uninstall_groups (R : Reference -> Prop) groups : (forall g r, g ∈ groups -> ref_parse g.1 = Ok r -> R r) ->
  op R (fun _ => True) (uninstall_groups curArch ll_version sha256_hex e groups).
Proof using.
  induction groups as [|[key items] groups IH]; intros Hg; cbn [uninstall_groups]; [by apply op_ret|].
  eapply op_bind.
  { instantiate (1 := fun r => match r with Ok ref => R ref | Err _ => True end). unfold try.
    destruct (ref_parse key) as [ref|c] eqn:Ek; [apply op_ret, (Hg (key, items)); [left|done]|].
    destruct (c =? terminated); [apply op_die|by apply op_ret]. }
  intros [ref|c] HR; [|by apply op_ret]. apply op_seq; [apply op_event|]. apply op_seq; [by apply op_remove_items|].
  apply op_seq; [apply op_merge|]. destruct (fuzzy_create _ _ _ _); [|by apply op_ret].
  eapply op_bind.
  { eapply op_any, (op_repo R (fun _ => True)). intros s _. unfold clearReference. cbn [local_only forceRemote semanticMatching fallbackToRemote].
    destruct (clearReferenceLocal _ _ _ _); [done|]. cbn [negb orb]. done. }
  intros [r|] _; [|apply op_die]. apply op_seq; [apply op_event|]. apply IH. intros g r' Hin. apply Hg. by right.
Qed.

Lemma put_group_keys key item l g : g ∈ put_group key item l -> g.1 = key \/ exists g', g' ∈ l /\ g.1 = g'.1.
Proof using.
  induction l as [|h l IH]; cbn [put_group]; [by intros ->%list_elem_of_singleton; left|]. case_bool_decide.
  - intros [->|Hg]%elem_of_cons; [by left|right; exists g; split; [by right|done]].
  - intros [->|Hg]%elem_of_cons; [right; exists h; split; [left|done]|]. destruct (IH Hg) as [?|(g' & ? & ?)]; [by left|right].
    exists g'. split; [by right|done].
Qed.

Lemma group_layers_keys items groups groups' : group_layers items groups = Some groups' ->
  forall g, g ∈ groups' -> (exists g', g' ∈ groups /\ g.1 = g'.1) \/
    exists y r, y ∈ items /\ ref_fromPackageInfo (l_info y) = Ok r /\ g.1 = ref_toString r.
Proof using.
  revert groups. induction items as [|y items IH]; intros groups Hg g Hin; cbn [group_layers] in Hg.
  { injection Hg as <-. left. eauto. }
  destruct (ref_fromPackageInfo (l_info y)) as [ref|] eqn:Er; [|done].
  destruct (IH _ Hg g Hin) as [(g' & Hg' & E)|(z & r & Hz & H')]; [|right; exists z, r; split; [by right|done]].
  apply put_group_keys in Hg' as [E'|(g2 & Hg2 & E2)]; [right; exists y, ref; split_and!; [left|done|congruence]|].
  left. exists g2. split; [done|congruence].
Qed.

(** Every stored reference is read back from its text. *)
Definition readable (l : list RepositoryCacheLayersItem) : Prop :=
  forall x r, x ∈ l -> ref_fromPackageInfo (l_info x) = Ok r -> ref_parse (ref_toString r) = Ok r.

Definition same_version (x y : RepositoryCacheLayersItem) : Prop :=
  pi_id (l_info x) = pi_id (l_info y) /\ pi_channel (l_info x) = pi_channel (l_info y) /\
  pi_version (l_info x) = pi_version (l_info y).

(** Every answer about the running containers shows the application. *)
Definition always_running (x : RepositoryCacheLayersItem) : Prop := forall n running,
  getAllRunningContainers (je_running e n) = Ok running ->
  exists c r, c ∈ running /\ ref_fromPackageInfo (l_info x) = Ok r /\ ct_app c = ref_toString r.

(** What a round may remove: versions with a layer that is marked deleted, and
    that no container runs. *)
Definition doomed (l : list RepositoryCacheLayersItem) (running : list ContainerProcessStateInfo) (r : Reference) : Prop :=
  (exists y, y ∈ l /\ l_deleted y = Some true /\ ref_fromPackageInfo (l_info y) = Ok r) /\
  forall c, c ∈ running -> ct_app c <> ref_toString r.

Lemma op_deferred_groups s running groups : canonical (layers s) -> readable (layers s) ->
  group_layers (deleted_layers (rcache (j_repo s))) [] = Some groups ->
  op (doomed (layers s) running) (fun _ => True)
    (uninstall_groups curArch ll_version sha256_hex e (groups_in_order (not_running running groups))).
Proof using.
  intros Hc Hr Eg. apply op_uninstall_groups. intros g r Hg Ep. rewrite groups_perm in Hg.
  unfold not_running in Hg. apply list_elem_of_In, filter_In in Hg as [Hg Hn]. apply list_elem_of_In in Hg.
  destruct (group_layers_keys _ _ _ Eg g Hg) as [(g' & Hg' & _)|(y & ry & Hy & Ey & Ek)]; [by apply elem_of_nil in Hg'|].
  apply query_elem in Hy as [Hy Hq]; [|by apply canonical_comparable].
  rewrite Ek, (Hr y ry Hy Ey) in Ep. injection Ep as <-. split.
  - exists y. split_and!; [done| |done]. unfold query_match in Hq. cbn in Hq. destruct (l_deleted y) as [d|]; [|done].
    rewrite andb_true_r in Hq. apply bool_decide_eq_true in Hq. by rewrite Hq.
  - intros c Hin Hct. apply negb_true_iff in Hn. rewrite <- not_true_iff_false in Hn. apply Hn. apply existsb_exists.
    exists c. split; [by apply list_elem_of_In|]. rewrite bool_decide_eq_true. congruence.
Qed.

(** C25: a later removal takes only layers of versions that are marked deleted,
    and none of an application that runs. *)
Theorem deferred_keeps s x : canonical (layers s) -> one_arch (layers s) -> readable (layers s) -> x ∈ layers s ->
  always_running x \/ (forall y, y ∈ layers s -> l_deleted y = Some true -> ~ same_version x y) ->
  x ∈ layers (fst (deferredUninstall curArch ll_version sha256_hex e s)).
Proof using.
  intros Hc Ha Hr Hx Hk. unfold deferredUninstall, bind, ask, on_lock, gets, ret.
  destruct (lockRepo _ _) as [l [u|c]]; [|exact Hx]. cbn [j_repo].
  destruct (group_layers _ _) as [[|g groups]|] eqn:Eg; [by destruct (unlockRepo _ _)| |by destruct (unlockRepo _ _)].
  destruct (getAllRunningContainers _) as [running|] eqn:Er; [|by destruct (unlockRepo _ _)].
  set (s1 := mkJob _ _ _ _ _ _). pose proof (op_deferred_groups s1 running _ Hc Hr Eg s1 (canonical_comparable _ Hc)) as Ho.
  destruct (uninstall_groups _ _ _ _ _ s1) as [s2 a]. destruct Ho as [Hch _].
  assert (Hx2 : x ∈ layers s2).
  { apply (changed_keeps _ _ _ _ Hch Hx). intros r [(y & Hy & Hd & Ey) Hrun] Ht. destruct Hk as [Hk|Hk].
    - destruct (Hk _ _ Er) as (c & rx & Hin & Ex & Ec). apply (Hrun c Hin). rewrite Ec. f_equal.
      apply (texts_ref (layers s) x); try done. by exists y.
    - apply (Hk y Hy Hd). destruct (installed_inv (layers s) r Hc ltac:(by exists y)) as (z & _ & Zi & Zc & [Zv _] & Zt & _).
      apply fromPackageInfo_inv in Ey as (Yv & Yi & Yc & _). destruct Ht as (Ti & Tc & Tv). unfold same_version. split_and!; [congruence..|].
      unfold canonical in Hc. rewrite Forall_forall in Hc. destruct (Hc y Hy) as (v & [Yv' _] & Et). congruence. }
  destruct a as [u0|]; [|done]. by destruct (unlockRepo _ _).
Qed.
End deferred.
End file_jobs.

(** ** Examples *)

#[local] Existing Instance qt_model.
#[local] Existing Instance std_sort_model.
#[local] Existing Instance json_model.
#[local] Existing Instance client_model.
#[local] Existing Instance yaml_model.
#[local] Existing Instance json_lib_model.
#[local] Existing Instance meta_json_model.
Definition listed_order : GroupOrder := {| groups_in_order := fun l => l; groups_perm := fun l => reflexivity l |}.
#[local] Existing Instance listed_order.

Definition demo_files (info : PackageInfoV2) : file_env :=
  mkFileEnv (fun _ => Some (lit "yes")) (fun _ => mkImport true (Ok (lit "c9")) (Ok tt) (Ok tt) all_good) (fun _ => Ok info)
    (fun _ _ => true) (fun _ => mkUnpackEnv true (Ok true) (Ok true) true true) (fun _ => mkUabEnv true true true true true true true)
    (fun _ => true) (fun _ _ => Ok true) (fun _ _ => Ok info) (fun _ => true).

Definition run_layer (localRef : option Reference) (info : PackageInfoV2) (hooks : result unit) : job_state :=
  fst (install_layer (Ok X86_64) (lit "1.9") example_hash (lit "/r") (demo_env (new_info the_base) hooks) (demo_files info)
    (LayerFile.opened (layer_head LayerFile.example_info ++ lit "EROFS")) localRef (lit "binary") true true demo_job).

Definition hook_calls (s : job_state) : nat :=
  length (List.filter (fun x => match x with InstallHooks _ => true | _ => false end) (j_events s)).

(** A layer file replaces the installed version and runs the hooks; one that
    installs a new application does not run them. *)
Example layer_replaces :
  let s := run_layer (Some PackageManager.demo_ref) (new_info the_base) (Ok tt) in
  demo_layers s = [base_layer; mkLayer (lit "c9") None (new_info the_base) (lit "local")] /\
  m_state (j_task s) = Succeed /\ hook_calls s = 1%nat.
Proof. split_and!; vm_compute; reflexivity. Qed.

Example layer_new_no_hooks :
  let s := run_layer None (new_info the_base) (Err 1) in
  demo_layers s = [demo_layer; base_layer; mkLayer (lit "c9") None (new_info the_base) (lit "local")] /\
  m_state (j_task s) = Succeed /\ hook_calls s = 0%nat.
Proof. split_and!; vm_compute; reflexivity. Qed.

Definition demo_app (info : PackageInfoV2) : UabLayer := mkUabLayer info false.
Definition demo_meta (info : PackageInfoV2) : UabMetaInfo :=
  mkMeta [] [demo_app info] (Some true) (mkSections bundle_section None) (lit "u").
Definition run_bundle (info : PackageInfoV2) (hooks : result unit) : job_state * option unit :=
  install_uab (Ok X86_64) (lit "1.9") example_hash (lit "/r") (demo_env (new_info the_base) hooks) (demo_files info)
    uab_sections example_uab (demo_meta info) [demo_app info] demo_new (Some PackageManager.demo_ref) true true demo_job.

(** A bundle whose base cannot be had is installed without it, as a success. *)
Example bundle_without_base :
  let info := new_info (lit "main:org.absent/1.0.0.0/x86_64") in
  let s := fst (run_bundle info (Ok tt)) in
  demo_layers s = [base_layer; mkLayer (lit "c9") None info (lit "local")] /\ m_state (j_task s) = Succeed.
Proof. split; vm_compute; reflexivity. Qed.

(** A hook that fails takes the new version back, after the old one has gone. *)
Example bundle_hook_failure :
  let s := fst (run_bundle (new_info the_base) (Err 1)) in
  demo_layers s = [base_layer] /\ m_state (j_task s) = Failed.
Proof. split; vm_compute; reflexivity. Qed.

(** A version that was replaced while it ran is removed later, when another one
    is there; without one the daemon reads the reference of an error. *)
Definition deferred_job (l : list RepositoryCacheLayersItem) : job_state :=
  set_repo (set_rcache (mkRC (with_layers example_cache l) None None) demo_repo) demo_job.
Definition new_layer : RepositoryCacheLayersItem := package (lit "org.deepin.demo") (lit "app") the_base (lit "1.2.3") (lit "c9").
Definition run_deferred (l : list RepositoryCacheLayersItem) : job_state * option unit :=
  deferredUninstall (Ok X86_64) (lit "1.9") example_hash (demo_env (new_info the_base) (Ok tt)) (deferred_job l).

Example deferred_removes :
  let r := run_deferred [set_deleted (Some true) demo_layer; base_layer; new_layer] in
  demo_layers (fst r) = [base_layer; new_layer] /\ snd r = Some tt.
Proof. split; vm_compute; reflexivity. Qed.
Example deferred_last_version :
  let r := run_deferred [set_deleted (Some true) demo_layer; base_layer] in
  demo_layers (fst r) = [base_layer] /\ snd r = None.
Proof. split; vm_compute; reflexivity. Qed.

Abbreviation demo_answer :=
  (installFromUAB (Ok X86_64) (lit "/r") demo_repo (fun _ => true) (fun _ => true) true (Ok tt) (Ok tt)
    (Ok (uab_sections, example_uab)) false true).

Lemma uab_sections_inside section off size : uab_getSectionHeader uab_sections section = Ok (off, size) ->
  0 <= off < 2 ^ 63 /\ 0 <= size < 2 ^ 64.
Proof.
  unfold uab_getSectionHeader, uab_sections. cbn [res_bind List.find fst].
  repeat (case_bool_decide; [intros [= <- <-]; vm_compute; repeat split; (reflexivity || discriminate)|]). done.
Qed.

Lemma demo_starts : match demo_answer with AddTask _ _ => True | Refuse _ => False end.
Proof. vm_compute. exact I. Qed.
Lemma demo_length : Z.of_nat (length example_uab) < 2 ^ 63.
Proof. vm_compute. reflexivity. Qed.
Lemma demo_meta_read : Uab.getMetaInfo uab_sections example_uab = Ok example_meta.
Proof. vm_compute. reflexivity. Qed.

Lemma uab_request_checked_witness : exists refs j, demo_answer = AddTask refs j /\
  file_job (Ok X86_64) (lit "/r") demo_repo (fun _ => true) (fun _ => true) LayerFile.example_info false true (AddTask refs j).
Proof.
  pose proof demo_starts as D. destruct demo_answer as [c|refs j] eqn:E; [destruct D|]. exists refs, j. split; [reflexivity|].
  destruct (uab_request_checked (Ok X86_64) (lit "/r") demo_repo (fun _ => true) (fun _ => true) (Ok tt) (Ok tt)
    uab_sections example_uab false true refs j demo_length uab_sections_inside E) as (metaInfo & app & off & size & Hm & Ha & _ & Hj & _).
  rewrite demo_meta_read in Hm. injection Hm as <-. apply list_elem_of_singleton in Ha as ->. exact Hj.
Defined.

Lemma demo_good_info : good_info (new_info the_base).
Proof. exists (isV2 (mkV2 1 2 3 [] [] 0 true)). split; [by vm_compute|exact v2_example_parsed]. Qed.

Lemma demo_not_needed : not_needed (new_info the_base) (lit "org.deepin.demo").
Proof.
  intros text fuzzy Ht Ef. apply (demo_no_own_dependency (Ok tt) O [] (new_info the_base) text fuzzy eq_refl); [|done].
  destruct Ht; [by left|by right].
Qed.

Lemma demo_images image info : fe_image_info (demo_files (new_info the_base)) image = Ok info ->
  good_info info /\ not_needed info (pi_id (l_info demo_layer)) /\
  forall old, Some PackageManager.demo_ref = Some old -> pi_version info <> ver_toString (ref_version old).
Proof.
  intros [= <-]. split_and!; [exact demo_good_info|exact demo_not_needed|]. intros old [= <-]. by vm_compute.
Qed.

Lemma layer_file_keeps_witness :
  let s' := run_layer (Some PackageManager.demo_ref) (new_info the_base) (Err 1) in
  demo_layer ∈ demo_layers demo_job /\
  (demo_layer ∈ demo_layers s' \/
   (imported (demo_files (new_info the_base)) (demo_layers s') /\ exists old, Some PackageManager.demo_ref = Some old /\ texts_of old demo_layer)).
Proof.
  split; [left|].
  exact (layer_file_keeps (Ok X86_64) (lit "1.9") example_hash (lit "/r") (demo_env (new_info the_base) (Err 1))
    (demo_files (new_info the_base)) demo_layer (Some PackageManager.demo_ref) (demo_good_pulls (Err 1)) demo_images
    (LayerFile.opened (layer_head LayerFile.example_info ++ lit "EROFS")) (lit "binary") true true demo_job
    (sound_comparable demo_repo demo_sound) (list_elem_of_here _ _)).
Defined.

(** The base that is installed stays. *)
Lemma demo_touches r : bundle_touches (demo_files (new_info (lit "main:org.absent/1.0.0.0/x86_64"))) (Some PackageManager.demo_ref) r ->
  ref_id r = lit "org.deepin.demo" \/ ref_id r = lit "org.absent".
Proof.
  assert (E : fuzzy_parse (lit "main:org.absent/1.0.0.0/x86_64") =
    Ok (mkFuzzy (Some (lit "main")) (lit "org.absent") (Some (lit "1.0.0.0")) (Some X86_64))) by by vm_compute.
  destruct 1 as [r [= <-]|n key info r [= <-] Hr|n key info text fuzzy r [= <-] Ht Ef Er]; [by left| |].
  - left. by apply fromPackageInfo_inv in Hr as (_ & -> & _).
  - right. rewrite Er. destruct Ht as [->|?]; [|done]. change (pi_base _) with (lit "main:org.absent/1.0.0.0/x86_64") in Ef.
    rewrite E in Ef. by injection Ef as <-.
Qed.

Lemma absent_good_info : good_info (new_info (lit "main:org.absent/1.0.0.0/x86_64")).
Proof. exact demo_good_info. Qed.

Lemma bundle_keeps_witness :
  base_layer ∈ demo_layers (fst (run_bundle (new_info (lit "main:org.absent/1.0.0.0/x86_64")) (Err 1))).
Proof.
  unfold demo_layers, run_bundle. set (info := new_info (lit "main:org.absent/1.0.0.0/x86_64")).
  apply (bundle_keeps (Ok X86_64) (lit "1.9") example_hash (lit "/r") (demo_env (new_info the_base) (Err 1)) (demo_files info)
    uab_sections example_uab (demo_meta info) demo_new (Some PackageManager.demo_ref) (demo_good_pulls (Err 1)) [demo_app info]
    true true demo_job base_layer (sound_comparable demo_repo demo_sound)).
  - intros n key info' [= <-]. exact absent_good_info.
  - right. left.
  - intros r [E|E]%demo_touches (Hid & _); rewrite E in Hid; discriminate Hid.
Defined.

Abbreviation demo_install :=
  (install_layers (Ok X86_64) (lit "1.9") example_hash (lit "/r") (demo_env (new_info the_base) (Ok tt)) (demo_files (new_info the_base))
     uab_sections example_uab (demo_meta (new_info the_base)) [demo_app (new_info the_base)] demo_new (Some PackageManager.demo_ref) demo_job).

Lemma demo_committed : snd demo_install = Some true.
Proof. vm_compute. reflexivity. Qed.

Lemma demo_apart n key info : fe_layer_info (demo_files (new_info the_base)) n key = Ok info ->
  good_info info /\ forall n' info', fe_layer_info (demo_files (new_info the_base)) n' (key_of (demo_app (new_info the_base))) = Ok info' ->
    not_needed info (pi_id info') /\ forall old, Some PackageManager.demo_ref = Some old -> pi_version info' <> ver_toString (ref_version old).
Proof.
  intros [= <-]. split; [exact demo_good_info|]. intros n' info' [= <-]. split; [exact demo_not_needed|].
  intros old [= <-]. by vm_compute.
Qed.

Lemma bundle_installed_witness :
  snd demo_install = Some true /\
  recorded (demo_files (new_info the_base)) (demo_app (new_info the_base)) (demo_layers (fst demo_install)).
Proof.
  split; [exact demo_committed|]. pose proof demo_committed as D. destruct demo_install as [s' r] eqn:E. cbn [snd] in D. subst r.
  unfold demo_layers. cbn [fst].
  apply (bundle_installed (Ok X86_64) (lit "1.9") example_hash (lit "/r") (demo_env (new_info the_base) (Ok tt)) (demo_files (new_info the_base))
    uab_sections example_uab (demo_meta (new_info the_base)) demo_new (Some PackageManager.demo_ref) (demo_good_pulls (Ok tt))
    (demo_app (new_info the_base)) eq_refl demo_apart [demo_app (new_info the_base)] demo_job s' (list_elem_of_here _ _)
    (sound_comparable demo_repo demo_sound) E).
Defined.

Definition deferred_layers : list RepositoryCacheLayersItem := [set_deleted (Some true) demo_layer; base_layer; new_layer].

Lemma deferred_canonical : canonical deferred_layers.
Proof.
  repeat constructor; eexists; (split; [split; [by vm_compute|]|by vm_compute]);
    try exact v2_example_parsed; unfold parsed63, wf_v1, i64_max; cbn; (split; [lia|done]).
Qed.

Lemma deferred_elem x : x ∈ deferred_layers -> x = set_deleted (Some true) demo_layer \/ x = base_layer \/ x = new_layer.
Proof. unfold deferred_layers. rewrite !elem_of_cons. intros [->|[->|[->|H%not_elem_of_nil]]]; auto. done. Qed.

Lemma deferred_one_arch : one_arch deferred_layers.
Proof. intros a b [->|[->| ->]]%deferred_elem [->|[->| ->]]%deferred_elem _ _ _; done. Qed.

Lemma deferred_readable : readable deferred_layers.
Proof.
  intros x r [->|[->| ->]]%deferred_elem E.
  1: assert (r = PackageManager.demo_ref) as -> by
    (assert (Er : ref_fromPackageInfo (l_info (set_deleted (Some true) demo_layer)) = Ok PackageManager.demo_ref) by (vm_compute; reflexivity); congruence).
  2: assert (r = base_ref) as -> by (assert (Er : ref_fromPackageInfo (l_info base_layer) = Ok base_ref) by (vm_compute; reflexivity); congruence).
  3: assert (r = demo_new) as -> by (assert (Er : ref_fromPackageInfo (l_info new_layer) = Ok demo_new) by (vm_compute; reflexivity); congruence).
  all: vm_compute; reflexivity.
Qed.

Lemma deferred_keeps_witness : canonical deferred_layers /\ new_layer ∈ demo_layers (fst (run_deferred deferred_layers)).
Proof.
  split; [exact deferred_canonical|].
  apply (deferred_keeps (Ok X86_64) (lit "1.9") example_hash (demo_env (new_info the_base) (Ok tt)) (deferred_job deferred_layers) new_layer
    deferred_canonical deferred_one_arch deferred_readable).
  - right. right. left.
  - right. intros y [->|[->| ->]]%deferred_elem Hd (_ & _ & Hv); discriminate Hv || discriminate Hd.
Defined.
