(* ===== verification/BuildOutput.v ===== *)
(** * What a build leaves behind ([builder/linglong_builder.cpp])

    [installModule] and [installFiles] distribute the output of a build over the
    modules of the package; [copyDir] and [generateEntries] copy parts of it.
    The files are a [tree] under absolute paths; what the system adds to it is a
    record of answers ([fs_env]). *)
From S2P Require Import Prelude Types Strings Path.

(** ** Files *)

Inductive node := Dir | File (content : str) | Link (target : str).

#[export] Instance node_eq : EqDecision node. Proof. solve_decision. Defined.

Abbreviation path := (list str).
Abbreviation tree := (gmap (list str) node).

Definition path_text (p : path) : str := p ≫= fun n => "/"%char :: n.

(** What the system answers: the path of an entry with the links among its
    directories followed, what a link leads to ([None]: nothing; [true]: a
    directory), the outcome of a new directory, a new link, a renaming and an opened file, the entries of a
    directory and everything below it in the order of the iterator, the content
    a file can be opened for reading with ([None]: there is no such file), and
    whether a pattern matches a text. *)
Record fs_env := mkFs {
  fs_real : tree -> path -> path;
  fs_leads : tree -> path -> option bool;
  fs_mkdir : tree -> path -> bool;
  fs_symlink : tree -> path -> bool;
  fs_rename : tree -> path -> path -> bool;
  fs_open : tree -> path -> bool;
  fs_list : tree -> path -> list str;
  fs_walk : tree -> path -> list path;
  fs_read : tree -> path -> option (result str);
  fs_match : str -> str -> bool
}.

(** ** Texts ([QString], [QDir]) *)

Definition blank (c : ascii) : ascii := if is_space c then " "%char else c.

(** [QString::simplified] (of ASCII texts). *)
Definition simplified (s : str) : str := join (lit " ") (split_skip " " (blank <$> s)).

(** [QString::replace]: every occurrence, from the left. *)
Definition qreplace (text before after : str) : str :=
  default text (replaceSubstring (S (length text)) text before after).

(** [QDir::cleanPath] of an absolute path. *)
Fixpoint clean_names (acc : path) (names : list str) : path :=
  match names with
  | [] => rev acc
  | n :: names =>
      if bool_decide (n = lit ".") then clean_names acc names
      else if bool_decide (n = lit "..") then clean_names (tail acc) names
      else clean_names (n :: acc) names
  end.
Definition cleanPath (s : str) : path := clean_names [] (components s).

(** [QStringList::removeDuplicates] keeps the first of each. *)
Fixpoint remove_again (seen l : list str) : list str :=
  match l with
  | [] => []
  | x :: l => if bool_decide (x ∈ seen) then remove_again seen l else x :: remove_again (x :: seen) l
  end.
Definition removeDuplicates (l : list str) : list str := remove_again [] l.

Example simplified_1 : simplified (lit "  /share/a   b ") = lit "/share/a b". Proof. reflexivity. Qed.
Example clean_1 : cleanPath (lit "/p/_build//lib/./x/../y/") = [lit "p"; lit "_build"; lit "lib"; lit "y"].
Proof. reflexivity. Qed.
Example duplicates_1 : removeDuplicates [lit "a"; lit "b"; lit "a"] = [lit "a"; lit "b"]. Proof. reflexivity. Qed.

Section install.
Variable e : fs_env.

(** ** Operations on files *)

(** What is at a path; a link at its end is not followed. *)
Definition at_ (t : tree) (p : path) : option node := t !! fs_real e t p.

(** [QFileInfo::isDir]: links are followed. *)
Definition is_dir (t : tree) (p : path) : bool :=
  match at_ t p with
  | Some Dir => true
  | Some (Link _) => bool_decide (fs_leads e t (fs_real e t p) = Some true)
  | _ => false
  end.

(** [QFile::exists], [QDir::exists]: links are followed. *)
Definition exists_ (t : tree) (p : path) : bool :=
  match at_ t p with
  | Some (Link _) => bool_decide (is_Some (fs_leads e t (fs_real e t p)))
  | Some _ => true
  | None => false
  end.

(** [QDir::mkpath]: every directory on the way that is missing. *)
Fixpoint mkpath_from (t : tree) (front rest : path) : tree * bool :=
  match rest with
  | [] => (t, true)
  | n :: rest =>
      let p := front ++ [n] in
      match at_ t p with
      | Some _ => if is_dir t p then mkpath_from t p rest else (t, false)
      | None => if fs_mkdir e t p then mkpath_from (<[fs_real e t p := Dir]> t) p rest else (t, false)
      end
  end.
Definition mkpath (t : tree) (p : path) : tree * bool := mkpath_from t [] p.

Definition parent (p : path) : path := removelast p.

(** A new entry can be made: nothing has its name and its directory is there. *)
Definition vacant (t : tree) (p : path) : bool :=
  match at_ t p with Some _ => false | None => is_dir t (parent p) end.

(** [QFile::rename], whose result is not looked at. *)
Definition rename (t : tree) (p q : path) : tree :=
  match at_ t p with
  | Some n => if vacant t q && fs_rename e t p q then <[fs_real e t q := n]> (delete (fs_real e t p) t) else t
  | None => t
  end.

(** [std::filesystem::create_symlink] *)
Definition create_symlink (t : tree) (target : str) (p : path) : tree * result unit :=
  if vacant t p && fs_symlink e t p then (<[fs_real e t p := Link target]> t, Ok tt) else (t, Err err_default).

(** Opening for writing, the text and closing. *)
Definition write_file (t : tree) (p : path) (text : str) : tree * result unit :=
  if negb (is_dir t p) && is_dir t (parent p) && fs_open e t p
  then (<[fs_real e t p := File text]> t, Ok tt) else (t, Err err_default).

(** ** [installModule] *)

Definition installFile (t : tree) (p dst : path) : tree * result unit :=
  if is_dir t p then
    match at_ t p with
    | Some (Link target) => create_symlink t target dst
    | _ => ((mkpath t dst).1, Ok tt)
    end
  else
    let '(t, made) := mkpath t (parent dst) in
    if negb made then (t, Err err_default) else (rename t p dst, Ok tt).

Inductive rule := Skipped | Named (p : path) | Pattern (re : str).

Definition starts (text s : str) : bool := is_prefix text s.

(** What a line of the rules says; [src] is the build output. *)
Definition read_rule (src : path) (line : str) : rule :=
  let line := simplified line in
  if bool_decide (line = []) || starts (lit "#") line then Skipped
  else if negb (starts (lit "^") line) then Named (cleanPath (path_text src ++ lit "/" ++ line))
  else if starts (lit "^/") line then Pattern (lit "^" ++ path_text src ++ drop 1 line)
  else Pattern (lit "^" ++ path_text src ++ lit "/" ++ drop 1 line).

(** [absoluteFilePath().replace(src, dest)] *)
Definition target_of (src dest p : path) : path :=
  components (qreplace (path_text p) (path_text src) (path_text dest)).

(** The entries the iterator gives. *)
Fixpoint install_matching (src dest : path) (re : str) (l : list path) (t : tree) : tree * result unit :=
  match l with
  | [] => (t, Ok tt)
  | p :: l =>
      if fs_match e re (path_text p) then
        match installFile t p (target_of src dest p) with
        | (t, Err c) => (t, Err c)
        | (t, Ok _) => install_matching src dest re l t
        end
      else install_matching src dest re l t
  end.

Definition install_rule (src dest : path) (line : str) (t : tree) : tree * result unit :=
  match read_rule src line with
  | Skipped => (t, Ok tt)
  | Named p =>
      match at_ t p with
      | Some _ => installFile t p (target_of src dest p)
      | None => (t, Ok tt)
      end
  | Pattern re => install_matching src dest re (fs_walk e t src) t
  end.

Fixpoint install_rules (src dest : path) (lines : list str) (t : tree) : tree * result unit :=
  match lines with
  | [] => (t, Ok tt)
  | line :: lines =>
      match install_rule src dest line t with
      | (t, Err c) => (t, Err c)
      | (t, Ok _) => install_rules src dest lines t
      end
  end.

(** The results of the first two [mkpath] are not looked at. *)
Definition installModule (lines : list str) (src dest : path) (t : tree) : tree * result unit :=
  install_rules src dest lines (mkpath (mkpath t src).1 dest).1.

(** ** [copyDir] *)

(** [QDir::relativeFilePath] *)
Fixpoint relative_names (dir p : path) : path * path :=
  match dir, p with
  | d :: dir', n :: p' => if bool_decide (d = n) then relative_names dir' p' else (dir, p)
  | _, _ => (dir, p)
  end.
Definition relativeFilePath (dir p : path) : str :=
  let '(up, down) := relative_names dir p in
  let text := (up ≫= fun _ => lit "../") ++ join (lit "/") down in
  if bool_decide (text = []) then lit "." else text.

(** The text of the copy of a link. *)
Definition copied_target (dir : path) (target : str) : str :=
  if starts (lit "/") target then
    let p := cleanPath target in if bool_decide (p = []) then lit "/" else path_text p
  else
    let origin := cleanPath (path_text dir ++ lit "/" ++ target) in
    let relativePath := relativeFilePath dir (parent origin) in
    let fileName := default [] (last origin) in
    if bool_decide (last relativePath = Some "/"%char) then relativePath ++ fileName
    else relativePath ++ lit "/" ++ fileName.

Section entries.
Variable copy_into : tree -> path -> path -> tree * result unit.

Definition copy_entry (src dst : path) (n : str) (t : tree) : tree * result unit :=
  let p := src ++ [n] in
  let q := dst ++ [n] in
  match at_ t p with
  | Some Dir => copy_into t p q
  | Some (File content) =>
      if vacant t q && fs_open e t q then (<[fs_real e t q := File content]> t, Ok tt) else (t, Err err_default)
  | Some (Link target) => create_symlink t (copied_target src target) q
  | None => (t, Err err_default)
  end.

Fixpoint copy_entries (src dst : path) (names : list str) (t : tree) : tree * result unit :=
  match names with
  | [] => (t, Ok tt)
  | n :: names =>
      match copy_entry src dst n t with
      | (t, Err c) => (t, Err c)
      | (t, Ok _) => copy_entries src dst names t
      end
  end.
End entries.

(** The fuel bounds the depth. *)
Fixpoint copyDir (fuel : nat) (t : tree) (src dst : path) : tree * result unit :=
  match fuel with
  | O => (t, Err terminated)
  | S fuel =>
      let '(t, made) := if exists_ t dst then (t, true) else mkpath t dst in
      if negb made then (t, Err err_default)
      else copy_entries (copyDir fuel) src dst (fs_list e t src) t
  end.

Example copied_1 : copied_target [lit "p"; lit "lib"] (lit "libx.so.1") = lit "./libx.so.1". Proof. reflexivity. Qed.
Example copied_2 : copied_target [lit "p"; lit "lib"] (lit "../bin/x") = lit "../bin/x". Proof. reflexivity. Qed.
Example copied_3 : copied_target [lit "p"; lit "lib"] (lit "../x") = lit "../x". Proof. reflexivity. Qed.
Example copied_4 : copied_target [lit "p"; lit "lib"] (lit "/opt//x/") = lit "/opt/x". Proof. reflexivity. Qed.

(** ** [installFiles] *)

Record BuilderProjectModules := mkModule { mod_files : list str; mod_name : str }.

Definition develop : str := lit "develop".
Definition binary : str := lit "binary".

Definition default_develop : BuilderProjectModules :=
  mkModule [lit "^/include/.+"; lit "^/lib/debug/.+"; lit "^/lib/.+\.a$"] develop.

Definition names_module (name : str) (modules : list BuilderProjectModules) : bool :=
  existsb (fun m => bool_decide (mod_name m = name)) modules.

(** The modules that are installed by rules, and those of the package. *)
Definition project_modules (modules : option (list BuilderProjectModules)) (fullDevelop : bool) : list BuilderProjectModules :=
  let given := default [] modules in
  given ++ (if negb (names_module develop given) && negb fullDevelop then [default_develop] else []).
Definition package_modules (modules : option (list BuilderProjectModules)) : list str :=
  let given := default [] modules in
  (mod_name <$> given) ++
  (if names_module binary given then [] else [binary]) ++ (if names_module develop given then [] else [develop]).

(** [operator/] of a path. *)
Definition below (dir : path) (name : str) : path :=
  if is_absolute name then components name else dir ++ components name.

Variable workingDir : path.
Definition internalDir : path := workingDir ++ [lit "linglong"].
Definition output : path := internalDir ++ [lit "output"].
Definition buildOutput : path := output ++ [lit "_build"].

Definition moduleDir (name : str) : path := below output name.
Definition module_files (name : str) : path := moduleDir name ++ [lit "files"].
Definition line_end : ascii := ascii_of_N 10.
Definition install_file (id : str) : path := components (id ++ lit ".install").

(** A module is installed and its rules are saved. *)
Definition install_module (id name : str) (lines : list str) (t : tree) : tree * result unit :=
  match installModule lines buildOutput (module_files name) t with
  | (t, Err c) => (t, Err c)
  | (t, Ok _) => write_file t (moduleDir name ++ install_file id) (join [line_end] lines)
  end.

Fixpoint install_modules (id : str) (modules : list BuilderProjectModules) (t : tree) : tree * result unit :=
  match modules with
  | [] => (t, Ok tt)
  | m :: modules =>
      match install_module id (mod_name m) (removeDuplicates (mod_files m)) t with
      | (t, Err c) => (t, Err c)
      | (t, Ok _) => install_modules id modules t
      end
  end.

(** The rules of the module [binary]: a file the project keeps, or everything
    that is left. *)
Definition old_rules (installPrefix content : str) : list str :=
  let lines := (fun line => if bool_decide (installPrefix = []) then line else qreplace line installPrefix []) <$> split_on line_end content in
  removeDuplicates (filter (fun line => line <> []) lines).
Definition all_rules (t : tree) : list str :=
  (fun p => drop (length (path_text buildOutput)) (path_text p)) <$> fs_walk e t buildOutput.
Definition binary_rules (id installPrefix : str) (t : tree) : result (list str) :=
  match fs_read e t (workingDir ++ install_file id) with
  | Some content => content <-r content ;; Ok (old_rules installPrefix content)
  | None => Ok (all_rules t)
  end.

Definition copy_fuel (t : tree) : nat := S (S (size t)).

(** The project is there; the second part is the member [packageModules]. *)
Definition installFiles (id installPrefix : str) (modules : option (list BuilderProjectModules)) (fullDevelop : bool)
    (packageModules : list str) (t : tree) : tree * list str * result unit :=
  let '(t, r) := if fullDevelop then copyDir (copy_fuel t) t buildOutput (output ++ [develop; lit "files"]) else (t, Ok tt) in
  match r with
  | Err c => (t, packageModules, Err c)
  | Ok _ =>
      let packageModules := packageModules ++ package_modules modules in
      match install_modules id (project_modules modules fullDevelop) t with
      | (t, Err c) => (t, packageModules, Err c)
      | (t, Ok _) =>
          match binary_rules id installPrefix t with
          | Err c => (t, packageModules, Err c)
          | Ok lines => let '(t, r) := install_module id binary lines t in (t, packageModules, r)
          end
      end
  end.

(** ** [generateEntries] *)

Fixpoint export_paths (paths : list str) (files entries : path) (t : tree) : tree :=
  match paths with
  | [] => t
  | name :: paths =>
      let p := below files name in
      if negb (exists_ t p) then export_paths paths files entries t
      else
        let q := if bool_decide (name = lit "share/appdata") then entries ++ [lit "share"; lit "metainfo"]
                 else below entries name in
        export_paths paths files entries (copyDir (copy_fuel t) t p q).1
  end.

(** [config]: the paths of [export-dirs.json], when it can be read. *)
Definition generateEntries (is_app : bool) (config : result (list str)) (t : tree) : tree * result unit :=
  let files := output ++ [binary; lit "files"] in
  let entries := output ++ [binary; lit "entries"] in
  if negb is_app then (t, Ok tt)
  else
    match config with
    | Err c => (t, Err c)
    | Ok paths =>
        let '(t, made) := mkpath t entries in
        if negb made then (t, Err err_default)
        else
          let '(t, made) := if exists_ t (files ++ [lit "share"]) then mkpath t (entries ++ [lit "share"]) else (t, true) in
          if negb made then (t, Err err_default)
          else
            let t := export_paths paths files entries t in
            let user := [lit "lib"; lit "systemd"; lit "user"] in
            if exists_ t (files ++ user) then
              let t := (mkpath t (entries ++ user)).1 in
              copyDir (copy_fuel t) t (files ++ user) (entries ++ user)
            else (t, Ok tt)
    end.

End install.

(** ** Texts and paths *)

Lemma path_text_app p q : path_text (p ++ q) = path_text p ++ path_text q.
Proof. unfold path_text. by rewrite bind_app. Qed.

Lemma path_text_cons n p : path_text (n :: p) = "/"%char :: n ++ path_text p.
Proof. done. Qed.

Lemma components_text p : Forall file_name p -> components (path_text p) = p.
Proof.
  induction 1 as [|n p Hn _ IH]; [done|]. rewrite path_text_cons, components_slash.
  destruct p as [|m p]; [by rewrite app_nil_r, components_name|].
  rewrite path_text_cons, components_slash in IH. by rewrite path_text_cons, components_app, components_name, IH.
Qed.

Lemma files_name : file_name (lit "files").
Proof. split; [done|]. set_solver. Qed.

(** A name that stands for itself in a path. *)
Definition good_name (n : str) : Prop := file_name n /\ n <> lit "." /\ n <> lit "..".

Lemma good_names p : Forall good_name p -> Forall file_name p.
Proof. intros H. eapply Forall_impl; [exact H|]. by intros n [? _]. Qed.

Lemma clean_good acc p : Forall good_name p -> clean_names acc p = rev acc ++ p.
Proof.
  intros H. revert acc. induction H as [|n p (_ & H1 & H2) _ IH]; intros acc; cbn [clean_names]; [by rewrite app_nil_r|].
  rewrite !bool_decide_false by done. rewrite IH. cbn. by rewrite <- app_assoc.
Qed.

Lemma clean_text p : Forall good_name p -> cleanPath (path_text p) = p.
Proof. intros H. unfold cleanPath. rewrite components_text by (by apply good_names). by rewrite clean_good. Qed.

Lemma find_sub_front pat rest : find_sub pat (pat ++ rest) = Some 0%nat.
Proof.
  assert (Hp : is_prefix pat (pat ++ rest) = true) by (apply is_prefix_spec; eauto).
  destruct (pat ++ rest); cbn [find_sub]; by rewrite Hp.
Qed.

(** Only the front is replaced when the rest has no other occurrence. *)
Lemma qreplace_front a b rest : a <> [] -> find_sub a rest = None -> qreplace (a ++ rest) a b = b ++ rest.
Proof.
  intros Ha Hr. unfold qreplace, replaceSubstring. rewrite bool_decide_false by done.
  destruct a as [|c a]; [done|]. set (x := c :: a) in *. change (length (x ++ rest)) with (S (length (a ++ rest))).
  cbn [replace_loop]. unfold find_from. rewrite drop_0, find_sub_front. cbn [fmap option_fmap option_map].
  change (0 + 0 + length x)%nat with (length x). rewrite drop_app_length, Hr. cbn. by rewrite ?drop_app_length.
Qed.

Lemma target_front src dest rel : src <> [] -> Forall file_name (dest ++ rel) ->
  find_sub (path_text src) (path_text rel) = None -> target_of src dest (src ++ rel) = dest ++ rel.
Proof.
  intros Hs Hn Hf. unfold target_of. rewrite path_text_app, qreplace_front; [|by destruct src|done].
  rewrite <- path_text_app. by apply components_text.
Qed.

(** A rule that is the path of an entry names the entry. *)
Lemma read_path src rel : rel <> [] -> Forall good_name (src ++ rel) -> simplified (path_text rel) = path_text rel ->
  read_rule src (path_text rel) = Named (src ++ rel).
Proof.
  intros Hr Hn Hs. unfold read_rule. rewrite Hs. destruct rel as [|n rel]; [done|].
  unfold starts. cbn [path_text mbind list_bind app is_prefix]. rewrite !bool_decide_false by done. cbn.
  f_equal. change (cleanPath (path_text src ++ lit "/" ++ path_text (n :: rel)) = src ++ n :: rel).
  unfold cleanPath. change (lit "/" ++ path_text (n :: rel)) with ("/"%char :: path_text (n :: rel)).
  rewrite components_app. apply Forall_app in Hn as [H1 H2].
  rewrite !components_text by (by apply good_names). rewrite clean_good; [done|by apply Forall_app].
Qed.

(** ** Directories

    Paths that do not go through a link, and the way [mkpath] makes to them. *)

(** No component but the last is anything but a directory. *)
Definition plain (t : tree) (p : path) : Prop := forall a b, p = a ++ b -> b <> [] -> t !! a = None \/ t !! a = Some Dir.
Definition free (t : tree) (p : path) : Prop := forall a, a `prefix_of` p -> t !! a = None \/ t !! a = Some Dir.

Lemma parent_snoc p (x : str) : parent (p ++ [x]) = p.
Proof. apply removelast_last. Qed.

Section directories.
Variable e : fs_env.
Hypothesis real : forall t p, plain t p -> fs_real e t p = p.

Lemma free_plain t p : free t p -> plain t p.
Proof. intros H a b -> _. apply H. by exists b. Qed.

Lemma plain_snoc t p n : free t p -> plain t (p ++ [n]).
Proof.
  intros H a b E Hb. apply H. destruct b as [|x b _] using rev_ind; [done|].
  rewrite app_assoc in E. apply app_inj_tail in E as [-> _]. by exists b.
Qed.

Lemma plain_at t p : plain t p -> at_ e t p = t !! p.
Proof using real. intros H. unfold at_. by rewrite (real). Qed.

Lemma free_is_dir t p : free t p -> is_dir e t p = bool_decide (t !! p = Some Dir).
Proof using real.
  intros H. unfold is_dir. rewrite plain_at by (by apply free_plain).
  destruct (H p) as [-> | ->]; [done|symmetry; by apply bool_decide_false|by rewrite bool_decide_true].
Qed.

(** [t'] is [t] with some of the directories on the way to [p]. *)
Definition grown (t t' : tree) (p : path) : Prop := forall q,
  t' !! q = t !! q \/ (t !! q = None /\ t' !! q = Some Dir /\ q `prefix_of` p).

Lemma grown_free t t' p q : grown t t' p -> free t q -> free t' q.
Proof. intros Hg Hf a Ha. destruct (Hg a) as [-> | (_ & -> & _)]; [by apply Hf|by right]. Qed.

Lemma grown_trans t t' t'' p : grown t t' p -> grown t' t'' p -> grown t t'' p.
Proof.
  intros H1 H2 q. destruct (H2 q) as [-> | (E & -> & Hq)]; [apply H1|].
  destruct (H1 q) as [E' | (_ & E' & _)]; [|by rewrite E in E']. right. by rewrite <- E'.
Qed.

Lemma mkpath_from_spec t front rest : free t (front ++ rest) ->
  let '(t', made) := mkpath_from e t front rest in
  grown t t' (front ++ rest) /\
  (made = true -> forall a, a <> [] -> a `prefix_of` rest -> t' !! (front ++ a) = Some Dir) /\
  ((forall t p, fs_mkdir e t p = true) -> made = true).
Proof using real.
  revert t front. induction rest as [|n rest IH]; intros t front Hf; cbn [mkpath_from].
  { split_and!; [by left| |done]. intros _ a Ha [b Hb]. by destruct a. }
  assert (Hfront : free t (front ++ [n])).
  { intros a Ha. apply Hf. etrans; [exact Ha|]. apply prefix_app. by exists rest. }
  rewrite free_is_dir, plain_at by (done || by apply free_plain).
  assert (Hstep : forall t1, grown t t1 (front ++ n :: rest) -> t1 !! (front ++ [n]) = Some Dir ->
    let '(t', made) := mkpath_from e t1 (front ++ [n]) rest in
    grown t t' (front ++ n :: rest) /\
    (made = true -> forall a, a <> [] -> a `prefix_of` n :: rest -> t' !! (front ++ a) = Some Dir) /\
    ((forall t p, fs_mkdir e t p = true) -> made = true)).
  { intros t1 Hg Hd. specialize (IH t1 (front ++ [n])). rewrite <- app_assoc in IH. cbn [app] in IH.
    specialize (IH (grown_free _ _ _ _ Hg Hf)). destruct (mkpath_from e t1 (front ++ [n]) rest) as [t' made].
    destruct IH as (H1 & H2 & H3). split_and!; [by eapply grown_trans| |done].
    intros Hm a Ha [b Hb]. destruct a as [|x a]; [done|]. injection Hb as -> Hb.
    destruct a as [|y a].
    - destruct (H1 (front ++ [x])) as [-> | (_ & -> & _)]; done.
    - specialize (H2 Hm (y :: a) ltac:(done) (ex_intro _ b Hb)). by rewrite <- app_assoc in H2. }
  destruct (Hfront (front ++ [n]) ltac:(done)) as [E|E]; rewrite E.
  - destruct (fs_mkdir e t (front ++ [n])) eqn:Em.
    + rewrite (real) by (by apply free_plain). apply Hstep; [|by rewrite lookup_insert_eq].
      intros q. destruct (decide (q = front ++ [n])) as [->|Hq]; [|left; by rewrite lookup_insert_ne].
      right. rewrite lookup_insert_eq. split_and!; [done..|]. apply prefix_app. by exists rest.
    + split_and!; [by left|done|]. intros H. by rewrite H in Em.
  - rewrite bool_decide_true by done. apply Hstep; [by left|done].
Qed.

Lemma free_mkpath t p : free t p ->
  let '(t', made) := mkpath e t p in
  grown t t' p /\ (made = true -> forall a, a <> [] -> a `prefix_of` p -> t' !! a = Some Dir) /\ ((forall t p, fs_mkdir e t p = true) -> made = true).
Proof using real.
  intros Hf. pose proof (mkpath_from_spec t [] p Hf) as H. unfold mkpath.
  destruct (mkpath_from e t [] p) as [t' made]. by destruct H as (H1 & H2 & H3).
Qed.
End directories.

(** ** Copies

    [copyDir] into a place where nothing is makes a copy. *)

Section copies.
Variable e : fs_env.
Hypothesis real : forall t p, plain t p -> fs_real e t p = p.
Hypothesis listed : forall t p, free t p -> t !! p = Some Dir ->
  NoDup (fs_list e t p) /\ forall n, n ∈ fs_list e t p <-> is_Some (t !! (p ++ [n])).
Hypothesis mkdirs : forall t p, fs_mkdir e t p = true.
Hypothesis opens : forall t p, fs_open e t p = true.
Hypothesis symlinks : forall t p, fs_symlink e t p = true.

(** The copy of a node that is called [p]. *)
Definition copy_node (p : path) (n : node) : node :=
  match n with Link target => Link (copied_target (parent p) target) | _ => n end.

Definition dirs (t : tree) (p : path) : Prop := forall a, a `prefix_of` p -> t !! a = Some Dir.

(** A directory, whose tree is no deeper than [fuel], and a place apart from it. *)
Record copy_source (t : tree) (src : path) (fuel : nat) : Prop := mkSource {
  cs_dirs : dirs t src;
  cs_tree : forall rel x n, t !! (src ++ rel ++ [x]) = Some n -> t !! (src ++ rel) = Some Dir;
  cs_depth : forall rel n, t !! (src ++ rel) = Some n -> (length rel < fuel)%nat
}.

Definition apart (p q : path) : Prop := ~ p `prefix_of` q /\ ~ q `prefix_of` p.

(** Below [dst] there is the copy, everything else is as it was, but for the way
    to [dst]. *)
Definition is_copy (t t' : tree) (src dst : path) : Prop :=
  (forall rel, t' !! (dst ++ rel) = copy_node (src ++ rel) <$> t !! (src ++ rel)) /\
  forall q, ~ dst `prefix_of` q -> t' !! q = t !! q \/ (t !! q = None /\ t' !! q = Some Dir /\ q `prefix_of` dst).

Lemma dirs_free t p : dirs t p -> free t p.
Proof. intros H a Ha. right. by apply H. Qed.

Lemma dirs_snoc t p n : dirs t p -> t !! (p ++ [n]) = Some Dir -> dirs t (p ++ [n]).
Proof.
  intros H Hn a [b E]. destruct b as [|x b _] using rev_ind; [rewrite app_nil_r in E; by rewrite <- E|].
  rewrite (assoc_L (++)) in E. apply app_inj_tail in E as [-> _]. apply H. by exists b.
Qed.

Lemma apart_neq p q a b : apart p q -> p ++ a <> q ++ b.
Proof.
  intros [H1 H2] E. apply app_eq_inv in E as [(k & -> & _)|(k & -> & _)]; [apply H2|apply H1]; by exists k.
Qed.

Lemma apart_sym p q : apart p q -> apart q p.
Proof. by intros [? ?]. Qed.

Lemma apart_app p q a b : apart p q -> apart (p ++ a) (q ++ b).
Proof.
  intros H. split; intros [k E]; rewrite <- app_assoc in E.
  - by apply (apart_neq q p b (a ++ k)); [apply apart_sym|].
  - by apply (apart_neq p q a (b ++ k)).
Qed.

(** A tree that is the same below [src] and on the way to it. *)
Lemma source_same t t' src fuel : (forall q, q `prefix_of` src \/ src `prefix_of` q -> t' !! q = t !! q) ->
  copy_source t src fuel -> copy_source t' src fuel.
Proof.
  intros Hs [H1 H2 H3]. assert (Hb : forall rel, t' !! (src ++ rel) = t !! (src ++ rel)).
  { intros rel. apply Hs. right. by exists rel. }
  split.
  - intros a Ha. rewrite Hs by (by left). by apply H1.
  - intros rel x n. rewrite !Hb. apply H2.
  - intros rel n. rewrite Hb. apply H3.
Qed.

Lemma source_child t src fuel n : copy_source t src (S fuel) -> t !! (src ++ [n]) = Some Dir -> copy_source t (src ++ [n]) fuel.
Proof.
  intros [H1 H2 H3] Hn. split.
  - by apply dirs_snoc.
  - intros rel x k. rewrite <- !(assoc_L (++)). apply (H2 (n :: rel)).
  - intros rel k. rewrite <- (assoc_L (++)). intros Hk. apply (H3 (n :: rel)) in Hk. cbn in Hk. lia.
Qed.

(** *** One entry *)

(** What copying the entry [n] does: its copy, and nothing else. *)
Definition entry_copied (t t' : tree) (src dst : path) (n : str) : Prop :=
  (forall rel, t' !! (dst ++ n :: rel) = copy_node (src ++ n :: rel) <$> t !! (src ++ n :: rel)) /\
  forall q, ~ (dst ++ [n]) `prefix_of` q -> t' !! q = t !! q.

Lemma leaf_below t src fuel n k : copy_source t src fuel -> t !! (src ++ [n]) = Some k -> k <> Dir ->
  forall rel, rel <> [] -> t !! (src ++ n :: rel) = None.
Proof.
  intros Hs Hn Hk rel. induction rel as [|x rel IH] using rev_ind; [done|]. intros _.
  destruct (t !! (src ++ n :: rel ++ [x])) as [y|] eqn:E; [|done]. pose proof (cs_tree _ _ _ Hs (n :: rel) x y E) as Hd.
  destruct rel as [|z rel]; [congruence|]. rewrite IH in Hd by done. done.
Qed.

(** A file or a link. *)
Lemma insert_copied t src dst fuel n k k' : copy_source t src fuel -> (forall rel, t !! (dst ++ n :: rel) = None) ->
  t !! (src ++ [n]) = Some k -> k <> Dir -> k' = copy_node (src ++ [n]) k ->
  entry_copied t (<[dst ++ [n] := k']> t) src dst n.
Proof.
  intros Hs Hd Hn Hk ->. split.
  - intros rel. destruct rel as [|x rel].
    + by rewrite lookup_insert_eq, Hn.
    + rewrite lookup_insert_ne by (intros E; by apply app_inv_head in E). rewrite Hd.
      by rewrite (leaf_below _ _ _ _ _ Hs Hn Hk).
  - intros q Hq. apply lookup_insert_ne. intros <-. by destruct Hq.
Qed.

Lemma vacant_below t dst n : dirs t dst -> t !! (dst ++ [n]) = None -> vacant e t (dst ++ [n]) = true /\ fs_real e t (dst ++ [n]) = dst ++ [n].
Proof using real.
  intros Hd Hn. pose proof (plain_snoc t dst n (dirs_free _ _ Hd)) as Hp. split; [|by apply real].
  unfold vacant. rewrite (plain_at e real), Hn, parent_snoc by done. rewrite (free_is_dir e real) by (by apply dirs_free).
  apply bool_decide_true. by apply Hd.
Qed.

Definition copies (fuel : nat) : Prop := forall t src dst,
  copy_source t src fuel -> apart src dst -> free t dst -> (t !! dst = Some Dir -> dirs t dst) ->
  (forall rel, rel <> [] -> t !! (dst ++ rel) = None) ->
  exists t', copyDir e fuel t src dst = (t', Ok tt) /\ is_copy t t' src dst.

Lemma copy_entry_spec fuel t src dst n : copies fuel -> copy_source t src (S fuel) -> apart src dst -> dirs t dst ->
  (forall rel, t !! (dst ++ n :: rel) = None) -> is_Some (t !! (src ++ [n])) ->
  exists t', copy_entry e (copyDir e fuel) src dst n t = (t', Ok tt) /\ entry_copied t t' src dst n.
Proof using real opens symlinks.
  intros IH Hs Ha Hd Hn [k Hk]. unfold copy_entry. pose proof (Hn []) as Hnone.
  destruct (vacant_below _ _ _ Hd Hnone) as [Hv Hr].
  rewrite (plain_at e real) by (apply plain_snoc, dirs_free, Hs). rewrite Hk. destruct k as [|c|x].
  - destruct (IH t (src ++ [n]) (dst ++ [n])) as (t' & -> & H1 & H2).
    + by apply source_child.
    + by apply apart_app.
    + intros a [b E]. destruct b as [|y b _] using rev_ind; [rewrite app_nil_r in E; left; by rewrite <- E|].
      rewrite (assoc_L (++)) in E. apply app_inj_tail in E as [-> _]. right. apply Hd. by exists b.
    + by rewrite Hnone.
    + intros rel _. rewrite <- (assoc_L (++)). apply Hn.
    + exists t'. split; [done|]. split.
      * intros rel. specialize (H1 rel). by rewrite <- !(assoc_L (++)) in H1.
      * intros q Hq. destruct (H2 q Hq) as [->|(E & _ & [b Eb])]; [done|].
        destruct b as [|y b _] using rev_ind; [rewrite app_nil_r in Eb; destruct Hq; by rewrite Eb|].
        rewrite (assoc_L (++)) in Eb. apply app_inj_tail in Eb as [-> _]. rewrite Hd in E; [done|by exists b].
  - rewrite Hv, opens, Hr. eexists. split; [done|]. by eapply insert_copied.
  - unfold create_symlink. rewrite Hv, symlinks, Hr. eexists. split; [done|]. eapply insert_copied; [done..|].
    cbn. by rewrite parent_snoc.
Qed.

Lemma copy_entries_spec fuel src dst names t : copies fuel -> copy_source t src (S fuel) -> apart src dst -> dirs t dst ->
  NoDup names -> (forall n, n ∈ names -> is_Some (t !! (src ++ [n])) /\ forall rel, t !! (dst ++ n :: rel) = None) ->
  exists t', copy_entries e (copyDir e fuel) src dst names t = (t', Ok tt) /\
    (forall n rel, n ∈ names -> t' !! (dst ++ n :: rel) = copy_node (src ++ n :: rel) <$> t !! (src ++ n :: rel)) /\
    forall q, (forall n, n ∈ names -> ~ (dst ++ [n]) `prefix_of` q) -> t' !! q = t !! q.
Proof using real opens symlinks.
  intros IH Hs Ha Hd Hnd. revert t Hs Hd. induction Hnd as [|n names Hn _ IHn]; intros t Hs Hd Hnames; cbn [copy_entries].
  { exists t. split_and!; [done| |done]. by intros n rel ?%elem_of_nil. }
  destruct (Hnames n ltac:(by left)) as [Hk Hfree].
  destruct (copy_entry_spec fuel t src dst n IH Hs Ha Hd Hfree Hk) as (t1 & -> & Hc & Ho).
  assert (Hsrc : forall q, q `prefix_of` src \/ src `prefix_of` q -> t1 !! q = t !! q).
  { intros q Hq. apply Ho. intros [b ->]. destruct Hq as [[k ->]|[k Ek]].
    - destruct Ha as [_ Ha]. apply Ha. exists ([n] ++ b ++ k). by rewrite <- !(assoc_L (++)).
    - rewrite <- (assoc_L (++)) in Ek. by apply (apart_neq src dst k ([n] ++ b)). }
  assert (Hother : forall n' rel, n' <> n -> t1 !! (dst ++ n' :: rel) = t !! (dst ++ n' :: rel)).
  { intros n' rel Hne. apply Ho. intros [b E]. rewrite <- (assoc_L (++)) in E. apply app_inv_head in E. by injection E as -> _. }
  assert (Hdir : dirs t1 dst).
  { intros a Hp. rewrite Ho; [by apply Hd|]. intros Hx. pose proof (prefix_length _ _ Hp) as Hl. apply prefix_length in Hx.
    rewrite length_app in Hx. cbn in Hx. lia. }
  destruct (IHn t1) as (t' & E & H1 & H2).
  - by apply (source_same t).
  - done.
  - intros n' Hn'. destruct (Hnames n' ltac:(by right)) as [H1 H2]. rewrite Hsrc by (right; by eexists). split; [done|].
    intros rel. by rewrite Hother by (intros ->; done).
  - exists t'. split_and!; [done| |].
    + intros n' rel Hn'. apply elem_of_cons in Hn' as [->|Hn'].
      * rewrite H2; [apply Hc|]. intros m Hm [b Eb]. rewrite <- (assoc_L (++)) in Eb. apply app_inv_head in Eb.
        injection Eb as <- _. done.
      * rewrite H1 by done. rewrite Hsrc; [done|]. right. by eexists.
    + intros q Hq. rewrite H2; [apply Ho|]; [by apply Hq; left|]. intros m Hm. apply Hq. by right.
Qed.

Lemma source_missing t src fuel n rel : copy_source t src fuel -> t !! (src ++ [n]) = None -> t !! (src ++ n :: rel) = None.
Proof.
  intros Hs Hn. induction rel as [|x rel IH] using rev_ind; [done|]. destruct (t !! (src ++ n :: rel ++ [x])) as [k|] eqn:Ek; [|done].
  pose proof (cs_tree _ _ _ Hs (n :: rel) x k Ek) as Hd. congruence.
Qed.

(** The entries, once the directory is there. *)
Lemma copy_content_spec fuel t t1 src dst : copies fuel -> copy_source t src (S fuel) -> apart src dst ->
  (forall rel, rel <> [] -> t !! (dst ++ rel) = None) -> grown t t1 dst -> dirs t1 dst ->
  exists t', copy_entries e (copyDir e fuel) src dst (fs_list e t1 src) t1 = (t', Ok tt) /\ is_copy t t' src dst.
Proof using real listed opens symlinks.
  intros IH Hs Ha Hn Hg Hd1.
  assert (Hsrc : forall q, q `prefix_of` src \/ src `prefix_of` q -> t1 !! q = t !! q).
  { intros q Hq. destruct (Hg q) as [->|(E & _ & Hp)]; [done|]. destruct Hq as [Hq|Hq].
    - by rewrite (cs_dirs _ _ _ Hs q Hq) in E.
    - destruct Ha as [Ha _]. destruct Ha. by etrans. }
  pose proof (source_same _ t1 _ _ Hsrc Hs) as Hs1.
  destruct (listed t1 src (dirs_free _ _ (cs_dirs _ _ _ Hs1)) (cs_dirs _ _ _ Hs1 src ltac:(done))) as [Hnd Hl].
  assert (Hn1 : forall rel, rel <> [] -> t1 !! (dst ++ rel) = None).
  { intros rel Hrel. destruct (Hg (dst ++ rel)) as [->|(_ & _ & Hp)]; [by apply Hn|]. apply prefix_length in Hp.
    rewrite length_app in Hp. destruct rel; [done|cbn in Hp; lia]. }
  destruct (copy_entries_spec fuel src dst (fs_list e t1 src) t1 IH Hs1 Ha Hd1 Hnd) as (t' & E & H1 & H2).
  { intros n Hin. split; [by apply Hl|]. intros rel. by apply Hn1. }
  exists t'. split; [done|].
  assert (Hdst : forall q, ~ (exists n rel, q = dst ++ n :: rel) -> t' !! q = t1 !! q).
  { intros q Hq. apply H2. intros n _ [b ->]. apply Hq. exists n, b. by rewrite <- (assoc_L (++)). }
  split; [intros [|n rel]|].
  - rewrite !app_nil_r, Hdst, Hd1, (cs_dirs _ _ _ Hs) by
      (done || intros (n & rel & E'); rewrite <- (app_nil_r dst) in E' at 1; by apply app_inv_head in E'). done.
  - destruct (decide (n ∈ fs_list e t1 src)) as [Hin|Hin]; [rewrite H1, Hsrc by (done || right; by eexists); done|].
    rewrite H2, Hn1; [|done|intros m Hm [b Eb]; rewrite <- (assoc_L (++)) in Eb; apply app_inv_head in Eb; by injection Eb as -> _].
    assert (t !! (src ++ [n]) = None).
    { rewrite <- Hsrc by (right; by eexists). apply eq_None_not_Some. by rewrite <- Hl. }
    by rewrite (source_missing _ _ _ _ _ Hs).
  - intros q Hq. rewrite Hdst by (intros (n & rel & ->); apply Hq; by exists (n :: rel)). apply Hg.
Qed.

Lemma copyDir_spec fuel : copies fuel.
Proof using real listed mkdirs opens symlinks.
  induction fuel as [|fuel IH]; intros t src dst Hs Ha Hf Hd Hn.
  { pose proof (cs_depth _ _ _ Hs [] Dir) as Hx. rewrite app_nil_r in Hx. specialize (Hx (cs_dirs _ _ _ Hs src ltac:(done))). cbn in Hx. lia. }
  cbn [copyDir]. unfold exists_. rewrite (plain_at e real) by (by apply free_plain).
  destruct (Hf dst ltac:(done)) as [E|E]; rewrite E.
  - pose proof (free_mkpath e real t dst Hf) as Hm. destruct (mkpath e t dst) as [t1 made]. destruct Hm as (Hg & Hm & Hok).
    rewrite (Hok mkdirs). cbn [negb]. apply (copy_content_spec fuel t t1); [done..|]. intros a Hp.
    destruct a as [|x a]; [|by apply Hm; [by apply Hok| |]].
    destruct (Hg []) as [->|(_ & -> & _)]; [|done]. apply (cs_dirs _ _ _ Hs). by exists src.
  - cbn [negb]. apply (copy_content_spec fuel t t); [done..|by left|by apply Hd].
Qed.
(** The fuel of the callers is enough: a path has fewer directories than the tree
    has entries. *)
Lemma depth_size t src : dirs t src ->
  (forall rel x n, t !! (src ++ rel ++ [x]) = Some n -> t !! (src ++ rel) = Some Dir) ->
  copy_source t src (copy_fuel t).
Proof.
  intros Hd Ht. split; [done..|]. intros rel n Hn. unfold copy_fuel.
  set (l := (fun k => src ++ take k rel) <$> seq 0 (S (length rel))).
  assert (Hl : NoDup l).
  { unfold l. apply NoDup_fmap_2_strong; [|apply NoDup_seq]. intros i j Hi Hj E. apply app_inv_head in E.
    apply (f_equal length) in E. rewrite !length_take in E. rewrite elem_of_seq in Hi, Hj. lia. }
  assert (Hin : forall p, p ∈ l -> p ∈ dom t).
  { unfold l. intros p (k & -> & Hk)%list_elem_of_fmap. rewrite elem_of_seq in Hk. apply elem_of_dom.
    assert (Hpre : forall b a m, t !! (src ++ a ++ b) = Some m -> is_Some (t !! (src ++ a))).
    { induction b as [|x b IH] using rev_ind; intros a m Hm; [rewrite app_nil_r in Hm; by exists m|].
      rewrite (assoc_L (++) a) in Hm. apply Ht in Hm. by apply IH in Hm. }
    apply (Hpre (drop k rel) _ n). by rewrite take_drop. }
  assert (Hsub : (list_to_set l : gset path) ⊆ dom t) by (intros p; rewrite elem_of_list_to_set; apply Hin).
  apply subseteq_size in Hsub. rewrite size_list_to_set, size_dom in Hsub by done. unfold l in Hsub.
  rewrite length_fmap, length_seq in Hsub. lia.
Qed.

End copies.

(** A directory is copied to a place where nothing is: the same directories
    and files, links with the text [copied_target]; nothing else changes but for
    the directories on the way there. *)
Theorem directory_copied e t src dst :
  (forall t p, plain t p -> fs_real e t p = p) ->
  (forall t p, free t p -> t !! p = Some Dir -> NoDup (fs_list e t p) /\ forall n, n ∈ fs_list e t p <-> is_Some (t !! (p ++ [n]))) ->
  (forall t p, fs_mkdir e t p = true /\ fs_open e t p = true /\ fs_symlink e t p = true) ->
  dirs t src -> (forall rel x n, t !! (src ++ rel ++ [x]) = Some n -> t !! (src ++ rel) = Some Dir) ->
  apart src dst -> free t dst -> (forall rel, t !! (dst ++ rel) = None) ->
  exists t', copyDir e (copy_fuel t) t src dst = (t', Ok tt) /\
    (forall rel, t' !! (dst ++ rel) = copy_node (src ++ rel) <$> t !! (src ++ rel)) /\
    forall q, ~ dst `prefix_of` q -> t' !! q = t !! q \/ (t !! q = None /\ t' !! q = Some Dir /\ q `prefix_of` dst).
Proof.
  intros Hr Hl Ho Hd Ht Ha Hf Hn. pose proof (Hn []) as H0. rewrite app_nil_r in H0.
  destruct (copyDir_spec e Hr Hl (fun t p => proj1 (Ho t p)) (fun t p => proj1 (proj2 (Ho t p))) (fun t p => proj2 (proj2 (Ho t p)))
    (copy_fuel t) t src dst (depth_size t src Hd Ht) Ha Hf) as (t' & H1 & H2 & H3); [by rewrite H0|by intros rel _|by exists t'].
Qed.

(** ** What is exported

    In a package without links to directories only what the list names gets
    below [entries]. *)

Section exports.
Variable e : fs_env.
Hypothesis direct : forall t p, fs_real e t p = p.

(** Below some [d] of [D], or a new directory on the way to some [w] of [W]. *)
Definition within (D W : path -> Prop) (t t' : tree) : Prop := forall q,
  t' !! q = t !! q \/ (exists d, D d /\ d `prefix_of` q) \/
  (t !! q = None /\ t' !! q = Some Dir /\ exists w, W w /\ q `prefix_of` w).

Section within.
Variables D W : path -> Prop.

Lemma within_refl t : within D W t t.
Proof. by left. Qed.

Lemma within_trans t t1 t2 : within D W t t1 -> within D W t1 t2 -> within D W t t2.
Proof.
  intros H1 H2 q. destruct (H2 q) as [->|[Hq|(E & E' & Hq)]]; [apply H1|by right; left|].
  destruct (H1 q) as [E1|[Hq1|(_ & E2 & _)]]; [|by right; left|congruence].
  right. right. by rewrite <- E1.
Qed.

Lemma within_one d p t n : D d -> d `prefix_of` p -> within D W t (<[p := n]> t).
Proof. intros Hd Hp q. destruct (decide (q = p)) as [->|Hq]; [right; left; eauto|left; by apply lookup_insert_ne]. Qed.

Lemma mkpath_way t p q : (mkpath e t p).1 !! q = t !! q \/
  (t !! q = None /\ (mkpath e t p).1 !! q = Some Dir /\ q `prefix_of` p).
Proof using direct.
  unfold mkpath. change (q `prefix_of` p) with (q `prefix_of` [] ++ p). revert t. generalize (@nil str).
  induction p as [|n rest IH]; intros front t; cbn [mkpath_from]; [by left|].
  specialize (IH (front ++ [n])). rewrite <- (assoc_L (++)) in IH. cbn [app] in IH.
  unfold at_. rewrite direct. destruct (t !! (front ++ [n])) as [k|] eqn:E.
  - destruct (is_dir e t (front ++ [n])); [apply IH|by left].
  - destruct (fs_mkdir e t (front ++ [n])); [|by left].
    destruct (decide (q = front ++ [n])) as [->|Hq].
    + right. split_and!; [done| |apply prefix_app; by exists rest].
      destruct (IH (<[front ++ [n] := Dir]> t)) as [->|(_ & -> & _)]; [apply lookup_insert_eq|done].
    + destruct (IH (<[front ++ [n] := Dir]> t)) as [->|(E1 & E2 & Hp)]; rewrite lookup_insert_ne in * by done; [by left|by right].
Qed.

Lemma mkpath_within t p : W p -> within D W t (mkpath e t p).1.
Proof using direct. intros Hp q. destruct (mkpath_way t p q) as [->|(E1 & E2 & Hq)]; [by left|right; right; eauto]. Qed.

Lemma copy_within d fuel t src dst : D d -> W d -> d `prefix_of` dst -> within D W t (copyDir e fuel t src dst).1.
Proof using direct.
  intros Hd Hw. revert t src dst. induction fuel as [|fuel IH]; intros t src dst Hp; cbn [copyDir]; [apply within_refl|].
  assert (Hentries : forall names t, within D W t (copy_entries e (copyDir e fuel) src dst names t).1).
  { induction names as [|n names IHn]; intros t1; cbn [copy_entries]; [apply within_refl|].
    assert (Hq : d `prefix_of` dst ++ [n]) by (by apply prefix_app_r).
    assert (He : within D W t1 (copy_entry e (copyDir e fuel) src dst n t1).1).
    { unfold copy_entry, create_symlink. rewrite !direct. destruct (at_ e t1 (src ++ [n])) as [[|c|x]|]; [by apply IH| | |apply within_refl];
        (case_match; [by eapply within_one|apply within_refl]). }
    destruct (copy_entry _ _ _ _ _ _) as [t2 [u|c]]; [|done]. eapply within_trans; [exact He|apply IHn]. }
  destruct (exists_ e t dst); cbn [negb]; [apply Hentries|].
  assert (Hm : within D W t (mkpath e t dst).1).
  { intros q. destruct (mkpath_way t dst q) as [->|(E1 & E2 & Hq)]; [by left|right].
    destruct (prefix_weak_total _ _ _ Hq Hp) as [Hx|Hx]; [right; eauto|left; eauto]. }
  destruct (mkpath e t dst) as [t1 [|]]; cbn [negb]; [|done]. eapply within_trans; [exact Hm|apply Hentries].
Qed.
End within.

Variable workingDir : path.
Definition entries_dir : path := output workingDir ++ [binary; lit "entries"].

(** What a path of the list is exported as. *)
Definition exported_as (name : str) : path :=
  if bool_decide (name = lit "share/appdata") then entries_dir ++ [lit "share"; lit "metainfo"] else below entries_dir name.

Definition allowed (paths : list str) (d : path) : Prop :=
  (exists name, name ∈ paths /\ d = exported_as name) \/ d = entries_dir ++ [lit "lib"; lit "systemd"; lit "user"].

Lemma export_within W paths all files t : (forall d, allowed all d -> W d) -> (forall name, name ∈ paths -> name ∈ all) ->
  within (allowed all) W t (export_paths e paths files entries_dir t).
Proof using direct.
  intros HW. revert t. induction paths as [|name paths IH]; intros t Hin; cbn [export_paths]; [apply within_refl|].
  assert (Hrest : forall t, within (allowed all) W t (export_paths e paths files entries_dir t)) by (intros t1; apply IH; intros x Hx; apply Hin; by right).
  destruct (negb _); [apply Hrest|]. eapply within_trans; [|apply Hrest]. change (if bool_decide (name = lit "share/appdata")
    then entries_dir ++ [lit "share"; lit "metainfo"] else below entries_dir name) with (exported_as name).
  assert (Ha : allowed all (exported_as name)) by (left; exists name; split; [apply Hin; by left|done]).
  apply (copy_within _ _ (exported_as name)); [done|by apply HW|done].
Qed.

(** Only what the list of paths names, and the user units, is exported; the
    other changes are directories on the way there and [share]. *)
Theorem exports_listed is_app config t t' r q : generateEntries e workingDir is_app config t = (t', r) -> t' !! q <> t !! q ->
  exists paths, config = Ok paths /\
    ((exists d, allowed paths d /\ d `prefix_of` q) \/
     (t' !! q = Some Dir /\ exists d, (allowed paths d \/ d = entries_dir ++ [lit "share"]) /\ q `prefix_of` d)).
Proof using direct.
  unfold generateEntries. destruct is_app; cbn [negb]; [|by intros [= <- <-]]. destruct config as [paths|c]; [|by intros [= <- <-]].
  intros Hrun Hne. exists paths. split; [done|].
  set (W := fun d => allowed paths d \/ d = entries_dir ++ [lit "share"] \/ d = entries_dir).
  assert (HW : forall d, allowed paths d -> W d) by (by left).
  cut (within (allowed paths) W t t').
  { intros Hw. destruct (Hw q) as [Hq|[Hq|(_ & E & d & Hd & Hq)]]; [done|by left|right].
    split; [done|]. destruct Hd as [Hd|[Hd|Hd]]; [eauto..|]. exists (entries_dir ++ [lit "share"]). split; [by right|].
    rewrite <- Hd. by apply prefix_app_r. }
  revert Hrun. clear Hne. fold entries_dir.
  pose proof (mkpath_within (allowed paths) W t entries_dir ltac:(by right; right)) as H1.
  destruct (mkpath e t entries_dir) as [t1 [|]]; cbn [negb fst] in *; [|by intros [= <- <-]].
  assert (H2 : within (allowed paths) W t (if exists_ e t1 ((output workingDir ++ [binary; lit "files"]) ++ [lit "share"])
    then mkpath e t1 (entries_dir ++ [lit "share"]) else (t1, true)).1).
  { destruct (exists_ _ _ _); [|done]. eapply within_trans; [exact H1|]. apply mkpath_within. by right; left. }
  destruct (if exists_ e t1 ((output workingDir ++ [binary; lit "files"]) ++ [lit "share"])
    then mkpath e t1 (entries_dir ++ [lit "share"]) else (t1, true)) as [t2 [|]]; cbn [negb fst] in *; [|by intros [= <- <-]].
  set (files := output workingDir ++ [binary; lit "files"]) in *.
  pose proof (within_trans _ _ _ _ _ H2 (export_within W paths paths files t2 HW ltac:(done))) as H3.
  destruct (exists_ e _ _); [|by intros [= <- <-]]. intros Hrun.
  assert (Hu : allowed paths (entries_dir ++ [lit "lib"; lit "systemd"; lit "user"])) by (by right).
  eapply within_trans; [exact H3|]. eapply within_trans; [by apply mkpath_within, HW|].
  match type of Hrun with copyDir ?a ?b ?c ?d ?f = _ => pose proof (copy_within (allowed paths) W f b c d f Hu (HW _ Hu) ltac:(done)) as H4 end.
  by rewrite Hrun in H4.
Qed.
End exports.

(** ** Copied links *)

Lemma relative_names_spec dir p : let '(up, down) := relative_names dir p in exists c, dir = c ++ up /\ p = c ++ down.
Proof.
  revert p. induction dir as [|d dir IH]; intros p; [by exists []|]. destruct p as [|n p]; [by exists []|].
  cbn [relative_names]. case_bool_decide as E; [subst|by exists []]. specialize (IH p).
  destruct (relative_names dir p) as [up down]. destruct IH as (c & -> & ->). by exists (n :: c).
Qed.

Lemma components_ups up s : components ((up ≫= fun _ : str => lit "../") ++ s) = replicate (length up) (lit "..") ++ components s.
Proof.
  induction up as [|u up IH]; [done|]. cbn [mbind list_bind length replicate]. rewrite <- (assoc_L (++)).
  change (components (lit ".." ++ "/"%char :: ((up ≫= fun _ : str => lit "../") ++ s)) = lit ".." :: replicate (length up) (lit "..") ++ components s).
  by rewrite components_app, IH.
Qed.

Lemma clean_app acc a b : Forall good_name a -> clean_names acc (a ++ b) = clean_names (rev a ++ acc) b.
Proof.
  intros H. revert acc. induction H as [|n a (_ & H1 & H2) _ IH]; intros acc; cbn [app clean_names]; [done|].
  rewrite !bool_decide_false by done. rewrite IH. cbn [rev]. by rewrite <- (assoc_L (++)).
Qed.

Lemma clean_ups c up b : clean_names (rev (c ++ up)) (replicate (length up) (lit "..") ++ b) = clean_names (rev c) b.
Proof.
  induction up as [|u up IH] using rev_ind; [by rewrite app_nil_r|].
  rewrite length_app, (assoc_L (++)), rev_app_distr. replace (length up + length [u])%nat with (S (length up)) by (cbn; lia).
  cbn [replicate app rev clean_names]. rewrite bool_decide_false, bool_decide_true by done. cbn [tail]. apply IH.
Qed.

Lemma clean_names_good acc l : Forall good_name acc -> Forall file_name l -> Forall good_name (clean_names acc l).
Proof.
  intros Ha Hl. revert acc Ha. induction Hl as [|n l Hn _ IH]; intros acc Ha; cbn [clean_names]; [by apply Forall_rev|].
  case_bool_decide; [by apply IH|]. case_bool_decide; [apply IH; by destruct Ha|]. apply IH. by constructor.
Qed.

Lemma clean_good_text dir s : Forall good_name dir -> Forall good_name (cleanPath (path_text dir ++ lit "/" ++ s)).
Proof.
  intros Hd. unfold cleanPath. change (lit "/" ++ s) with ("/"%char :: s). rewrite components_app, components_text by (by apply good_names).
  rewrite clean_app by done. apply clean_names_good; [|apply components_names]. rewrite app_nil_r. by apply Forall_rev.
Qed.

(** The last character of a path of names is not a slash. *)
Lemma join_last l : Forall file_name l -> last (join (lit "/") l) <> Some "/"%char.
Proof.
  induction 1 as [|n l Hn Hl IH]; [done|]. destruct l as [|m l].
  - cbn [join]. intros E. apply last_Some_elem_of in E. by destruct Hn.
  - rewrite join_cons2, last_app, last_app. destruct (last (join (lit "/") (m :: l))) as [c|] eqn:E; [done|].
    apply last_None in E. by apply join_empty in E.
Qed.

(** The copy of a relative link names, in the same directory, the same place. *)
Theorem copied_link_same dir target : Forall good_name dir -> starts (lit "/") target = false ->
  cleanPath (path_text dir ++ lit "/" ++ copied_target dir target) = cleanPath (path_text dir ++ lit "/" ++ target).
Proof.
  intros Hd Hr. unfold copied_target. rewrite Hr. pose proof (clean_good_text dir target Hd) as Hg.
  set (o := cleanPath (path_text dir ++ lit "/" ++ target)) in *. clearbody o. cbv zeta.
  assert (Hgo : forall s k, components s = k -> cleanPath (path_text dir ++ lit "/" ++ s) = clean_names (rev dir) k).
  { intros s k <-. unfold cleanPath. change (lit "/" ++ s) with ("/"%char :: s).
    rewrite components_app, components_text by (by apply good_names). rewrite clean_app by done. by rewrite app_nil_r. }
  assert (Ho : exists l, components (default [] (last o)) = l /\ o = parent o ++ l /\ Forall good_name l).
  { destruct o as [|n o _] using rev_ind; [by exists []|]. apply Forall_app in Hg as [_ Hn]. rewrite Forall_singleton in Hn.
    exists [n]. rewrite last_snoc, parent_snoc. cbn [default]. split_and!; [by apply components_name, Hn|done|by apply Forall_singleton]. }
  destruct Ho as (l & El & Eo & Hl).
  assert (Hp : Forall good_name (parent o)) by (rewrite Eo in Hg; by apply Forall_app in Hg as [? _]).
  set (po := parent o) in *. set (name := default [] (last o)) in *. clearbody po name. rewrite Eo. clear Eo Hg o.
  unfold relativeFilePath. pose proof (relative_names_spec dir po) as Hrel. destruct (relative_names dir po) as [up down].
  destruct Hrel as (c & -> & ->). apply Forall_app in Hp as [Hc Hdown].
  assert (Hfin : clean_names (rev c) (down ++ l) = (c ++ down) ++ l).
  { rewrite clean_good by (by apply Forall_app). by rewrite rev_involutive, (assoc_L (++)). }
  destruct (decide ((up ≫= fun _ : str => lit "../") ++ join (lit "/") down = [])) as [Et|Et];
    [rewrite !(bool_decide_eq_true_2 _ Et)|rewrite !(bool_decide_eq_false_2 _ Et)].
  - apply app_nil in Et as [Eu Ed]. destruct up; [|done]. apply join_empty in Ed as ->; [|by apply good_names].
    rewrite (Hgo _ (lit "." :: l)) by (change (components (lit "." ++ "/"%char :: name) = lit "." :: l); by rewrite components_app, El).
    cbn [clean_names]. rewrite app_nil_r, bool_decide_true by done. rewrite !app_nil_r in *. exact Hfin.
  - rewrite last_app. destruct (last (join (lit "/") down)) as [x|] eqn:Ex.
    + rewrite bool_decide_false by (rewrite <- Ex; apply join_last; by apply good_names).
      rewrite (Hgo _ (replicate (length up) (lit "..") ++ down ++ l)); [by rewrite clean_ups|].
      rewrite <- (assoc_L (++)), components_ups. f_equal.
      change (components (join (lit "/") down ++ "/"%char :: name) = down ++ l).
      by rewrite components_app, components_join, El by (by apply good_names).
    + apply last_None, join_empty in Ex as ->; [|by apply good_names]. cbn [join] in *. rewrite app_nil_r in *.
      assert (Hlast : last (up ≫= fun _ : str => lit "../") = Some "/"%char).
      { destruct up as [|u up _] using rev_ind; [done|]. by rewrite bind_app, last_app. }
      rewrite bool_decide_true by done.
      rewrite (Hgo _ (replicate (length up) (lit "..") ++ l)) by (by rewrite components_ups, El).
      rewrite clean_ups, app_nil_r. exact Hfin.
Qed.

(** ** Distributing the files

    The output of a build, and where its files are while they are installed. *)

Section distribution.
Variable e : fs_env.
Variable workingDir : path.
Variable t0 : tree.

#[local] Abbreviation out := (output workingDir).
#[local] Abbreviation src := (buildOutput workingDir).
Abbreviation scratch_name := (lit "_build").

Definition files (m : str) : path := out ++ [m; lit "files"].
Definition inside (q : path) : Prop := exists m rest, m <> scratch_name /\ q = out ++ m :: rest.

(** A file, or a link that does not lead to a directory. *)
Definition is_leaf (rel : path) (n : node) : Prop :=
  t0 !! (src ++ rel) = Some n /\
  match n with Dir => False | File _ => True | Link _ => fs_leads e t0 (src ++ rel) <> Some true end.

Record build_tree : Prop := mkBuildTree {
  bt_names : Forall good_name src;
  bt_good : forall rel n, t0 !! (src ++ rel) = Some n -> Forall good_name rel;
  bt_up : forall q, q `prefix_of` src -> t0 !! q = Some Dir;
  bt_parents : forall rel x n, t0 !! (src ++ rel ++ [x]) = Some n -> t0 !! (src ++ rel) = Some Dir;
  bt_outputs : forall q, inside q -> t0 !! q = None;
  bt_single : forall rel n, t0 !! (src ++ rel) = Some n -> find_sub (path_text src) (path_text rel) = None;
  bt_simple : forall rel n, t0 !! (src ++ rel) = Some n -> simplified (path_text rel) = path_text rel
}.

(** Outside of the modules nothing but leaves of the build output has gone. *)
Definition settled (t : tree) : Prop := forall q, ~ inside q ->
  t !! q = t0 !! q \/ (t !! q = None /\ exists rel n, is_leaf rel n /\ q = src ++ rel).

(** What is documented of the system: the real path of a path without links is
    itself, the iterator gives what is below its directory, and a link that
    leads to a directory does so as long as what it was found through -- directories
    and links to directories, none of which is moved -- is there.  Two conditions
    are about this run: no link of the build output that leads to no directory at
    first comes to lead to one (it does not point to where the modules are made),
    and no renaming fails. *)
Record env_ok : Prop := mkEnvOk {
  real_plain : forall t p, plain t p -> fs_real e t p = p;
  walk_spec : forall t q, q ∈ fs_walk e t src <-> exists rel, rel <> [] /\ q = src ++ rel /\ is_Some (t !! q);
  leads_stay : forall t p, settled t -> fs_leads e t0 p = Some true -> fs_leads e t p = Some true;
  leads_apart : forall t rel x, settled t -> t0 !! (src ++ rel) = Some (Link x) -> fs_leads e t0 (src ++ rel) <> Some true ->
    fs_leads e t (src ++ rel) <> Some true;
  renames : forall t p q, fs_rename e t p q = true
}.

(** Nothing fails, and there are no links to directories. *)
Definition smooth : Prop :=
  (forall t p, fs_mkdir e t p = true) /\ (forall t p, fs_open e t p = true) /\
  (forall rel x, t0 !! (src ++ rel) = Some (Link x) -> fs_leads e t0 (src ++ rel) <> Some true).

Hypothesis bt : build_tree.
Hypothesis ok : env_ok.

Lemma at_plain t p : plain t p -> at_ e t p = t !! p.
Proof using ok. apply (plain_at e (real_plain ok)). Qed.

Lemma is_dir_free t p : free t p -> is_dir e t p = bool_decide (t !! p = Some Dir).
Proof using ok. apply (free_is_dir e (real_plain ok)). Qed.

Lemma mkpath_spec t p : free t p ->
  let '(t', made) := mkpath e t p in
  grown t t' p /\ (made = true -> forall a, a <> [] -> a `prefix_of` p -> t' !! a = Some Dir) /\
  ((forall t p, fs_mkdir e t p = true) -> made = true).
Proof using ok. apply (free_mkpath e (real_plain ok)). Qed.

(** *** Where the files are *)

Lemma parents a b n : t0 !! (src ++ a ++ b) = Some n -> b <> [] -> t0 !! (src ++ a) = Some Dir.
Proof using bt.
  revert n. induction b as [|x b IH] using rev_ind; [done|]. intros n Hn _.
  rewrite (assoc_L (++) a b [x]) in Hn.
  pose proof (bt_parents bt _ _ _ Hn) as Hp. destruct b as [|y b]; [by rewrite app_nil_r in Hp|]. by eapply IH.
Qed.

Lemma src_text rel : src ++ rel = out ++ scratch_name :: rel.
Proof. unfold buildOutput. by rewrite <- app_assoc. Qed.

Lemma src_outside rel : ~ inside (src ++ rel).
Proof. intros (m & rest & Hm & E). rewrite src_text in E. by apply app_inv_head in E as [= <- _]. Qed.

Lemma files_text m rel : files m ++ rel = out ++ m :: lit "files" :: rel.
Proof. unfold files. by rewrite <- app_assoc. Qed.

Lemma files_inside m rel : m <> scratch_name -> inside (files m ++ rel).
Proof. intros Hm. exists m, (lit "files" :: rel). by rewrite files_text. Qed.

Lemma up_outside q : q `prefix_of` out -> ~ inside q /\ (forall rel, q <> src ++ rel) /\ t0 !! q = Some Dir.
Proof using bt.
  intros Hq. assert (Hs : q `prefix_of` src) by (etrans; [exact Hq|]; by apply prefix_app_r).
  split_and!; [| |by apply (bt_up bt)]; apply prefix_length in Hq.
  - intros (m & rest & _ & ->). rewrite length_app in Hq. cbn in Hq. lia.
  - intros rel ->. rewrite src_text, length_app in Hq. cbn in Hq. lia.
Qed.

(** [pos rel]: the module a file is in; [made]: a module whose directory is
    there; [inst]: the name of the file with the rules. *)
Variable inst : str.
Hypothesis inst_name : inst <> lit "files".

Record inv (t : tree) (pos : path -> option str) (made : option str) : Prop := mkInv {
  inv_out : forall q, ~ inside q -> (forall rel, q <> src ++ rel) -> t !! q = t0 !! q;
  inv_stay : forall rel, (forall n, ~ is_leaf rel n) -> t !! (src ++ rel) = t0 !! (src ++ rel);
  inv_src : forall rel n, is_leaf rel n -> t !! (src ++ rel) = match pos rel with Some _ => None | None => Some n end;
  inv_here : forall rel n m, is_leaf rel n -> pos rel = Some m -> m <> scratch_name /\ t !! (files m ++ rel) = Some n;
  inv_other : forall rel n m, is_leaf rel n -> m <> scratch_name -> pos rel <> Some m -> t !! (files m ++ rel) = None;
  inv_dirs : forall rel m, t0 !! (src ++ rel) = Some Dir -> m <> scratch_name ->
    t !! (files m ++ rel) = None \/ t !! (files m ++ rel) = Some Dir;
  inv_mods : forall m, m <> scratch_name -> t !! (out ++ [m]) = None \/ t !! (out ++ [m]) = Some Dir;
  inv_inst : forall m, m <> scratch_name -> t !! (out ++ [m; inst]) = None \/ exists c, t !! (out ++ [m; inst]) = Some (File c);
  inv_made : smooth -> forall m, made = Some m -> t !! (out ++ [m]) = Some Dir
}.

Lemma leaf_not_dir rel n : is_leaf rel n -> t0 !! (src ++ rel) <> Some Dir.
Proof. intros [E H]. rewrite E. by destruct n. Qed.

Lemma leaf_fun rel n n' : is_leaf rel n -> is_leaf rel n' -> n = n'.
Proof. intros [E _] [E' _]. congruence. Qed.

Lemma not_leaf rel n : (forall n, ~ is_leaf rel n) -> t0 !! (src ++ rel) = Some n ->
  n = Dir \/ exists x, n = Link x /\ fs_leads e t0 (src ++ rel) = Some true.
Proof.
  intros H E. destruct n as [|c|x]; [by left|by destruct (H (File c))|].
  destruct (decide (fs_leads e t0 (src ++ rel) = Some true)); [eauto|]. by destruct (H (Link x)).
Qed.

Lemma leaf_dec rel : (exists n, is_leaf rel n) \/ (forall n, ~ is_leaf rel n).
Proof.
  destruct (t0 !! (src ++ rel)) as [[|c|x]|] eqn:E.
  - right. intros n Hn. by apply leaf_not_dir in Hn.
  - left. exists (File c). done.
  - destruct (decide (fs_leads e t0 (src ++ rel) = Some true)).
    + right. intros n [E' Hn]. rewrite E in E'. by injection E' as <-.
    + left. exists (Link x). done.
  - right. intros n [E' _]. congruence.
Qed.

Lemma inv_start : inv t0 (fun _ => None) None.
Proof using bt.
  split; try done.
  - by intros rel n [E _].
  - intros rel n m _ Hm _. by apply (bt_outputs bt), files_inside.
  - intros rel m _ Hm. left. by apply (bt_outputs bt), files_inside.
  - intros m Hm. left. apply (bt_outputs bt). by exists m, [].
  - intros m Hm. left. apply (bt_outputs bt). by exists m, [inst].
Qed.

Lemma inv_ext t pos pos' made : (forall rel n, is_leaf rel n -> pos rel = pos' rel) -> inv t pos made -> inv t pos' made.
Proof.
  intros Hp [H1 H2 H3 H4 H5 H6 H7 H8 H9]. split; try done.
  - intros rel n Hn. rewrite <- (Hp rel n Hn). by apply H3.
  - intros rel n m Hn. rewrite <- (Hp rel n Hn). by apply H4.
  - intros rel n m Hn. rewrite <- (Hp rel n Hn). by apply (H5 rel n).
Qed.

Lemma under_src (q : path) : (exists rel, q = src ++ rel) \/ forall rel, q <> src ++ rel.
Proof.
  destruct (decide (src `prefix_of` q)) as [[rel ->]|Hn]; [by left; exists rel|right]. intros rel ->. apply Hn. by exists rel.
Qed.

Lemma inv_settled t pos made : inv t pos made -> settled t.
Proof.
  intros H q Hq. destruct (under_src q) as [[rel ->]|Hn]; [|left; by apply (inv_out _ _ _ H)].
  destruct (leaf_dec rel) as [[n Hn]|Hn]; [|left; by apply (inv_stay _ _ _ H)].
  rewrite (inv_src _ _ _ H rel n Hn). destruct (pos rel); [right; eauto|left; by destruct Hn].
Qed.

(** What lies on the way to a path of a module. *)
Lemma way_cases m rel q : q `prefix_of` files m ++ rel ->
  q `prefix_of` out \/ q = out ++ [m] \/ exists a, q = files m ++ a /\ a `prefix_of` rel.
Proof.
  intros [b E]. rewrite files_text in E. symmetry in E. apply app_eq_inv in E as [(k & -> & Ek)|(k & Ek & Eb)]; [|left; by exists k].
  destruct k as [|x k]; [left; by rewrite app_nil_r|]. right. injection Ek as <- Ek.
  destruct k as [|y k]; [by left|]. injection Ek as <- ->. right. exists k. split; [|by exists b].
  change (out ++ m :: lit "files" :: k = files m ++ k). by rewrite files_text.
Qed.

Lemma prefix_dir a rel : a `prefix_of` rel -> t0 !! (src ++ rel) = Some Dir -> t0 !! (src ++ a) = Some Dir.
Proof using bt.
  intros [b ->] Hd. destruct b as [|x b]; [by rewrite app_nil_r in Hd|]. by apply (parents a (x :: b) Dir).
Qed.

(** The way to a directory of the build output in a module is free. *)
Lemma inv_free t pos made rel m : inv t pos made -> t0 !! (src ++ rel) = Some Dir -> m <> scratch_name -> free t (files m ++ rel).
Proof using bt.
  intros H Hd Hm q Hq. apply way_cases in Hq as [Hq|[-> |(a & -> & Ha)]].
  - destruct (up_outside q Hq) as (H1 & H2 & H3). right. by rewrite (inv_out _ _ _ H).
  - by apply (inv_mods _ _ _ H).
  - apply (inv_dirs _ _ _ H); [|done]. by eapply prefix_dir.
Qed.

Lemma mod_inside m rest : m <> scratch_name -> inside (out ++ m :: rest).
Proof. by exists m, rest. Qed.

Lemma inv_grown t t' pos made rel m : inv t pos made -> t0 !! (src ++ rel) = Some Dir -> m <> scratch_name ->
  grown t t' (files m ++ rel) -> inv t' pos made.
Proof using bt inst_name.
  intros H Hd Hm Hg.
  assert (Hup : forall q, q `prefix_of` out -> t !! q = Some Dir).
  { intros q Hq. destruct (up_outside q Hq) as (H1 & H2 & H3). by rewrite (inv_out _ _ _ H). }
  assert (Ho : forall q, ~ inside q -> t' !! q = t !! q).
  { intros q Hq. destruct (Hg q) as [E|(E & _ & Hp)]; [done|].
    apply way_cases in Hp as [Hp|[-> |(a & -> & _)]]; [by rewrite Hup in E| |]; destruct Hq; [by apply mod_inside|by apply files_inside]. }
  split.
  - intros q H1 H2. rewrite Ho by done. by apply (inv_out _ _ _ H).
  - intros r Hr. rewrite Ho by apply src_outside. by apply (inv_stay _ _ _ H).
  - intros r n Hn. rewrite Ho by apply src_outside. by apply (inv_src _ _ _ H).
  - intros r n m' Hn Hp. destruct (inv_here _ _ _ H r n m' Hn Hp) as [H1 H2]. split; [done|].
    destruct (Hg (files m' ++ r)) as [-> | (E & _)]; [done|]. by rewrite H2 in E.
  - intros r n m' Hn Hm' Hp. pose proof (inv_other _ _ _ H r n m' Hn Hm' Hp) as Hnone.
    destruct (Hg (files m' ++ r)) as [-> | (_ & _ & Hw)]; [done|]. apply way_cases in Hw as [Hw|[Hw|(a & Hw & Ha)]].
    + apply Hup in Hw. by rewrite Hw in Hnone.
    + rewrite files_text in Hw. by apply app_inv_head in Hw.
    + rewrite !files_text in Hw. apply app_inv_head in Hw as [= -> ->]. apply leaf_not_dir in Hn. destruct Hn. by eapply prefix_dir.
  - intros r m' Hr Hm'. destruct (Hg (files m' ++ r)) as [-> | (_ & -> & _)]; [by apply (inv_dirs _ _ _ H)|by right].
  - intros m' Hm'. destruct (Hg (out ++ [m'])) as [-> | (_ & -> & _)]; [by apply (inv_mods _ _ _ H)|by right].
  - intros m' Hm'. destruct (Hg (out ++ [m'; inst])) as [-> | (E & _ & Hw)]; [by apply (inv_inst _ _ _ H)|].
    apply way_cases in Hw as [Hw|[Hw|(a & Hw & _)]]; [by rewrite Hup in E| |].
    + by apply app_inv_head in Hw.
    + rewrite files_text in Hw. apply app_inv_head in Hw. by injection Hw as _ Hw _.
  - intros Hs m' Hm'. destruct (Hg (out ++ [m'])) as [-> | (_ & -> & _)]; [by apply (inv_made _ _ _ H)|done].
Qed.

(** *** One file *)

(** What a step does when it succeeds; it does when nothing fails. *)
Definition runs (r : tree * result unit) (P : tree -> Prop) : Prop :=
  (r.2 = Ok tt -> P r.1) /\ (smooth -> r.2 = Ok tt).

Definition assigned (m : str) (sel : path -> bool) (pos : path -> option str) : path -> option str := fun rel =>
  match pos rel with Some x => Some x | None => if sel rel then Some m else None end.

Lemma plain_src t pos made rel n : inv t pos made -> t0 !! (src ++ rel) = Some n -> plain t (src ++ rel).
Proof using bt.
  intros H Hn a b E Hb. right. destruct (under_src a) as [[r ->]|Ha].
  - rewrite <- app_assoc in E. apply app_inv_head in E as ->. pose proof (parents r b n Hn Hb) as Hd.
    rewrite (inv_stay _ _ _ H); [done|]. intros n' Hn'. by apply leaf_not_dir in Hn'.
  - symmetry in E. apply app_eq_inv in E as [(k & -> & _)|(k & Es & Ek)]; [by destruct (Ha k)|].
    destruct k as [|x k _] using rev_ind; [rewrite app_nil_r in Es; destruct (Ha []); by rewrite app_nil_r|].
    unfold buildOutput in Es. rewrite (assoc_L (++) a k [x]) in Es. apply app_inj_tail in Es as [Es _].
    destruct (up_outside a) as (H1 & H2 & H3); [rewrite Es; by apply prefix_app_r|]. by rewrite (inv_out _ _ _ H).
Qed.

(** An entry of the build output is there as it was, unless it is a file that has been moved. *)
Lemma src_entry t pos made rel n : inv t pos made -> t0 !! (src ++ rel) = Some n ->
  fs_real e t (src ++ rel) = src ++ rel /\
  ((is_leaf rel n /\ is_dir e t (src ++ rel) = false /\
    at_ e t (src ++ rel) = match pos rel with Some _ => None | None => Some n end) \/
   ((forall n, ~ is_leaf rel n) /\ is_dir e t (src ++ rel) = true /\ at_ e t (src ++ rel) = Some n)).
Proof using bt ok.
  intros H Hn. pose proof (plain_src _ _ _ _ _ H Hn) as Hp. pose proof (real_plain ok _ _ Hp) as Hr. split; [done|].
  pose proof (inv_settled _ _ _ H) as Hset.
  unfold is_dir. rewrite at_plain, Hr by done. destruct (leaf_dec rel) as [[n' Hn']|Hno]; [left|right].
  - pose proof Hn' as [E Hk]. rewrite Hn in E. injection E as <-. rewrite (inv_src _ _ _ H rel n Hn').
    split_and!; [done| |done]. destruct (pos rel); [done|]. destruct n; [done..|].
    apply bool_decide_false. by eapply (leads_apart ok).
  - rewrite (inv_stay _ _ _ H rel Hno), Hn. split_and!; [done| |done].
    destruct (not_leaf rel n Hno Hn) as [-> |(x & -> & Hx)]; [done|]. apply bool_decide_true. by apply (leads_stay ok).
Qed.

Lemma inv_moved t pos made rel n m : inv t pos made -> is_leaf rel n -> pos rel = None -> m <> scratch_name ->
  inv (<[files m ++ rel := n]> (delete (src ++ rel) t)) (assigned m (fun r => bool_decide (r = rel)) pos) made.
Proof using bt inst_name.
  intros H Hl Hp Hm. pose proof (files_inside m rel Hm) as Hin.
  assert (Hs : forall q, ~ inside q -> (<[files m ++ rel := n]> (delete (src ++ rel) t)) !! q = delete (src ++ rel) t !! q).
  { intros q Hq. rewrite lookup_insert_ne; [done|]. intros <-. done. }
  assert (Hi : forall q, inside q -> q <> files m ++ rel -> (<[files m ++ rel := n]> (delete (src ++ rel) t)) !! q = t !! q).
  { intros q Hq Hne. rewrite lookup_insert_ne by done. apply lookup_delete_ne. intros <-. by apply (src_outside rel). }
  assert (Hother : forall r, r <> rel -> assigned m (fun r => bool_decide (r = rel)) pos r = pos r).
  { intros r Hr. unfold assigned. rewrite bool_decide_false by done. by destruct (pos r). }
  assert (Hself : assigned m (fun r => bool_decide (r = rel)) pos rel = Some m).
  { unfold assigned. by rewrite Hp, bool_decide_true. }
  split.
  - intros q H1 H2. rewrite Hs, lookup_delete_ne by naive_solver. by apply (inv_out _ _ _ H).
  - intros r Hr. rewrite Hs by apply src_outside. rewrite lookup_delete_ne; [by apply (inv_stay _ _ _ H)|].
    intros E. apply app_inv_head in E as ->. by apply (Hr n).
  - intros r n' Hr. rewrite Hs by apply src_outside. destruct (decide (r = rel)) as [->|Hne].
    + by rewrite lookup_delete_eq, Hself.
    + rewrite lookup_delete_ne, Hother by (done || intros E; by apply app_inv_head in E). by apply (inv_src _ _ _ H).
  - intros r n' m' Hr. destruct (decide (r = rel)) as [->|Hne].
    + rewrite Hself. intros [= <-]. split; [done|]. rewrite lookup_insert_eq. by rewrite (leaf_fun rel n n').
    + rewrite Hother by done. intros Hm'. destruct (inv_here _ _ _ H r n' m' Hr Hm') as [H1 H2]. split; [done|].
      rewrite Hi; [done|by apply files_inside|]. rewrite !files_text. intros E. by apply app_inv_head in E as [= _ ->].
  - intros r n' m' Hr Hm' Hne'. destruct (decide (r = rel)) as [->|Hne].
    + rewrite Hself in Hne'. rewrite Hi; [|by apply files_inside|].
      * apply (inv_other _ _ _ H rel n' m'); [done..|]. by rewrite Hp.
      * rewrite !files_text. intros E. apply app_inv_head in E as [= ->]. done.
    + rewrite Hother in Hne' by done. rewrite Hi; [by apply (inv_other _ _ _ H r n' m')|by apply files_inside|].
      rewrite !files_text. intros E. by apply app_inv_head in E as [= _ ->].
  - intros r m' Hr Hm'. rewrite Hi; [by apply (inv_dirs _ _ _ H)|by apply files_inside|].
    rewrite !files_text. intros E. apply app_inv_head in E as [= _ ->]. by apply leaf_not_dir in Hl.
  - intros m' Hm'. rewrite Hi; [by apply (inv_mods _ _ _ H)|by apply mod_inside|]. rewrite files_text. intros E. by apply app_inv_head in E.
  - intros m' Hm'. rewrite Hi; [by apply (inv_inst _ _ _ H)|by apply mod_inside|]. rewrite files_text. intros E.
    apply app_inv_head in E. by injection E as _ E _.
  - intros Hsm m' Hm'. pose proof (inv_made _ _ _ H Hsm m' Hm') as Hd. rewrite lookup_insert_ne, lookup_delete_ne; [done| |].
    + intros E. rewrite <- E, (inv_src _ _ _ H rel n Hl), Hp in Hd. injection Hd as ->. by destruct Hl.
    + rewrite files_text. intros E. by apply app_inv_head in E.
Qed.

Lemma assign_none m sel pos t made : (forall rel n, is_leaf rel n -> pos rel = None -> sel rel = false) ->
  inv t pos made -> inv t (assigned m sel pos) made.
Proof.
  intros Hs. apply inv_ext. intros rel n Hn. unfold assigned. destruct (pos rel) eqn:E; [done|]. by rewrite (Hs rel n).
Qed.

Abbreviation only rel := (fun r : path => bool_decide (r = rel)).

Lemma only_other rel m t pos made : (forall n, is_leaf rel n -> pos rel <> None) -> inv t pos made -> inv t (assigned m (only rel) pos) made.
Proof. intros Hr. apply assign_none. intros r n Hl Hp. apply bool_decide_false. intros ->. by apply (Hr n). Qed.

(** Moving a file that is there. *)
Lemma install_leaf t pos made rel n m : inv t pos made -> is_leaf rel n -> m <> scratch_name ->
  runs (let '(t, made) := mkpath e t (parent (files m ++ rel)) in
        if negb made then (t, Err err_default) else (rename e t (src ++ rel) (files m ++ rel), Ok tt))
    (fun t' => inv t' (assigned m (only rel) pos) made).
Proof using bt ok inst_name.
  intros H Hl Hm. destruct rel as [|x rel _] using rev_ind.
  { destruct Hl as [E Hl]. rewrite app_nil_r, (bt_up bt) in E by done. by injection E as <-. }
  rewrite (assoc_L (++) (files m) rel [x]), parent_snoc.
  pose proof Hl as [Hn _]. pose proof (bt_parents bt _ _ _ Hn) as Hd.
  pose proof (inv_free _ _ _ _ m H Hd Hm) as Hf. pose proof (mkpath_spec t (files m ++ rel) Hf) as Hmk.
  destruct (mkpath e t (files m ++ rel)) as [t1 md]. destruct Hmk as (Hg & Hdir & Hok).
  pose proof (inv_grown _ _ _ _ _ _ H Hd Hm Hg) as H1. pose proof (grown_free _ _ _ _ Hg Hf) as Hf1.
  destruct md; cbn [negb]; [|split; [done|intros (Hmk & _); by specialize (Hok Hmk)]].
  split; [intros _; cbn [fst]|done]. specialize (Hdir eq_refl (files m ++ rel)).
  specialize (Hdir ltac:(rewrite files_text; by destruct out) ltac:(done)).
  destruct (src_entry _ _ _ _ _ H1 Hn) as (Hr & [(_ & _ & Ha)|(Hno & _)]); [|by destruct (Hno n)].
  unfold rename. rewrite Ha. destruct (pos (rel ++ [x])) as [y|] eqn:Ep; [by apply only_other; [rewrite Ep|]|].
  pose proof (plain_snoc _ _ x Hf1) as Hpl. unfold vacant. rewrite at_plain, <- (assoc_L (++)) by done.
  rewrite (inv_other _ _ _ H1 (rel ++ [x]) n m Hl Hm) by (by rewrite Ep).
  rewrite (assoc_L (++) (files m) rel [x]), parent_snoc, is_dir_free, Hdir, bool_decide_true, (renames ok) by done.
  cbn [andb]. rewrite (real_plain ok _ _ Hpl), Hr, <- (assoc_L (++)). by apply inv_moved.
Qed.

(** The copy of a link to a directory. *)
Lemma inv_link t pos made rel x n m : inv t pos made -> (forall n, ~ is_leaf rel n) -> t0 !! (src ++ rel) = Some (Link x) ->
  m <> scratch_name -> inv (<[files m ++ rel := n]> t) pos made.
Proof using bt inst_name.
  intros H Hno Hx Hm.
  assert (Ho : forall q, ~ inside q -> (<[files m ++ rel := n]> t) !! q = t !! q).
  { intros q Hq. apply lookup_insert_ne. intros <-. by apply Hq, files_inside. }
  assert (Hf : forall r m', r <> rel -> (<[files m ++ rel := n]> t) !! (files m' ++ r) = t !! (files m' ++ r)).
  { intros r m' Hr. apply lookup_insert_ne. rewrite !files_text. intros E. by apply app_inv_head in E as [= _ ->]. }
  assert (Hne : forall r n, is_leaf r n -> r <> rel) by (intros r n' Hr ->; by apply Hno in Hr).
  split.
  - intros q H1 H2. rewrite Ho by done. by apply (inv_out _ _ _ H).
  - intros r Hr. rewrite Ho by apply src_outside. by apply (inv_stay _ _ _ H).
  - intros r n' Hr. rewrite Ho by apply src_outside. by apply (inv_src _ _ _ H).
  - intros r n' m' Hr. rewrite Hf by (by eapply Hne). by apply (inv_here _ _ _ H).
  - intros r n' m' Hr. rewrite Hf by (by eapply Hne). by apply (inv_other _ _ _ H r n' m').
  - intros r m' Hr. rewrite Hf by (intros ->; congruence). by apply (inv_dirs _ _ _ H).
  - intros m' Hm'. rewrite lookup_insert_ne; [by apply (inv_mods _ _ _ H)|]. rewrite files_text. intros E. by apply app_inv_head in E.
  - intros m' Hm'. rewrite lookup_insert_ne; [by apply (inv_inst _ _ _ H)|]. rewrite files_text. intros E.
    apply app_inv_head in E. by injection E as _ E _.
  - intros Hs m' Hm'. rewrite lookup_insert_ne; [by apply (inv_made _ _ _ H)|]. rewrite files_text. intros E. by apply app_inv_head in E.
Qed.

(** An entry is installed: a file is moved unless it has been, anything else stays. *)
Lemma installFile_spec t pos made rel n m : inv t pos made -> t0 !! (src ++ rel) = Some n -> m <> scratch_name ->
  runs (installFile e t (src ++ rel) (files m ++ rel)) (fun t' => inv t' (assigned m (only rel) pos) made).
Proof using bt ok inst_name.
  intros H Hn Hm. unfold installFile. destruct (src_entry _ _ _ _ _ H Hn) as (_ & [(Hl & Hd & _)|(Hno & Hd & Ha)]); rewrite Hd.
  { by apply (install_leaf _ _ _ _ n). }
  assert (Hsame : forall t, inv t pos made -> inv t (assigned m (only rel) pos) made).
  { intros t'. apply only_other. intros n' Hl. by apply Hno in Hl. }
  rewrite Ha. destruct (not_leaf rel n Hno Hn) as [-> |(x & -> & Hx)].
  - pose proof (mkpath_spec t _ (inv_free _ _ _ _ m H Hn Hm)) as Hmk.
    destruct (mkpath e t (files m ++ rel)) as [t1 md]. destruct Hmk as (Hg & _). split; [intros _; cbn [fst]|done].
    apply Hsame. by eapply inv_grown.
  - unfold create_symlink. case_match; (split; [intros E|intros (_ & _ & Hs); by destruct (Hs rel x Hn)]); [|done].
    cbn [fst]. apply Hsame. destruct rel as [|y rel _] using rev_ind.
    { rewrite app_nil_r, (bt_up bt) in Hn by done. done. }
    pose proof (bt_parents bt _ _ _ Hn) as Hp. pose proof (plain_snoc _ _ y (inv_free _ _ _ _ m H Hp Hm)) as Hpl.
    rewrite <- (assoc_L (++)) in Hpl. rewrite (real_plain ok _ _ Hpl). by eapply inv_link.
Qed.

(** *** Rules *)

Lemma runs_then (r : tree * result unit) (f : tree -> tree * result unit) (P Q : tree -> Prop) : runs r P ->
  (forall t, P t -> runs (f t) Q) -> runs (match r with (t, Err c) => (t, Err c) | (t, Ok _) => f t end) Q.
Proof.
  intros [H1 H2] Hf. destruct r as [t [[]|c]]; cbn [fst snd] in *; [by apply Hf, H1|].
  split; [done|]. intros Hs. by specialize (H2 Hs).
Qed.

Lemma runs_ok (t : tree) (P : tree -> Prop) : P t -> runs (t, Ok tt) P.
Proof. by split. Qed.

Lemma runs_weaken (r : tree * result unit) (P Q : tree -> Prop) : (forall t, P t -> Q t) -> runs r P -> runs r Q.
Proof. intros H [H1 H2]. split; [intros E; by apply H, H1|done]. Qed.

Lemma assign_twice m f g pos rel : assigned m f (assigned m g pos) rel = assigned m (fun r => g r || f r) pos rel.
Proof. unfold assigned. destruct (pos rel); [done|]. by destruct (g rel). Qed.

Lemma good_dest m rel n : t0 !! (src ++ rel) = Some n -> file_name m -> Forall file_name (files m ++ rel).
Proof using bt.
  intros Hn Hm. pose proof (bt_names bt) as Hs. unfold buildOutput in Hs. apply Forall_app in Hs as [Hs _].
  apply Forall_app. split; [|by eapply good_names, bt_good]. apply Forall_app. split; [by apply good_names|].
  apply Forall_cons. split; [done|]. apply Forall_singleton, files_name.
Qed.

Lemma target_entry m rel n : t0 !! (src ++ rel) = Some n -> file_name m -> target_of src (files m) (src ++ rel) = files m ++ rel.
Proof using bt.
  intros Hn Hm. apply target_front; [by unfold buildOutput; destruct out|by eapply good_dest|by eapply bt_single].
Qed.

(** The entries the iterator gave are entries of the build output. *)
Definition entry (p : path) : Prop := exists rel n, p = src ++ rel /\ t0 !! (src ++ rel) = Some n.

Definition matched (re : str) (l : list path) (rel : path) : bool :=
  existsb (fun p => bool_decide (p = src ++ rel) && fs_match e re (path_text p)) l.

Lemma install_matching_spec re l m t pos made : inv t pos made -> m <> scratch_name -> file_name m -> Forall entry l ->
  runs (install_matching e src (files m) re l t) (fun t' => inv t' (assigned m (matched re l) pos) made).
Proof using bt ok inst_name.
  intros H Hm Hf Hl. revert t pos H. induction Hl as [|p l (rel & n & -> & Hn) _ IH]; intros t pos H; cbn [install_matching].
  { apply runs_ok. by apply assign_none. }
  destruct (fs_match e re (path_text (src ++ rel))) eqn:Em.
  - rewrite (target_entry m rel n) by done. eapply runs_then; [by eapply installFile_spec|]. intros t1 H1.
    eapply runs_weaken; [|exact (IH t1 _ H1)]. intros t2. apply inv_ext. intros r k Hk. rewrite assign_twice.
    unfold assigned, matched. destruct (pos r); [done|]. cbn [existsb]. f_equal.
    destruct (decide (r = rel)) as [->|Hr]; [by rewrite !bool_decide_true, Em by done|].
    rewrite !bool_decide_false; [done|intros E; by apply app_inv_head in E|done].
  - eapply runs_weaken; [|exact (IH t _ H)]. intros t2. apply inv_ext. intros r k Hk. unfold assigned, matched.
    destruct (pos r); [done|]. cbn [existsb]. by rewrite Em, andb_false_r.
Qed.

(** Does a line choose this entry? *)
Definition picks (line : str) (rel : path) : bool :=
  match read_rule src line with
  | Skipped => false
  | Named p => bool_decide (p = src ++ rel)
  | Pattern re => fs_match e re (path_text (src ++ rel))
  end.

(** A path that is named is in the build output and does not go through a link. *)
Definition rule_ok (line : str) : Prop := forall p, read_rule src line = Named p -> exists rel, p = src ++ rel /\ plain t0 p.

Lemma plain_kept t pos made rel : inv t pos made -> plain t0 (src ++ rel) -> plain t (src ++ rel).
Proof.
  intros H Hp a b E Hb. specialize (Hp a b E Hb). destruct (under_src a) as [[r ->]|Ha].
  - rewrite (inv_stay _ _ _ H); [done|]. intros n [Hn Hk]. destruct Hp as [Hp|Hp]; rewrite Hp in Hn; [done|]. by injection Hn as <-.
  - rewrite (inv_out _ _ _ H); [done| |done]. intros (m & rest & Hm & ->).
    rewrite src_text, <- app_assoc in E. by apply app_inv_head in E as [= <- _].
Qed.

Lemma leaf_nonempty rel n : is_leaf rel n -> rel <> [].
Proof using bt. intros [E Hk] ->. rewrite app_nil_r, (bt_up bt) in E by done. by injection E as <-. Qed.

Lemma walk_entries t pos made : inv t pos made -> Forall entry (fs_walk e t src).
Proof using ok.
  intros H. apply Forall_forall. intros p Hp. apply (walk_spec ok) in Hp as (rel & _ & -> & [n Hn]).
  destruct (leaf_dec rel) as [[k Hk]|Hno]; [exists rel, k; split; [done|apply Hk]|]. exists rel, n. split; [done|].
  by rewrite <- (inv_stay _ _ _ H rel Hno).
Qed.

Lemma matched_walk t pos made re rel n : inv t pos made -> is_leaf rel n -> pos rel = None ->
  matched re (fs_walk e t src) rel = fs_match e re (path_text (src ++ rel)).
Proof using bt ok.
  intros H Hl Hp. unfold matched. destruct (fs_match e re (path_text (src ++ rel))) eqn:Em.
  - apply existsb_exists. exists (src ++ rel). rewrite Em, bool_decide_true by done. split; [|done].
    apply list_elem_of_In, (walk_spec ok). exists rel. split_and!; [by eapply leaf_nonempty|done|].
    rewrite (inv_src _ _ _ H rel n Hl), Hp. done.
  - apply not_true_iff_false. intros (p & _ & Hx)%existsb_exists. apply andb_prop in Hx as [->%bool_decide_eq_true Hx]. congruence.
Qed.

Lemma install_rule_spec line m t pos made : inv t pos made -> m <> scratch_name -> file_name m -> rule_ok line ->
  runs (install_rule e src (files m) line t) (fun t' => inv t' (assigned m (picks line) pos) made).
Proof using bt ok inst_name.
  intros H Hm Hf Hr. unfold install_rule, rule_ok, picks in *. destruct (read_rule src line) as [|p|re].
  - apply runs_ok. by apply assign_none.
  - destruct (Hr p eq_refl) as (rel & -> & Hp). destruct (t0 !! (src ++ rel)) as [n|] eqn:En.
    + assert (Hx : forall t', inv t' (assigned m (only rel) pos) made ->
        inv t' (assigned m (fun r => bool_decide (src ++ rel = src ++ r)) pos) made).
      { intros t'. apply inv_ext. intros r k _. unfold assigned. destruct (pos r); [done|].
        replace (bool_decide (src ++ rel = src ++ r)) with (bool_decide (r = rel)); [done|].
        apply bool_decide_ext. split; [by intros ->|]. intros E. by apply app_inv_head in E. }
      destruct (at_ e t (src ++ rel)) as [k|] eqn:Ea.
      * rewrite (target_entry m rel n) by done. eapply runs_weaken; [exact Hx|]. by eapply installFile_spec.
      * apply runs_ok, Hx. apply only_other; [|done]. intros k Hk E.
        destruct (src_entry _ _ _ _ _ H En) as (_ & [(_ & _ & Hx')|(_ & _ & Hx')]); rewrite Ea in Hx'; [|done]. by rewrite E in Hx'.
    + rewrite at_plain by (by eapply plain_kept). rewrite (inv_stay _ _ _ H), En by (by intros n [E _]; congruence).
      apply runs_ok, assign_none; [|done]. intros r n [E _] _. apply bool_decide_false. intros E'. rewrite <- E' in E. congruence.
  - eapply runs_weaken; [|eapply install_matching_spec; [done..|by eapply walk_entries]]. intros t'. apply inv_ext.
    intros rel n Hl. unfold assigned. destruct (pos rel) eqn:Ep; [done|]. by rewrite (matched_walk t pos made re rel n).
Qed.

Definition picked (lines : list str) (rel : path) : bool := existsb (fun line => picks line rel) lines.

Lemma install_rules_spec lines m t pos made : inv t pos made -> m <> scratch_name -> file_name m -> Forall rule_ok lines ->
  runs (install_rules e src (files m) lines t) (fun t' => inv t' (assigned m (picked lines) pos) made).
Proof using bt ok inst_name.
  intros H Hm Hf Hl. revert t pos H. induction Hl as [|line lines Hr _ IH]; intros t pos H; cbn [install_rules].
  { apply runs_ok. by apply assign_none. }
  eapply runs_then; [by apply install_rule_spec|]. intros t1 H1. eapply runs_weaken; [|exact (IH t1 _ H1)].
  intros t2. apply inv_ext. intros rel n _. by rewrite assign_twice.
Qed.

(** *** Modules *)

Lemma module_files_name m : file_name m -> module_files workingDir m = files m /\ moduleDir workingDir m = out ++ [m].
Proof.
  intros Hm. unfold module_files, moduleDir, below, files. rewrite (proj1 (name_no_slash m Hm)), components_name by done.
  by rewrite <- app_assoc.
Qed.

Lemma inv_made_change t pos made made' : inv t pos made -> (smooth -> forall m, made' = Some m -> t !! (out ++ [m]) = Some Dir) ->
  inv t pos made'.
Proof. intros [H1 H2 H3 H4 H5 H6 H7 H8 H9] Hm. by split. Qed.

Lemma src_mkpath t pos made : inv t pos made -> inv (mkpath e t src).1 pos made.
Proof using bt ok.
  intros H. assert (Hup : forall a, a `prefix_of` src -> t !! a = Some Dir).
  { intros a Ha. pose proof (bt_up bt a Ha) as Hd. destruct (under_src a) as [[r ->]|Hn].
    - rewrite (inv_stay _ _ _ H); [done|]. intros n Hk. by apply leaf_not_dir in Hk.
    - rewrite (inv_out _ _ _ H); [done| |done]. intros Hi. by rewrite (bt_outputs bt) in Hd. }
  assert (Hf : free t src) by (intros a Ha; right; by apply Hup).
  pose proof (mkpath_spec t src Hf) as Hmk. destruct (mkpath e t src) as [t1 md]. destruct Hmk as (Hg & _). cbn [fst].
  assert (t1 = t) as ->; [|done]. apply map_eq. intros q. destruct (Hg q) as [->|(E & _ & Hp)]; [done|]. by rewrite Hup in E.
Qed.

Lemma installModule_spec lines m t pos made : inv t pos made -> m <> scratch_name -> file_name m -> Forall rule_ok lines ->
  runs (installModule e lines src (files m) t) (fun t' => inv t' (assigned m (picked lines) pos) (Some m)).
Proof using bt ok inst_name.
  intros H Hm Hf Hl. unfold installModule. apply src_mkpath in H. set (t1 := (mkpath e t src).1) in *. clearbody t1.
  assert (Hsrc : t0 !! (src ++ []) = Some Dir) by (rewrite app_nil_r; by apply (bt_up bt)).
  pose proof (inv_free _ _ _ [] m H Hsrc Hm) as Hfree. rewrite app_nil_r in Hfree.
  pose proof (mkpath_spec t1 (files m) Hfree) as Hmk. destruct (mkpath e t1 (files m)) as [t2 md]. cbn [fst].
  destruct Hmk as (Hg & Hdir & Hok). apply install_rules_spec; [|done..].
  apply inv_made_change with made; [apply (inv_grown t1 t2 pos made [] m H Hsrc Hm); by rewrite app_nil_r|].
  intros (Hmk & _) m' [= <-]. apply Hdir; [by apply Hok|by destruct out|]. exists [lit "files"]. unfold files. by rewrite <- app_assoc.
Qed.

(** The file with the rules of a module. *)
Lemma write_spec t pos m text : inv t pos (Some m) -> m <> scratch_name ->
  runs (write_file e t (out ++ [m; inst]) text) (fun t' => inv t' pos None).
Proof using bt ok inst_name.
  intros H Hm. unfold write_file.
  assert (Hfree : free t (out ++ [m])).
  { intros a Ha. assert (Hsrc : t0 !! (src ++ []) = Some Dir) by (rewrite app_nil_r; by apply (bt_up bt)).
    apply (inv_free _ _ _ [] m H Hsrc Hm). etrans; [exact Ha|]. rewrite app_nil_r. exists [lit "files"]. unfold files. by rewrite <- app_assoc. }
  pose proof (plain_snoc _ _ inst Hfree) as Hpl. rewrite <- (assoc_L (++)) in Hpl. cbn [app] in Hpl.
  assert (Hd : is_dir e t (out ++ [m; inst]) = false).
  { unfold is_dir. rewrite at_plain by done. by destruct (inv_inst _ _ _ H m Hm) as [-> |[c ->]]. }
  assert (Ei : out ++ [m; inst] = (out ++ [m]) ++ [inst]) by (by rewrite <- app_assoc).
  rewrite Ei in Hpl, Hd |- *. rewrite parent_snoc, (is_dir_free t (out ++ [m])) by done.
  rewrite Hd. cbn [negb andb]. destruct (bool_decide _ && _) eqn:E.
  - split; [intros _; cbn [fst]|done]. rewrite (real_plain ok _ _ Hpl). destruct H as [H1 H2 H3 H4 H5 H6 H7 H8 H9]. set (f := (out ++ [m]) ++ [inst]).
    assert (Hne : forall q, q <> f -> (<[f := File text]> t) !! q = t !! q) by (intros q Hq; by apply lookup_insert_ne).
    assert (Hfi : inside f) by (unfold f; rewrite <- app_assoc; by apply mod_inside).
    assert (Hff : forall m' r, files m' ++ r <> f).
    { intros m' r. unfold f. rewrite files_text, <- app_assoc. intros Ef. apply app_inv_head in Ef. by injection Ef as _ Ef _. }
    assert (Hfo : forall m', out ++ [m'] <> f).
    { intros m'. unfold f. rewrite <- app_assoc. intros Ef. by apply app_inv_head in Ef. }
    split.
    + intros q Hq1 Hq2. rewrite Hne by (intros ->; done). by apply H1.
    + intros r Hr. rewrite Hne by (intros Ef; apply (src_outside r); by rewrite Ef). by apply H2.
    + intros r n Hr. rewrite Hne by (intros Ef; apply (src_outside r); by rewrite Ef). by apply H3.
    + intros r n m' Hr. rewrite Hne by apply Hff. by apply H4.
    + intros r n m' Hr. rewrite Hne by apply Hff. by apply (H5 r n m').
    + intros r m'. rewrite Hne by apply Hff. by apply H6.
    + intros m'. rewrite Hne by apply Hfo. by apply H7.
    + intros m' Hm'. destruct (decide (m' = m)) as [->|Hx].
      * right. exists text. unfold f. rewrite <- app_assoc. apply lookup_insert_eq.
      * rewrite Hne; [by apply H8|]. unfold f. rewrite <- app_assoc. intros Ef. by apply app_inv_head in Ef as [= ->].
    + done.
  - split; [done|]. intros Hs. pose proof Hs as (_ & H2 & _). rewrite (inv_made _ _ _ H Hs m eq_refl), bool_decide_true, H2 in E by done. done.
Qed.

Section package.
Variable id : str.
Hypothesis inst_file : install_file id = [inst].

Lemma install_module_spec lines m t pos made : inv t pos made -> m <> scratch_name -> file_name m -> Forall rule_ok lines ->
  runs (install_module e workingDir id m lines t) (fun t' => inv t' (assigned m (picked lines) pos) None).
Proof using bt ok inst_name inst_file.
  intros H Hm Hf Hl. unfold install_module. destruct (module_files_name m Hf) as [-> ->]. rewrite inst_file, <- app_assoc.
  eapply runs_then; [by eapply installModule_spec|]. intros t1 H1. by eapply write_spec.
Qed.

(** The module whose rules choose a file first. *)
Definition first_module (modules : list BuilderProjectModules) (rel : path) : option str :=
  mod_name <$> List.find (fun m => picked (removeDuplicates (mod_files m)) rel) modules.

Definition module_ok (m : BuilderProjectModules) : Prop :=
  mod_name m <> scratch_name /\ file_name (mod_name m) /\ Forall rule_ok (removeDuplicates (mod_files m)).

Lemma install_modules_spec modules t pos : inv t pos None -> Forall module_ok modules ->
  runs (install_modules e workingDir id modules t)
    (fun t' => inv t' (fun rel => match pos rel with Some x => Some x | None => first_module modules rel end) None).
Proof using bt ok inst_name inst_file.
  intros H Hl. revert t pos H. induction Hl as [|m modules (H1 & H2 & H3) _ IH]; intros t pos H; cbn [install_modules].
  { apply runs_ok. revert H. apply inv_ext. intros rel n _. by destruct (pos rel). }
  eapply runs_then; [exact (install_module_spec _ _ _ _ _ H H1 H2 H3)|]. intros t1 Ht1. eapply runs_weaken; [|exact (IH t1 _ Ht1)].
  intros t2. apply inv_ext. intros rel n _. unfold assigned, first_module. destruct (pos rel); [done|]. cbn [List.find].
  by destruct (picked _ rel).
Qed.

(** The paths of what is left choose all of it. *)
Lemma all_rules_spec t pos made : inv t pos made ->
  Forall rule_ok (all_rules e workingDir t) /\
  forall rel n, is_leaf rel n -> pos rel = None -> picked (all_rules e workingDir t) rel = true.
Proof using bt ok.
  intros H. unfold all_rules.
  assert (Hrel : forall rel, drop (length (path_text src)) (path_text (src ++ rel)) = path_text rel).
  { intros rel. by rewrite path_text_app, drop_app_length. }
  assert (Hread : forall rel n, rel <> [] -> t0 !! (src ++ rel) = Some n -> read_rule src (path_text rel) = Named (src ++ rel)).
  { intros rel n Hr Hn. apply read_path; [done| |by eapply bt_simple]. apply Forall_app. split; [apply (bt_names bt)|by eapply bt_good]. }
  split.
  - apply Forall_map, Forall_forall. intros p Hp. pose proof Hp as Hw. apply (walk_spec ok) in Hw as (rel & Hr & -> & _).
    rewrite Hrel. pose proof (walk_entries _ _ _ H) as He. rewrite Forall_forall in He.
    destruct (He _ Hp) as (rel' & n & E & Hn). apply app_inv_head in E as <-.
    intros q Hq. rewrite (Hread rel n) in Hq by done. injection Hq as <-. exists rel. split; [done|].
    by apply (plain_src t0 (fun _ => None) None rel n inv_start).
  - intros rel n Hl Hp. apply existsb_exists. exists (path_text rel). split.
    + apply in_map_iff. exists (src ++ rel). split; [done|]. apply list_elem_of_In, (walk_spec ok).
      exists rel. split_and!; [by eapply leaf_nonempty|done|]. by rewrite (inv_src _ _ _ H rel n Hl), Hp.
    + unfold picks. rewrite (Hread rel n); [by apply bool_decide_true|by eapply leaf_nonempty|apply Hl].
Qed.

(** Where a file goes. *)
Definition owner (modules : list BuilderProjectModules) (rel : path) : str := default binary (first_module modules rel).

Lemma binary_name : file_name binary.
Proof. split; [done|]. unfold binary. repeat (apply not_elem_of_cons; split; [done|]). apply not_elem_of_nil. Qed.

Lemma installFiles_inv prefix modules packageModules : Forall module_ok (project_modules modules false) ->
  (forall t, fs_read e t (workingDir ++ install_file id) = None) ->
  let '(t, mods, r) := installFiles e workingDir id prefix modules false packageModules t0 in
  mods = packageModules ++ package_modules modules /\
  runs (t, r) (fun t => inv t (fun rel => Some (owner (project_modules modules false) rel)) None).
Proof using bt ok inst_name inst_file.
  intros Hm Hold. unfold installFiles, binary_rules. cbv zeta.
  pose proof (install_modules_spec _ t0 _ inv_start Hm) as Hr.
  destruct (install_modules e workingDir id _ t0) as [t1 [u|c]].
  - rewrite Hold. destruct Hr as [H1 _]. destruct u. specialize (H1 eq_refl). cbn [fst] in H1.
    destruct (all_rules_spec _ _ _ H1) as [Hok Hall].
    pose proof (install_module_spec _ binary _ _ _ H1 ltac:(done) binary_name Hok) as Hb.
    destruct (install_module e workingDir id binary _ t1) as [t2 r2]. split; [done|].
    eapply runs_weaken; [|exact Hb]. intros t. apply inv_ext. intros rel n Hl. unfold owner, assigned.
    destruct (first_module _ rel) eqn:Ef; [done|]. by rewrite (Hall rel n) by (done || by rewrite Ef).
  - split; [done|]. destruct Hr as [_ Hs]. split; [done|]. intros H. by specialize (Hs H).
Qed.
End package.
End distribution.

(** *** Checking the conditions *)

Section check.
Variable e : fs_env.
Variable workingDir : path.
Variable t : tree.
#[local] Abbreviation out := (output workingDir).
#[local] Abbreviation src := (buildOutput workingDir).

Definition good_name_b (n : str) : bool :=
  negb (bool_decide (n = [])) && negb (bool_decide ("/"%char ∈ n)) && negb (bool_decide (n = lit ".")) && negb (bool_decide (n = lit "..")).

Definition entry_check (p : path) : bool :=
  match bool_decide (src `prefix_of` p) with
  | true =>
      let rel := drop (length src) p in
      forallb good_name_b rel &&
      bool_decide (rel = [] \/ t !! (src ++ removelast rel) = Some Dir) &&
      bool_decide (find_sub (path_text src) (path_text rel) = None) &&
      bool_decide (simplified (path_text rel) = path_text rel)
  | false => negb (bool_decide (out `prefix_of` p)) || bool_decide (p = out)
  end.

Definition tree_check : bool :=
  forallb good_name_b src && forallb (fun k => bool_decide (t !! take k src = Some Dir)) (seq 0 (S (length src))) &&
  forallb entry_check (map_to_list t).*1.

Lemma good_name_spec n : good_name_b n = true -> good_name n.
Proof.
  unfold good_name_b, good_name, file_name. rewrite !andb_true_iff, !negb_true_iff, !bool_decide_eq_false. naive_solver.
Qed.

Lemma good_names_spec p : forallb good_name_b p = true -> Forall good_name p.
Proof. rewrite forallb_forall. intros H. apply Forall_forall. intros n Hn. by apply good_name_spec, H, list_elem_of_In. Qed.

Lemma tree_check_ok : tree_check = true -> build_tree workingDir t.
Proof.
  unfold tree_check. rewrite !andb_true_iff, !forallb_forall. intros [[H1 H2] H3].
  assert (He : forall p n, t !! p = Some n -> entry_check p = true).
  { intros p n Hp. apply H3, list_elem_of_In. apply list_elem_of_fmap. exists (p, n). by rewrite elem_of_map_to_list. }
  assert (Hs : forall rel n, t !! (src ++ rel) = Some n ->
    forallb good_name_b rel = true /\ (rel = [] \/ t !! (src ++ removelast rel) = Some Dir) /\
    find_sub (path_text src) (path_text rel) = None /\ simplified (path_text rel) = path_text rel).
  { intros rel n Hn. specialize (He _ _ Hn). unfold entry_check in He. rewrite bool_decide_true in He by (by exists rel).
    rewrite drop_app_length in He. rewrite !andb_true_iff, !bool_decide_eq_true in He. naive_solver. }
  split.
  - apply good_names_spec, forallb_forall, H1.
  - intros rel n Hn. by apply good_names_spec, (Hs rel n).
  - intros q [k Ek]. specialize (H2 (length q)). rewrite bool_decide_eq_true in H2. rewrite Ek, take_app_length in H2.
    apply H2, in_seq. rewrite length_app. lia.
  - intros rel x n Hn. destruct (Hs _ _ Hn) as (_ & [Hx|Hx] & _); [by destruct rel|]. by rewrite removelast_last in Hx.
  - intros q (m & rest & Hm & ->). destruct (t !! (out ++ m :: rest)) as [n|] eqn:E; [|done]. specialize (He _ _ E).
    unfold entry_check in He. rewrite bool_decide_false in He.
    + rewrite bool_decide_true in He by (by eexists). cbn [negb orb] in He. apply bool_decide_eq_true in He.
      rewrite <- (app_nil_r out) in He at 2. by apply app_inv_head in He.
    + intros [k Ek]. unfold buildOutput in Ek. rewrite <- app_assoc in Ek. apply app_inv_head in Ek. by injection Ek as Ek _.
  - intros rel n Hn. by apply (Hs rel n).
  - intros rel n Hn. by apply (Hs rel n).
Qed.

(** A line names nothing, or an entry that is there. *)
Definition line_check (line : str) : bool :=
  match read_rule src line with
  | Named p => bool_decide (src `prefix_of` p) && bool_decide (is_Some (t !! p))
  | _ => true
  end.

Definition module_check (m : BuilderProjectModules) : bool :=
  negb (bool_decide (mod_name m = lit "_build")) && good_name_b (mod_name m) && forallb line_check (removeDuplicates (mod_files m)).

Lemma module_check_ok m : build_tree workingDir t -> module_check m = true -> module_ok workingDir t m.
Proof using e.
  intros bt. unfold module_check. rewrite !andb_true_iff, forallb_forall, negb_true_iff, bool_decide_eq_false.
  intros [[H1 H2] H3]. split_and!; [done|by apply good_name_spec|]. apply Forall_forall. intros line Hl p Hp.
  specialize (H3 line ltac:(by apply list_elem_of_In)). unfold line_check in H3. rewrite Hp in H3.
  apply andb_prop in H3 as [[rel ->]%bool_decide_eq_true [n Hn]%bool_decide_eq_true]. exists rel. split; [done|].
  apply (plain_src e workingDir t bt [] t (fun _ => None) None rel n); [by apply inv_start|done].
Qed.
End check.

(** ** The files of a package *)

Lemma owner_listed e workingDir modules rel : owner e workingDir (project_modules modules false) rel ∈ package_modules modules.
Proof.
  unfold owner, first_module. destruct (List.find _ _) as [m|] eqn:E.
  - apply find_some in E as [E _]. change (default binary (mod_name <$> Some m)) with (mod_name m). unfold project_modules, package_modules in *. rewrite andb_true_r in E.
    apply list_elem_of_In, elem_of_app in E as [E|E]; [apply elem_of_app; left; by apply list_elem_of_fmap_2|].
    destruct (names_module develop _); cbn [negb] in E; [by apply elem_of_nil in E|].
    apply list_elem_of_singleton in E as ->. cbn. rewrite !elem_of_app. right. right. by apply list_elem_of_singleton.
  - change (binary ∈ package_modules modules). unfold package_modules. rewrite !elem_of_app.
    destruct (names_module binary (default [] modules)) eqn:Eb; [left|right; left; by apply list_elem_of_singleton].
    apply existsb_exists in Eb as (m & Hm & Eb%bool_decide_eq_true). rewrite <- Eb. apply list_elem_of_fmap_2. by apply list_elem_of_In.
Qed.

Lemma install_name id : "/"%char ∉ id -> install_file id = [id ++ lit ".install"] /\ id ++ lit ".install" <> lit "files".
Proof.
  intros Hid. split.
  - apply components_name. split; [by destruct id|]. rewrite not_elem_of_app. split; [done|].
    repeat (apply not_elem_of_cons; split; [done|]). apply not_elem_of_nil.
  - intros E. apply (f_equal length) in E. rewrite length_app in E. cbn in E. lia.
Qed.

(** C21: where the files of a build go, under these conditions.  The complete
    [develop] module is not asked for ([full_develop_doubles]) and there is no
    [<id>.install] beside the project; the build output is a tree of directories
    that are no links, its paths have no runs of blanks and none at their ends
    ([blanks_left_behind]) and do not repeat the path of the output itself
    ([target_twice]); nothing is in the modules yet; the modules have names of one
    component, not [_build], and a path a rule names is in the output and goes
    through no link; links that lead to no directory do not come to lead to one;
    renaming, whose result the code ignores, does not fail ([renaming_ignored]).
    Then, when the installation succeeds, every file (and link that leads to no
    directory) is in one module of the package, the first one with a rule for it
    or else [binary], as it was, and has left the build output, and no other
    module has it.  It does succeed when no directory or file is refused and no
    link leads to a directory. *)
Theorem files_distributed e workingDir t id prefix modules packageModules t' mods r :
  build_tree workingDir t -> env_ok e workingDir t -> "/"%char ∉ id ->
  Forall (module_ok workingDir t) (project_modules modules false) ->
  (forall t, fs_read e t (workingDir ++ install_file id) = None) ->
  installFiles e workingDir id prefix modules false packageModules t = (t', mods, r) ->
  (smooth e workingDir t -> r = Ok tt) /\
  (r = Ok tt -> forall rel n, is_leaf e workingDir t rel n ->
     let m := owner e workingDir (project_modules modules false) rel in
     m ∈ mods /\ t' !! (buildOutput workingDir ++ rel) = None /\ t' !! (files workingDir m ++ rel) = Some n /\
     forall m', m' <> m -> m' <> lit "_build" -> t' !! (files workingDir m' ++ rel) = None).
Proof.
  intros bt ok Hid Hm Hold Hrun. destruct (install_name id Hid) as [Hi Hne].
  pose proof (installFiles_inv e workingDir t bt ok _ Hne id Hi prefix modules packageModules Hm Hold) as H. rewrite Hrun in H.
  destruct H as [-> [H1 H2]]. split; [done|]. cbn [fst snd] in *. intros Hr rel n Hl. specialize (H1 Hr). cbv zeta. split_and!.
  - apply elem_of_app. right. apply owner_listed.
  - by apply (inv_src _ _ _ _ _ _ _ H1 rel n Hl).
  - by apply (inv_here _ _ _ _ _ _ _ H1 rel n _ Hl).
  - intros m' Hne' Hb. apply (inv_other _ _ _ _ _ _ _ H1 rel n m' Hl Hb). congruence.
Qed.

(** ** Examples *)

(** A system without links to directories, and patterns that end in [.+] or in
    [.+\.a$]. *)
Definition demo_match (re text : str) : bool :=
  let stem := drop 1 re in
  let ends (s suffix : str) := bool_decide (drop (length s - length suffix) s = suffix) in
  if ends stem (lit ".+") then starts (take (length stem - 2) stem) text && (length stem - 2 <? length text)%nat
  else starts (take (length stem - 6) stem) text && ends text (lit ".a").

Definition demo_below (t : tree) (p : path) : list path :=
  filter (fun q => p `prefix_of` q /\ q <> p) (map_to_list t).*1.

Definition demo_fs : fs_env :=
  mkFs (fun _ p => p) (fun _ _ => Some false) (fun _ _ => true) (fun _ _ => true) (fun _ _ _ => true) (fun _ _ => true)
    (fun t p => remove_dups (filter (fun q => length q = S (length p)) (demo_below t p) ≫= drop (length p)))
    demo_below (fun _ _ => None) demo_match.

Definition demo_dir : path := [lit "p"].
Definition demo_src : path := buildOutput demo_dir.
Definition demo_tree : tree := list_to_map (
  ((fun k => (take k demo_src, Dir)) <$> seq 0 5) ++
  ((fun x => (demo_src ++ x.1, x.2)) <$>
    [([lit "include"], Dir); ([lit "include"; lit "a.h"], File (lit "A")); ([lit "lib"], Dir);
     ([lit "lib"; lit "liba.a"], File (lit "B")); ([lit "lib"; lit "liba.so.1"], File (lit "C"));
     ([lit "lib"; lit "liba.so"], Link (lit "liba.so.1")); ([lit "bin"], Dir); ([lit "bin"; lit "tool"], File (lit "D"))])).
Definition demo_modules : option (list BuilderProjectModules) :=
  Some [mkModule [lit "# tools"; lit " bin/tool "; lit "bin/tool"] (lit "tools")].

Definition demo_install : tree * list str * result unit := installFiles demo_fs demo_dir (lit "org.demo") (lit "/opt") demo_modules false [] demo_tree.

Lemma demo_env_ok workingDir t : env_ok demo_fs workingDir t.
Proof.
  split; [done| |done|done|done]. intros t' q. cbn [demo_fs fs_walk]. unfold demo_below. rewrite list_elem_of_filter, list_elem_of_fmap.
  split.
  - intros [[[rel ->] Hne] ([p n] & E & Hn)]. cbn in E. rewrite <- E in Hn. exists rel. split_and!; [intros ->; by rewrite app_nil_r in Hne|done|].
    apply elem_of_map_to_list in Hn. by exists n.
  - intros (rel & Hr & -> & [n Hn]). split_and!; [by exists rel| |exists (buildOutput workingDir ++ rel, n); by rewrite elem_of_map_to_list].
    intros E. rewrite <- (app_nil_r (buildOutput workingDir)) in E at 2. by apply app_inv_head in E.
Qed.

Example demo_installed :
  let '(t, mods, r) := demo_install in
  (mods, r) = ([lit "tools"; binary; develop], Ok tt) /\
  t !! (output demo_dir ++ [lit "tools"; lit "files"; lit "bin"; lit "tool"]) = Some (File (lit "D")) /\
  t !! (output demo_dir ++ [develop; lit "files"; lit "lib"; lit "liba.a"]) = Some (File (lit "B")) /\
  t !! (output demo_dir ++ [binary; lit "files"; lit "lib"; lit "liba.so"]) = Some (Link (lit "liba.so.1")) /\
  t !! (output demo_dir ++ [binary; lit "org.demo.install"]) <> None.
Proof. vm_compute. split_and!; [reflexivity..|discriminate]. Qed.

Lemma files_distributed_witness :
  let '(t, mods, r) := demo_install in
  is_leaf demo_fs demo_dir demo_tree [lit "bin"; lit "tool"] (File (lit "D")) /\
  ((smooth demo_fs demo_dir demo_tree -> r = Ok tt) /\
   (r = Ok tt -> forall rel n, is_leaf demo_fs demo_dir demo_tree rel n ->
     let m := owner demo_fs demo_dir (project_modules demo_modules false) rel in
     m ∈ mods /\ t !! (buildOutput demo_dir ++ rel) = None /\ t !! (files demo_dir m ++ rel) = Some n /\
     forall m', m' <> m -> m' <> lit "_build" -> t !! (files demo_dir m' ++ rel) = None)).
Proof.
  destruct demo_install as [[t mods] r] eqn:E. split; [split; vm_compute; done|].
  assert (bt : build_tree demo_dir demo_tree) by (apply tree_check_ok; vm_compute; reflexivity).
  apply (files_distributed demo_fs demo_dir demo_tree (lit "org.demo") (lit "/opt") demo_modules [] t mods r bt (demo_env_ok demo_dir demo_tree));
    [|..|done|exact E].
  - apply (bool_decide_unpack _). vm_compute. exact I.
  - apply Forall_forall. intros m Hm. apply (module_check_ok demo_fs _ _ _ bt).
    assert (Hall : forallb (module_check demo_dir demo_tree) (project_modules demo_modules false) = true) by (vm_compute; reflexivity).
    rewrite forallb_forall in Hall. by apply Hall, list_elem_of_In.
Defined.

(** *** Where files get lost *)

(** The binary module reads its own list with [simplified]: a file with two
    blanks in its name stays behind, and the installation succeeds. *)
Theorem blanks_left_behind :
  let p := [lit "share"; lit "a  b"] in
  let t := <[demo_src ++ p := File (lit "E")]> (<[demo_src ++ [lit "share"] := Dir]> demo_tree) in
  let '(t', mods, r) := installFiles demo_fs demo_dir (lit "org.demo") (lit "/opt") demo_modules false [] t in
  r = Ok tt /\ t' !! (demo_src ++ p) = Some (File (lit "E")) /\ Forall (fun m => t' !! (files demo_dir m ++ p) = None) mods.
Proof. vm_compute. split_and!; [done..|]. repeat constructor. Qed.

(** A renaming that fails is not noticed: the installation succeeds, and the
    file is in no module. *)
Definition refusing_fs : fs_env :=
  mkFs (fun _ p => p) (fun _ _ => Some false) (fun _ _ => true) (fun _ _ => true)
    (fun _ p _ => negb (bool_decide (last p = Some (lit "tool")))) (fun _ _ => true)
    (fs_list demo_fs) demo_below (fun _ _ => None) demo_match.

Theorem renaming_ignored :
  let '(t, mods, r) := installFiles refusing_fs demo_dir (lit "org.demo") (lit "/opt") demo_modules false [] demo_tree in
  r = Ok tt /\ Forall (fun m => t !! (files demo_dir m ++ [lit "bin"; lit "tool"]) = None) mods.
Proof. vm_compute. split; [done|]. repeat constructor. Qed.

(** A link to a directory that the iterator gives before its neighbours has no
    directory to go to. *)
Definition link_fs : fs_env :=
  mkFs (fun _ p => p) (fun _ p => Some (bool_decide (last p = Some (lit "current")))) (fun _ _ => true) (fun _ _ => true)
    (fun _ _ _ => true) (fun _ _ => true) (fs_list demo_fs)
    (fun t p => filter (fun q => last q = Some (lit "current")) (demo_below t p) ++ filter (fun q => last q <> Some (lit "current")) (demo_below t p))
    (fun _ _ => None) demo_match.

Theorem link_without_directory :
  let t := <[demo_src ++ [lit "include"; lit "current"] := Link (lit "../lib")]> demo_tree in
  let '(_, _, r) := installFiles link_fs demo_dir (lit "org.demo") (lit "/opt") demo_modules false [] t in
  r = Err err_default.
Proof. vm_compute. reflexivity. Qed.

(** With the complete [develop] module kept, the rules of a [develop] module of
    the project move nothing: its files are in [binary] as well. *)
Theorem full_develop_doubles :
  let modules := Some [mkModule [lit "^/lib/.+\.a$"] develop] in
  let p := [lit "lib"; lit "liba.a"] in
  let '(t, _, r) := installFiles demo_fs demo_dir (lit "org.demo") (lit "/opt") modules true [] demo_tree in
  r = Ok tt /\ t !! (files demo_dir develop ++ p) = Some (File (lit "B")) /\ t !! (files demo_dir binary ++ p) = Some (File (lit "B")).
Proof. vm_compute. done. Qed.

(** Every occurrence of the directory of the output is replaced. *)
Theorem target_twice :
  target_of demo_src (files demo_dir binary) (demo_src ++ demo_src ++ [lit "x"]) =
  files demo_dir binary ++ files demo_dir binary ++ [lit "x"].
Proof. vm_compute. reflexivity. Qed.

(** *** Copies and exports *)

Definition packaged_files : path := output demo_dir ++ [binary; lit "files"].
Definition packaged_tree : tree := list_to_map (
  ((fun k => (take k packaged_files, Dir)) <$> seq 0 6) ++
  ((fun x => (packaged_files ++ x.1, x.2)) <$>
    [([lit "share"], Dir); ([lit "share"; lit "applications"], Dir);
     ([lit "share"; lit "applications"; lit "demo.desktop"], File (lit "[Desktop Entry]"));
     ([lit "share"; lit "applications"; lit "old.desktop"], Link (lit "demo.desktop"));
     ([lit "share"; lit "secret"], File (lit "S"))])).

Definition demo_entries : tree * result unit := generateEntries demo_fs demo_dir true (Ok [lit "share/applications"]) packaged_tree.
Definition demo_desktop : path := entries_dir demo_dir ++ [lit "share"; lit "applications"; lit "demo.desktop"].

Example entries_1 :
  demo_entries.2 = Ok tt /\ demo_entries.1 !! demo_desktop = Some (File (lit "[Desktop Entry]")) /\
  demo_entries.1 !! (entries_dir demo_dir ++ [lit "share"; lit "applications"; lit "old.desktop"]) = Some (Link (lit "./demo.desktop")) /\
  demo_entries.1 !! (entries_dir demo_dir ++ [lit "share"; lit "secret"]) = None.
Proof. vm_compute. done. Qed.

Lemma demo_entries_differ : demo_entries.1 !! demo_desktop <> packaged_tree !! demo_desktop.
Proof. vm_compute. discriminate. Qed.

Lemma exports_listed_witness : exists paths, Ok [lit "share/applications"] = Ok paths /\
  ((exists d, allowed demo_dir paths d /\ d `prefix_of` demo_desktop) \/
   (demo_entries.1 !! demo_desktop = Some Dir /\
    exists d, (allowed demo_dir paths d \/ d = entries_dir demo_dir ++ [lit "share"]) /\ demo_desktop `prefix_of` d)).
Proof.
  apply (exports_listed demo_fs (fun _ _ => eq_refl) demo_dir true (Ok [lit "share/applications"]) packaged_tree demo_entries.1 demo_entries.2 demo_desktop);
    [apply surjective_pairing|exact demo_entries_differ].
Defined.

Lemma demo_listed t p : NoDup (fs_list demo_fs t p) /\ forall n, n ∈ fs_list demo_fs t p <-> is_Some (t !! (p ++ [n])).
Proof.
  cbn [demo_fs fs_list]. set (l := filter _ _). split; [apply NoDup_remove_dups|]. intros n. rewrite elem_of_remove_dups, list_elem_of_bind.
  assert (Hl : forall q, q ∈ l <-> exists n, q = p ++ [n] /\ is_Some (t !! q)).
  { intros q. unfold l, demo_below. rewrite !list_elem_of_filter, list_elem_of_fmap. split.
    - intros (Hlen & [[rel ->] _] & ([p' k] & E & Hk)). rewrite length_app in Hlen.
      destruct rel as [|x [|y rel]]; [cbn in Hlen; lia| |cbn in Hlen; lia]. exists x. split; [done|].
      cbn in E. rewrite E. apply elem_of_map_to_list in Hk. by exists k.
    - intros (x & -> & [k Hk]). split_and!; [rewrite length_app; cbn; lia|by exists [x]| |].
      + intros E. rewrite <- (app_nil_r p) in E at 2. by apply app_inv_head in E.
      + exists (p ++ [x], k). by rewrite elem_of_map_to_list. }
  split.
  - intros (q & Hq & Hin). apply Hl in Hin as (x & -> & Hx). rewrite drop_app_length in Hq. by apply list_elem_of_singleton in Hq as ->.
  - intros Hn. exists (p ++ [n]). rewrite drop_app_length. split; [by left|]. apply Hl. by exists n.
Qed.

Lemma directory_copied_witness :
  dirs demo_tree demo_src /\
  exists t', copyDir demo_fs (copy_fuel demo_tree) demo_tree demo_src (files demo_dir develop) = (t', Ok tt) /\
    (forall rel, t' !! (files demo_dir develop ++ rel) = copy_node (demo_src ++ rel) <$> demo_tree !! (demo_src ++ rel)) /\
    forall q, ~ files demo_dir develop `prefix_of` q ->
      t' !! q = demo_tree !! q \/ (demo_tree !! q = None /\ t' !! q = Some Dir /\ q `prefix_of` files demo_dir develop).
Proof.
  assert (bt : build_tree demo_dir demo_tree) by (apply tree_check_ok; vm_compute; reflexivity).
  assert (Hne : develop <> lit "_build") by done. split; [exact (bt_up _ _ bt)|].
  apply (directory_copied demo_fs demo_tree demo_src (files demo_dir develop)).
  - done.
  - intros t p _ _. apply demo_listed.
  - done.
  - exact (bt_up _ _ bt).
  - exact (bt_parents _ _ bt).
  - split; intros [k E]; vm_compute in E; discriminate.
  - pose proof (inv_free demo_fs demo_dir demo_tree bt [] demo_tree (fun _ => None) None [] develop) as Hf. rewrite app_nil_r in Hf.
    apply Hf; [by apply inv_start| |done]. by apply (bt_up _ _ bt).
  - intros rel. by apply (bt_outputs _ _ bt), files_inside.
Defined.
