(* ===== verification/Builder.v ===== *)
(** * The builder ([builder/linglong_builder.cpp])

    The stages of a build around its output ([BuildOutput]): the scripts that
    run in containers, the dependencies, the commit to the local repository and
    the order of the stages; and the commands about built packages.  The
    repository is used as [PackageJobs] does; containers, downloads and packers
    answer. *)
From stdpp Require Import functions.
From S2P Require Import Prelude Strings Path Qt Types Semver Version Reference RepoConfig RepoCache.
From S2P Require Import OstreeRepo MergeModules Prune PackageTask PackageManager.
From S2P Require Import PackageJobs Sha256 LayerFile Uab PackageFiles.
From S2P Require Import BuildOutput.

#[local] Notation "x <-j m ;; k" := (bind m (fun x => k)) (at level 100, m at next level, right associativity).
#[local] Notation "m ;;j k" := (bind m (fun _ => k)) (at level 100, right associativity).

(** ** Data *)

Record Apt := mkApt { apt_buildDepends : option (list str); apt_depends : option (list str) }.

(** The fields of a project that are read; [pj_buildext]: its part [apt]. *)
Record project := mkProject {
  pj_package : BuilderProjectPackage;
  pj_kind : str;
  pj_name : str;
  pj_description : str;
  pj_env : option (list (str * str));
  pj_libs : option (list str);
  pj_base : str;
  pj_runtime : option str;
  pj_command : option (list str);
  pj_build : str;
  pj_buildext : option (option Apt);
  pj_modules : option (list BuilderProjectModules);
  pj_sources : option (list (option str));
  pj_exclude : option (list str);
  pj_include : option (list str)
}.

Record BuilderBuildOptions := mkOptions {
  fullDevelop : bool;
  skipFetchSource : bool;
  skipPullDepend : bool;
  skipRunContainer : bool;
  skipCommitOutput : bool;
  skipCheckOutput : bool;
  skipStripSymbols : bool
}.

Record ExportOption := mkExport {
  ex_iconPath : str;
  ex_loader : str;
  ex_compressor : str;
  ex_ref : str;
  ex_noExportDevelop : bool
}.

(** ** Scripts *)

Definition end_line : str := [line_end].
Definition quote : str := [ascii_of_N 34].

(** [generateEntryScript]; [helper]: the directory [LINGLONG_BUILDER_HELPER]. *)
Definition entry_script (helper : str) (skipStrip : bool) (build : str) : str :=
  lit "#!/bin/bash" ++ end_line ++ lit "set -e" ++ end_line ++ end_line ++
  lit "# This file is generated by `build` in linglong.yaml" ++ end_line ++ lit "# DO NOT EDIT IT" ++ end_line ++
  (if skipStrip then []
   else end_line ++ lit "# enable strip symbols" ++ end_line ++
        lit "export CFLAGS=" ++ quote ++ lit "-g $CFLAGS" ++ quote ++ end_line ++
        lit "export CXXFLAGS=" ++ quote ++ lit "-g $CFLAGS" ++ quote ++ end_line) ++
  build ++ end_line ++
  (if skipStrip then []
   else lit "# POST BUILD PROCESS" ++ end_line ++ helper ++ lit "/symbols-strip.sh" ++ end_line).

Definition packages_text (packages : list str) : str := packages ≫= fun p => lit " " ++ p.

(** The texts of [generateBuildDependsScript] and [generateDependsScript]. *)
Definition build_depends_script (packages : list str) : str :=
  if bool_decide (packages_text packages = []) then []
  else lit "echo 'APT::Sandbox::User " ++ quote ++ lit "root" ++ quote ++ lit ";' > /etc/apt/apt.conf.d/99linglong-builder.conf" ++ end_line ++
       lit "apt update" ++ end_line ++ lit "apt -y install" ++ packages_text packages ++ end_line.
Definition depends_script (packages : list str) : str :=
  if bool_decide (packages_text packages = []) then []
  else lit "apt -o APT::Sandbox::User=root update || echo " ++ quote ++ lit "$?" ++ quote ++ end_line ++
       lit "apt -o APT::Sandbox::User=root -y install" ++ packages_text packages ++
       lit " || echo " ++ quote ++ lit "$?" ++ quote ++ end_line.

(** The script to be written, if there is one; [packages_of] chooses the packages. *)
Definition apt_script (packages_of : Apt -> option (list str)) (text : list str -> str) (p : project) : option str :=
  match pj_buildext p with
  | Some (Some apt) =>
      let content := match packages_of apt with Some packages => text packages | None => [] end in
      if bool_decide (content = []) then None else Some content
  | _ => None
  end.

(** [written]: the outcome of the file. *)
Definition generate_script (written : str -> result unit) (script : option str) : result bool :=
  match script with
  | None => Ok false
  | Some content => written content ;;r Ok true
  end.
Definition generateBuildDependsScript (written : str -> result unit) (p : project) : result bool :=
  generate_script written (apt_script apt_buildDepends build_depends_script p).
Definition generateDependsScript (written : str -> result unit) (p : project) : result bool :=
  generate_script written (apt_script apt_depends depends_script p).

(** ** The overlays of a build ([mergeOutput])

    [mode], [size] and [rdev]: what [lstat] says. *)
Record stat := mkStat { st_mode : Z; st_size : Z; st_rdev : Z }.
Definition S_IFCHR : Z := 8192.

(** Is a file of an upper directory part of the output?  [path]: relative. *)
Definition merged (targets : list str) (st : option stat) (path : str) (filename : str) : bool :=
  if is_prefix (lit ".wh.") filename then false
  else
    match st with
    | None => false
    | Some st =>
        if (st_size st =? 0) && (st_rdev st =? 0) && (st_mode st =? S_IFCHR) then false
        else existsb (fun target => is_prefix target path) targets
    end.

(** ** The repository *)

(** What the file system answers while modules are committed. *)
Record commit_env := mkCommit {
  ce_size : result Z;
  ce_info : result unit;
  ce_yaml : result unit
}.

Section builder.
Context `{Client} `{Qt} `{StdSort} `{Json} `{Yaml} `{JsonLib} `{MetaJson}.
Variable curArch : result Architecture.
Variable ll_version : str.
Variable sha256_hex : str -> str.
Variable repoDir : str.
Variable e : job_env.
Variable fe : file_env.
Variable committing : nat -> commit_env.

Definition clearDependency (ref : str) (forceRemote fallback : bool) : J (result Reference) :=
  match fuzzy_parse ref with
  | Err c => if c =? terminated then die else ret (Err err_default)
  | Ok fuzzy =>
      res <-j on_repo (fun s => clearReference curArch s fuzzy (mkClearOpt forceRemote fallback true) (lit "binary") None) ;;
      ret (match res with Ok r => Ok r | Err _ => Err err_default end)
  end.

Definition pullDependency (ref : Reference) (module : str) : J (result unit) :=
  dir <-j repo_getLayerDir repoDir e ref module ;;
  match dir with
  | Ok _ => ret (Ok tt)
  | Err _ =>
      with_temporary (
        pull ll_version e ref module None ;;j
        gets (fun s => if bool_decide (m_state (j_task s) = Failed) then Err (m_code (j_task s)) else Ok tt))
  end.

Definition repo_merge : J (result unit) :=
  env <-j ask (je_merge e) ;;
  (fun s =>
     let '(c, dirs, r) := mergeModules sha256_hex ll_version env (rcache (j_repo s)) (j_merged s) in
     try r (mkJob (j_task s) (set_rcache c (j_repo s)) dirs (j_lock s) (j_events s) (j_time s))).

(** Both modules of a dependency. *)
Definition pull_both (ref : Reference) : J (result unit) :=
  r <-j pullDependency ref (lit "binary") ;;
  match r with
  | Err c => ret (Err c)
  | Ok _ => pullDependency ref (lit "develop")
  end.

Definition pull_dependencies (baseRef : Reference) (runtimeRef : option Reference) : J (result unit) :=
  r <-j pull_both baseRef ;;
  match r with
  | Err c => ret (Err c)
  | Ok _ => match runtimeRef with Some ref => pull_both ref | None => ret (Ok tt) end
  end.

Definition find_runtime (p : project) (forceRemote : bool) : J (result (option Reference)) :=
  match pj_runtime p with
  | None => ret (Ok None)
  | Some text =>
      r <-j clearDependency text forceRemote false ;;
      ret (r <-r r ;; Ok (Some r))
  end.

Definition buildStagePullDependency (p : project) (skip : bool) : J (result unit) :=
  baseRef <-j clearDependency (pj_base p) (negb skip) false ;;
  match baseRef with
  | Err c => ret (Err c)
  | Ok baseRef =>
      runtimeRef <-j find_runtime p (negb skip) ;;
      match runtimeRef with
      | Err c => ret (Err c)
      | Ok runtimeRef =>
          pulled <-j (if skip then ret (Ok tt) else pull_dependencies baseRef runtimeRef) ;;
          match pulled with
          | Err c => ret (Err c)
          | Ok _ => repo_merge
          end
      end
  end.

(** A base or a runtime of the tools. *)
Definition ensure_dependency (text : str) : J (result unit) :=
  r <-j clearDependency text false true ;;
  match r with
  | Err _ => ret (Err err_default)
  | Ok ref =>
      r <-j pullDependency ref (lit "binary") ;;
      ret (match r with Ok _ => Ok tt | Err _ => Err err_default end)
  end.

Definition ensureUtils (id : str) : J (result Reference) :=
  newest <-j clearDependency id true true ;;
  ref <-j (match newest with Ok r => ret (Ok r) | Err _ => clearDependency id false false end) ;;
  match ref with
  | Err _ => ret (Err err_default)
  | Ok ref =>
      pulled <-j pullDependency ref (lit "binary") ;;
      match pulled with
      | Err _ => ret (Err err_default)
      | Ok _ =>
          exists_ <-j ask (je_exists e) ;;
          dir <-j on_repo (fun s => (s, getMergedModuleDir repoDir exists_ (cfg s) (rcache s) ref true)) ;;
          match dir with
          | Err _ => ret (Err err_default)
          | Ok _ =>
              item <-j repo_getLayerItem ref (lit "binary") ;;
              match item with
              | Err _ => ret (Err err_default)
              | Ok item =>
                  base <-j ensure_dependency (pi_base (l_info item)) ;;
                  match base with
                  | Err c => ret (Err c)
                  | Ok _ =>
                      match pi_runtime (l_info item) with
                      | None => ret (Ok ref)
                      | Some text =>
                          runtime <-j ensure_dependency text ;;
                          ret (runtime ;;r Ok ref)
                      end
                  end
              end
          end
      end
  end.

(** ** The commit *)

(** [info.json] of a module. *)
Definition commit_info (p : project) (projectRef : Reference) (module : str) (size : Z) : PackageInfoV2 := {|
  pi_arch := [arch_toStdString (ref_arch projectRef)];
  pi_base := pj_base p;
  pi_channel := ref_channel projectRef;
  pi_command := pj_command p;
  pi_compatibleVersion := None;
  pi_description := Some (pj_description p);
  pi_extImpl := if bool_decide (pj_kind p = lit "extension") then Some (mkExtensionImpl (pj_env p) (pj_libs p)) else None;
  pi_extensions := None;
  pi_id := bp_id (pj_package p);
  pi_kind := pj_kind p;
  packageInfoV2Module := module;
  pi_name := pj_name p;
  pi_runtime := pj_runtime p;
  pi_schemaVersion := lit "1.0";
  pi_size := size;
  pi_uuid := None;
  pi_version := bp_version (pj_package p)
|}.

(** The old layers; what cannot be removed is only logged. *)
Fixpoint remove_old (ref : Reference) (modules : list str) : J unit :=
  match modules with
  | [] => ret tt
  | m :: modules => repo_remove ll_version e ref m ;;j remove_old ref modules
  end.

Definition commit_module (p : project) (projectRef : Reference) (module : str) : J (result unit) :=
  env <-j ask committing ;;
  match ce_size env, ce_info env, ce_yaml env with
  | Ok size, Ok _, Ok _ => importLayerDir ll_version repoDir e fe (commit_info p projectRef module (wrap_s 64 size)) None
  | Err c, _, _ => ret (Err c)
  | _, Err c, _ => ret (Err c)
  | _, _, Err c => ret (Err c)
  end.

Fixpoint commit_modules (p : project) (projectRef : Reference) (modules : list str) : J (result unit) :=
  match modules with
  | [] => ret (Ok tt)
  | m :: modules =>
      r <-j commit_module p projectRef m ;;
      match r with
      | Err c => ret (Err c)
      | Ok _ => commit_modules p projectRef modules
      end
  end.

Definition commitToLocalRepo (p : project) (projectRef : Reference) (packageModules : list str) : J (result unit) :=
  existsModules <-j gets (fun s => getModuleList (rcache (j_repo s)) projectRef) ;;
  remove_old projectRef existsModules ;;j
  r <-j commit_modules p projectRef packageModules ;;
  match r with
  | Err c => ret (Err c)
  | Ok _ => repo_merge
  end.

(** ** Exporting *)

(** The calls of the packager of bundles. *)
Inductive packager_call :=
| SetDefaultHeader
| SetDefaultLoader
| SetDefaultBox
| SetBundleCB
| SetIcon (file : str)
| Exclude (files : list str)
| Include (files : list str)
| LoadBlackList
| LoadNeededFiles
| AppendLayer (dir : str)
| SetCompressor (name : str)
| SetLoader (file : str)
| Pack (file : str) (distributedOnly : bool).

Section packing.
Variable answer : packager_call -> result unit.

(** A program that calls the packager: the calls are kept. *)
Definition PK (A : Type) : Type := J (list packager_call * result A).

Definition pk_ret {A} (r : result A) : PK A := ret ([], r).
Definition pk_bind {A B} (m : PK A) (f : A -> PK B) : PK B :=
  x <-j m ;;
  match x with
  | (calls, Err c) => ret (calls, Err c)
  | (calls, Ok a) => y <-j f a ;; ret (calls ++ fst y, snd y)
  end.
Definition pk_lift {A} (m : J (result A)) : PK A := r <-j m ;; ret ([], r).
Definition pk_call (c : packager_call) : PK unit := ret ([c], answer c).
(** A call whose result the code cannot see. *)
Definition pk_set (c : packager_call) : PK unit := ret ([c], Ok tt).
Definition pk_when (b : bool) (m : PK unit) : PK unit := if b then m else pk_ret (Ok tt).

Notation "x <-p m ;; k" := (pk_bind m (fun x => k)) (at level 100, m at next level, right associativity).
Notation "m ;;p k" := (pk_bind m (fun _ => k)) (at level 100, right associativity).

(** The layer of a reference goes into the bundle. *)
Definition append_layer (ref : Reference) : PK unit :=
  dir <-p pk_lift (repo_getLayerDir repoDir e ref (lit "binary")) ;;
  pk_call (AppendLayer dir).

Definition append_dependency (text : str) : PK unit :=
  ref <-p pk_lift (clearDependency text false false) ;;
  append_layer ref.

(** The tools: did they run, and which of their files are there. *)
Record utils_env := mkUtils { ut_run : result unit; ut_header : bool; ut_loader : bool; ut_box : bool }.

Definition use_utils (u : utils_env) (distributedOnly : bool) : PK unit :=
  found <-j ensureUtils (lit "cn.org.linyaps.builder.utils") ;;
  match found with
  | Err _ => ret ([], Ok tt)
  | Ok _ =>
      pk_when (is_ok (ut_run u) && ut_header u && ut_loader u) (pk_set SetDefaultHeader ;;p pk_set SetDefaultLoader) ;;p
      pk_when (is_ok (ut_run u) && negb distributedOnly && ut_box u) (pk_set SetDefaultBox) ;;p
      pk_set SetBundleCB
  end.

Definition currentReference (p : project) : J (result Reference) := try (fromBuilderProject curArch (pj_package p)).

Definition exported_reference (p : option project) (option_ref : str) : J (result Reference) :=
  if negb (bool_decide (option_ref = [])) then
    match fuzzy_parse option_ref with
    | Err c => if c =? terminated then die else ret (Err c)
    | Ok fuzzy => on_repo (fun s => clearReference curArch s fuzzy (mkClearOpt false false false) (lit "binary") None)
    end
  else
    match p with
    | None => ret (Err err_default)
    | Some p => currentReference p
    end.

(** The file; [current]: the absolute path of a relative one. *)
Definition uab_file (current : str -> str) (workingDir outputFile : str) (ref : Reference) : str :=
  if negb (bool_decide (outputFile = [])) then
    if is_absolute outputFile then outputFile else current outputFile
  else path_div workingDir
         (ref_id ref ++ lit "_" ++ arch_toStdString (ref_arch ref) ++ lit "_" ++ ver_toString (ref_version ref) ++ lit "_" ++ ref_channel ref ++ lit ".uab").

(** What is packed for a project: the layer of the application last. *)
Definition pack_project (p : project) (option : ExportOption) (curRef : Reference) (uabFile : str) : PK unit :=
  pk_when (negb (bool_decide (ex_iconPath option = []))) (pk_call (SetIcon (ex_iconPath option))) ;;p
  (match pj_exclude p with Some l => pk_call (Exclude l) | None => pk_ret (Ok tt) end) ;;p
  (match pj_include p with Some l => pk_call (Include l) | None => pk_ret (Ok tt) end) ;;p
  (match pj_runtime p with Some _ => pk_call LoadBlackList ;;p pk_call LoadNeededFiles | None => pk_ret (Ok tt) end) ;;p
  append_dependency (pj_base p) ;;p
  pk_when (negb (bool_decide (ex_compressor option = []))) (pk_set (SetCompressor (ex_compressor option))) ;;p
  (match pj_runtime p with Some text => append_dependency text | None => pk_ret (Ok tt) end) ;;p
  append_layer curRef ;;p
  pk_when (negb (bool_decide (ex_loader option = []))) (pk_set (SetLoader (ex_loader option))) ;;p
  pk_call (Pack uabFile false).

Definition exportUAB (p : option project) (option : ExportOption) (u : utils_env) (current : str -> str) (workingDir outputFile : str) : PK unit :=
  let distributedOnly := negb (bool_decide (ex_ref option = [])) in
  use_utils u distributedOnly ;;p
  curRef <-p pk_lift (exported_reference p (ex_ref option)) ;;
  let uabFile := uab_file current workingDir outputFile curRef in
  if distributedOnly then append_layer curRef ;;p pk_call (Pack uabFile true)
  else
    match p with
    | None => pk_ret (Err err_default)
    | Some p => pack_project p option curRef uabFile
    end.
End packing.

(** The layers that are packed into files of their own, each with its file. *)
Fixpoint export_modules (ref : Reference) (workingDir : str) (noDevelop : bool) (modules : list str) : J (list (str * str)) :=
  match modules with
  | [] => ret []
  | m :: modules =>
      if noDevelop && bool_decide (m = develop) then export_modules ref workingDir noDevelop modules
      else
        dir <-j repo_getLayerDir repoDir e ref m ;;
        rest <-j export_modules ref workingDir noDevelop modules ;;
        ret (match dir with
             | Err _ => rest
             | Ok dir =>
                 (dir, workingDir ++ lit "/" ++ ref_id ref ++ lit "_" ++ ver_toString (ref_version ref) ++ lit "_" ++
                       arch_toStdString (ref_arch ref) ++ lit "_" ++ m ++ lit ".layer") :: rest
             end)
  end.

Definition exportLayer (p : project) (option : ExportOption) (workingDir : str) : J (result (list (str * str))) :=
  ref <-j currentReference p ;;
  match ref with
  | Err c => ret (Err c)
  | Ok ref =>
      modules <-j gets (fun s => getModuleList (rcache (j_repo s)) ref) ;;
      if bool_decide (modules = []) then ret (Err err_default)
      else
        l <-j export_modules ref workingDir (ex_noExportDevelop option) modules ;;
        ret (Ok l)
  end.

(** ** Commands *)

Fixpoint reference_texts (l : list PackageInfoV2) : list str :=
  match l with
  | [] => []
  | info :: l =>
      match ref_fromPackageInfo info with
      | Ok ref => ref_toString ref :: reference_texts l
      | Err _ => reference_texts l
      end
  end.
Definition cmdListApp (c : RepoCache) : list str := unique (std_sort str_lt (reference_texts (listLocal c))).

(** [pruned]: the outcome of pruning the objects, which is only shown. *)
Fixpoint remove_refs (refs : list str) : J unit :=
  match refs with
  | [] => ret tt
  | text :: refs =>
      r <-j try (ref_parse text) ;;
      (match r with
       | Err _ => ret tt
       | Ok ref =>
           modules <-j gets (fun s => getModuleList (rcache (j_repo s)) ref) ;;
           remove_old ref modules
       end) ;;j
      remove_refs refs
  end.
Definition cmdRemoveApp (refs : list str) : J (result unit) :=
  remove_refs refs ;;j
  r <-j repo_merge ;;
  ret (Ok tt).

(** What is asked to be pushed: to the configured repository, or elsewhere. *)
Inductive push_request := PushDefault (ref : Reference) (module : str) | PushTo (name url : str) (ref : Reference) (module : str).
Definition push (p : option project) (module repoUrl repoName : str) : result push_request :=
  match p with
  | None => Err err_default
  | Some p =>
      ref <-r fromBuilderProject curArch (pj_package p) ;;
      Ok (if bool_decide (repoName = []) || bool_decide (repoUrl = []) then PushDefault ref module
          else PushTo repoName repoUrl ref module)
  end.

(** ** A build *)

(** What answers to a build: is the helper there, the internal directory, the
    download of each source, what the build container and what the installation
    of run-time packages leave behind, the configuration of the application, the
    list of exported directories, and the check of the application. *)
Record build_env := mkBuildEnv {
  be_helper : bool;
  be_internal : result unit;
  be_fetch : nat -> result unit;
  be_built : tree -> tree * result unit;
  be_depends : tree -> tree * result unit;
  be_conf : tree -> tree;
  be_config : result (list str);
  be_checked : result unit
}.

Section build.
Variable fs : fs_env.
Variable workingDir : path.
Variable b : build_env.
Variable p : project.
Variable options : BuilderBuildOptions.

Definition is_app : bool := bool_decide (pj_kind p = lit "app").

Definition installPrefix : str :=
  if is_app then lit "/opt/apps/" ++ bp_id (pj_package p) ++ lit "/files"
  else if bool_decide (pj_kind p = lit "runtime") then lit "/runtime"
  else if bool_decide (pj_kind p = lit "extension") then lit "/opt/extensions/" ++ bp_id (pj_package p)
  else [].

(** [printRepo] dereferences what it finds. *)
Definition buildStagePrepare : J (result Reference) :=
  ref <-j currentReference p ;;
  match ref with
  | Err c => ret (Err c)
  | Ok ref =>
      if is_app && bool_decide (default [] (pj_command p) = []) then ret (Err err_default)
      else if negb (be_helper b) then ret (Err err_default)
      else
        repo <-j gets (fun s => getDefaultRepo (cfg (j_repo s))) ;;
        match repo with
        | None => die
        | Some _ => ret (be_internal b ;;r Ok ref)
        end
  end.

Fixpoint fetchSources (n : nat) (sources : list (option str)) : result unit :=
  match sources with
  | [] => Ok tt
  | None :: _ => Err err_default
  | Some _ :: sources => be_fetch b n ;;r fetchSources (S n) sources
  end.
Definition buildStageFetchSource : result unit :=
  match pj_sources p with
  | Some sources => if skipFetchSource options then Ok tt else fetchSources 0 sources
  | None => Ok tt
  end.

(** The start of [buildStagePreBuild]. *)
Definition clean_output (t : tree) : tree := filter (fun x => ~ output workingDir `prefix_of` fst x) t.

Definition buildStageBuild (t : tree) : tree * result bool :=
  if skipRunContainer options then (t, Ok false)
  else
    let '(t, made) := mkpath fs (clean_output t) (buildOutput workingDir) in
    if negb made then (t, Err err_default)
    else
      let '(t, r) := be_built b t in
      (t, r ;;r Ok true).

(** The files of the commit; [generateAppConf] has no result. *)
Definition commit_files (t : tree) : tree * list str * result unit :=
  let '(t, r) := match apt_script apt_depends depends_script p with
                 | Some _ => be_depends b t
                 | None => (t, Ok tt)
                 end in
  match r with
  | Err c => (t, [], Err c)
  | Ok _ =>
      let t := if is_app then be_conf b t else t in
      match installFiles fs workingDir (bp_id (pj_package p)) installPrefix (pj_modules p) (fullDevelop options) [] t with
      | (t, mods, Err c) => (t, mods, Err c)
      | (t, mods, Ok _) =>
          let '(t, r) := generateEntries fs workingDir is_app (be_config b) t in
          (t, mods, r)
      end
  end.

Definition buildStageCommit (ref : Reference) (t : tree) : J (tree * list str * result bool) :=
  if skipCommitOutput options then ret (t, [], Ok false)
  else
    match commit_files t with
    | (t, mods, Err c) => ret (t, mods, Err c)
    | (t, mods, Ok _) =>
        r <-j commitToLocalRepo p ref mods ;;
        ret (t, mods, r ;;r Ok true)
    end.

Definition runtimeCheck : result unit :=
  if negb is_app then Ok tt else if skipCheckOutput options then Ok tt else be_checked b.

Definition build (t : tree) : J (tree * list str * result unit) :=
  ref <-j buildStagePrepare ;;
  match ref with
  | Err c => ret (t, [], Err c)
  | Ok ref =>
      match buildStageFetchSource with
      | Err c => ret (t, [], Err c)
      | Ok _ =>
          pulled <-j buildStagePullDependency p (skipPullDepend options) ;;
          match pulled with
          | Err c => ret (t, [], Err c)
          | Ok _ =>
              match buildStageBuild t with
              | (t, Err c) => ret (t, [], Err c)
              | (t, Ok false) => ret (t, [], Ok tt)
              | (t, Ok true) =>
                  committed <-j buildStageCommit ref t ;;
                  match committed with
                  | (t, mods, Err c) => ret (t, mods, Err c)
                  | (t, mods, Ok false) => ret (t, mods, Ok tt)
                  | (t, mods, Ok true) => ret (t, mods, runtimeCheck)
                  end
              end
          end
      end
  end.
End build.
End builder.

(** ** The commit *)

Section commits.
Context `{Client} `{Qt} `{StdSort} `{Json} `{Yaml} `{JsonLib} `{MetaJson}.
Variable curArch : result Architecture.
Variable ll_version : str.
Variable sha256_hex : str -> str.
Variable repoDir : str.
Variable e : job_env.
Variable fe : file_env.
Variable committing : nat -> commit_env.

(** A layer that is imported comes last. *)
Lemma import_appends info subRef s s' u : importLayerDir ll_version repoDir e fe info subRef s = (s', Some (Ok u)) ->
  exists commit, layers s' = layers s ++ [mkLayer commit None info (lit "local")].
Proof.
  unfold importLayerDir, bind, ask, reference_of, try, ret, die.
  set (env := fe_import fe (j_time s)). destruct (negb _); [done|].
  destruct (ref_fromPackageInfo info) as [ref|c]; [|by destruct (c =? terminated)].
  match goal with |- context [repo_getLayerDir_sub ?a ?b ?c ?d ?f ?g] =>
    assert (Hl : layers (repo_getLayerDir_sub a b c d f g).1 = layers s); [|destruct (repo_getLayerDir_sub a b c d f g) as [s1 [[dir|?]|]]]
  end; [|done| |done].
  { unfold repo_getLayerDir_sub, bind, ask, on_repo, try. cbn. by repeat (case_match; cbn). }
  cbn [fst] in Hl. destruct (im_commit env) as [commitID|]; [|done]. destruct (im_dir env); [|done].
  unfold handleRepositoryUpdate, on_repo, with_cache, try, ret, die. destruct (im_checkout env); [|done].
  set (item := mkLayer commitID None info (lit "local")). unfold addLayerItem.
  destruct (findMatchingItem (rcache (j_repo s1)) item); [done|].
  match goal with |- context [writeToDisk ?v ?w ?c] => pose proof (write_cases v w c) as Hw end.
  destruct (writeToDisk _ _ _) as [c' [u'|c1]]; [|by destruct (c1 =? terminated)].
  destruct Hw as [Hw _]. intros [= <- _]. exists commitID. cbn. rewrite Hw. cbn. by rewrite Hl.
Qed.

(** The layer of a module that was built. *)
Definition new_layer (p : project) (ref : Reference) (module : str) (y : RepositoryCacheLayersItem) : Prop :=
  l_repo y = lit "local" /\ l_deleted y = None /\ exists size, l_info y = commit_info p ref module size.

Abbreviation committed := (commit_modules ll_version repoDir e fe committing).

Lemma commit_module_spec p ref m s s' : commit_module ll_version repoDir e fe committing p ref m s = (s', Some (Ok tt)) ->
  exists y, layers s' = layers s ++ [y] /\ new_layer p ref m y.
Proof.
  unfold commit_module, bind, ask, ret. set (env := committing (j_time s)). set (s0 := mkJob _ _ _ _ _ _).
  destruct (ce_size env) as [size|], (ce_info env), (ce_yaml env); try done.
  intros Himp%import_appends. destruct Himp as [commit Hl]. exists (mkLayer commit None (commit_info p ref m (wrap_s 64 size)) (lit "local")).
  split; [exact Hl|]. split_and!; [done..|]. by exists (wrap_s 64 size).
Qed.

Lemma commit_modules_spec p ref mods s s' : committed p ref mods s = (s', Some (Ok tt)) ->
  exists ys, layers s' = layers s ++ ys /\ Forall2 (new_layer p ref) mods ys.
Proof.
  revert s. induction mods as [|m mods IH]; intros s; cbn [commit_modules].
  { intros [= <-]. exists []. by rewrite app_nil_r. }
  unfold bind. destruct (commit_module _ _ _ _ _ _ _ _ s) as [s1 [[[]|c]|]] eqn:E; [|done..].
  intros Hrun. apply commit_module_spec in E as (y & Hy & Hn). apply IH in Hrun as (ys & Hys & Hall).
  exists (y :: ys). split; [|by constructor]. by rewrite Hys, Hy, <- app_assoc.
Qed.

Lemma repo_remove_pruned ref m s : comparable (layers s) ->
  pruned (fun r => r = ref) (layers s) (layers (repo_remove ll_version e ref m s).1).
Proof.
  intros Hc. unfold repo_remove, repo_remove_sub, bind, ask, on_repo, with_cache. cbn.
  pose proof (remove_pruned ll_version (je_remove e (j_time s)) (cfg (j_repo s)) (rcache (j_repo s)) ref m None (fun r => r = ref) Hc eq_refl) as Hp.
  destruct (remove _ _ _ _ _ _ _) as [c r]. unfold try. destruct r as [u|x]; [|destruct (x =? terminated)]; exact Hp.
Qed.

Lemma remove_old_pruned ref mods s : comparable (layers s) ->
  pruned (fun r => r = ref) (layers s) (layers (remove_old ll_version e ref mods s).1).
Proof.
  revert s. induction mods as [|m mods IH]; intros s Hc; cbn [remove_old]; [constructor|]. unfold bind.
  pose proof (repo_remove_pruned ref m s Hc) as Hp. destruct (repo_remove _ _ _ _ s) as [s1 [a|]]; [|done].
  eapply pruned_trans; [exact Hp|]. apply IH. eapply comparable_sub; [exact Hc|]. by eapply pruned_sub.
Qed.

Lemma repo_merge_layers s : layers (repo_merge ll_version sha256_hex e s).1 = layers s.
Proof.
  unfold repo_merge, bind, ask. cbn.
  pose proof (mergeModules_layers ll_version sha256_hex (je_merge e (j_time s)) (rcache (j_repo s)) (j_merged s)) as Hm.
  destruct (mergeModules _ _ _ _ _) as [[c dirs] r]. unfold try. destruct r as [u|x]; [|destruct (x =? terminated)]; exact Hm.
Qed.

(** What a commit leaves: some of what was there, and then the new modules. *)
Lemma commit_spec p ref mods s s' : comparable (layers s) ->
  commitToLocalRepo ll_version sha256_hex repoDir e fe committing p ref mods s = (s', Some (Ok tt)) ->
  let s1 := (remove_old ll_version e ref (getModuleList (rcache (j_repo s)) ref) s).1 in
  exists ys, layers s' = layers s1 ++ ys /\ pruned (fun r => r = ref) (layers s) (layers s1) /\ Forall2 (new_layer p ref) mods ys.
Proof.
  intros Hc. unfold commitToLocalRepo. unfold bind at 1. unfold gets. unfold bind at 1.
  pose proof (remove_old_pruned ref (getModuleList (rcache (j_repo s)) ref) s Hc) as Hp.
  destruct (remove_old _ _ _ _ s) as [s1 [u|]]; [|done]. unfold bind.
  destruct (committed p ref mods s1) as [s2 [[[]|c]|]] eqn:Em; [|done..]. intros Hm. cbv zeta. cbn [fst].
  pose proof (repo_merge_layers s2) as Hl. rewrite Hm in Hl. cbn [fst] in Hl.
  apply commit_modules_spec in Em as (ys & Hys & Hn). exists ys. by rewrite Hl, Hys.
Qed.

(** *** When the old layers can be removed *)

(** A module of a package is there once, and no removal fails. *)
Definition removable_repo (s : job_state) : Prop := removable repoDir (mkPrune (rcache (j_repo s)) (fun _ => true) [] []).
Definition removals_work : Prop := forall n, re_set_ref (je_remove e n) = Ok tt /\ write_ok (re_cache (je_remove e n)) = true.

Lemma repo_remove_works ref x s d : removals_work -> removable_repo s -> getDefaultRepo (cfg (j_repo s)) = Some d ->
  x ∈ layers s -> texts_of ref x ->
  exists s' l1 l2, repo_remove ll_version e ref (packageInfoV2Module (l_info x)) s = (s', Some (Ok tt)) /\ removable_repo s' /\
    cfg (j_repo s') = cfg (j_repo s) /\ layers s = l1 ++ x :: l2 /\ layers s' = l1 ++ l2.
Proof.
  intros Hw Hrm Hd Hx Ht. set (env := je_remove e (j_time s)).
  pose (pe := mkPruneEnv (fun _ => Ok (l_info x)) (fun _ _ => env) (fun _ => false) (je_merge e 0%nat) (Ok tt)).
  assert (Hpe : works pe) by (split; [done|by intros ? ?; apply Hw..]).
  destruct (prune_module_works ll_version repoDir pe _ (cfg (j_repo s)) d ref x Hpe Hrm Hd Hx Ht)
    as (st & l1 & l2 & Hp & Hrm' & El & El').
  pose proof (getLayerItem_removable repoDir _ (cfg (j_repo s)) d ref x Hrm Hd Hx Ht) as Hg.
  unfold prune_module in Hp. rewrite Hg in Hp. cbn in Hp.
  destruct (remove ll_version env (cfg (j_repo s)) (rcache (j_repo s)) ref (packageInfoV2Module (l_info x)) None) as [c r] eqn:Er.
  injection Hp as <- ->. exists (set_repo (set_rcache c (j_repo s)) (mkJob (j_task s) (j_repo s) (j_merged s) (j_lock s) (j_events s) (S (j_time s)))), l1, l2.
  split_and!; [|destruct Hrm' as [H1' H2' H3' H4' H5' _]; by split|done|exact El|exact El'].
  unfold repo_remove, repo_remove_sub, bind, ask, on_repo, with_cache. cbn. fold env. by rewrite Er.
Qed.

Lemma remove_old_works ref mods s d : removals_work -> removable_repo s -> getDefaultRepo (cfg (j_repo s)) = Some d ->
  mods ≡ₚ (fun x => packageInfoV2Module (l_info x)) <$> List.filter (texts_ofb ref) (layers s) ->
  forall x, x ∈ layers (remove_old ll_version e ref mods s).1 -> ~ texts_of ref x.
Proof.
  intros Hw. revert s. induction mods as [|m mods IH]; intros s Hrm Hd Hp; cbn [remove_old].
  - intros x Hx Ht%texts_ofb_spec. cbn in Hx. apply Permutation_nil_l in Hp. symmetry in Hp. apply fmap_nil_inv in Hp.
    assert (Hf : x ∈ List.filter (texts_ofb ref) (layers s)) by (apply list_elem_of_In, filter_In; by rewrite <- list_elem_of_In).
    rewrite Hp in Hf. by apply elem_of_nil in Hf.
  - assert (Hm : m ∈ (fun x => packageInfoV2Module (l_info x)) <$> List.filter (texts_ofb ref) (layers s)) by (rewrite <- Hp; left).
    apply list_elem_of_fmap in Hm as (x & -> & Hx). apply list_elem_of_In, filter_In in Hx as [Hx Htb]. apply list_elem_of_In in Hx.
    destruct (repo_remove_works ref x s d Hw Hrm Hd Hx (proj1 (texts_ofb_spec ref x) Htb)) as (s1 & l1 & l2 & Er & Hrm1 & Ec & El & El').
    unfold bind. rewrite Er. apply IH; [done|by rewrite Ec|]. rewrite El in Hp. rewrite El'. rewrite List.filter_app in *.
    cbn [List.filter] in Hp. rewrite Htb in Hp. rewrite fmap_app, fmap_cons, <- Permutation_middle in Hp.
    apply Permutation_cons_inv in Hp. by rewrite fmap_app.
Qed.

(** The version of a project is one that compares and that prints as it is written. *)
Definition plain_version (p : project) (ref : Reference) : Prop :=
  parsed63 (ref_version ref) /\ ver_toString (ref_version ref) = bp_version (pj_package p).

Lemma project_reference p ref : fromBuilderProject curArch (pj_package p) = Ok ref ->
  ref_id ref = bp_id (pj_package p) /\ version_parse (bp_version (pj_package p)) default_options = Ok (ref_version ref).
Proof.
  intros Hr. unfold fromBuilderProject in Hr. apply res_bind_ok in Hr as (v & Hv & Hr). apply res_bind_ok in Hr as (a & _ & Hr).
  unfold ref_create in Hr. destruct (bool_decide _); [done|]. destruct (bool_decide _); [done|]. by injection Hr as <-.
Qed.

Lemma new_layer_texts p ref m y : fromBuilderProject curArch (pj_package p) = Ok ref -> plain_version p ref -> new_layer p ref m y ->
  texts_of ref y /\ packageInfoV2Module (l_info y) = m /\ layer_version y (ref_version ref).
Proof.
  intros Hr [Hp Hv] (_ & _ & size & E). destruct (project_reference p ref Hr) as [Hi Hver].
  unfold texts_of, layer_version. rewrite E. cbn. by rewrite Hi, Hv.
Qed.

Lemma new_layers_texts p ref mods ys : fromBuilderProject curArch (pj_package p) = Ok ref -> plain_version p ref ->
  Forall2 (new_layer p ref) mods ys ->
  comparable ys /\ (fun x => packageInfoV2Module (l_info x)) <$> List.filter (texts_ofb ref) ys = mods.
Proof.
  intros Hr Hp Hn. induction Hn as [|m y mods ys Hy _ [IH1 IH2]]; [by split; [constructor|]|].
  destruct (new_layer_texts p ref m y Hr Hp Hy) as (H1' & H2' & H3').
  split; [constructor; [by eexists|done]|]. cbn [List.filter]. rewrite (proj2 (texts_ofb_spec ref y) H1'), fmap_cons, H2'. by f_equal.
Qed.

(** C23: when the old layers can be removed, the modules of the version that was
    built are, after the commit, those of the build and no others. *)
Theorem commit_replaces p ref mods s s' d : comparable (layers s) -> removals_work -> removable_repo s ->
  getDefaultRepo (cfg (j_repo s)) = Some d -> fromBuilderProject curArch (pj_package p) = Ok ref -> plain_version p ref ->
  commitToLocalRepo ll_version sha256_hex repoDir e fe committing p ref mods s = (s', Some (Ok tt)) ->
  getModuleList (rcache (j_repo s')) ref ≡ₚ mods /\
  forall x, x ∈ layers s' -> texts_of ref x -> exists m, m ∈ mods /\ new_layer p ref m x.
Proof.
  intros Hc Hw Hrm Hd Hr Hv Hrun. destruct (commit_spec p ref mods s s' Hc Hrun) as (ys & Hl & Hp & Hn).
  pose proof (remove_old_works ref _ s d Hw Hrm Hd (getModuleList_perm (rcache (j_repo s)) ref Hc)) as Hgone.
  set (s1 := (remove_old ll_version e ref (getModuleList (rcache (j_repo s)) ref) s).1) in *.
  destruct (new_layers_texts p ref mods ys Hr Hv Hn) as [Hcy Hmods].
  assert (Hc1 : comparable (layers s1)) by (eapply comparable_sub; [exact Hc|by eapply pruned_sub]).
  assert (Hc' : comparable (layers s')) by (rewrite Hl; by apply Forall_app).
  assert (Hnone : List.filter (texts_ofb ref) (layers s1) = []).
  { apply elem_of_nil_inv. intros x Hx. apply list_elem_of_In, filter_In in Hx as [Hx Ht]. apply list_elem_of_In in Hx.
    apply texts_ofb_spec in Ht. by apply Hgone in Hx. }
  split.
  - rewrite (getModuleList_perm _ ref Hc'), Hl, List.filter_app, Hnone. cbn [app]. by rewrite Hmods.
  - intros x Hx Ht. rewrite Hl in Hx. apply elem_of_app in Hx as [Hx|Hx]; [by apply Hgone in Hx|].
    apply list_elem_of_lookup in Hx as [i Hi]. destruct (Forall2_lookup_r _ _ _ _ _ Hn Hi) as (m & Hm & Hy).
    exists m. split; [by eapply list_elem_of_lookup_2|done].
Qed.

(** After a commit that succeeds every module of the package is recorded, with
    the data of the project and as a layer of the local repository; the layers of
    other versions and packages are still there, and nothing else has come. *)
Theorem commit_recorded p ref mods s s' : comparable (layers s) ->
  commitToLocalRepo ll_version sha256_hex repoDir e fe committing p ref mods s = (s', Some (Ok tt)) ->
  exists kept ys, layers s' = kept ++ ys /\ Forall2 (new_layer p ref) mods ys /\
    (forall x, x ∈ kept -> x ∈ layers s) /\ (forall x, x ∈ layers s -> ~ texts_of ref x -> x ∈ kept).
Proof.
  intros Hc Hrun. destruct (commit_spec p ref mods s s' Hc Hrun) as (ys & Hl & Hp & Hn). eexists _, ys. split_and!; [exact Hl|done| |].
  - by eapply pruned_sub.
  - intros x Hx Ht. eapply pruned_keeps; [exact Hp|done|]. by intros r ->.
Qed.
End commits.

(** ** Builds *)

Section builds.
Context `{Client} `{Qt} `{StdSort} `{Json} `{Yaml} `{JsonLib} `{MetaJson}.
Variable curArch : result Architecture.
Variable ll_version : str.
Variable sha256_hex : str -> str.
Variable repoDir : str.
Variable e : job_env.
Variable fe : file_env.
Variable committing : nat -> commit_env.

Section steps.
Variable R : Reference -> Prop.

#[local] Hint Resolve op_remove op_getLayerDir op_getLayerItem op_pull : jobs.

Lemma op_try {A} (r : result A) : op R (fun a => r = a) (try r).
Proof. unfold try. destruct r as [a|c]; [by apply op_ret|]. destruct (c =? terminated); [apply op_die|by apply op_ret]. Qed.

Lemma op_clearReference fuzzy opts :
  op R (fun _ => True) (on_repo (fun s => clearReference curArch s fuzzy opts (lit "binary") None)).
Proof.
  eapply op_any, (op_repo R (fun _ => True)). intros s _.
  pose proof (clearReference_framed curArch s fuzzy opts (lit "binary") None) as (_ & Hf & _). split; [exact Hf|]. by case_match.
Qed.
#[local] Hint Resolve op_clearReference : jobs.

Lemma op_clear text forceRemote fallback : op R (fun _ => True) (clearDependency curArch text forceRemote fallback).
Proof. unfold clearDependency. job. Qed.
#[local] Hint Resolve op_clear : jobs.

Lemma op_pull_dependency ref module : good_pulls e -> op R (fun _ => True) (pullDependency ll_version repoDir e ref module).
Proof. intros Hg. unfold pullDependency. job. apply op_temporary. job. Qed.

Lemma op_repo_merge : op R (fun _ => True) (repo_merge ll_version sha256_hex e).
Proof.
  apply op_still. intros s. rewrite repo_merge_layers. split; [done|]. by destruct (repo_merge _ _ _ _) as [? [?|]].
Qed.
#[local] Hint Resolve op_pull_dependency op_repo_merge : jobs.

Lemma op_pull_stage p skip : good_pulls e ->
  op R (fun _ => True) (buildStagePullDependency curArch ll_version sha256_hex repoDir e p skip).
Proof.
  intros Hg. unfold buildStagePullDependency.
  assert (Hboth : forall ref, op R (fun _ => True) (pull_both ll_version repoDir e ref)) by (intros ref; unfold pull_both; job).
  assert (Hall : forall base runtime, op R (fun _ => True) (pull_dependencies ll_version repoDir e base runtime))
    by (intros base runtime; unfold pull_dependencies; job).
  assert (Hrt : forall f, op R (fun _ => True) (find_runtime curArch p f)) by (intros f; unfold find_runtime; job).
  eapply op_bind; [apply op_clear|]. intros [base|c] _; [|job].
  eapply op_bind; [apply Hrt|]. intros [runtime|c] _; [|job].
  eapply op_bind; [destruct skip; [by apply (op_ret R (fun _ => True))|apply Hall]|]. intros [u|c] _; job.
Qed.

Lemma op_commit p ref mods : R ref -> fromBuilderProject curArch (pj_package p) = Ok ref -> parsed63 (ref_version ref) ->
  op R (fun _ => True) (commitToLocalRepo ll_version sha256_hex repoDir e fe committing p ref mods).
Proof.
  intros HR Hr Hv. unfold commitToLocalRepo.
  assert (Hold : forall l, op R (fun _ => True) (remove_old ll_version e ref l)).
  { induction l as [|m l IH]; cbn [remove_old]; [by apply op_ret|]. apply op_seq; [by apply op_remove|exact IH]. }
  assert (Hone : forall m, op R (fun _ => True) (commit_module ll_version repoDir e fe committing p ref m)).
  { intros m. unfold commit_module. eapply op_bind; [apply op_asked|]. intros env _.
    destruct (ce_size env), (ce_info env), (ce_yaml env); try by apply op_ret. apply op_import.
    exists (ref_version ref). split; [|done]. destruct (project_reference curArch p ref Hr) as [_ Hver]. exact Hver. }
  assert (Hmods : forall l, op R (fun _ => True) (commit_modules ll_version repoDir e fe committing p ref l)).
  { induction l as [|m l IH]; cbn [commit_modules]; [by apply op_ret|]. eapply op_bind; [apply Hone|].
    intros [u|c] _; [exact IH|by apply op_ret]. }
  eapply op_bind; [apply op_gets|]. intros l _. apply op_seq; [apply Hold|]. eapply op_bind; [apply Hmods|].
  intros [u|c] _; job.
Qed.
End steps.

Variable fs : fs_env.
Variable workingDir : path.
Variable b : build_env.
Variable p : project.
Variable options : BuilderBuildOptions.

Abbreviation run_build := (build curArch ll_version sha256_hex repoDir e fe committing fs workingDir b p options).

(** A build that gets to the commit may remove the layers of its version. *)
Definition replaces (r : Reference) : Prop :=
  fromBuilderProject curArch (pj_package p) = Ok r /\ skipRunContainer options = false /\ skipCommitOutput options = false /\
  exists t t', be_built b t = (t', Ok tt).

Lemma op_build t : good_pulls e ->
  (forall ref, fromBuilderProject curArch (pj_package p) = Ok ref -> parsed63 (ref_version ref)) ->
  op replaces (fun _ => True) (run_build t).
Proof.
  intros Hg Hv. unfold build. eapply (op_bind _ (fun r => match r with Ok ref => fromBuilderProject curArch (pj_package p) = Ok ref | Err _ => True end)).
  { unfold buildStagePrepare. eapply op_bind; [unfold currentReference; apply op_try|]. intros [ref|c] Hr; [|by apply op_ret].
    destruct (_ && _); [by apply op_ret|]. destruct (negb _); [by apply op_ret|]. eapply op_bind; [apply op_gets|].
    intros [repo|] _; [|apply op_die]. apply op_ret. by destruct (be_internal b). }
  intros [ref|c] Hr; [|by apply op_ret]. destruct (buildStageFetchSource _ _ _) as [u|c]; [|by apply op_ret].
  eapply op_bind; [by apply op_pull_stage|]. intros [u'|c] _; [|by apply op_ret].
  unfold buildStageBuild. destruct (skipRunContainer options) eqn:Es; [by apply op_ret|].
  destruct (mkpath fs _ _) as [t1 [|]]; cbn [negb]; [|by apply op_ret]. destruct (be_built b t1) as [t2 r] eqn:Eb.
  destruct r as [[]|c]; cbn [res_bind]; [|by apply op_ret]. unfold buildStageCommit. destruct (skipCommitOutput options) eqn:Ec.
  { eapply op_bind; [by apply (op_ret _ (fun _ => True))|]. intros [[t3 mods] [[|]|c]] _; by apply op_ret. }
  eapply op_bind; [|intros [[t3 mods] [[|]|c]] _; by apply op_ret].
  destruct (commit_files fs workingDir b p options t2) as [[t3 mods] [u3|c]]; [|by apply (op_ret _ (fun _ => True))].
  eapply op_bind; [apply op_commit; [by split_and!; eauto|done|by apply Hv]|]. intros r _. by apply (op_ret _ (fun _ => True)).
Qed.

(** C36: whatever fails, a build removes nothing but layers of the version it
    builds, and those only when the container has built something and the commit
    is not skipped. *)
Theorem build_keeps t s x : good_pulls e ->
  (forall ref, fromBuilderProject curArch (pj_package p) = Ok ref -> parsed63 (ref_version ref)) ->
  comparable (layers s) -> x ∈ layers s -> (forall r, replaces r -> ~ texts_of r x) -> x ∈ layers (run_build t s).1.
Proof.
  intros Hg Hv Hc Hx Hn. pose proof (op_build t Hg Hv s Hc) as Ho. destruct (run_build t s) as [s' a]. destruct Ho as [Hch _].
  by apply (changed_keeps _ _ _ _ Hch Hx).
Qed.

Lemma bind_some {A B} (m : J A) (f : A -> J B) s s' y : bind m f s = (s', Some y) ->
  exists s1 a, m s = (s1, Some a) /\ f a s1 = (s', Some y).
Proof. unfold bind. destruct (m s) as [s1 [a|]]; [by exists s1, a|done]. Qed.

Lemma installed_modules id prefix modules full packageModules t t' mods :
  installFiles fs workingDir id prefix modules full packageModules t = (t', mods, Ok tt) -> mods = packageModules ++ package_modules modules.
Proof.
  unfold installFiles. destruct (if full then _ else _) as [t1 [u|c]]; [|done]. cbv zeta.
  destruct (install_modules _ _ _ _ _) as [t2 [u2|c]]; [|done]. destruct (binary_rules _ _ _ _ _) as [lines|c]; [|done].
  destruct (install_module _ _ _ _ _ _) as [t3 r]. by intros [= _ <- _].
Qed.

Lemma commit_files_modules t t' mods : commit_files fs workingDir b p options t = (t', mods, Ok tt) ->
  mods = package_modules (pj_modules p).
Proof.
  unfold commit_files. destruct (match apt_script _ _ _ with Some _ => _ | None => _ end) as [t1 [u|c]]; [|done]. cbv zeta.
  destruct (installFiles _ _ _ _ _ _ _ _) as [[t2 mods2] [[]|c]] eqn:E; [|done]. apply installed_modules in E as ->.
  destruct (generateEntries _ _ _ _ _) as [t3 r]. by intros [= _ <- _].
Qed.

(** C22: a build that succeeds, with no stage skipped, has recorded every module of
    the package in the local repository, and the application passed its check or
    was not to be checked. *)
Theorem build_committed t s s' t' mods : good_pulls e -> comparable (layers s) ->
  skipRunContainer options = false -> skipCommitOutput options = false ->
  run_build t s = (s', Some (t', mods, Ok tt)) ->
  exists ref, fromBuilderProject curArch (pj_package p) = Ok ref /\ mods = package_modules (pj_modules p) /\
    (forall m, m ∈ mods -> exists y, y ∈ layers s' /\ new_layer p ref m y) /\
    (is_app p = true -> skipCheckOutput options = false -> be_checked b = Ok tt).
Proof.
  intros Hg Hc Hrun Hcommit. unfold build. intros Hb. apply bind_some in Hb as (s1 & [ref|c] & Hprep & Hb); [|done].
  assert (Hs1 : s1 = s /\ fromBuilderProject curArch (pj_package p) = Ok ref).
  { unfold buildStagePrepare, currentReference, try, bind, ret, die, gets in Hprep.
    destruct (fromBuilderProject curArch (pj_package p)) as [r|c]; [|by destruct (c =? terminated)].
    destruct (_ && _); [done|]. destruct (negb _); [done|]. destruct (getDefaultRepo _); [|done].
    destruct (be_internal b) as [[]|c]; cbn [res_bind] in Hprep; [by injection Hprep as <- <-|done]. }
  destruct Hs1 as [-> Hr]. destruct (buildStageFetchSource b p options) as [u|c]; [|done].
  apply bind_some in Hb as (s2 & [u2|c] & Hpull & Hb); [|done].
  pose proof (op_pull_stage (fun _ => False) p (skipPullDepend options) Hg s Hc) as Hop. rewrite Hpull in Hop. destruct Hop as [Hch _].
  assert (Hc2 : comparable (layers s2)) by (by eapply changed_comparable).
  unfold buildStageBuild in Hb. rewrite Hrun in Hb. destruct (mkpath fs _ _) as [t1 [|]]; cbn [negb] in Hb; [|done].
  destruct (be_built b t1) as [t2 [[]|c]]; cbn [res_bind] in Hb; [|done].
  apply bind_some in Hb as (s3 & [[t3 mods3] r3] & Hst & Hb). unfold buildStageCommit in Hst. rewrite Hcommit in Hst.
  destruct (commit_files fs workingDir b p options t2) as [[t4 mods4] [[]|c]] eqn:Ef; [|injection Hst as _ _ _ <-; done].
  apply commit_files_modules in Ef as ->. apply bind_some in Hst as (s4 & r4 & Hcm & Hst).
  injection Hst as <- <- <- <-. destruct r4 as [[]|c]; cbn [res_bind] in Hb; [|done].
  injection Hb as <- <- <- Hcheck. exists ref. split_and!; [done..| |].
  - apply commit_spec in Hcm as (ys & Hl & _ & Hn); [|done]. intros m Hm. apply list_elem_of_lookup in Hm as [i Hi].
    destruct (Forall2_lookup_l _ _ _ _ _ Hn Hi) as (y & Hy & Hny). exists y. split; [|done].
    rewrite Hl. apply elem_of_app. right. by eapply list_elem_of_lookup_2.
  - intros Ha Hsk. unfold runtimeCheck in Hcheck. by rewrite Ha, Hsk in Hcheck.
Qed.

(** *** Bundles *)

#[local] Notation "m ;;p k" := (pk_bind m (fun _ => k)) (at level 100, right associativity).

Section bundles.
Variable answer : packager_call -> result unit.

Lemma pk_bind_some {A B} (m : PK A) (f : A -> PK B) s s' calls y : pk_bind m f s = (s', Some (calls, Ok y)) ->
  exists s1 c1 c2 a, m s = (s1, Some (c1, Ok a)) /\ f a s1 = (s', Some (c2, Ok y)) /\ calls = c1 ++ c2.
Proof.
  unfold pk_bind. intros Hm. apply bind_some in Hm as (s1 & [c1 [a|c]] & Hm & Hf); [|done].
  apply bind_some in Hf as (s2 & [c2 r] & Hf & Hr). injection Hr as <- <- Hr. cbn in Hr. subst r. by exists s1, c1, c2, a.
Qed.

(** The layers among the calls. *)
Definition appended (calls : list packager_call) : list str :=
  omap (fun c => match c with AppendLayer dir => Some dir | _ => None end) calls.

(** A program that appends no layer and leaves the repository alone. *)
Definition quiet {A} (m : PK A) : Prop := forall s s' calls y, m s = (s', Some (calls, Ok y)) ->
  appended calls = [] /\ j_repo s' = j_repo s.

Lemma appended_app l1 l2 : appended (l1 ++ l2) = appended l1 ++ appended l2.
Proof. apply omap_app. Qed.

Lemma quiet_ret {A} (r : result A) : quiet (pk_ret r).
Proof. intros s s' calls y Hm. by injection Hm as <- <- _. Qed.
Lemma quiet_call c : match c with AppendLayer _ => False | _ => True end -> quiet (pk_call answer c).
Proof. intros Hc s s' calls y Hm. injection Hm as <- <- _. by destruct c. Qed.
Lemma quiet_set c : match c with AppendLayer _ => False | _ => True end -> quiet (pk_set c).
Proof. intros Hc s s' calls y Hm. injection Hm as <- <-. by destruct c. Qed.
Lemma quiet_when x m : quiet m -> quiet (pk_when x m).
Proof. destruct x; [done|]. intros _. apply quiet_ret. Qed.
Lemma quiet_bind {A B} (m : PK A) (f : A -> PK B) : quiet m -> (forall a, quiet (f a)) -> quiet (pk_bind m f).
Proof.
  intros Hm Hf s s' calls y Hr. apply pk_bind_some in Hr as (s1 & c1 & c2 & a & H1' & H2' & ->).
  destruct (Hm _ _ _ _ H1') as [E1 <-], (Hf a _ _ _ _ H2') as [E2 ->]. by rewrite appended_app, E1, E2.
Qed.

(** The directory of the layer of a reference, and the reference a text names. *)
Definition located (r : OSTreeRepo) (ref : Reference) (dir : str) : Prop :=
  exists layer, getLayerItem (cfg r) (rcache r) ref (lit "binary") None = Ok layer /\ dir = repoDir ++ lit "/layers/" ++ l_commit layer.
Definition named (r : OSTreeRepo) (text : str) (ref : Reference) : Prop :=
  exists fuzzy, fuzzy_parse text = Ok fuzzy /\ clearReferenceLocal curArch (rcache r) fuzzy true = Ok ref.

Lemma append_layer_spec ref s s' calls y : append_layer repoDir e answer ref s = (s', Some (calls, Ok y)) ->
  j_repo s' = j_repo s /\ exists dir, calls = [AppendLayer dir] /\ located (j_repo s) ref dir.
Proof.
  unfold append_layer. intros Hr. apply pk_bind_some in Hr as (s1 & c1 & c2 & dir & Hd & Hc & ->).
  unfold pk_lift in Hd. apply bind_some in Hd as (s2 & r & Hd & E). injection E as -> <- ->. injection Hc as <- <- _.
  unfold repo_getLayerDir, repo_getLayerDir_sub, bind, ask, on_repo, try, die, ret in Hd. cbn [j_repo] in Hd.
  destruct (getLayerItem (cfg (j_repo s)) (rcache (j_repo s)) ref (lit "binary") None) as [layer|c] eqn:El; cbn [res_bind] in Hd;
    [|destruct (c =? terminated); discriminate Hd].
  unfold getLayerDir in Hd. destruct (je_exists e (j_time s) _); [|discriminate Hd].
  injection Hd as <- <-. split; [done|]. eexists. split; [done|]. by exists layer.
Qed.

Lemma clear_local text s s' ref : clearDependency curArch text false false s = (s', Some (Ok ref)) ->
  j_repo s' = j_repo s /\ named (j_repo s) text ref.
Proof.
  unfold clearDependency. destruct (fuzzy_parse text) as [fuzzy|c] eqn:Ef; [|destruct (c =? terminated); discriminate].
  intros Hr. apply bind_some in Hr as (s1 & r & Hr & E). injection E as -> E. destruct r as [r|c]; [injection E as ->|done].
  unfold on_repo, clearReference in Hr. cbn [forceRemote fallbackToRemote semanticMatching negb orb] in Hr.
  destruct (clearReferenceLocal curArch (rcache (j_repo s)) fuzzy true) as [r|c] eqn:El; [|unfold try in Hr; destruct (c =? terminated); discriminate Hr].
  injection Hr as <- ->. split; [by destruct s|]. by exists fuzzy.
Qed.

Lemma append_dependency_spec text s s' calls y : append_dependency curArch repoDir e answer text s = (s', Some (calls, Ok y)) ->
  j_repo s' = j_repo s /\ exists ref dir, calls = [AppendLayer dir] /\ named (j_repo s) text ref /\ located (j_repo s) ref dir.
Proof.
  unfold append_dependency. intros Hr. apply pk_bind_some in Hr as (s1 & c1 & c2 & ref & Hd & Hc & ->).
  unfold pk_lift in Hd. apply bind_some in Hd as (s2 & r & Hd & E). injection E as -> <- ->. apply clear_local in Hd as [E Hn].
  apply append_layer_spec in Hc as (E' & dir & -> & Hl). rewrite E in Hl. split; [congruence|]. by exists ref, dir.
Qed.
Lemma use_utils_spec u d s s' calls y :
  use_utils curArch ll_version repoDir e u d s = (s', Some (calls, Ok y)) -> appended calls = [].
Proof.
  unfold use_utils. intros Hr. apply bind_some in Hr as (s1 & [ref|c] & _ & Hr); [|by injection Hr as _ <- _].
  revert Hr. apply quiet_bind; [|intros _; apply quiet_bind; [|intros _]].
  - apply quiet_when, quiet_bind; [|intros _]; by apply quiet_set.
  - by apply quiet_when, quiet_set.
  - by apply quiet_set.
Qed.

(** What is packed for a project, in order. *)
Definition packed (r : OSTreeRepo) (pr : project) (curRef : Reference) (dirs : list str) : Prop :=
  exists base baseDir appDir, named r (pj_base pr) base /\ located r base baseDir /\ located r curRef appDir /\
  match pj_runtime pr with
  | None => dirs = [baseDir; appDir]
  | Some text => exists runtime runtimeDir, named r text runtime /\ located r runtime runtimeDir /\ dirs = [baseDir; runtimeDir; appDir]
  end.

Lemma quiet_step {A B} (m : PK A) (f : A -> PK B) s s' calls y : quiet m -> pk_bind m f s = (s', Some (calls, Ok y)) ->
  exists s1 c1 c2 a, j_repo s1 = j_repo s /\ f a s1 = (s', Some (c2, Ok y)) /\ calls = c1 ++ c2 /\ appended c1 = [].
Proof.
  intros Hq Hr. apply pk_bind_some in Hr as (s1 & c1 & c2 & a & Hm & Hf & ->). destruct (Hq _ _ _ _ Hm) as [E1 E2].
  by exists s1, c1, c2, a.
Qed.

Lemma last_app_some {A} (l k : list A) x : last k = Some x -> last (l ++ k) = Some x.
Proof. intros E. by rewrite last_app, E. Qed.

(** From the runtime on. *)
Lemma pack_end pr option curRef file s s' calls :
  ((match pj_runtime pr with Some text => append_dependency curArch repoDir e answer text | None => pk_ret (Ok tt) end) ;;p
   append_layer repoDir e answer curRef ;;p
   pk_when (negb (bool_decide (ex_loader option = []))) (pk_set (SetLoader (ex_loader option))) ;;p
   pk_call answer (Pack file false)) s = (s', Some (calls, Ok tt)) ->
  j_repo s' = j_repo s /\ last calls = Some (Pack file false) /\
  exists appDir, located (j_repo s) curRef appDir /\
    match pj_runtime pr with
    | None => appended calls = [appDir]
    | Some text => exists runtime runtimeDir, named (j_repo s) text runtime /\ located (j_repo s) runtime runtimeDir /\
        appended calls = [runtimeDir; appDir]
    end.
Proof.
  intros Hr. apply pk_bind_some in Hr as (s1 & c1 & c2 & [] & Hrt & Hr & ->).
  apply pk_bind_some in Hr as (s2 & c3 & c4 & [] & Ha & Hr & ->). apply append_layer_spec in Ha as (E2 & appDir & -> & Hl).
  apply quiet_step in Hr as (s3 & c5 & c6 & [] & E3 & Hr & -> & Hc5); [|by apply quiet_when, quiet_set].
  injection Hr as <- <- _.
  assert (Hlast : last (c1 ++ [AppendLayer appDir] ++ c5 ++ [Pack file false]) = Some (Pack file false)) by (do 3 apply last_app_some; done).
  destruct (pj_runtime pr) as [text|].
  - apply append_dependency_spec in Hrt as (E1 & rt & dir & -> & Hn & Hd). rewrite E1 in *. split_and!; [congruence|done|].
    exists appDir. split; [done|]. exists rt, dir. split_and!; [done..|]. rewrite !appended_app, Hc5. done.
  - injection Hrt as <- <-. split_and!; [congruence|done|]. exists appDir. split; [done|]. rewrite !appended_app, Hc5. done.
Qed.

Lemma pack_project_spec pr option curRef file s s' calls :
  pack_project curArch repoDir e answer pr option curRef file s = (s', Some (calls, Ok tt)) ->
  last calls = Some (Pack file false) /\ packed (j_repo s') pr curRef (appended calls).
Proof.
  unfold pack_project. intros Hr.
  apply quiet_step in Hr as (s1 & c1 & k1 & [] & E1 & Hr & -> & A1); [|by apply quiet_when, quiet_call].
  apply quiet_step in Hr as (s2 & c2 & k2 & [] & E2 & Hr & -> & A2); [|by destruct (pj_exclude pr); [apply quiet_call|apply quiet_ret]].
  apply quiet_step in Hr as (s3 & c3 & k3 & [] & E3 & Hr & -> & A3); [|by destruct (pj_include pr); [apply quiet_call|apply quiet_ret]].
  apply quiet_step in Hr as (s4 & c4 & k4 & [] & E4 & Hr & -> & A4);
    [|destruct (pj_runtime pr); [by apply quiet_bind; [|intros _]; apply quiet_call|apply quiet_ret]].
  apply pk_bind_some in Hr as (s5 & c5 & k5 & [] & Hb & Hr & ->).
  apply append_dependency_spec in Hb as (E5 & base & baseDir & -> & Hn & Hl).
  apply quiet_step in Hr as (s6 & c6 & k6 & [] & E6 & Hr & -> & A6); [|by apply quiet_when, quiet_set].
  apply pack_end in Hr as (E7 & Hlast & appDir & Ha & Hdirs). split; [by do 6 apply last_app_some|].
  rewrite !appended_app, A1, A2, A3, A4, A6. cbn [app]. change (appended [AppendLayer baseDir]) with [baseDir]. cbn [app].
  rewrite E6, E5 in *. rewrite <- E7 in *. exists base, baseDir, appDir. split_and!; [done..|].
  destruct (pj_runtime pr) as [text|]; [|by rewrite Hdirs]. destruct Hdirs as (rt & dir & Hn' & Hl' & ->). by exists rt, dir.
Qed.

(** C35: a bundle of a project holds the layer of the base, then that of the
    runtime if there is one, and the layer of the application comes last; they
    are the ones the names stand for in the repository, and packing is the last
    call. *)
Theorem bundle_layers pr option u current dir outputFile s s' calls : ex_ref option = [] ->
  exportUAB curArch ll_version repoDir e answer pr option u current dir outputFile s = (s', Some (calls, Ok tt)) ->
  exists pr' curRef file, pr = Some pr' /\ fromBuilderProject curArch (pj_package pr') = Ok curRef /\
    last calls = Some (Pack file false) /\ packed (j_repo s') pr' curRef (appended calls).
Proof.
  intros Hx. unfold exportUAB, exported_reference. rewrite Hx. cbn [negb bool_decide]. intros Hr.
  apply pk_bind_some in Hr as (s1 & c1 & c2 & [] & Hu & Hr & ->). apply use_utils_spec in Hu.
  apply pk_bind_some in Hr as (s2 & c3 & c4 & curRef & Hc & Hr & ->).
  unfold pk_lift in Hc. apply bind_some in Hc as (s3 & r & Hc & E). injection E as -> <- ->.
  destruct pr as [pr|]; [|discriminate Hc]. apply pack_project_spec in Hr as [Hlast Hp].
  eexists pr, curRef, _. split_and!; [done| |by apply last_app_some; exact Hlast|by rewrite !appended_app, Hu].
  unfold currentReference, try in Hc. destruct (fromBuilderProject curArch (pj_package pr)) as [r|c]; [|destruct (c =? terminated); discriminate Hc].
  by injection Hc as _ ->.
Qed.
End bundles.
End builds.

(** ** Examples *)

#[local] Existing Instance qt_model.
#[local] Existing Instance std_sort_model.
#[local] Existing Instance json_model.
#[local] Existing Instance client_model.
#[local] Existing Instance yaml_model.
#[local] Existing Instance json_lib_model.
#[local] Existing Instance meta_json_model.

Definition demo_project : project := {|
  pj_package := mkBuilderPackage None None (lit "org.deepin.demo") (lit "1.0.0.1");
  pj_kind := lit "app"; pj_name := lit "demo"; pj_description := lit "a demo"; pj_env := None; pj_libs := None;
  pj_base := the_base; pj_runtime := None; pj_command := Some [lit "demo"]; pj_build := lit "make";
  pj_buildext := None; pj_modules := demo_modules; pj_sources := Some [Some (lit "https://a/b")]; pj_exclude := None; pj_include := None |}.

Definition demo_builder_env : job_env := demo_env (new_info the_base) (Ok tt).
Definition demo_committing : nat -> commit_env := fun _ => mkCommit (Ok 100) (Ok tt) (Ok tt).
Definition demo_build : build_env :=
  mkBuildEnv true (Ok tt) (fun _ => Ok tt) (fun _ => (demo_tree, Ok tt)) (fun t => (t, Ok tt)) (fun t => t)
    (Ok [lit "share/applications"]) (Ok tt).
Definition demo_options : BuilderBuildOptions := mkOptions false false true false false false false.

Definition demo_built : job_state * option (tree * list str * result unit) :=
  build (Ok X86_64) (lit "1.9") example_hash (lit "/r") demo_builder_env (demo_files (new_info the_base)) demo_committing
    demo_fs demo_dir demo_build demo_project demo_options demo_tree demo_job.

Example build_1 :
  match demo_built with
  | (s, Some (t, mods, r)) =>
      (mods, r) = ([lit "tools"; lit "binary"; lit "develop"], Ok tt) /\
      (fun l => packageInfoV2Module (l_info l)) <$> demo_layers s = [lit "binary"; lit "tools"; lit "binary"; lit "develop"]
  | _ => False
  end.
Proof. vm_compute. split; reflexivity. Qed.

Lemma demo_project_ref : fromBuilderProject (Ok X86_64) (pj_package demo_project) = Ok PackageManager.demo_ref.
Proof. vm_compute. reflexivity. Qed.

Lemma demo_comparable : comparable (layers demo_job).
Proof. exact (sound_comparable demo_repo demo_sound). Qed.

Lemma demo_plain_version : plain_version demo_project PackageManager.demo_ref.
Proof. split; [by apply v1_example_parsed|]. vm_compute. reflexivity. Qed.

Lemma demo_removable : removable_repo (lit "/r") demo_job.
Proof.
  split; [exact demo_comparable| | | | |done].
  - apply NoDup_ListNoDup. cbn. repeat (constructor; [vm_compute; naive_solver|]). constructor.
  - cbn. intros x y Hx Hy _ Hr. rewrite !elem_of_cons in Hy. destruct Hy as [->|[->|Hy%not_elem_of_nil]]; done.
  - cbn. intros y Hy. rewrite !elem_of_cons in Hy. destruct Hy as [->|[->|Hy%not_elem_of_nil]]; done.
  - apply NoDup_ListNoDup. cbn. repeat (constructor; [vm_compute; naive_solver|]). constructor.
Qed.

(** The commit of two modules. *)
Definition demo_after : job_state :=
  (commitToLocalRepo (lit "1.9") example_hash (lit "/r") demo_builder_env (demo_files (new_info the_base)) demo_committing
     demo_project PackageManager.demo_ref [lit "tools"; lit "binary"] demo_job).1.

Lemma demo_committing_ok :
  commitToLocalRepo (lit "1.9") example_hash (lit "/r") demo_builder_env (demo_files (new_info the_base)) demo_committing
    demo_project PackageManager.demo_ref [lit "tools"; lit "binary"] demo_job = (demo_after, Some (Ok tt)).
Proof. vm_compute. reflexivity. Qed.

Lemma demo_removals : removals_work demo_builder_env.
Proof. intros n. split; vm_compute; reflexivity. Qed.

Lemma demo_default : getDefaultRepo (cfg (j_repo demo_job)) = Some stable_repo.
Proof. vm_compute. reflexivity. Qed.

(** The old layer of the version is replaced by two. *)
Lemma commit_replaces_witness :
  comparable (layers demo_job) /\
  getModuleList (rcache (j_repo demo_after)) PackageManager.demo_ref ≡ₚ [lit "tools"; lit "binary"].
Proof.
  split; [exact demo_comparable|].
  exact (proj1 (commit_replaces (Ok X86_64) (lit "1.9") example_hash (lit "/r") demo_builder_env (demo_files (new_info the_base))
    demo_committing demo_project PackageManager.demo_ref [lit "tools"; lit "binary"] demo_job demo_after stable_repo demo_comparable
    demo_removals demo_removable demo_default demo_project_ref demo_plain_version demo_committing_ok)).
Defined.

Lemma commit_recorded_witness :
  comparable (layers demo_job) /\
  exists kept ys, layers demo_after = kept ++ ys /\
    Forall2 (new_layer demo_project PackageManager.demo_ref) [lit "tools"; lit "binary"] ys.
Proof.
  split; [exact demo_comparable|].
  destruct (commit_recorded (lit "1.9") example_hash (lit "/r") demo_builder_env (demo_files (new_info the_base))
    demo_committing demo_project PackageManager.demo_ref [lit "tools"; lit "binary"] demo_job demo_after demo_comparable demo_committing_ok)
    as (kept & ys & Hl & Hn & _).
  exists kept, ys. exact (conj Hl Hn).
Defined.

Lemma demo_parsed ref : fromBuilderProject (Ok X86_64) (pj_package demo_project) = Ok ref -> parsed63 (ref_version ref).
Proof. rewrite demo_project_ref. intros [= <-]. by apply v1_example_parsed. Qed.

Lemma build_keeps_witness :
  comparable (layers demo_job) /\ base_layer ∈ demo_layers demo_built.1.
Proof.
  split; [exact demo_comparable|].
  apply (build_keeps (Ok X86_64) (lit "1.9") example_hash (lit "/r") demo_builder_env (demo_files (new_info the_base)) demo_committing
    demo_fs demo_dir demo_build demo_project demo_options demo_tree demo_job base_layer (demo_good_pulls (Ok tt)) demo_parsed
    demo_comparable (list_elem_of_further _ _ _ (list_elem_of_here _ _))).
  intros r [Hr _]. rewrite demo_project_ref in Hr. injection Hr as <-. intros [E _]. vm_compute in E. discriminate E.
Defined.

Lemma demo_built_ok : is_Some demo_built.2 /\ forall r, demo_built.2 = Some r -> r.2 = Ok tt /\ r.1.2 = [lit "tools"; lit "binary"; lit "develop"].
Proof.
  pose proof build_1 as Hb. destruct demo_built as [s [[[t mods] r]|]]; [|done]. destruct Hb as [[= -> ->] _].
  split; [by eexists|]. by intros r' [= <-].
Qed.

Lemma build_committed_witness :
  comparable (layers demo_job) /\ exists y, y ∈ demo_layers demo_built.1 /\ new_layer demo_project PackageManager.demo_ref (lit "tools") y.
Proof.
  split; [exact demo_comparable|]. destruct demo_built_ok as [[r Hr] Hok]. destruct (Hok r Hr) as [Hr2 Hm]. destruct r as [[t mods] res].
  cbn [fst snd] in Hr2, Hm. subst res mods.
  assert (E : demo_built = (demo_built.1, Some (t, [lit "tools"; lit "binary"; lit "develop"], Ok tt)))
    by (rewrite <- Hr; by destruct demo_built).
  destruct (build_committed (Ok X86_64) (lit "1.9") example_hash (lit "/r") demo_builder_env (demo_files (new_info the_base)) demo_committing
    demo_fs demo_dir demo_build demo_project demo_options demo_tree demo_job _ t _ (demo_good_pulls (Ok tt)) demo_comparable eq_refl eq_refl E)
    as (ref & Href & _ & Hall & _).
  rewrite demo_project_ref in Href. injection Href as <-. exact (Hall (lit "tools") (list_elem_of_here _ _)).
Defined.

Definition demo_export : ExportOption := mkExport [] [] (lit "lz4") [] false.
Definition demo_bundle : job_state * option (list packager_call * result unit) :=
  exportUAB (Ok X86_64) (lit "1.9") (lit "/r") demo_builder_env (fun _ => Ok tt) (Some demo_project) demo_export
    (mkUtils (Ok tt) true true true) (fun f => f) (lit "/work") (lit "/out/demo.uab") demo_job.

Definition demo_calls : list packager_call :=
  [AppendLayer (lit "/r/layers/c2"); SetCompressor (lit "lz4"); AppendLayer (lit "/r/layers/c1"); Pack (lit "/out/demo.uab") false].

Lemma demo_bundles :
  exportUAB (Ok X86_64) (lit "1.9") (lit "/r") demo_builder_env (fun _ => Ok tt) (Some demo_project) demo_export
    (mkUtils (Ok tt) true true true) (fun f => f) (lit "/work") (lit "/out/demo.uab") demo_job =
  (demo_bundle.1, Some (demo_calls, Ok tt)).
Proof. vm_compute. reflexivity. Qed.

Lemma bundle_layers_witness :
  ex_ref demo_export = [] /\
  packed (Ok X86_64) (lit "/r") (j_repo demo_bundle.1) demo_project PackageManager.demo_ref [lit "/r/layers/c2"; lit "/r/layers/c1"].
Proof.
  split; [reflexivity|].
  destruct (bundle_layers (Ok X86_64) (lit "1.9") (lit "/r") demo_builder_env (fun _ => Ok tt) (Some demo_project) demo_export
    (mkUtils (Ok tt) true true true) (fun f => f) (lit "/work") (lit "/out/demo.uab") demo_job _ demo_calls eq_refl demo_bundles)
    as (pr & ref & file & E & Hr & _ & Hp).
  injection E as <-. rewrite demo_project_ref in Hr. injection Hr as <-. exact Hp.
Defined.
