(* ===== verification/CliCommands.v ===== *)
(** * The command line: packages and repositories ([cli/cli.cpp])

    What the commands of [ll-cli] that do not run anything make of their
    arguments and of the repository: the modules a language environment asks
    for, the requests to the daemon, lists, searches, the contents of a package
    and the configuration of repositories.  D-Bus carries a request to
    [PackageManager] or [PackageFiles] as it is; printing is left out, and a
    command is the value it prints or the code it exits with. *)
From stdpp Require Import functions.
From S2P Require Import Prelude Strings Qt Types Semver Version Reference RepoConfig RepoCache.
From S2P Require Import OstreeRepo Prune PackageManager RunContext LayerFile PackageFiles.

(** ** The modules of the languages in use *)

Definition lower (c : ascii) : bool := let n := N_of_ascii c in (97 <=? n)%N && (n <=? 122)%N.

(** What follows the language or the territory: nothing, a codeset, a modifier. *)
Definition lang_end (s : str) : bool :=
  match s with [] => true | c :: _ => bool_decide (c = "."%char) || bool_decide (c = "@"%char) end.

Definition getModuleFromLanguageEnv (lang : str) : list str :=
  if (length lang <? 2)%nat then []
  else if negb (forallb lower (take 2 lang)) then []
  else
    let modules := [lit "lang_" ++ take 2 lang] in
    if lang_end (drop 2 lang) then modules
    else if negb (bool_decide (head (drop 2 lang) = Some "_"%char)) then []
    else if (length lang <? 5)%nat then []
    else
      let modules := modules ++ [lit "lang_" ++ take 5 lang] in
      if lang_end (drop 5 lang) then modules else [].

Definition lang_envs : list str :=
  [lit "LANG"; lit "LC_ADDRESS"; lit "LC_ALL"; lit "LC_IDENTIFICATION"; lit "LC_MEASUREMENT"; lit "LC_MESSAGES";
   lit "LC_MONETARY"; lit "LC_NAME"; lit "LC_NUMERIC"; lit "LC_PAPER"; lit "LC_TELEPHONE"; lit "LC_TIME"].

(** ** Arguments *)

Record InstallOptions := mkInstallOptions {
  in_appid : str;
  in_module : str;
  in_repo : option str;
  in_force : bool;
  in_confirm : bool
}.

Record SearchOptions := mkSearchOptions {
  se_appid : str;
  se_type : str;
  se_repo : option str;
  se_showDevel : bool;
  se_showAllVersion : bool
}.

Record RepoOptions := mkRepoOptions {
  ro_name : str;
  ro_url : str;
  ro_alias : option str;
  ro_priority : Z
}.

Record UpgradeListResult := mkUpgrade {
  ul_id : str;
  ul_newVersion : str;
  ul_oldVersion : str
}.

(** ** Old command lines ([apps/ll-cli/src/main.cpp]) *)

(** [std::find] on the arguments. *)
Fixpoint find_arg (x : str) (l : list str) : option nat :=
  match l with
  | [] => None
  | y :: rest => if bool_decide (y = x) then Some O else S <$> find_arg x rest
  end.

(** [args] are the arguments, [wordexp] splits a text as a shell would; the
    result is reversed, as the parser takes it. *)
Definition transformOldExec (wordexp : str -> option (list str)) (args : list str) : list str :=
  let res := reverse args in
  match find_arg (lit "run") args, find_arg (lit "--exec") args with
  | Some _, Some exec =>
      if negb (length args =? exec + 2)%nat then reverse (<[exec := lit "--"]> args)
      else
        match wordexp (default [] (args !! S exec)) with
        | None => res
        | Some words => reverse words ++ lit "--" :: drop 2 res
        end
  | _, _ => res
  end.

(** ** Ordered maps and lists *)

(** [std::map] as the list of its pairs in the order of the keys: [map_set]
    assigns, or emplaces where the key is new. *)
Fixpoint map_set {A} (key : str) (value : A) (l : list (str * A)) : list (str * A) :=
  match l with
  | [] => [(key, value)]
  | (k, v) :: rest =>
      if bool_decide (k = key) then (key, value) :: rest
      else if str_lt key k then (key, value) :: (k, v) :: rest
      else (k, v) :: map_set key value rest
  end.
Definition map_get {A} (key : str) (l : list (str * A)) : option A :=
  snd <$> List.find (fun p => bool_decide (fst p = key)) l.

Fixpoint on_first {A} (p : A -> bool) (f : A -> A) (l : list A) : list A :=
  match l with
  | [] => []
  | x :: rest => if p x then f x :: rest else x :: on_first p f rest
  end.
Fixpoint erase_first {A} (p : A -> bool) (l : list A) : list A :=
  match l with
  | [] => []
  | x :: rest => if p x then rest else x :: erase_first p rest
  end.

(** ** Filters of a search *)

Definition packages_by_repo : Type := list (str * list PackageInfoV2).

Definition filterPackageInfosByType (list : packages_by_repo) (type : str) : packages_by_repo :=
  if bool_decide (type = lit "all") then list
  else
    omap (fun '(key, packages) =>
      let filteredPackages := List.filter (fun pkg => bool_decide (pi_kind pkg = type)) packages in
      if bool_decide (filteredPackages = []) then None else Some (key, filteredPackages)) list.

Definition filterDisplayByType (list : list PackageInfoV2) (type : str) : Datatypes.list PackageInfoV2 :=
  if bool_decide (type = lit "all") then list
  else List.filter (fun pkg => bool_decide (pi_kind pkg = type)) list.

Section commands.
Context `{Client} `{Qt} `{StdSort} `{Json} `{Yaml}.
Variable curArch : result Architecture.

Definition package_key (pkgRepo : str) (pkgInfo : PackageInfoV2) : str :=
  pkgRepo ++ lit "-" ++ pi_id pkgInfo ++ lit "-" ++ packageInfoV2Module pkgInfo.

(** One round of the loop over the packages of a repository. *)
Definition keep_newest (pkgRepo : str) (temp : list (str * PackageInfoV2)) (pkgInfo : PackageInfoV2) : list (str * PackageInfoV2) :=
  let key := package_key pkgRepo pkgInfo in
  match map_get key temp with
  | None => map_set key pkgInfo temp
  | Some old =>
      match version_parse (pi_version old) default_options, version_parse (pi_version pkgInfo) default_options with
      | Ok oldVersion, Ok newVersion => if ver_lt oldVersion newVersion then map_set key pkgInfo temp else temp
      | _, _ => temp
      end
  end.

Definition filterPackageInfosByVersion (list : packages_by_repo) : packages_by_repo :=
  (fun '(pkgRepo, packages) => (pkgRepo, snd <$> fold_left (keep_newest pkgRepo) packages [])) <$> list.

(** *** [search] *)

Fixpoint down_to (priority : Z) (repos : list Repo) : list str :=
  match repos with
  | [] => []
  | repo :: rest => if r_priority repo <? priority then [] else repo_alias repo :: down_to priority rest
  end.

(** Without a repository those of the highest priority are asked. *)
Definition search_request (cfg : RepoConfigV2) (options : SearchOptions) : result (list str) :=
  let repoConfig := getOrderedConfig cfg in
  match se_repo options with
  | Some repo => if existsb (has_alias repo) (c2_repos repoConfig) then Ok [repo] else Err err_default
  | None =>
      Ok (match c2_repos repoConfig with
          | [] => []
          | first :: _ => down_to (r_priority first) (c2_repos repoConfig)
          end)
  end.

Definition search_shown (options : SearchOptions) (allPackages : packages_by_repo) : packages_by_repo :=
  let shown := if se_showDevel options then allPackages
               else (fun '(key, vec) => (key, List.filter (fun pkg => negb (bool_decide (packageInfoV2Module pkg = lit "develop"))) vec)) <$> allPackages in
  let shown := if bool_decide (se_type options = []) then shown else filterPackageInfosByType shown (se_type options) in
  if se_showAllVersion options then shown else filterPackageInfosByVersion shown.

(** *** Requests *)

Definition getAutoModuleList (getenv : str -> option str) : list str :=
  let result := lit "binary" :: mjoin ((fun env => match getenv env with
                                                   | None => []
                                                   | Some lang => getModuleFromLanguageEnv lang
                                                   end) <$> lang_envs) in
  unique (std_sort str_lt result).

Definition install_request (getenv : str -> option str) (options : InstallOptions) : result InstallParameters :=
  fuzzyRef <-r fuzzy_parse (in_appid options) ;;
  Ok (mkInstall (in_force options) (in_confirm options) (fz_channel fuzzyRef) (fz_id fuzzyRef)
        (Some (if bool_decide (in_module options = []) then getAutoModuleList getenv else [in_module options]))
        (fz_version fuzzyRef) (in_repo options)).

Definition uninstall_request (appid module : str) : result PackageManager1Package :=
  fuzzyRef <-r fuzzy_parse appid ;;
  Ok (mkPkg (fz_channel fuzzyRef) (fz_id fuzzyRef) (if bool_decide (module = []) then None else Some module) (fz_version fuzzyRef)).

(** *** Upgrades *)

(** One package of [listUpgradable]: [None] is skipped. *)
Definition upgradable (s : OSTreeRepo) (arch : Architecture) (pkg : PackageInfoV2) : OSTreeRepo * option UpgradeListResult :=
  match fuzzy_create (Some (pi_channel pkg)) (pi_id pkg) None (Some arch) with
  | Err _ => (s, None)
  | Ok fuzzy =>
      match latestRemoteReference curArch s fuzzy with
      | (s, Err _) => (s, None)
      | (s, Ok newRef) =>
          match version_parse (pi_version pkg) default_options with
          | Err _ => (s, None)
          | Ok oldVersion =>
              if ver_gt (ref_version (snd newRef)) oldVersion
              then (s, Some (mkUpgrade (pi_id pkg) (ver_toString (ref_version (snd newRef))) (ver_toString oldVersion)))
              else (s, None)
          end
      end
  end.

Fixpoint upgradable_all (s : OSTreeRepo) (arch : Architecture) (pkgs : list PackageInfoV2) : OSTreeRepo * list UpgradeListResult :=
  match pkgs with
  | [] => (s, [])
  | pkg :: rest =>
      let '(s, u) := upgradable s arch pkg in
      let '(s, l) := upgradable_all s arch rest in
      (s, option_list u ++ l)
  end.

Definition listUpgradable (s : OSTreeRepo) (type : str) : OSTreeRepo * result (list UpgradeListResult) :=
  match listLocalLatest (rcache s) with
  | Err c => (s, Err c)
  | Ok pkgs =>
      let localPkgs := filterPackageInfosByType [(lit "all", pkgs)] type in
      match fuzzy_parse (lit "."), getHighestPriorityRepos (cfg s), curArch with
      | Err c, _, _ => (s, Err c)
      | Ok _, None, _ => (s, Err terminated)
      | Ok _, Some [], _ => (s, Err err_default)
      | Ok _, Some _, Err c => (s, Err c)
      | Ok _, Some _, Ok arch =>
          let '(s, l) := upgradable_all s arch (default [] (map_get (lit "all") localPkgs)) in (s, Ok l)
      end
  end.

(** The packages to name in the request. *)
Fixpoint upgrade_refs (l : list UpgradeListResult) : result (list FuzzyReference) :=
  match l with
  | [] => Ok []
  | item :: rest =>
      fuzzyRef <-r fuzzy_parse (ul_id item ++ lit "/" ++ ul_oldVersion item) ;;
      refs <-r upgrade_refs rest ;;
      Ok (fuzzyRef :: refs)
  end.

Definition package_of (fuzzyRef : FuzzyReference) : PackageManager1Package :=
  mkPkg (fz_channel fuzzyRef) (fz_id fuzzyRef) None (fz_version fuzzyRef).

(** [None]: all packages are up to date. *)
Definition upgrade_request (s : OSTreeRepo) (appid : str) : OSTreeRepo * result (option (list PackageManager1Package)) :=
  if negb (bool_decide (appid = [])) then
    match fuzzy_parse appid with
    | Err c => (s, Err c)
    | Ok fuzzyRef =>
        match find_installed curArch s fuzzyRef with
        | Err c => (s, Err c)
        | Ok localRef =>
            match getLayerItem (cfg s) (rcache s) localRef (lit "binary") None with
            | Err c => (s, Err c)
            | Ok layerItem =>
                if negb (bool_decide (pi_kind (l_info layerItem) = lit "app")) then (s, Err err_default)
                else (s, Ok (Some [package_of fuzzyRef]))
            end
        end
    end
  else
    match listUpgradable s (lit "app") with
    | (s, Err c) => (s, Err c)
    | (s, Ok list) =>
        (s, refs <-r upgrade_refs list ;; Ok (if bool_decide (refs = []) then None else Some (package_of <$> refs)))
    end.

(** *** [list], [info], [content] and [dir] *)

Definition by_id (lhs rhs : PackageInfoV2) : bool := str_lt (pi_id lhs) (pi_id rhs).

(** What is shown of a package are fields of its record and its install time. *)
Definition list_packages (s : OSTreeRepo) (type : str) : list PackageInfoV2 :=
  let list := l_info <$> listLayerItem (rcache s) in
  std_sort by_id (if bool_decide (type = []) then list else filterDisplayByType list type).

Definition list_upgrades (s : OSTreeRepo) : OSTreeRepo * result (list UpgradeListResult) :=
  let '(s, r) := listUpgradable s (lit "app") in
  (s, list <-r r ;; Ok (std_sort (fun lhs rhs => str_lt (ul_id lhs) (ul_id rhs)) list)).

Section directories.
Variable repoDir : str.
Variable dir_exists : str -> bool.

(** A layer that is installed: its directory. *)
Definition installed_dir (s : OSTreeRepo) (appid module : str) : result (Reference * str) :=
  fuzzyRef <-r fuzzy_parse appid ;;
  ref <-r (match find_installed curArch s fuzzyRef with Ok ref => Ok ref | Err c => Err (if c =? terminated then c else err_default) end) ;;
  item <-r getLayerItem (cfg s) (rcache s) ref module None ;;
  dir <-r getLayerDir repoDir dir_exists item ;;
  Ok (ref, dir).

Definition cli_dir (s : OSTreeRepo) (appid module : str) : result str :=
  r <-r installed_dir s appid (if bool_decide (module = []) then lit "binary" else module) ;; Ok (snd r).

(** The record of an installed package or of a layer file. *)
Definition cli_info `{JsonLib} (s : OSTreeRepo) (app : str) (isLayerFile : bool) (layer_info : str -> result PackageInfoV2) (file : option str)
    : result (PackageInfoV2 + str * json) :=
  if bool_decide (app = []) then Err err_default
  else if negb isLayerFile then
    r <-r installed_dir s app (lit "binary") ;;
    info <-r layer_info (snd r) ;;
    Ok (inl info)
  else
    layerFile <-r LayerFile.New file ;;
    layerInfo <-r fst (metaInfo layerFile) ;;
    Ok (inr layerInfo).

(** The loop removes an entry that does not exist and goes on behind its
    successor. *)
Fixpoint drop_missing (exists_ : str -> bool) (contents : list str) : list str :=
  match contents with
  | [] => []
  | c :: rest =>
      if exists_ c then c :: drop_missing exists_ rest
      else match rest with [] => [] | next :: rest => next :: drop_missing exists_ rest end
  end.

(** [entries]: the paths below a directory, [None] when it does not exist. *)
Definition cli_content (root : str) (s : OSTreeRepo) (appid : str) (entries : str -> option (list str)) (exists_ : str -> bool)
    : result (list str) :=
  fuzzyRef <-r fuzzy_parse appid ;;
  ref <-r (match find_installed curArch s fuzzyRef with Ok ref => Ok ref | Err c => Err (if c =? terminated then c else err_default) end) ;;
  layerItem <-r getLayerItem (cfg s) (rcache s) ref (lit "binary") None ;;
  if negb (bool_decide (pi_kind (l_info layerItem) = lit "app")) then Err err_default
  else
    layer <-r getLayerDir repoDir dir_exists layerItem ;;
    let entriesDir := layer ++ lit "/entries/share" in
    match entries entriesDir with
    | None => Err err_default
    | Some contents =>
        Ok (drop_missing exists_ ((fun path => replaced path entriesDir (root ++ lit "/entries/share")) <$> contents))
    end.

End directories.

(** *** [repo] *)

Inductive repo_command :=
| ShowRepo | ModifyRepo | AddRepo | RemoveRepo | UpdateRepo | EnableMirror | DisableMirror | SetDefault | SetPriority | OtherCommand.

(** The command exits, or it sends a configuration. *)
Inductive repo_outcome :=
| Exit (code : Z)
| Configure (config : RepoConfigV2).

Definition EINVAL : Z := 22.

Definition strip_slash (url : str) : str :=
  if bool_decide (last url = Some "/"%char) then removelast url else url.

Definition set_mirror (on : bool) (r : Repo) : Repo := mkRepo (r_alias r) (Some on) (r_name r) (r_priority r) (r_url r).
Definition set_url (url : str) (r : Repo) : Repo := mkRepo (r_alias r) (r_mirrorEnabled r) (r_name r) (r_priority r) url.
Definition with_default (alias : str) (cfg : RepoConfigV2) : RepoConfigV2 := mkRepoConfigV2 alias (c2_repos cfg) (c2_version cfg).

(** The first repository of the highest priority becomes the default; the
    maximum of no repository is undefined. *)
Definition choose_default (cfg : RepoConfigV2) : option RepoConfigV2 :=
  match getRepoMaxPriority cfg with
  | None => None
  | Some maxPriority =>
      Some (match List.find (fun repo => r_priority repo =? maxPriority) (c2_repos cfg) with
            | Some repo => with_default (repo_alias repo) cfg
            | None => cfg
            end)
  end.

Definition remove_repo (alias : str) (cfg : RepoConfigV2) : repo_outcome :=
  if bool_decide (length (c2_repos cfg) = 1%nat) then Exit (-1)
  else
    let cfg' := with_repos cfg (erase_first (has_alias alias) (c2_repos cfg)) in
    if bool_decide (c2_defaultRepo cfg' = alias) then
      match choose_default cfg' with Some c => Configure c | None => Exit terminated end
    else Configure cfg'.

(** The sum is that of signed integers: it wraps where the code overflows. *)
Definition set_default (alias : str) (cfg : RepoConfigV2) : repo_outcome :=
  if bool_decide (c2_defaultRepo cfg = alias) then Exit 0
  else
    match getRepoMaxPriority cfg with
    | None => Exit terminated
    | Some maxPriority =>
        Configure (with_repos (with_default alias cfg)
          (on_first (has_alias alias) (set_priority (i64 (maxPriority + 100))) (c2_repos cfg)))
    end.

Definition cli_repo (command : repo_command) (options : RepoOptions) (cfg : RepoConfigV2) : repo_outcome :=
  let name := ro_name options in
  let alias := default name (ro_alias options) in
  let exists_ := existsb (has_alias alias) (c2_repos cfg) in
  let change f := Configure (with_repos cfg (on_first (has_alias alias) f (c2_repos cfg))) in
  let url := strip_slash (ro_url options) in
  match command with
  | ShowRepo => Exit 0
  | ModifyRepo => Exit EINVAL
  | AddRepo =>
      if negb (is_prefix (lit "http") (ro_url options)) then Exit EINVAL
      else if bool_decide (url = []) then Exit EINVAL
      else if exists_ then Exit (-1)
      else Configure (with_repos cfg (c2_repos cfg ++ [mkRepo (ro_alias options) None name 0 url]))
  | UpdateRepo =>
      if negb (is_prefix (lit "http") (ro_url options)) then Exit EINVAL
      else if negb exists_ then Exit (-1)
      else if bool_decide (url = []) then Exit (-1)
      else change (set_url url)
  | _ =>
      if negb exists_ then Exit (-1)
      else
        match command with
        | RemoveRepo => remove_repo alias cfg
        | EnableMirror => change (set_mirror true)
        | DisableMirror => change (set_mirror false)
        | SetDefault => set_default alias cfg
        | SetPriority => change (set_priority (ro_priority options))
        | _ => Exit (-1)
        end
  end.

End commands.

(** ** Languages *)

Definition language (ll : str) : Prop := length ll = 2%nat /\ forallb lower ll = true.

(** The modules a value of the form [ll[_CC][.codeset][@modifier]] asks for. *)
Inductive asks_for : str -> str -> Prop :=
| asks_language ll rest : language ll -> lang_end rest = true -> asks_for (ll ++ rest) (lit "lang_" ++ ll)
| asks_both ll cc rest m : language ll -> length cc = 2%nat -> lang_end rest = true ->
    m = lit "lang_" ++ ll \/ m = lit "lang_" ++ ll ++ lit "_" ++ cc -> asks_for (ll ++ lit "_" ++ cc ++ rest) m.

Lemma lang_modules_spec lang m : m ∈ getModuleFromLanguageEnv lang <-> asks_for lang m.
Proof.
  unfold getModuleFromLanguageEnv. split.
  - destruct lang as [|a [|b rest]]; try (cbn; set_solver). cbn [length Nat.ltb Nat.leb take drop]. rewrite take_0, drop_0.
    destruct (forallb lower [a; b]) eqn:El; cbn [negb]; [|set_solver]. assert (Hl : language [a; b]) by done.
    destruct (lang_end rest) eqn:Ee; [intros ->%list_elem_of_singleton; by apply (asks_language [a; b])|].
    destruct rest as [|c rest]; [done|]. cbn [head]. destruct (bool_decide_reflect (Some c = Some "_"%char)) as [[= ->]|]; cbn [negb]; [|set_solver].
    destruct rest as [|d [|e rest]]; try (cbn; set_solver). cbn [length Nat.ltb Nat.leb take drop]. rewrite take_0, drop_0.
    destruct (lang_end rest) eqn:Er; [|set_solver]. intros Hm.
    apply (asks_both [a; b] [d; e]); [done|done|done|]. cbn in Hm |- *. set_solver.
  - intros [ll rest [Hl Hw] He|ll cc rest m' [Hl Hw] Hc He Hm].
    + destruct ll as [|a [|b [|]]]; try done. cbn [length app Nat.ltb Nat.leb take drop]. rewrite take_0, drop_0, Hw. cbn [negb].
      rewrite He. left.
    + destruct ll as [|a [|b [|]]]; try done. destruct cc as [|d [|e [|]]]; try done.
      cbn [length app Nat.ltb Nat.leb take drop String.list_ascii_of_string head]. rewrite !take_0, !drop_0, Hw. cbn [negb].
      replace (lang_end _) with false by done. rewrite bool_decide_true by done. cbn [negb].
      rewrite He. destruct Hm as [->| ->]; [left|right; left].
Qed.

Section modules.
Context `{StdSort}.

(** The modules a client asks for when none is named: each once, in order,
    "binary" and what the variables of the language ask for. *)
Theorem auto_modules getenv : let l := getAutoModuleList getenv in
  StronglySorted (fun a b => str_lt a b = true) l /\
  forall m, m ∈ l <-> m = lit "binary" \/ exists var lang, var ∈ lang_envs /\ getenv var = Some lang /\ asks_for lang m.
Proof.
  unfold getAutoModuleList. set (ask := fun env => match getenv env with Some _ => _ | None => _ end).
  set (l := lit "binary" :: mjoin (ask <$> lang_envs)). cbv zeta. split.
  - apply unique_sorted, std_sort_sorted, str_lt_weak.
  - intros m. rewrite unique_elem, (std_sort_perm _ _ _ (str_lt_weak _)). unfold l. rewrite elem_of_cons.
    apply or_iff_compat_l. rewrite list_elem_of_join. split.
    + intros (ms & Hm & (var & -> & Hv)%list_elem_of_fmap). unfold ask in Hm.
      destruct (getenv var) as [lang|] eqn:Eg; [|by apply elem_of_nil in Hm]. exists var, lang. by rewrite <- lang_modules_spec.
    + intros (var & lang & Hv & Eg & Hm). exists (ask var). split; [|by apply list_elem_of_fmap_2].
      unfold ask. rewrite Eg. by apply lang_modules_spec.
Qed.

End modules.

(** ** Ordered maps *)

Section ordered_map.
Context {A : Type}.

Lemma map_get_elem (k : str) (v : A) l : ordered l -> map_get k l = Some v <-> (k, v) ∈ l.
Proof.
  intros Ho. unfold map_get. split.
  - destruct (List.find _ l) as [[k' v']|] eqn:E; [|done]. intros [= <-].
    apply find_first in E as (l1 & l2 & -> & E & _). cbn in E. apply bool_decide_eq_true in E as ->. set_solver.
  - intros Hin. destruct (List.find _ l) as [[k' v']|] eqn:E.
    + apply find_first in E as (l1 & l2 & -> & E & _). cbn in E. apply bool_decide_eq_true in E as ->. cbn. f_equal.
      eapply ordered_keys; [exact Ho| |exact Hin]. set_solver.
    + apply list_elem_of_In in Hin. pose proof (List.find_none _ _ E _ Hin) as Hn. cbn in Hn. by rewrite bool_decide_true in Hn.
Qed.

Lemma map_set_elem (key : str) (value : A) l k v : ordered l ->
  (k, v) ∈ map_set key value l <-> (k = key /\ v = value) \/ (k <> key /\ (k, v) ∈ l).
Proof.
  induction 1 as [|[k0 v0] l Hl IH Hx]; cbn [map_set]; [set_solver|]. rewrite Forall_forall in Hx.
  assert (Hk : forall u, (k0, u) ∈ l -> False) by (intros u Hu; by apply Hx, str_lt_irrefl in Hu).
  case_bool_decide as E0; [subst k0; set_solver|]. destruct (str_lt key k0) eqn:El.
  - assert (Hkey : forall u, (key, u) ∈ l -> False).
    { intros u Hu. apply Hx in Hu. cbn in Hu. by apply (str_lt_irrefl key key); [eapply str_lt_trans|]. }
    rewrite !elem_of_cons. split; [|set_solver]. intros [[= -> ->]|[[= -> ->]|Hin]]; [by left|by right; auto|].
    right. split; [intros ->; by eapply Hkey|by right].
  - rewrite !elem_of_cons, IH. split; [|set_solver]. intros [[= -> ->]|Hin]; [by right; auto|set_solver].
Qed.

Lemma map_set_ordered (key : str) (value : A) l : ordered l -> ordered (map_set key value l).
Proof.
  induction 1 as [|[k0 v0] l Hl IH Hx]; cbn [map_set]; [repeat constructor|].
  case_bool_decide as E0; [subst k0; by constructor|]. destruct (str_lt key k0) eqn:El.
  - constructor; [by constructor|]. constructor; [done|]. rewrite Forall_forall in Hx |- *. intros y Hy.
    apply (str_lt_trans key k0); [done|by apply Hx].
  - constructor; [done|]. rewrite Forall_forall in Hx |- *. intros [k v] [[-> ->]|[_ Hy]]%map_set_elem; [|by apply Hx|done].
    cbn. by apply str_lt_total.
Qed.

End ordered_map.

(** ** Which version is shown *)

Section newest.
Context `{Qt}.

Abbreviation same_package repo p q := (package_key repo p = package_key repo q).

(** Of every package the shown record is the newest. *)
Definition newest_of (repo : str) (seen : list PackageInfoV2) (temp : list (str * PackageInfoV2)) : Prop :=
  ordered temp /\
  (forall k p, (k, p) ∈ temp -> k = package_key repo p /\ p ∈ seen /\
     forall q vp vq, q ∈ seen -> same_package repo q p -> info_version p vp -> info_version q vq -> ver_cmp vq vp <= 0) /\
  (forall q, q ∈ seen -> exists p, (package_key repo q, p) ∈ temp).

Lemma info_version_fun i v w : info_version i v -> info_version i w -> v = w.
Proof. intros [E _] [E' _]. congruence. Qed.

Lemma keep_newest_step repo seen temp q : (exists v, info_version q v) -> infos_comparable seen ->
  newest_of repo seen temp -> newest_of repo (seen ++ [q]) (keep_newest repo temp q).
Proof.
  intros [vq Hq] Hc (Ho & Hs & Ha). unfold infos_comparable in Hc. rewrite Forall_forall in Hc. unfold keep_newest.
  assert (Hset : (forall old vo, (package_key repo q, old) ∈ temp -> info_version old vo -> ver_cmp vo vq <= 0) ->
    newest_of repo (seen ++ [q]) (map_set (package_key repo q) q temp)).
  { intros Hold. split; [by apply map_set_ordered|]. split.
    - intros k p [[-> ->]|[Hk Hp]]%map_set_elem; [| |done].
      + split; [done|]. split; [set_solver|]. intros q' vp vq' Hq' Es Hvp Hvq'. rewrite (info_version_fun _ _ _ Hvp Hq).
        apply elem_of_app in Hq' as [Hq'| ->%list_elem_of_singleton].
        * destruct (Ha q' Hq') as (p & Hp). rewrite Es in Hp. pose proof (Hs _ _ Hp) as (Ek & Hin & Hmax).
          destruct (Hc p Hin) as (v & Hv). specialize (Hold p v Hp Hv). rewrite <- Es in Ek.
          specialize (Hmax q' v vq' Hq' Ek Hv Hvq'). eapply (tw_trans _ tw_ver); eauto.
        * rewrite (info_version_fun _ _ _ Hvq' Hq), (tw_refl _ tw_ver). done.
      + destruct (Hs k p Hp) as (Ek & Hin & Hmax). split; [done|]. split; [set_solver|].
        intros q' vp vq' [Hq'| ->%list_elem_of_singleton]%elem_of_app Es; [by apply Hmax|]. congruence.
    - intros q' [Hq'| ->%list_elem_of_singleton]%elem_of_app.
      + destruct (Ha q' Hq') as (p & Hp). destruct (decide (package_key repo q' = package_key repo q)) as [E|E].
        * exists q. apply map_set_elem; [done|]. by left.
        * exists p. apply map_set_elem; [done|]. by right.
      + exists q. apply map_set_elem; [done|]. by left. }
  destruct (map_get _ temp) as [old|] eqn:Eg.
  - apply map_get_elem in Eg; [|done]. destruct (Hs _ _ Eg) as (Ek & Hin & Hmax). destruct (Hc old Hin) as (vo & Hvo).
    pose proof Hvo as [Eo Po]. pose proof Hq as [Eq Pq]. rewrite Eo, Eq. destruct (ver_ops vo vq Po Pq) as [-> _].
    destruct (Z.eqb_spec (ver_cmp vo vq) (-1)) as [El|El].
    + apply Hset. intros old' vo' Hold' Hvo'. rewrite (ordered_keys _ _ _ _ Ho Hold' Eg) in Hvo'.
      rewrite (info_version_fun _ _ _ Hvo' Hvo). lia.
    + split; [done|]. split.
      * intros k p Hp. destruct (Hs k p Hp) as (Ek' & Hin' & Hmax'). split; [done|]. split; [set_solver|].
        intros q' vp vq' [Hq'| ->%list_elem_of_singleton]%elem_of_app Es Hvp Hvq'; [by eapply Hmax'|].
        rewrite Ek', <- Es in Hp. rewrite (ordered_keys _ _ _ _ Ho Hp Eg) in Hvp.
        rewrite (info_version_fun _ _ _ Hvp Hvo), (info_version_fun _ _ _ Hvq' Hq).
        pose proof (tw_range _ tw_ver vo vq). pose proof (tw_anti _ tw_ver vo vq). lia.
      * intros q' [Hq'| ->%list_elem_of_singleton]%elem_of_app; [by apply Ha|by exists old].
  - apply Hset. intros old vo Hold _. apply map_get_elem in Hold; [|done]. congruence.
Qed.

Lemma keep_newest_all repo packages : infos_comparable packages ->
  newest_of repo packages (fold_left (keep_newest repo) packages []).
Proof.
  intros Hc. assert (G : forall rest seen temp, infos_comparable (seen ++ rest) -> newest_of repo seen temp ->
    newest_of repo (seen ++ rest) (fold_left (keep_newest repo) rest temp)).
  { induction rest as [|q rest IH]; intros seen temp Hc' Hn; cbn [fold_left]; [by rewrite app_nil_r|].
    unfold infos_comparable in Hc'. apply Forall_app in Hc' as [Hs Hr]. apply Forall_cons in Hr as [Hq Hr].
    replace (seen ++ q :: rest) with ((seen ++ [q]) ++ rest) by by rewrite <- app_assoc.
    apply IH; [|by apply keep_newest_step]. unfold infos_comparable. rewrite !Forall_app. repeat split; [done| |done]. by constructor. }
  apply (G packages [] []); [done|]. split; [constructor|]. split; [by intros ?? ?%elem_of_nil|by intros ? ?%elem_of_nil].
Qed.

(** Of the versions of a package that a repository offers a search shows
    one, and none of the others is newer. *)
Theorem newest_shown list repo packages : (repo, packages) ∈ list -> infos_comparable packages ->
  exists shown, (repo, shown) ∈ filterPackageInfosByVersion list /\
    NoDup (package_key repo <$> shown) /\
    (forall q, q ∈ packages -> exists p, p ∈ shown /\ same_package repo q p) /\
    forall p, p ∈ shown -> p ∈ packages /\
      forall q vp vq, q ∈ packages -> same_package repo q p -> info_version p vp -> info_version q vq -> ver_cmp vq vp <= 0.
Proof.
  intros Hin Hc. destruct (keep_newest_all repo packages Hc) as (Ho & Hs & Ha).
  set (temp := fold_left (keep_newest repo) packages []) in *. exists (snd <$> temp). split_and!.
  - apply list_elem_of_fmap. by exists (repo, packages).
  - assert (E : package_key repo <$> (snd <$> temp) = fst <$> temp).
    { rewrite <- list_fmap_compose. apply list_fmap_ext. intros i [k p] Hi. cbn.
      apply list_elem_of_lookup_2, Hs in Hi as [-> _]. done. }
    rewrite E. clear -Ho. induction Ho as [|[k v] l Hl IH Hx]; [constructor|]. cbn. constructor; [|done].
    intros ([k' w] & -> & Hk)%list_elem_of_fmap. rewrite Forall_forall in Hx. by apply Hx, str_lt_irrefl in Hk.
  - intros q Hq. destruct (Ha q Hq) as (p & Hp). exists p. split; [apply list_elem_of_fmap; by exists (package_key repo q, p)|].
    by apply Hs in Hp as [? _].
  - intros p ([k p'] & -> & Hp)%list_elem_of_fmap. by apply Hs in Hp as (_ & ? & ?).
Qed.

End newest.

(** ** Repositories *)

(** Without a repository of its own a search asks those of the highest
    priority, in order. *)
Theorem search_asks cfg options repos : se_repo options = None -> getHighestPriorityRepos cfg = Some repos ->
  search_request cfg options = Ok (repo_alias <$> repos).
Proof.
  intros En. unfold search_request, getHighestPriorityRepos. rewrite En.
  pose proof (insertion_sort_sorted higher (c2_repos cfg) (higher_strict_weak _)) as Hs.
  cbn [getOrderedConfig c2_repos]. unfold stable_sort. destruct (insertion_sort higher (c2_repos cfg)) as [|first l]; [done|].
  intros E. apply (inj Some) in E. rewrite <- E. clear E repos. f_equal. set (p := r_priority first).
  assert (Hle : Forall (fun r => r_priority r <= p) (first :: l)).
  { inversion Hs as [|?? _ Hl]; subst. constructor; [unfold p; lia|]. eapply Forall_impl; [exact Hl|]. unfold higher. intros x Hx.
    apply Z.ltb_ge in Hx. done. }
  clearbody p. revert Hs Hle. generalize (first :: l). clear.
  intros all. induction all as [|r l IH]; intros Hs Hle; [done|].
  apply Forall_cons in Hle as [Hr Hle]. inversion Hs as [|?? Hs' Hl]; subst. cbn [down_to List.filter].
  destruct (Z.ltb_spec (r_priority r) p); destruct (Z.eqb_spec (r_priority r) p); try lia; cbn.
  - assert (E : List.filter (fun x => r_priority x =? p) l = []); [|by rewrite E].
    rewrite Forall_forall in Hl. clear IH Hs Hs' Hle. induction l as [|x l IHl]; [done|]. cbn.
    specialize (Hl x ltac:(left)) as Hx. unfold higher in Hx. apply Z.ltb_ge in Hx.
    destruct (Z.eqb_spec (r_priority x) p); [lia|]. apply IHl. intros y Hy. apply Hl. by right.
  - by rewrite IH.
Qed.

Section configurations.
Context `{Client} `{Qt} `{StdSort} `{Json} `{Yaml}.

(** No alias twice, and the default is one of them. *)
Definition valid_config (cfg : RepoConfigV2) : Prop :=
  NoDup (repo_alias <$> c2_repos cfg) /\ c2_defaultRepo cfg ∈ repo_alias <$> c2_repos cfg.

Lemma on_first_aliases p f l : (forall r, repo_alias (f r) = repo_alias r) -> repo_alias <$> on_first p f l = repo_alias <$> l.
Proof. intros Hf. induction l as [|r l IH]; [done|]. cbn. destruct (p r); cbn; [by rewrite Hf|by rewrite IH]. Qed.

Lemma on_first_elem (p : Repo -> bool) f l r : r ∈ on_first p f l -> r ∈ l \/ exists r0, r0 ∈ l /\ p r0 = true /\ r = f r0.
Proof.
  induction l as [|x l IH]; [by intros ?%elem_of_nil|]. cbn. destruct (p x) eqn:Ep.
  - intros [->|Hr]%elem_of_cons; [right; exists x; set_solver|left; set_solver].
  - intros [->|Hr]%elem_of_cons; [left; set_solver|]. destruct (IH Hr) as [?|(r0 & ? & ? & ?)]; [left; set_solver|right; exists r0; set_solver].
Qed.

Lemma on_first_keeps (p : Repo -> bool) f l r : r ∈ l -> p r = false -> r ∈ on_first p f l.
Proof.
  induction l as [|x l IH]; [by intros ?%elem_of_nil|]. intros [->|Hr]%elem_of_cons Hp; cbn.
  - rewrite Hp. left.
  - destruct (p x); [by right|right; by apply IH].
Qed.

Lemma erase_first_sub {A} (p : A -> bool) l : erase_first p l `sublist_of` l.
Proof. induction l as [|x l IH]; [done|]. cbn. destruct (p x); [by constructor|by constructor]. Qed.

Lemma erase_first_keeps {A} (p : A -> bool) l x : x ∈ l -> p x = false -> x ∈ erase_first p l.
Proof.
  induction l as [|y l IH]; [by intros ?%elem_of_nil|]. intros [->|Hx]%elem_of_cons Hp; cbn; [rewrite Hp; left|].
  destruct (p y); [done|right; by apply IH].
Qed.

Lemma erase_alias alias l : NoDup (repo_alias <$> l) -> alias ∉ repo_alias <$> erase_first (has_alias alias) l.
Proof.
  induction l as [|r l IH]; [set_solver|]. cbn. intros [Hr Hn]%NoDup_cons. unfold has_alias at 1. case_bool_decide as E; [by subst|].
  cbn. rewrite not_elem_of_cons. split; [congruence|by apply IH].
Qed.

Lemma aliases_exist alias cfg : existsb (has_alias alias) (c2_repos cfg) = true <-> alias ∈ repo_alias <$> c2_repos cfg.
Proof.
  rewrite existsb_exists, list_elem_of_fmap. unfold has_alias. split.
  - intros (r & Hr & E). apply bool_decide_eq_true in E. exists r. by rewrite list_elem_of_In.
  - intros (r & -> & Hr). exists r. rewrite <- list_elem_of_In. split; [done|by apply bool_decide_eq_true].
Qed.

(** What a command leaves alone: the repositories of other aliases. *)
Definition others_kept (alias : str) (cfg cfg' : RepoConfigV2) : Prop := forall r, repo_alias r <> alias ->
  r ∈ c2_repos cfg <-> r ∈ c2_repos cfg'.

Definition good_change (alias : str) (cfg cfg' : RepoConfigV2) : Prop := valid_config cfg' /\ others_kept alias cfg cfg'.

Lemma change_good alias f cfg : (forall r, repo_alias (f r) = repo_alias r) -> valid_config cfg ->
  good_change alias cfg (with_repos cfg (on_first (has_alias alias) f (c2_repos cfg))).
Proof.
  intros Hf [Hn Hd]. split.
  - unfold valid_config. cbn. by rewrite on_first_aliases.
  - intros r Hr. cbn. assert (Ha : has_alias alias r = false) by (unfold has_alias; by rewrite bool_decide_false). split.
    + intros Hin. by apply on_first_keeps.
    + intros [Hin|(r0 & _ & Hp & ->)]%on_first_elem; [done|]. unfold has_alias in Hp. apply bool_decide_eq_true in Hp.
      by rewrite Hf in Hr.
Qed.

Lemma max_priority_in cfg p : getRepoMaxPriority cfg = Some p ->
  exists r, r ∈ c2_repos cfg /\ r_priority r = p /\ forall x, x ∈ c2_repos cfg -> r_priority x <= p.
Proof.
  unfold getRepoMaxPriority. destruct (c2_repos cfg) as [|b l]; [done|]. intros [= <-].
  destruct (max_element_spec b l) as [Hin Hmax]. by exists (max_element b l).
Qed.

Lemma remove_good alias cfg cfg' : valid_config cfg -> remove_repo alias cfg = Configure cfg' ->
  good_change alias cfg cfg' /\ alias ∉ repo_alias <$> c2_repos cfg'.
Proof.
  intros [Hn Hd]. unfold remove_repo. case_bool_decide as El; [done|]. cbn [with_repos c2_defaultRepo].
  set (rest := erase_first (has_alias alias) (c2_repos cfg)).
  assert (Hnr : NoDup (repo_alias <$> rest)).
  { eapply sublist_NoDup; [exact Hn|]. apply fmap_sublist, erase_first_sub. }
  assert (Hk : others_kept alias cfg (with_repos cfg rest)).
  { intros r Hr. cbn. split; [intros Hin; apply erase_first_keeps; [done|unfold has_alias; by rewrite bool_decide_false]|].
    intros Hin. by eapply elem_of_sublist, erase_first_sub. }
  pose proof (erase_alias alias (c2_repos cfg) Hn) as Hgone. fold rest in Hgone. case_bool_decide as Ed.
  - unfold choose_default. destruct (getRepoMaxPriority _) as [p|] eqn:Ep; [|done]. intros [= <-].
    apply max_priority_in in Ep as (m & Hin & <- & _). cbn [with_repos c2_repos] in *.
    destruct (List.find _ rest) as [repo|] eqn:Ef.
    + apply find_first in Ef as (l1 & l2 & E & _). split; [|done]. split; [|done]. split; [done|]. cbn.
      rewrite E. apply list_elem_of_fmap. exists repo. set_solver.
    + exfalso. apply list_elem_of_In in Hin. pose proof (List.find_none _ _ Ef _ Hin) as Hp. cbn in Hp. by rewrite Z.eqb_refl in Hp.
  - intros [= <-]. split; [|done]. split; [|done]. split; [done|]. cbn. apply list_elem_of_fmap in Hd as (r & E & Hr).
    rewrite E. apply list_elem_of_fmap_2. apply (Hk r); [congruence|done].
Qed.

Definition command_alias (options : RepoOptions) : str := default (ro_name options) (ro_alias options).

Lemma default_good alias cfg cfg' : valid_config cfg -> alias ∈ repo_alias <$> c2_repos cfg ->
  set_default alias cfg = Configure cfg' -> good_change alias cfg cfg' /\ c2_defaultRepo cfg' = alias.
Proof.
  intros Hv Ha. unfold set_default. case_bool_decide; [done|]. destruct (getRepoMaxPriority cfg) as [p|]; [|done]. intros [= <-].
  destruct (change_good alias (set_priority (i64 (p + 100))) cfg ltac:(done) Hv) as [[Hn _] Hk]. split; [|done].
  split; [|exact Hk]. split; [exact Hn|]. cbn in *. by rewrite on_first_aliases.
Qed.

Lemma command_good command options cfg cfg' : valid_config cfg -> cli_repo command options cfg = Configure cfg' ->
  good_change (command_alias options) cfg cfg' /\
  match command with
  | RemoveRepo => command_alias options ∉ repo_alias <$> c2_repos cfg'
  | SetDefault => c2_defaultRepo cfg' = command_alias options
  | _ => command_alias options ∈ repo_alias <$> c2_repos cfg'
  end.
Proof.
  intros Hv. unfold cli_repo. fold (command_alias options). set (alias := command_alias options).
  destruct (existsb (has_alias alias) (c2_repos cfg)) eqn:Ex.
  - apply aliases_exist in Ex as Ha. cbn [negb].
    assert (Hc : forall f, (forall r, repo_alias (f r) = repo_alias r) ->
      Configure (with_repos cfg (on_first (has_alias alias) f (c2_repos cfg))) = Configure cfg' ->
      good_change alias cfg cfg' /\ alias ∈ repo_alias <$> c2_repos cfg').
    { intros f Hf [= <-]. split; [by apply change_good|]. cbn. by rewrite on_first_aliases. }
    destruct command; try done; try (by apply Hc); [| | |by apply default_good].
    + destruct (negb _); [done|]. by destruct (bool_decide _).
    + by apply remove_good.
    + destruct (negb _); [done|]. destruct (bool_decide _); [done|]. by apply Hc.
  - cbn [negb]. destruct command; try done; destruct (negb _); try done. destruct (bool_decide _); [done|]. intros [= <-].
    rewrite <- not_true_iff_false, aliases_exist in Ex. destruct Hv as [Hn Hd].
    set (new := mkRepo _ _ _ _ _). assert (En : repo_alias <$> c2_repos cfg ++ [new] = (repo_alias <$> c2_repos cfg) ++ [alias]) by by rewrite fmap_app.
    cbn [with_repos c2_repos]. rewrite En. split; [|set_solver]. split.
    + split; cbn [with_repos c2_repos c2_defaultRepo]; rewrite En; [|set_solver]. apply NoDup_app. split_and!; [done| |apply NoDup_singleton].
      intros x Hx ->%list_elem_of_singleton. done.
    + intros r Hr. cbn. rewrite elem_of_app, list_elem_of_singleton. split; [by left|]. intros [?|E]; [done|]. subst r. done.
Qed.

(** C18: when the configuration at hand has no alias twice and its default
    among its repositories, whatever command changes the repositories sends
    one of which the same is true, with no repository touched but the named
    one, and that one gone after "remove", the default after "set-default" and
    present otherwise; the daemon's handler does not refuse it itself: it has
    that configuration already, or hands it to [setConfig] (which can still
    fail, and then the handler answers with that error). *)
Theorem repo_accepted command options s c : valid_config (cfg s) -> cli_repo command options (cfg s) = Configure c ->
  valid_config c /\ others_kept (command_alias options) (cfg s) c /\
  match command with
  | RemoveRepo => command_alias options ∉ repo_alias <$> c2_repos c
  | SetDefault => c2_defaultRepo c = command_alias options
  | _ => command_alias options ∈ repo_alias <$> c2_repos c
  end /\
  forall ll_version config_yaml env repo,
    setConfiguration ll_version config_yaml env repo s (Ok c) = (s, Ok tt) \/
    setConfiguration ll_version config_yaml env repo s (Ok c) = setConfig config_yaml ll_version env repo c s.
Proof.
  intros Hv He. destruct (command_good _ _ _ _ Hv He) as [[Hv' Hk] Hc]. split_and!; [done..|].
  intros ll_version config_yaml env repo. unfold setConfiguration. case_bool_decide; [by left|]. right.
  destruct Hv' as [_ Hd]. apply list_elem_of_fmap in Hd as (r & E & Hr%list_elem_of_In).
  assert (Hx : existsb (fun r => bool_decide (repo_alias r = c2_defaultRepo c)) (c2_repos c) = true); [|by rewrite Hx].
  apply existsb_exists. exists r. split; [done|]. by apply bool_decide_eq_true.
Qed.

Lemma on_first_hits (p : Repo -> bool) f l : existsb p l = true -> exists r, r ∈ l /\ p r = true /\ f r ∈ on_first p f l.
Proof.
  induction l as [|x l IH]; [done|]. cbn. destruct (p x) eqn:Ep; [intros _; exists x; set_solver|].
  intros (r & ? & ? & ?)%IH. exists r. set_solver.
Qed.

Lemma max_priority_is cfg r : r ∈ c2_repos cfg -> (forall x, x ∈ c2_repos cfg -> r_priority x <= r_priority r) ->
  getRepoMaxPriority cfg = Some (r_priority r).
Proof.
  intros Hr Hm. destruct (getRepoMaxPriority cfg) as [p|] eqn:E.
  - apply max_priority_in in E as (m & Hin & <- & Hmax). f_equal. apply Hmax in Hr. apply Hm in Hin. lia.
  - unfold getRepoMaxPriority in E. destruct (c2_repos cfg); [by apply elem_of_nil in Hr|done].
Qed.

(** The repository that becomes the default is the one that is searched. *)
Theorem default_first options cfg c : Forall (fun r => - 2 ^ 63 <= r_priority r < 2 ^ 63 - 100) (c2_repos cfg) ->
  cli_repo SetDefault options cfg = Configure c ->
  exists repos, getHighestPriorityRepos c = Some repos /\ repos <> [] /\ forall r, r ∈ repos -> repo_alias r = c2_defaultRepo c.
Proof.
  rewrite Forall_forall. intros Hp Hc. unfold cli_repo in Hc. fold (command_alias options) in Hc. set (alias := command_alias options) in *.
  destruct (existsb _ _) eqn:Ex; [|done]. cbn [negb] in Hc.
  unfold set_default in Hc. case_bool_decide; [done|]. destruct (getRepoMaxPriority cfg) as [p|] eqn:Em; [|done].
  injection Hc as <-. apply max_priority_in in Em as (m & Hm & <- & Hmax). pose proof (Hp m Hm) as Hpm.
  set (q := r_priority m + 100). assert (Eq : i64 q = q) by (unfold wrap_s, q; rewrite Z.mod_small; lia). rewrite Eq.
  set (f := set_priority q). destruct (on_first_hits _ f _ Ex) as (r & Hr & Ha & Hin). set (c := with_repos _ _).
  assert (Hl : forall x, x ∈ c2_repos c -> r_priority x < q \/ (r_priority x = q /\ repo_alias x = alias)).
  { intros x [Hx|(r0 & _ & Hr0 & ->)]%on_first_elem; [left; apply Hmax in Hx; lia|].
    right. split; [done|]. unfold has_alias in Hr0. by apply bool_decide_eq_true in Hr0. }
  assert (Em : getRepoMaxPriority c = Some q).
  { change q with (r_priority (f r)). apply max_priority_is; [exact Hin|]. intros x Hx. cbn. destruct (Hl x Hx) as [|[]]; lia. }
  rewrite (highest_repos _ _ Em). eexists. split; [done|]. split.
  - intros E. assert (Hf : f r ∈ List.filter (fun x => r_priority x =? q) (c2_repos c)).
    { apply list_elem_of_In, filter_In. split; [by apply list_elem_of_In|]. cbn. apply Z.eqb_refl. }
    rewrite E in Hf. by apply elem_of_nil in Hf.
  - intros x [Hx%list_elem_of_In Hq]%list_elem_of_In%filter_In. apply Z.eqb_eq in Hq. destruct (Hl x Hx) as [|[]]; [lia|done].
Qed.

End configurations.

(** ** Upgrades *)

Lemma digits_known n t : 0 <= n -> known (dec n ++ t) = Some (dec n ++ t).
Proof.
  intros Hn. pose proof (dec_nonempty n Hn) as Hne. pose proof (dec_digits n Hn) as Hd. unfold known.
  destruct (dec n) as [|c s]; [done|]. cbn in Hd. apply andb_true_iff in Hd as [Hc _].
  rewrite (bool_decide_false (_ = [])) by done. rewrite bool_decide_false; [done|]. intros [= -> _]. done.
Qed.

Lemma version_known v : parsed63 v -> known (ver_toString v) = Some (ver_toString v).
Proof.
  destruct v as [v|v|v]; cbn [parsed63 ver_toString]; [| |done].
  - intros (w & Hw & -> & _). rewrite v2_toString_of_semver by done. apply digits_known. destruct Hw as ([? _] & _). done.
  - intros [(? & _) _]. apply digits_known. lia.
Qed.

Lemma no_colon s : ":"%char ∉ s -> fuzzy_cut s = ([], s).
Proof.
  intros Hs. unfold fuzzy_cut. destruct (cut_at ":" s) as [[a b]|] eqn:E; [|done].
  apply cut_at_some in E as [-> _]. exfalso. apply Hs, elem_of_app. right. left.
Qed.

Lemma NoDup_key {A B} (f : A -> B) l x y : NoDup (f <$> l) -> x ∈ l -> y ∈ l -> f x = f y -> x = y.
Proof.
  induction l as [|z l IH]; [by intros _ ?%elem_of_nil|]. cbn. intros [Hz Hn]%NoDup_cons [->|Hx]%elem_of_cons [->|Hy]%elem_of_cons E; [done|..|by apply IH].
  - exfalso. apply Hz. rewrite E. by apply list_elem_of_fmap_2.
  - exfalso. apply Hz. rewrite <- E. by apply list_elem_of_fmap_2.
Qed.

Section upgrades.
Context `{Client} {q : Qt} {Hq : QtOk q} `{StdSort} `{Json} `{Yaml}.
Variable curArch : result Architecture.

Abbreviation layers s := (rc_layers (cache (rcache s))).

(** The ids and versions of the records do not hold the separators of a reference. *)
Definition plain_texts (s : OSTreeRepo) : Prop := Forall (fun x =>
  "/"%char ∉ pi_id (l_info x) /\ ":"%char ∉ pi_id (l_info x) /\
  "/"%char ∉ pi_version (l_info x) /\ ":"%char ∉ pi_version (l_info x)) (layers s).

Lemma upgrade_ref_parse id text v : version_parse text default_options = Ok v -> parsed63 v -> id <> [] ->
  "/"%char ∉ id -> ":"%char ∉ id -> "/"%char ∉ text -> ":"%char ∉ text ->
  fuzzy_parse (id ++ lit "/" ++ ver_toString v) = Ok (mkFuzzy None id (Some (ver_toString v)) None) /\
  version_parse (ver_toString v) default_options = Ok v.
Proof using Hq.
  intros Ev Hp Hid Si Ci St Ct. destruct (parsed_text text v Ev) as [Hv [u Et]]; [by intros f ->|]. split; [|done].
  rewrite Et in St, Ct. rewrite fuzzy_parse_eq, no_colon by (cbn; set_solver). cbn [app String.list_ascii_of_string].
  rewrite split_on_app, split_on_none by set_solver. cbn [known]. rewrite version_known by done.
  unfold fuzzy_create. by rewrite bool_decide_false, bool_decide_false by done.
Qed.

(** An installed version with a newer one in its channel. *)
Record outdated (s : OSTreeRepo) (type : str) (e : UpgradeListResult) (ref : Reference) (new : Reference) : Prop := {
  od_latest : latest_present s (ul_id e) ref;
  od_kind : type = lit "all" \/ exists x, x ∈ layers s /\ ref_fromPackageInfo (l_info x) = Ok ref /\ pi_kind (l_info x) = type;
  od_old : ul_oldVersion e = ver_toString (ref_version ref);
  od_new : ul_newVersion e = ver_toString (ref_version new);
  od_id : ref_id new = ul_id e;
  od_channel : ref_channel new = ref_channel ref;
  od_newer : parsed63 (ref_version new) -> ver_cmp (ref_version new) (ref_version ref) = 1
}.

Lemma upgradable_framed s arch pkg : framed s (fst (upgradable curArch s arch pkg)).
Proof using.
  unfold upgradable. destruct (fuzzy_create _ _ _ _) as [fuzzy|]; [|done]. unfold latestRemoteReference.
  pose proof (byPriority_framed curArch s (mkFuzzy (fz_channel fuzzy) (fz_id fuzzy) None (fz_arch fuzzy)) (mkPriorityOpt false false)
    (lit "binary")) as Hf. destruct (getRemoteReferenceByPriority _ _ _ _ _) as [s1 [[repo new]|]]; [|done].
  destruct (version_parse _ _); [|done]. by destruct (ver_gt _ _).
Qed.

Lemma upgradable_spec s arch pkg s1 u r : upgradable curArch s arch pkg = (s1, Some u) ->
  ref_fromPackageInfo pkg = Ok r -> parsed63 (ref_version r) ->
  exists new, ul_id u = pi_id pkg /\ ul_oldVersion u = ver_toString (ref_version r) /\ ul_newVersion u = ver_toString (ref_version new) /\
    ref_id new = pi_id pkg /\ ref_channel new = ref_channel r /\
    (parsed63 (ref_version new) -> ver_cmp (ref_version new) (ref_version r) = 1).
Proof using.
  intros Eu (Ev & _ & Ec & _)%fromPackageInfo_inv Hp. revert Eu. unfold upgradable.
  destruct (fuzzy_create _ _ _ _) as [fuzzy|] eqn:Ef; [|done]. unfold fuzzy_create in Ef.
  do 2 (case_bool_decide; [done|]). injection Ef as <-. unfold latestRemoteReference. cbn [fz_channel fz_id fz_arch].
  destruct (getRemoteReferenceByPriority _ _ _ _ _) as [s2 [[repo new]|]] eqn:Eg; [|done]. apply byPriority_fits in Eg as [Hid Hch].
  rewrite Ev. cbn [snd]. destruct (ver_gt _ _) eqn:Egt; [|done]. intros [= _ <-]. exists new. cbn. split_and!; try done.
  - specialize (Hch _ eq_refl). congruence.
  - intros Hn. rewrite ver_gt_cmp in Egt by done. apply Z.eqb_eq in Egt. pose proof (tw_anti _ tw_ver (ref_version r) (ref_version new)). lia.
Qed.

Lemma latest_listed s pkgs pkg : sound_records s -> listLocalLatest (rcache s) = Ok pkgs -> pkg ∈ pkgs ->
  exists x r, x ∈ layers s /\ l_info x = pkg /\ ref_fromPackageInfo pkg = Ok r /\ latest_present s (pi_id pkg) r.
Proof using.
  intros Hs El Hp. unfold sound_records in Hs. rewrite Forall_forall in Hs. assert (Hc : infos_comparable (listLocal (rcache s))).
  { unfold infos_comparable, listLocal, queryExistingLayerItem. rewrite Forall_forall.
    intros i (x & -> & [Hx%list_elem_of_In _]%list_elem_of_In%filter_In)%list_elem_of_fmap.
    destruct (Hs x Hx) as (r & Hr & Hpr). apply fromPackageInfo_inv in Hr as [Hv _]. by exists (ref_version r). }
  destruct (listLocalLatest_spec _ Hc) as (sel & Es & Hnd & Hsub & Hmax). rewrite El in Es. injection Es as <-.
  assert (Hlocal : forall i, i ∈ listLocal (rcache s) -> exists x, x ∈ layers s /\ l_info x = i /\ default false (l_deleted x) = false).
  { intros i (x & -> & [Hx%list_elem_of_In Hd]%list_elem_of_In%filter_In)%list_elem_of_fmap. apply negb_true_iff in Hd. by exists x. }
  destruct (Hlocal pkg (Hsub pkg Hp)) as (x & Hx & Ex & Hd).
  destruct (Hs x Hx) as (r & Hr & Hpr). rewrite Ex in Hr. exists x, r. split_and!; [done..|]. split.
  - exists x. by rewrite Ex.
  - intros r' (x' & Hx' & Ei & Hd' & Hr'). destruct (Hs x' Hx') as (r2 & Hr2 & Hpr'). assert (r2 = r') as -> by congruence.
    destruct (Hmax (l_info x')) as (y & Hy & Eid & Hge).
    { apply list_elem_of_fmap_2, list_elem_of_In, filter_In. rewrite Hd'. split; [by apply list_elem_of_In|done]. }
    assert (y = pkg) as -> by (apply (NoDup_key pi_id pkgs); congruence).
    apply fromPackageInfo_inv in Hr as [Hv _], Hr' as [Hv' _].
    specialize (Hge (ref_version r') (ref_version r) (conj Hv' Hpr') (conj Hv Hpr)). rewrite ver_ge_cmp in Hge by done.
    apply Z.leb_le in Hge. pose proof (tw_anti _ tw_ver (ref_version r) (ref_version r')). lia.
Qed.

Lemma upgradable_all_spec s0 s arch pkgs : framed s0 s -> let '(s', l) := upgradable_all curArch s arch pkgs in
  framed s0 s' /\ forall e, e ∈ l -> exists pkg s1 s2, pkg ∈ pkgs /\ upgradable curArch s1 arch pkg = (s2, Some e).
Proof using.
  revert s. induction pkgs as [|pkg pkgs IH]; intros s Hf; cbn [upgradable_all]; [split; [done|by intros ? ?%elem_of_nil]|].
  pose proof (upgradable_framed s arch pkg) as Hf1. destruct (upgradable curArch s arch pkg) as [s1 u] eqn:Eu. cbn [fst] in Hf1.
  specialize (IH s1 (transitivity Hf Hf1)). destruct (upgradable_all curArch s1 arch pkgs) as [s' l]. destruct IH as [Hf' Hl].
  split; [done|]. intros e [He|He]%elem_of_app.
  - destruct u as [u|]; [|by apply elem_of_nil in He]. apply list_elem_of_singleton in He as ->. exists pkg, s, s1. split; [left|done].
  - destruct (Hl e He) as (pkg' & s2 & s3 & Hp & E). exists pkg', s2, s3. split; [by right|done].
Qed.

Lemma filtered_elem pkgs type pkg : pkg ∈ default [] (map_get (lit "all") (filterPackageInfosByType [(lit "all", pkgs)] type)) ->
  pkg ∈ pkgs /\ (type = lit "all" \/ pi_kind pkg = type).
Proof using.
  unfold filterPackageInfosByType. case_bool_decide as Et; [intros Hp; cbn in Hp; auto|]. cbn [omap list_omap].
  set (l := List.filter _ pkgs). case_bool_decide; cbn; [by intros ?%elem_of_nil|].
  intros [Hp%list_elem_of_In Hk]%list_elem_of_In%filter_In. apply bool_decide_eq_true in Hk. auto.
Qed.

Lemma upgrades_listed s type s' l : sound_records s -> listUpgradable curArch s type = (s', Ok l) ->
  framed s s' /\ forall e, e ∈ l -> exists ref new, outdated s type e ref new.
Proof using.
  intros Hs. unfold listUpgradable. destruct (listLocalLatest (rcache s)) as [pkgs|] eqn:El; [|done].
  destruct (fuzzy_parse _); [|done]. destruct (getHighestPriorityRepos _) as [[|repo repos]|]; [done| |done].
  destruct curArch as [arch|] eqn:Ea; [|done]. rewrite <- Ea.
  pose proof (upgradable_all_spec s s arch (default [] (map_get (lit "all") (filterPackageInfosByType [(lit "all", pkgs)] type)))
    ltac:(done)) as Hall. destruct (upgradable_all _ _ _ _) as [s1 l1]. destruct Hall as [Hf Hl]. intros [= <- <-]. split; [done|].
  intros e He. destruct (Hl e He) as (pkg & s2 & s3 & Hp & Eu). apply filtered_elem in Hp as [Hp Hk].
  destruct (latest_listed s pkgs pkg Hs El Hp) as (x & r & Hx & Ex & Er & Hlat).
  pose proof (present_parsed s (pi_id pkg) r Hs (proj1 Hlat)) as Hpr.
  destruct (upgradable_spec _ _ _ _ _ _ Eu Er Hpr) as (new & Ei & Eo & En & Hi & Hc & Hn). exists r, new.
  split; try done; [by rewrite Ei| |by rewrite Ei]. destruct Hk as [?|Hk]; [by left|]. right. exists x. by rewrite Ex.
Qed.

Lemma upgrade_refs_elem l refs f : upgrade_refs l = Ok refs -> f ∈ refs ->
  exists e, e ∈ l /\ fuzzy_parse (ul_id e ++ lit "/" ++ ul_oldVersion e) = Ok f.
Proof using.
  revert refs. induction l as [|e l IH]; intros refs; cbn [upgrade_refs]; [intros [= <-] []%elem_of_nil|].
  destruct (fuzzy_parse _) as [g|] eqn:Eg; [|done]. destruct (upgrade_refs l) as [gs|]; [|done]. intros [= <-] [->|Hf]%elem_of_cons.
  - exists e. split; [left|done].
  - destruct (IH gs eq_refl Hf) as (e' & He & E). exists e'. split; [by right|done].
Qed.

(** An upgrade of everything asks for installed applications that have a
    newer version in their channel, each in the newest version installed, in a
    way the daemon finds it again; the request names no channel. *)
Theorem upgrade_all s s' packages : sound_records s -> plain_texts s ->
  upgrade_request curArch s [] = (s', Ok (Some packages)) ->
  framed s s' /\ packages <> [] /\ Forall asked_comparable packages /\
  forall p, p ∈ packages -> exists e ref new fuzzy, outdated s (lit "app") e ref new /\
    pk_id p = ul_id e /\ pk_channel p = None /\ pk_version p = Some (ul_oldVersion e) /\
    fuzzyReferenceFromPackage p = Ok fuzzy /\
    exists found, find_installed curArch s fuzzy = Ok found /\ latest_present s (pk_id p) found.
Proof using Hq.
  intros Hs Ht. unfold upgrade_request. rewrite bool_decide_true by done. cbn [negb].
  destruct (listUpgradable curArch s (lit "app")) as [s1 [l|]] eqn:El; [|done]. apply upgrades_listed in El as [Hf Hl]; [|done].
  destruct (upgrade_refs l) as [refs|] eqn:Er; [|done]. cbn [res_bind]. case_bool_decide as En; [done|]. intros [= <- <-].
  assert (Hall : forall p, p ∈ package_of <$> refs -> exists e ref new, outdated s (lit "app") e ref new /\
    version_parse (ver_toString (ref_version ref)) default_options = Ok (ref_version ref) /\
    p = mkPkg None (ul_id e) None (Some (ver_toString (ref_version ref))) /\ ul_id e <> [] /\ parsed63 (ref_version ref)).
  { intros p (f & -> & Hfr)%list_elem_of_fmap. destruct (upgrade_refs_elem _ _ _ Er Hfr) as (e & He & Ef).
    destruct (Hl e He) as (ref & new & Ho). exists e, ref, new. pose proof (od_latest _ _ _ _ _ Ho) as [Hp _].
    pose proof (present_parsed _ _ _ Hs Hp) as Hpr. destruct Hp as (x & Hx & Ei & _ & Ex). unfold plain_texts in Ht.
    rewrite Forall_forall in Ht. destruct (Ht x Hx) as (T1 & T2 & T3 & T4). pose proof Ex as Ex'.
    apply fromPackageInfo_inv in Ex as (Ev & Eid & _). rewrite <- Ei in *.
    assert (Hne : pi_id (l_info x) <> []).
    { intros E. unfold ref_fromPackageInfo in Ex'. destruct (version_parse _ _); [|done]. cbn [res_bind] in Ex'. destruct (_ && _); [done|].
      destruct (pi_arch _); [done|]. destruct (arch_parse _); [|done]. cbn [res_bind] in Ex'. unfold ref_create in Ex'. rewrite E in Ex'.
      by destruct (bool_decide _). }
    destruct (upgrade_ref_parse _ _ _ Ev Hpr Hne T1 T2 T3 T4) as [Ep Hv]. rewrite (od_old _ _ _ _ _ Ho), Ep in Ef. injection Ef as <-. done. }
  split; [done|]. split; [by destruct refs|]. split.
  - apply Forall_forall. intros p Hp v w Ev Ew. destruct (Hall p Hp) as (e & ref & new & _ & Hv & -> & _ & Hpr).
    cbn in Ev. injection Ev as <-. congruence.
  - intros p Hp. destruct (Hall p Hp) as (e & ref & new & Ho & Hv & -> & Hne & Hpr). pose proof (od_latest _ _ _ _ _ Ho) as [Hpre Hmax].
    set (fuzzy := mkFuzzy None (ul_id e) (Some (ver_toString (ref_version ref))) None). exists e, ref, new, fuzzy. cbn [pk_id pk_channel pk_version].
    split_and!; [done..|by rewrite (od_old _ _ _ _ _ Ho)| |].
    { unfold fuzzyReferenceFromPackage, fuzzy_create. cbn [pk_channel pk_id pk_version]. by rewrite !bool_decide_false by done. }
    assert (Ha : asked_version fuzzy = Ok (Some (ref_version ref))).
    { unfold asked_version. cbn [fuzzy fz_version]. rewrite bool_decide_false, Hv; [done|].
      intros E. pose proof (version_known _ Hpr) as Hk. by rewrite E in Hk. }
    pose proof (find_installed_spec curArch s fuzzy (Some (ref_version ref)) Hs eq_refl Ha) as Hfi.
    destruct (find_installed curArch s fuzzy) as [found|c].
    + destruct Hfi as (Hpf & Hasks & _); [by intros v [= <-]|]. exists found. split; [done|]. split; [done|]. intros r' Hr'.
      pose proof (Hmax r' Hr'). cbn [asks] in Hasks. eapply (tw_trans _ tw_ver); [eauto|].
      pose proof (tw_anti _ tw_ver (ref_version ref) (ref_version found)). lia.
    + destruct Hfi as [_ Hno]; [by intros v [= <-]|]. exfalso. apply (Hno ref Hpre). cbn. apply (tw_refl _ tw_ver).
Qed.

End upgrades.

(** ** Contents and old command lines *)

Lemma drop_missing_spec exists_ contents :
  List.filter exists_ contents `sublist_of` drop_missing exists_ contents /\ drop_missing exists_ contents `sublist_of` contents.
Proof.
  cut (forall n l, (length l <= n)%nat -> List.filter exists_ l `sublist_of` drop_missing exists_ l /\ drop_missing exists_ l `sublist_of` l).
  { intros G. by apply (G (length contents)). }
  induction n as [|n IH]; intros l Hl; [by destruct l; [|cbn in Hl; lia]|]. destruct l as [|c l]; [done|]. cbn in Hl |- *.
  destruct (exists_ c).
  - destruct (IH l ltac:(lia)) as [H1 H2]. split; by constructor.
  - destruct l as [|d l]; [split; [done|apply sublist_nil_l]|]. cbn in Hl |- *. destruct (IH l ltac:(lia)) as [H1 H2].
    split; [destruct (exists_ d); by constructor|by do 2 constructor].
Qed.

Lemma find_arg_split x l i : find_arg x l = Some i -> l !! i = Some x.
Proof.
  revert i. induction l as [|y l IH]; intros i; [done|]. cbn. case_bool_decide as E; [intros [= <-]; by subst|].
  destruct (find_arg x l) as [j|]; [|done]. intros [= <-]. by apply IH.
Qed.

(** An old command line [run app --exec "command"] becomes [run app -- words]. *)
Theorem old_exec wordexp args exec command words : lit "run" ∈ args -> find_arg (lit "--exec") args = Some exec ->
  drop exec args = [lit "--exec"; command] -> wordexp command = Some words ->
  reverse (transformOldExec wordexp args) = take exec args ++ lit "--" :: words.
Proof.
  intros Hrun He Hd Hw. unfold transformOldExec. destruct (find_arg (lit "run") args) as [r|] eqn:Er.
  - rewrite He. assert (El : length args = (exec + 2)%nat).
    { rewrite <- (take_drop exec args), length_app, Hd. pose proof (find_arg_split _ _ _ He) as Hi%lookup_lt_Some.
      rewrite length_take. cbn. lia. }
    rewrite El, Nat.eqb_refl. cbn [negb]. replace (args !! S exec) with (Some command).
    + cbn [default from_option id]. rewrite Hw, reverse_app, reverse_cons, reverse_involutive.
      assert (Ed : drop 2 (reverse args) = reverse (take exec args)).
      { rewrite <- (take_drop exec args) at 1. rewrite Hd, reverse_app. done. }
      rewrite Ed, reverse_involutive. by rewrite <- app_assoc.
    + rewrite <- Nat.add_1_r, <- lookup_drop. by rewrite Hd.
  - exfalso. clear -Hrun Er. induction args as [|y args IH]; [by apply elem_of_nil in Hrun|]. cbn in Er.
    case_bool_decide as Hne; [done|]. apply elem_of_cons in Hrun as [E|Hrun]; [by apply Hne|]. destruct (find_arg _ args); [done|]. by apply IH.
Qed.

(** ** Examples *)

#[local] Existing Instance qt_model.
#[local] Existing Instance qt_model_ok.
#[local] Existing Instance std_sort_model.
#[local] Existing Instance json_model.
#[local] Existing Instance client_model.
#[local] Existing Instance yaml_model.

Example german : getAutoModuleList (fun v => if bool_decide (v = lit "LANG") then Some (lit "de_AT.UTF-8")
                                             else if bool_decide (v = lit "LC_TIME") then Some (lit "C") else None) =
  [lit "binary"; lit "lang_de"; lit "lang_de_AT"].
Proof. vm_compute. reflexivity. Qed.

(** A third part without a codeset mark makes the whole value count for nothing. *)
Example no_language : getModuleFromLanguageEnv (lit "zh_TWx") = [].
Proof. vm_compute. reflexivity. Qed.

(** Of two entries in a row that are not exported the second is shown. *)
Example second_missing : drop_missing (fun p => bool_decide (p = lit "/a")) [lit "/a"; lit "/b"; lit "/c"] = [lit "/a"; lit "/c"].
Proof. vm_compute. reflexivity. Qed.

Definition offered (id module version : str) : PackageInfoV2 :=
  mkInfo [lit "x86_64"] [] (lit "main") None None None None None id (lit "app") module [] None [] 0 None version.

(** The parts of the key are joined by a character they may hold. *)
Example keys_meet : package_key (lit "stable") (offered (lit "org.a-lang") (lit "de") (lit "1.0.0.1")) =
  package_key (lit "stable") (offered (lit "org.a") (lit "lang-de") (lit "1.0.0.1")).
Proof. vm_compute. reflexivity. Qed.

Definition found_packages : list PackageInfoV2 :=
  [offered (lit "org.a") (lit "binary") (lit "1.0.0.1"); offered (lit "org.b") (lit "binary") (lit "1.0.0.3");
   offered (lit "org.a") (lit "binary") (lit "1.0.0.2")].

Lemma found_comparable : infos_comparable found_packages.
Proof.
  assert (G : forall id module t, 0 <= t <= 9 -> exists v, info_version (offered id module (lit "1.0.0." ++ dec t)) v).
  { intros id module t Ht. exists (isV1 (mkV1 1 0 0 (Some t))). split; [|by apply v1_example_parsed].
    assert (t = 0 \/ t = 1 \/ t = 2 \/ t = 3 \/ t = 4 \/ t = 5 \/ t = 6 \/ t = 7 \/ t = 8 \/ t = 9) as
      [->|[->|[->|[->|[->|[->|[->|[->|[->| ->]]]]]]]]] by lia; by vm_compute. }
  repeat constructor; [apply (G _ _ 1)|apply (G _ _ 3)|apply (G _ _ 2)]; lia.
Qed.

Lemma newest_shown_witness : exists shown, (lit "stable", shown) ∈ filterPackageInfosByVersion [(lit "stable", found_packages)] /\
  exists p, p ∈ shown /\ pi_id p = lit "org.a".
Proof.
  destruct (newest_shown [(lit "stable", found_packages)] (lit "stable") found_packages ltac:(left) found_comparable)
    as (shown & Hin & _ & Ha & Hs).
  exists shown. split; [exact Hin|]. apply list_elem_of_singleton in Hin. injection Hin as ->.
  eexists. split; [left|]. vm_compute. reflexivity.
Defined.

Lemma search_asks_witness :
  search_request example_cfg (mkSearchOptions (lit "demo") (lit "all") None false false) = Ok [lit "stable"].
Proof. exact (search_asks example_cfg (mkSearchOptions (lit "demo") (lit "all") None false false) [stable_repo] eq_refl ltac:(by vm_compute)). Defined.

Lemma example_valid : valid_config example_cfg.
Proof. split; [by apply (bool_decide_unpack _)|]. vm_compute. left. Qed.

Definition make_test_default : RepoOptions := mkRepoOptions (lit "test") [] None 0.
Definition test_default : RepoConfigV2 :=
  mkRepoConfigV2 (lit "test") [stable_repo; mkRepo (Some (lit "test")) (Some true) (lit "testing") 100 (lit "https://t")] 2.

Lemma test_default_set : cli_repo SetDefault make_test_default example_cfg = Configure test_default.
Proof. vm_compute. reflexivity. Qed.

Lemma repo_accepted_witness : valid_config test_default /\ c2_defaultRepo test_default = lit "test".
Proof.
  destruct (repo_accepted SetDefault make_test_default demo_repo test_default example_valid test_default_set) as (Hv & _ & Hd & _).
  split; [exact Hv|exact Hd].
Defined.

Lemma default_first_witness : exists repos, getHighestPriorityRepos test_default = Some repos /\ repos <> [] /\
  forall r, r ∈ repos -> repo_alias r = lit "test".
Proof.
  exact (default_first make_test_default example_cfg test_default ltac:(by repeat constructor) test_default_set).
Defined.

Example removed_default : cli_repo RemoveRepo (mkRepoOptions [] [] (Some (lit "stable")) 0) example_cfg =
  Configure (mkRepoConfigV2 (lit "test") [test_repo] 2).
Proof. vm_compute. reflexivity. Qed.

Definition demo_packages : list PackageManager1Package := [mkPkg None (lit "org.deepin.demo") None (Some (lit "1.0.0.1"))].

Lemma demo_upgrades : snd (upgrade_request (Ok X86_64) demo_repo []) = Ok (Some demo_packages).
Proof. vm_compute. reflexivity. Qed.

Lemma demo_plain : plain_texts demo_repo.
Proof. unfold plain_texts. cbn. repeat constructor; by apply (bool_decide_unpack _). Qed.

Lemma upgrade_all_witness : sound_records demo_repo /\ Forall asked_comparable demo_packages.
Proof.
  split; [exact demo_sound|].
  assert (E : upgrade_request (Ok X86_64) demo_repo [] = (fst (upgrade_request (Ok X86_64) demo_repo []), Ok (Some demo_packages)))
    by (rewrite <- demo_upgrades; apply surjective_pairing).
  exact (proj1 (proj2 (proj2 (upgrade_all (Ok X86_64) demo_repo _ demo_packages demo_sound demo_plain E)))).
Defined.

(** What is asked for is then queued. *)
Example demo_updates : snd (PackageManager.Update (Ok X86_64) demo_repo demo_packages) =
  AddTask [lit "stable:main/org.deepin.demo/x86_64/binary"] (UpdateApps [(demo_ref, demo_found)]).
Proof. vm_compute. reflexivity. Qed.

(** A request to install without a module always asks for the application. *)
Lemma install_request_module getenv options p : install_request getenv options = Ok p ->
  only_module p = if bool_decide (in_module options = []) then lit "binary" else in_module options.
Proof.
  unfold install_request. destruct (fuzzy_parse _); [|done]. intros [= <-]. unfold only_module. cbn [ip_modules].
  case_bool_decide; [|done]. assert (Hb : lit "binary" ∈ getAutoModuleList getenv).
  { unfold getAutoModuleList. rewrite unique_elem, (std_sort_perm _ _ _ (str_lt_weak _)). left. }
  destruct (getAutoModuleList getenv) as [|m [|]]; [done| |done]. by apply list_elem_of_singleton in Hb.
Qed.
