(* ===== verification/CliRun.v ===== *)
(** * The command line: running applications ([cli/cli.cpp])

    The commands that start a container or look at the ones that run: [run]
    from its arguments to the configuration of the container or to the process
    that runs already, [enter], [ps], [kill] and [inspect], and the paths a
    file has for an application. *)
From stdpp Require Import functions.
From S2P Require Import Prelude Strings Qt Types Semver Version Reference RepoConfig RepoCache OstreeRepo.
From S2P Require Import Prune PackageManager Path ContainerCfg ContainerEnv ContainerMounts RunContext Init.

(** ** The parent of a process *)

(** [std::from_chars] for a 32-bit number: the digits at the beginning, with a
    minus sign but no plus sign and no blanks. *)
Definition from_chars (s : str) : option Z :=
  let '(sign, s) := match s with "-"%char :: s => (-1, s) | _ => (1, s) end in
  let digits := (span is_digit s).1 in
  let n := sign * undec digits in
  if bool_decide (digits = []) then None
  else if (- 2 ^ 31 <=? n) && (n <=? i32_max) then Some n else None.

(** What follows [n] blanks, if anything does. *)
Fixpoint after_blanks (n : nat) (content : str) : option str :=
  match content with
  | [] => None
  | c :: rest =>
      match n with
      | O => Some content
      | S m => after_blanks (if bool_decide (c = " "%char) then m else n) rest
      end
  end.

(** The number of the parent in the text of [/proc/<pid>/stat]; a field that
    nothing follows is read beyond the text. *)
Definition getppid (content : str) : result Z :=
  match after_blanks 3 content with
  | None => Err err_default
  | Some rest =>
      match find_char " " rest with
      | None => Err terminated
      | Some right_ => res_of_option err_default (from_chars (take right_ rest))
      end
  end.

Section processes.
(** The texts of the processes, [None] when one cannot be read. *)
Variable stat : Z -> option str.

(** [None]: the loop has not ended yet. *)
Fixpoint isChildProcess (fuel : nat) (parent pid : Z) : option (result bool) :=
  if pid =? parent then Some (Ok true)
  else
    match fuel with
    | O => None
    | S fuel =>
        match stat pid with
        | None => Some (Err err_default)
        | Some content =>
            match getppid content with
            | Err c => Some (Err c)
            | Ok ppid => if ppid <? parent then Some (Ok false) else isChildProcess fuel parent ppid
            end
        end
    end.

(** ** Containers of the user *)

Record CliContainer := mkCliContainer {
  co_id : str;
  co_package : str;
  co_pid : Z
}.

(** A file of [/run/linglong/<uid>]: the process it is named after is there, its
    size (nothing when it cannot be had), what it holds. *)
Record pid_file := mkPidFile {
  pf_process : bool;
  pf_size : option Z;
  pf_info : result ContainerProcessStateInfo
}.

Definition current_container (containers : list (str * Z)) (file : pid_file) : option CliContainer :=
  if negb (pf_process file) then None
  else if bool_decide (pf_size file = Some 0) then None
  else
    match pf_info file with
    | Err _ => None
    | Ok info =>
        match List.find (fun item => bool_decide (fst item = ct_containerID info)) containers with
        | None => None
        | Some container => Some (mkCliContainer (ct_containerID info) (ct_app info) (snd container))
        end
    end.

(** The containers of the OCI runtime and the files of the user, [Ok None] when
    the directory does not exist. *)
Definition getCurrentContainers (listed : result (list (str * Z))) (files : result (option (list pid_file)))
    : result (list CliContainer) :=
  match listed, files with
  | Err c, _ => Err c
  | Ok _, Err _ => Err err_default
  | Ok _, Ok None => Ok []
  | Ok containers, Ok (Some files) => Ok (omap (current_container containers) files)
  end.

Definition ps (containers : result (list CliContainer)) : result (list CliContainer) :=
  l <-r containers ;; Ok ((fun c => mkCliContainer (take 12 (co_id c)) (co_package c) (co_pid c)) <$> l).

(** [substr]: the length is unsigned and wraps. *)
Definition substr (s : str) (pos n : Z) : str :=
  let rest := drop (Z.to_nat pos) s in
  if Z.of_nat (length rest) <=? u64 n then rest else take (Z.to_nat (u64 n)) rest.

Definition package_name (package : str) : str :=
  match find_char ":" package, find_char "/" package with
  | Some colonPos, Some slashPos =>
      substr package (Z.of_nat colonPos + 1) (Z.of_nat slashPos - Z.of_nat colonPos - 1)
  | _, _ => package
  end.

Definition generateDefaultBashCommand : list str :=
  [lit "/bin/bash"; lit "--noprofile"; lit "--norc"; lit "-c"; lit "source /etc/profile; bash --norc"].

(** The container that is entered and the command that is executed there. *)
Definition enter (containers : result (list CliContainer)) (instance : str) (commands : list str) : result (str * list str) :=
  l <-r containers ;;
  let containerID := match List.find (fun c => bool_decide (package_name (co_package c) = instance)) l with
                     | Some c => co_id c
                     | None => []
                     end in
  if bool_decide (containerID = []) then Err err_default
  else Ok (containerID, if bool_decide (commands = []) then generateDefaultBashCommand else commands).

(** [inspect] by the number of a process: the package it belongs to, if any. *)
Fixpoint inspect_containers (fuel : nat) (pid : Z) (l : list CliContainer) : option (result (option str)) :=
  match l with
  | [] => Some (Ok None)
  | container :: rest =>
      match isChildProcess fuel (co_pid container) pid with
      | None => None
      | Some (Err c) => Some (Err c)
      | Some (Ok true) => Some (Ok (Some (co_package container)))
      | Some (Ok false) => inspect_containers fuel pid rest
      end
  end.
Definition inspect (fuel : nat) (containers : result (list CliContainer)) (pid : option Z) : option (result (option str)) :=
  match containers, pid with
  | Err c, _ => Some (Err c)
  | Ok _, None => Some (Ok None)
  | Ok l, Some pid => inspect_containers fuel pid l
  end.

End processes.

(** ** Paths *)

Section paths.
Variable is_symlink : str -> bool.
Variable realpath : str -> option str.

Definition mappingFile (file : str) : str :=
  if negb (is_absolute file) then file
  else
    let target := if is_symlink file then default file (realpath file) else file in
    if is_prefix (lit "/home/") target then target
    else path_div (lit "/run/host/rootfs") (from_root target).

Definition mappingUrl (url : str) : str :=
  let filePrefix := lit "file://" in
  if is_absolute url then mappingFile url
  else if is_prefix filePrefix url then filePrefix ++ mappingFile (drop (length filePrefix) url)
  else url.

(** One argument of the command: a field code stands for the files or addresses
    that are given, an unknown one for nothing. *)
Definition map_argument (filePaths fileUrls : list str) (arg : str) : list str :=
  if negb (is_prefix (lit "%") arg) then [arg]
  else if bool_decide (arg = lit "%f") || bool_decide (arg = lit "%F")
  then mappingFile <$> List.filter (fun file => negb (bool_decide (file = []))) filePaths
  else if bool_decide (arg = lit "%u") || bool_decide (arg = lit "%U")
  then mappingUrl <$> List.filter (fun url => negb (bool_decide (url = []))) fileUrls
  else [].

Definition filePathMapping (command filePaths fileUrls : list str) : list str :=
  mjoin (map_argument filePaths fileUrls <$> command).

End paths.

(** ** Ending containers *)

Section kill.
Context `{Qt}.

Definition kill_matches (appid : str) (container : CliContainer) : bool :=
  match fuzzy_parse (co_package container) with
  | Err _ => false
  | Ok fuzzyRef => bool_decide (fz_id fuzzyRef = appid) || bool_decide (fuzzy_toString fuzzyRef = appid)
  end.

(** The containers that get the signal and the exit code; [killed] says which of
    them the OCI runtime could signal. *)
Definition cli_kill (killed : str -> bool) (containers : result (list CliContainer)) (appid : str) : list str * Z :=
  match containers with
  | Err _ => ([], -1)
  | Ok l =>
      let containerIDList := co_id <$> List.filter (kill_matches appid) l in
      (containerIDList, if forallb killed containerIDList then 0 else -1)
  end.

End kill.

(** ** [run] *)

Record RunOptions := mkRunOptions {
  rn_appid : str;
  rn_filePaths : list str;
  rn_fileUrls : list str;
  rn_envs : list str;
  rn_commands : list str;
  rn_base : option str;
  rn_runtime : option str
}.

(** Writing the state file: it is written, it is not, or it has gone and the
    program is ended. *)
Inductive dump_answer := Dumped | NotDumped | Gone.

(** The cache of an application on the disk: is it there, is its [ld.so.conf],
    what does that hold ([Err]: it cannot be opened). *)
Record cache_answer := mkCache {
  ca_exists : bool;
  ca_conf : option (result str)
}.

(** What [run] asks its surroundings. *)
Record run_env := mkRunEnv {
  ru_uid : Z;
  ru_gid : Z;
  ru_directory : bool;
  ru_placeholder : bool;
  ru_listed : result (list (str * Z));
  ru_files : result (option (list pid_file));
  ru_dump_delegated : dump_answer;
  ru_dump_started : dump_answer;
  ru_init : str -> bool * bool * list send_answer * option Z;
  ru_is_symlink : str -> bool;
  ru_permissions : PackageInfoV2 -> option Permissions;
  ru_bundle : str -> result str;
  ru_security : result (option str);
  ru_cache : str -> cache_answer;
  ru_runs : bool
}.

Inductive run_outcome :=
| Exits (code : Z)
| Dies
| Delegates (state : ContainerProcessStateInfo) (id : str) (commands : list str)
| Starts (state : ContainerProcessStateInfo) (b : cfg_builder) (commands : list str) (code : Z).

Definition stopped (c : Z) : run_outcome := if c =? terminated then Dies else Exits (-1).

Section run.
Context `{Client} `{Qt} `{StdSort} `{Json} `{Yaml} `{MapOrder}.
Variable curArch : result Architecture.
Variable repoDir : str.
Variable dir_exists : str -> bool.
Variable sha256_hex : str -> str.
Variable driver : option str.
Variable checkout : str -> result unit.
Variable debug : bool.
Variable now : Z.
(** [LINGLONG_ROOT]. *)
Variable root : str.
Variable h : host.
Variable e : run_env.

(** [ensureCache]: the directory of the cache, and whether it is generated. *)
Definition ensureCache (item : RepositoryCacheLayersItem) (appRef : Reference) (b : cfg_builder) : result (str * bool) :=
  let appCache := path_div (path_div root (lit "cache")) (l_commit item) in
  let answer := ru_cache e appCache in
  match ca_conf answer with
  | Some conf =>
      if negb (ca_exists answer) then Ok (appCache, true)
      else
        match conf with
        | Err _ => Err err_default
        | Ok oldCache => Ok (appCache, negb (bool_decide (oldCache = ldConf (getTriplet (ref_arch appRef)) b)))
        end
  | None => Ok (appCache, true)
  end.

(** *** The builder *)

(** A builder that has been told nothing. *)
Definition fresh_cfg : context_cfg := mkContextCfg [] [] None None None [] None ∅ None None None.

(** The small members of the builder; the setters do not look at them. *)
Definition run_settings (appRef : Reference) (cc : context_cfg) (appCache : option (str * bool)) : settings :=
  mkSettings (ref_id appRef) (cc_basePath cc, true) (cc_runtimePath cc) (cc_appPath cc) (cc_bundlePath cc) appCache
    false false true true None (Some [(ru_uid e, ru_uid e, 1)]) (Some [(ru_gid e, ru_gid e, 1)])
    (cc_xOrgSocket cc) (cc_xAuthFile cc) (cc_waylandSocket cc).

Definition run_setters (home : str) (b : cfg_builder) : result cfg_builder :=
  b <-r bindDevNode h None (bindDefault b) ;;
  let b := bindUserGroup (bindXDGRuntime h (bindCgroup b)) in
  let b := bindHostStatics h (bindHostRoot (bindRemovableStorageMounts h b)) in
  let b := enablePrivateDir (bindHome home b) in
  let b := mapPrivate (home ++ lit "/.gnupg") true (mapPrivate (home ++ lit "/.ssh") true b) in
  Ok (forwardDefaultEnv h (bindIPC b)).

(** What [fillContextCfg] tells the builder besides. *)
Definition fill_members (cc : context_cfg) (b : cfg_builder) : cfg_builder :=
  let b := match cc_extensionMount cc with Some mounts => setExtensionMounts mounts b | None => b end in
  let b := match cc_extraMount cc with Some mounts => addExtraMounts mounts b | None => b end in
  appendEnvs (cc_envAppend cc) b.

(** [--env name=value]; without an equals sign the text is read out of bounds. *)
Fixpoint append_options (envs : list str) (b : cfg_builder) : result cfg_builder :=
  match envs with
  | [] => Ok b
  | env :: rest =>
      match find_char "=" env with
      | None => Err terminated
      | Some split_ => append_options rest (appendEnv1 (take split_ env) (drop (S split_) env) true b)
      end
  end.

Definition run_cfg (appRef : Reference) (cc : context_cfg) (appCache : option (str * bool)) (home : str) (envs : list str)
    : result cfg_builder :=
  b <-r run_setters home (new_builder (run_settings appRef cc appCache)) ;;
  append_options envs (addExtraMount (init_mount (path_div (cc_bundlePath cc) (lit "init"))) (fill_members cc b)).

(** The Wayland security context puts its socket in place of the display's. *)
Definition secured (cc : context_cfg) : result context_cfg :=
  match ru_security e with
  | Err _ => Err err_default
  | Ok None => Ok cc
  | Ok (Some socket) =>
      Ok (mkContextCfg (cc_containerId cc) (cc_basePath cc) (cc_appPath cc) (cc_runtimePath cc) (cc_extensionMount cc)
            (cc_bundlePath cc) (cc_extraMount cc) (cc_envAppend cc) (cc_xOrgSocket cc) (cc_xAuthFile cc) (Some socket))
  end.

(** *** The command *)

(** [getBaseLayerPath()->] and [getRuntimeLayerPath()->], for a message that is
    put together even when it is not shown. *)
Definition logged_paths (c : RunContext) : bool :=
  match baseLayer c with Some l => bool_decide (is_Some (rl_layerDir l)) | None => false end &&
  match runtimeLayer c with Some l => bool_decide (is_Some (rl_layerDir l)) | None => true end.

Definition getCachedAppItem (s : OSTreeRepo) (c : RunContext) : result RepositoryCacheLayersItem :=
  match appLayer c with
  | None => Err err_default
  | Some l => getCachedItem s l
  end.

(** The application, its resolved context and its layer. *)
Definition run_prepare (s : OSTreeRepo) (options : RunOptions) : result (Reference * RunContext * RepositoryCacheLayersItem) :=
  if (ru_uid e =? 0) || negb (ru_directory e) || negb (ru_placeholder e) then Err err_default
  else
    fuzzyRef <-r fuzzy_parse (rn_appid options) ;;
    curAppRef <-r find_installed curArch s fuzzyRef ;;
    match resolve curArch repoDir dir_exists sha256_hex driver checkout debug now s curAppRef
            (mkResolve false None (rn_base options) (rn_runtime options)) empty_context with
    | (_, Err c) => Err c
    | (c, Ok _) =>
        if negb (logged_paths c) then Err terminated
        else appLayerItem <-r getCachedAppItem s c ;; Ok (curAppRef, c, appLayerItem)
    end.

Definition run_commands (options : RunOptions) (item : RepositoryCacheLayersItem) : list str :=
  let commands := if bool_decide (rn_commands options = []) then default [lit "bash"] (pi_command (l_info item))
                  else rn_commands options in
  filePathMapping (ru_is_symlink e) (h_realpath h) commands (rn_filePaths options) (rn_fileUrls options).

Definition delegate (id : str) (commands : list str) : bool :=
  let '(connected, length_sent, answers, reply) := ru_init e id in
  delegateToContainerInit connected length_sent answers reply commands.

(** The first container of the application that runs. *)
Definition running (curAppRef : Reference) : option CliContainer :=
  let containers := match getCurrentContainers (ru_listed e) (ru_files e) with Ok l => l | Err _ => [] end in
  List.find (fun container => bool_decide (co_package container = ref_toString curAppRef)) containers.

(** The configuration of the container, complete up to [build]. *)
Definition run_builder (s : OSTreeRepo) (options : RunOptions) (curAppRef : Reference) (c : RunContext)
    (item : RepositoryCacheLayersItem) : result (RunContext * cfg_builder) :=
  match h_getenv h (lit "HOME") with
  | None => Err err_default
  | Some home =>
      let '(c, r) := fillContextCfg s (ru_permissions e) (h_getenv h) (ru_uid e) (h_exists h) (ru_bundle e) c fresh_cfg in
      cc <-r r ;;
      cc <-r secured cc ;;
      if negb (h_create_directories h (path_div (cc_bundlePath cc) (lit "init"))) then Err err_default
      else
        b <-r run_cfg curAppRef cc None home (rn_envs options) ;;
        cache <-r ensureCache item curAppRef b ;;
        b <-r run_cfg curAppRef cc (Some (fst cache, true)) home (rn_envs options) ;;
        Ok (c, enableLDCache b)
  end.

Definition run_start (s : OSTreeRepo) (options : RunOptions) (curAppRef : Reference) (c : RunContext)
    (item : RepositoryCacheLayersItem) (commands : list str) : run_outcome :=
  match run_builder s options curAppRef c item with
  | Err code => stopped code
  | Ok (c, b) =>
      match build h b with
      | Err code => stopped code
      | Ok built =>
          match ru_dump_started e with
          | NotDumped => Exits (-1)
          | Gone => Dies
          | Dumped => Starts (stateInfo c) built commands (if ru_runs e then 0 else -1)
          end
      end
  end.

Definition cli_run (s : OSTreeRepo) (options : RunOptions) : run_outcome :=
  match run_prepare s options with
  | Err code => stopped code
  | Ok (curAppRef, c, item) =>
      let commands := run_commands options item in
      match running curAppRef with
      | None => run_start s options curAppRef c item commands
      | Some container =>
          match ru_dump_delegated e with
          | NotDumped => Exits (-1)
          | Gone => Dies
          | Dumped =>
              if delegate (co_id container) commands then Delegates (stateInfo c) (co_id container) commands
              else run_start s options curAppRef c item commands
          end
      end
  end.

End run.

(** ** The parent of a process *)

(** The text of a process whose name has no blanks. *)
Definition stat_text (pid ppid : Z) (text : str) : Prop := exists name state rest,
  text = dec pid ++ lit " (" ++ name ++ lit ") " ++ state ++ lit " " ++ dec ppid ++ lit " " ++ rest /\
  (" "%char ∉ name) /\ (" "%char ∉ state).

Lemma digits_no_blank n : 0 <= n -> " "%char ∉ dec n.
Proof.
  intros Hn Hc. pose proof (dec_digits n Hn) as Hd. rewrite forallb_forall in Hd.
  specialize (Hd _ (proj1 (list_elem_of_In _ _) Hc)). discriminate Hd.
Qed.

Lemma after_blanks_field n w rest : (" "%char ∉ w) -> after_blanks (S n) (w ++ " "%char :: rest) = after_blanks n rest.
Proof.
  induction w as [|c w IH]; intros Hw; cbn [app after_blanks]; [by rewrite bool_decide_true|].
  rewrite bool_decide_false by set_solver. apply IH. set_solver.
Qed.

Lemma find_char_app d w rest : (d ∉ w) -> find_char d (w ++ d :: rest) = Some (length w).
Proof.
  induction w as [|c w IH]; intros Hw; cbn [app find_char]; [by rewrite decide_True|].
  rewrite decide_False by set_solver. rewrite IH by set_solver. done.
Qed.

Lemma span_all f s : forallb f s = true -> span f s = (s, []).
Proof. induction s as [|c s IH]; [done|]. cbn. intros [-> Hs]%andb_prop. by rewrite IH. Qed.

Lemma from_chars_dec n : 0 <= n <= i32_max -> from_chars (dec n) = Some n.
Proof.
  intros Hn. unfold from_chars. pose proof (dec_digits n (proj1 Hn)) as Hd. pose proof (dec_nonempty n (proj1 Hn)) as Hne.
  assert (E : (match dec n with "-"%char :: s => (-1, s) | _ => (1, dec n) end) = (1, dec n)).
  { destruct (dec n) as [|c s]; [done|]. cbn in Hd. apply andb_prop in Hd as [Hc _].
    destruct (decide (c = "-"%char)) as [->|Hm]; [discriminate Hc|]. destruct c as [[] [] [] [] [] [] [] []]; done. }
  rewrite E, span_all by done. cbn [fst]. rewrite bool_decide_false by done. rewrite undec_dec, Z.mul_1_l by lia.
  destruct (Z.leb_spec (- 2 ^ 31) n); [|lia]. destruct (Z.leb_spec n i32_max); [done|lia].
Qed.

Lemma getppid_text pid ppid text : 0 <= pid -> 0 <= ppid <= i32_max -> stat_text pid ppid text -> getppid text = Ok ppid.
Proof.
  intros Hp Hpp (name & state & rest & -> & Hn & Hs). unfold getppid.
  change (lit " (" ++ name ++ lit ") " ++ state ++ lit " " ++ dec ppid ++ lit " " ++ rest)
    with (" "%char :: ("("%char :: name ++ lit ") " ++ state ++ lit " " ++ dec ppid ++ lit " " ++ rest)).
  rewrite after_blanks_field by by apply digits_no_blank.
  replace ("("%char :: name ++ lit ") " ++ state ++ lit " " ++ dec ppid ++ lit " " ++ rest)
    with (("("%char :: name ++ [")"%char]) ++ " "%char :: (state ++ " "%char :: (dec ppid ++ " "%char :: rest)))
    by (cbn; by rewrite <- app_assoc).
  rewrite after_blanks_field by set_solver. rewrite after_blanks_field by done.
  assert (Ea : after_blanks 0 (dec ppid ++ " "%char :: rest) = Some (dec ppid ++ " "%char :: rest)) by by destruct (dec ppid).
  rewrite Ea, find_char_app by (apply digits_no_blank; lia). rewrite take_app_length. by rewrite from_chars_dec.
Qed.

Section children.
Variable stat : Z -> option str.
Variable ppid : Z -> Z.

(** The [n]-th process above, and what the loop needs to be told of it. *)
Abbreviation above n pid := (Nat.iter n ppid pid).
Definition known_process (pid : Z) : Prop :=
  0 < pid /\ 0 <= ppid pid <= i32_max /\ exists text, stat pid = Some text /\ stat_text pid (ppid pid) text.

(** C38: with a readable ancestry that ends at process 0 the loop ends, and says
    yes exactly when the process is the other one or one of its descendants by
    way of processes whose numbers are not smaller. *)
Theorem isChildProcess_spec parent pid n : 0 < parent -> (forall i, (i <= n)%nat -> known_process (above i pid)) ->
  above (S n) pid = 0 ->
  exists b, isChildProcess stat (S n) parent pid = Some (Ok b) /\
    (b = true <-> exists k, (k <= n)%nat /\ above k pid = parent /\ forall i, (i < k)%nat -> parent <= above (S i) pid).
Proof.
  intros Hpar. revert pid. induction n as [|n IH]; intros pid Hk H0; cbn [isChildProcess].
  all: destruct (Z.eqb_spec pid parent) as [->|Hne]; [exists true; split; [done|]; split; [intros _; exists O; split; [lia|]; split; [done|lia]|done]|].
  all: destruct (Hk 0%nat ltac:(lia)) as (Hp & Hpp & text & Et & Hs); cbn in Et, Hs, Hp, Hpp; rewrite Et, (getppid_text pid (ppid pid) text) by (done || lia).
  - cbn in H0. rewrite H0. destruct (Z.ltb_spec 0 parent); [|lia]. exists false. split; [done|]. split; [done|].
    intros (k & Hk0 & E & _). assert (k = O) as -> by lia. done.
  - destruct (Z.ltb_spec (ppid pid) parent) as [Hlt|Hge].
    + exists false. split; [done|]. split; [done|]. intros ([|k] & _ & E & Hall); [done|]. specialize (Hall 0%nat ltac:(lia)).
      cbn in Hall. lia.
    + destruct (IH (ppid pid)) as (b & Eb & Hb).
      { intros i Hi. rewrite <- Nat.iter_succ_r. apply Hk. lia. }
      { rewrite <- Nat.iter_succ_r. exact H0. }
      exists b. split; [exact Eb|]. rewrite Hb. split.
      * intros (k & Hkn & E & Hall). exists (S k). split; [lia|]. rewrite Nat.iter_succ_r. split; [done|].
        intros [|i] Hi; [done|]. rewrite Nat.iter_succ_r. apply Hall. lia.
      * intros ([|k] & Hkn & E & Hall); [done|]. exists k. split; [lia|]. rewrite <- Nat.iter_succ_r. split; [done|].
        intros i Hi. rewrite <- Nat.iter_succ_r. apply Hall. lia.
Qed.

End children.

(** ** Containers by the name of their application *)

Section named.
Context `{Hq : QtOk}.

(** The reference a container is recorded with; no part of it stands for nothing. *)
Definition names_package (r : Reference) (c : CliContainer) : Prop :=
  co_package c = ref_toString r /\ wf_reference r /\ ("/"%char ∉ ref_channel r) /\
  ref_channel r <> lit "unknown" /\ ver_toString (ref_version r) <> lit "unknown".

Lemma package_name_ref r c : names_package r c -> Z.of_nat (length (ref_id r)) < 2 ^ 64 -> package_name (co_package c) = ref_id r.
Proof using Hq.
  intros (-> & ([_ Hc] & [_ Hi] & _) & Hs & _) Hl. unfold package_name. set (ch := ref_channel r) in *. set (id := ref_id r) in *.
  set (rest := ver_toString (ref_version r) ++ lit "/" ++ arch_toStdString (ref_arch r)).
  assert (E : ref_toString r = ch ++ ":"%char :: id ++ "/"%char :: rest) by done.
  assert (E2 : ref_toString r = (ch ++ ":"%char :: id) ++ "/"%char :: rest) by by rewrite E, <- app_assoc.
  rewrite E at 1. rewrite find_char_app by done. rewrite E2 at 1. rewrite find_char_app by set_solver.
  unfold substr. rewrite length_app. cbn [length].
  replace (Z.of_nat (length ch + S (length id)) - Z.of_nat (length ch) - 1) with (Z.of_nat (length id)) by lia.
  replace (Z.to_nat (Z.of_nat (length ch) + 1)) with (S (length ch)) by lia.
  assert (Ed : drop (S (length ch)) (ref_toString r) = id ++ "/"%char :: rest).
  { rewrite E. replace (S (length ch)) with (length ch + 1)%nat by lia. by rewrite <- drop_drop, drop_app_length. }
  rewrite Ed. assert (Eu : u64 (Z.of_nat (length id)) = Z.of_nat (length id)) by (unfold wrap_u; rewrite Z.mod_small; lia).
  rewrite Eu, length_app. cbn [length]. destruct (Z.leb_spec (Z.of_nat (length id + S (length rest))) (Z.of_nat (length id))); [lia|].
  by rewrite Nat2Z.id, take_app_length.
Qed.

Lemma kill_matches_ref r c appid : names_package r c ->
  kill_matches appid c = bool_decide (ref_id r = appid) || bool_decide (ref_toString r = appid).
Proof using Hq.
  intros (E & (Hc & Hi & Hv & _ & Ha) & _ & Uc & Uv). unfold kill_matches. rewrite E.
  set (f := mkFuzzy (Some (ref_channel r)) (ref_id r) (Some (ver_toString (ref_version r))) (Some (ref_arch r))).
  change (ref_toString r) with (fuzzy_toString f) at 1. rewrite (fuzzy_parse_print f); [done|].
  split_and!; [by split|done|by split|]. by intros [= ?].
Qed.

(** [kill] signals the containers of an application and no others, and
    [enter] goes into the first of them. *)
Theorem containers_named killed l appid (refs : CliContainer -> Reference) commands :
  Forall (fun c => names_package (refs c) c /\ Z.of_nat (length (ref_id (refs c))) < 2 ^ 64 /\ co_id c <> []) l -> "/"%char ∉ appid ->
  let mine := List.filter (fun c => bool_decide (ref_id (refs c) = appid)) l in
  cli_kill killed (Ok l) appid = (co_id <$> mine, if forallb killed (co_id <$> mine) then 0 else -1) /\
  enter (Ok l) appid commands =
    match mine with
    | c :: _ => Ok (co_id c, if bool_decide (commands = []) then generateDefaultBashCommand else commands)
    | [] => Err err_default
    end.
Proof using Hq.
  intros Hl Happ mine. rewrite Forall_forall in Hl.
  assert (Ek : List.filter (kill_matches appid) l = mine).
  { apply filter_ext_in. intros c Hc%list_elem_of_In. destruct (Hl c Hc) as (Hn & _). rewrite (kill_matches_ref (refs c)) by done.
    rewrite (bool_decide_false (ref_toString (refs c) = appid)); [apply orb_false_r|].
    intros <-. apply Happ. unfold ref_toString. set_solver. }
  split; [unfold cli_kill; by rewrite Ek|]. unfold enter. cbn [res_bind]. clear Ek.
  assert (Ef : List.find (fun c => bool_decide (package_name (co_package c) = appid)) l = head mine).
  { unfold mine. clear mine. induction l as [|c l IH]; [done|]. cbn.
    destruct (Hl c ltac:(left)) as (Hn & Hlen & _). rewrite (package_name_ref (refs c)) by done.
    case_bool_decide; [done|]. apply IH. intros x Hx. apply Hl. by right. }
  assert (Hm : forall x, x ∈ mine -> x ∈ l) by (intros x [Hx _]%list_elem_of_In%filter_In; by apply list_elem_of_In).
  rewrite Ef. destruct mine as [|c rest]; cbn [head]; [by rewrite bool_decide_true|].
  destruct (Hl c (Hm c ltac:(left))) as (_ & _ & Hid). by rewrite (bool_decide_false (co_id c = [])).
Qed.

End named.

(** ** The builder of a run *)

(** What the setters leave as it was, or set to known values. *)
Record told (home : str) (b : cfg_builder) : Prop := {
  td_home : b_homePath b = Some home;
  td_root : at_ b hostRootMount = at_ (bindHostRoot b) hostRootMount
}.

Section builder.
Context `{MapOrder} `{StdSort}.
Variable h : host.
Variable e : run_env.

Hypothesis no_links : forall p target, h_readlink h p <> Ok (Some target).

Lemma run_setters_setup s exts home b : run_setters h home (new_builder s) = Ok b ->
  setup h s exts b /\ told home b /\ b_slot b extraMount = None.
Proof using no_links.
  unfold run_setters. intros E. apply res_bind_ok in E as (b1 & E1 & E). injection E as <-.
  assert (S1 : setup h s exts b1).
  { apply (setup_devices h s exts (bindDefault (new_builder s))); [|reflexivity|exact E1].
    apply setup_simple; [apply setup_new|]. apply list_elem_of_In. cbn [simple_setters In]. tauto. }
  assert (F1 : frame [devNodeMount] (bindDefault (new_builder s)) b1).
  { unfold bindDevNode in E1. destruct (h_dev h) as [names|]; [|done]. injection E1 as <-. apply bind_devices. }
  set (b2 := bindUserGroup (bindXDGRuntime h (bindCgroup b1))).
  destruct (removable_upto h s exts [] no_links b2) as [_ F2]. set (b3 := bindRemovableStorageMounts h b2) in *.
  assert (FR : frame [hostRootMount] b3 (bindHostRoot b3)) by apply frame_slot.
  destruct (bindHostStatics_upto h s exts [] (bindHostRoot b3)) as [_ F3]. set (b4 := bindHostStatics h (bindHostRoot b3)) in *.
  assert (S4 : setup h s exts b4).
  { unfold b4, b3, b2. repeat (apply setup_simple; [|by apply list_elem_of_In; cbn [simple_setters In]; tauto]). exact S1. }
  assert (Em : b_privateMappings b4 = None).
  { rewrite (fr_mappings _ _ _ F3), (fr_mappings _ _ _ FR), (fr_mappings _ _ _ F2).
    exact (fr_mappings _ _ _ F1). }
  assert (Er : at_ b4 hostRootMount = at_ (bindHostRoot b1) hostRootMount).
  { rewrite (frame_at _ _ _ hostRootMount F3) by set_solver. unfold bindHostRoot. by rewrite !at_slot. }
  assert (Ee : b_slot b4 extraMount = None).
  { rewrite (fr_slot _ _ _ F3), (fr_slot _ _ _ FR), (fr_slot _ _ _ F2) by set_solver. unfold b2. cbn.
    rewrite !fn_lookup_insert_ne by done. rewrite (fr_slot _ _ _ F1) by set_solver. reflexivity. }
  clearbody b4. clear F3 FR F2.
  split; [|split].
  - apply setup_forward, setup_simple; [|by apply list_elem_of_In; cbn [simple_setters In]; tauto].
    apply (setup_private _ _ _ _ home (lit ".gnupg")); [|reflexivity|by apply (bool_decide_unpack _)].
    apply (setup_private _ _ _ _ home (lit ".ssh")); [|reflexivity|by apply (bool_decide_unpack _)].
    apply setup_simple; [|by apply list_elem_of_In; cbn [simple_setters In]; tauto]. apply setup_home; [exact S4|exact Em].
  - split; [reflexivity|]. unfold bindHostRoot in *. rewrite at_slot in *. rewrite <- Er. unfold at_. cbn.
    by rewrite !fn_lookup_insert_ne by done.
  - cbn. by rewrite !fn_lookup_insert_ne by done.
Qed.

Lemma append_options_setup s exts home envs b b' : append_options envs b = Ok b' -> setup h s exts b -> told home b ->
  setup h s exts b' /\ told home b'.
Proof.
  revert b. induction envs as [|env envs IH]; intros b; cbn [append_options]; [by intros [= <-]|].
  destruct (find_char "=" env); [|done]. intros E Hs [T1 T2]. apply (IH _ E); [by apply setup_append1|by split].
Qed.

Lemma ld_cache_simple : enableLDCache ∈ simple_setters h.
Proof. apply list_elem_of_In. cbn [simple_setters In]. tauto. Qed.

(** A context without mounts of its own. *)
Definition plain_context (exts : list (str * str)) (cc : context_cfg) : Prop :=
  cc_extraMount cc = None /\ default [] (cc_extensionMount cc) = extension_mount <$> exts.

Lemma run_cfg_setup exts appRef cc cache home envs b : plain_context exts cc -> run_cfg h e appRef cc cache home envs = Ok b ->
  setup h (run_settings e appRef cc cache) exts b /\ told home b.
Proof using no_links.
  intros [Hx He] E. unfold run_cfg in E. apply res_bind_ok in E as (b1 & E1 & E).
  apply (run_setters_setup _ exts) in E1 as (S1 & [T1 T2] & X1). set (s := run_settings _ _ _ _) in *.
  unfold fill_members in E. rewrite Hx in E. eapply append_options_setup; [exact E|..].
  - apply setup_init.
    + apply setup_append. destruct (cc_extensionMount cc) as [mounts|]; [|done]. cbn [default from_option id] in He. rewrite He.
      by apply setup_extensions.
    + destruct (cc_extensionMount cc); [|done]. cbn. by rewrite fn_lookup_insert_ne by done.
  - split; [by destruct (cc_extensionMount cc)|]. unfold at_ in *. cbn. destruct (cc_extensionMount cc) as [mounts|]; cbn;
      rewrite !fn_lookup_insert_ne by done; rewrite T2; cbn; by rewrite !fn_lookup_insert.
Qed.

End builder.

(** ** Running *)

(** The extensions of a context with their directories. *)
Definition extension_dirs (c : RunContext) : list (str * str) :=
  (fun l => (ref_id (rl_reference l), files_of (default [] (rl_layerDir l)))) <$> extensionLayers c.

Section running_facts.
Context `{Client} `{Qt} `{StdSort} `{Json} `{Yaml} `{MapOrder}.
Variable curArch : result Architecture.
Variable repoDir : str.
Variable dir_exists : str -> bool.
Variable sha256_hex : str -> str.
Variable driver : option str.
Variable checkout : str -> result unit.
Variable debug : bool.
Variable now : Z.
Variable root : str.
Variable s : OSTreeRepo.

Lemma extension_mounts_dirs c l mounts : extensionOutput c = None -> extension_mounts c l = Ok mounts ->
  mounts = extension_mount <$> ((fun l => (ref_id (rl_reference l), files_of (default [] (rl_layerDir l)))) <$> l).
Proof.
  intros Ho. revert mounts. induction l as [|x l IH]; intros mounts; cbn [extension_mounts]; [by intros [= <-]|].
  rewrite Ho, (bool_decide_false (is_Some (A := str) None)) by by intros [? ?]. cbn [andb].
  unfold layer_files. destruct (rl_layerDir x) as [dir|] eqn:Ed; [|done]. cbn [res_bind].
  destruct (extension_mounts c l) as [m|]; [|done]. intros [= <-]. rewrite (IH m eq_refl). cbn. by rewrite Ed.
Qed.

Section fill.
Variable permissions : PackageInfoV2 -> option Permissions.
Variables (getenv : str -> option str) (uid : Z) (exists_ : str -> result bool) (makeBundleDir : str -> result str).
Hypothesis no_binds : forall info, permissions info = None.

Lemma no_permissions dir l extra r : fillPermissionsBinds s permissions dir l extra = Ok r -> r = extra.
Proof using no_binds.
  unfold fillPermissionsBinds. destruct (getCachedItem s l); [|done]. cbn. rewrite no_binds. by intros [= <-].
Qed.

Lemma no_extension_binds dir l extra r : fill_extensions s permissions dir l extra = Ok r -> r = extra.
Proof using no_binds.
  revert extra. induction l as [|x l IH]; intros extra; cbn [fill_extensions]; [by intros [= <-]|].
  destruct (fillPermissionsBinds s permissions dir x extra) as [r0|code] eqn:E.
  - apply no_permissions in E as ->. cbn. apply IH.
  - cbn. destruct (code =? terminated); cbn; [done|apply IH].
Qed.

Lemma fill_plain c c' cc : fillContextCfg s permissions getenv uid exists_ makeBundleDir c fresh_cfg = (c', Ok cc) ->
  no_outputs c -> plain_context (extension_dirs c) cc /\ stateInfo c' = stateInfo c /\
  (forall p ro, cc_runtimePath cc = Some (p, ro) -> ro = true) /\ (forall p ro, cc_appPath cc = Some (p, ro) -> ro = true).
Proof using no_binds.
  unfold fillContextCfg. intros E (O1 & O2 & O3). destruct (baseLayer c) as [base|]; [|done].
  destruct (makeBundleDir (containerID c)) as [dir|]; [|done]. apply pair_equal_spec in E as [<- E].
  apply res_bind_ok in E as (basePath & _ & E). cbn [appOutput appLayer runtimeOutput runtimeLayer set_bundle] in E. rewrite O1, O2 in E.
  apply res_bind_ok in E as (appPath & Ea & E). apply res_bind_ok in E as (runtimePath & Er & E).
  apply res_bind_ok in E as (mounts & Em & E). cbn [extensionOutput extensionLayers set_bundle] in E, Em. rewrite O3 in E.
  apply res_bind_ok in E as (extra & Ex & E). injection E as <-.
  apply extension_mounts_dirs in Em; [|done].
  assert (extra = None) as ->.
  { unfold fillExtraAppMounts in Ex. apply res_bind_ok in Ex as (x & E1 & E2). apply no_extension_binds in E2 as ->.
    cbn [appLayer set_bundle] in E1. destruct (appLayer c); [by apply no_permissions in E1|by injection E1 as <-]. }
  assert (Hro : forall l p, output_or_layer None l = Ok p -> forall q ro, p = Some (q, ro) -> ro = true).
  { intros [l|] p; cbn [output_or_layer]; [|intros [= <-]; done]. destruct (layer_files l); [|done]. by intros [= <-] q ro [= <- <-]. }
  split_and!; [|reflexivity|..].
  - split; [done|]. cbn. rewrite Em. unfold extension_dirs. case_bool_decide as Hn; [by rewrite Hn|done].
  - intros p ro. cbn. destruct runtimePath as [x|]; [|done]. intros [= ->]. exact (Hro _ _ Er p ro eq_refl).
  - intros p ro. cbn. destruct appPath as [x|]; [|done]. intros [= ->]. exact (Hro _ _ Ea p ro eq_refl).
Qed.

End fill.

Abbreviation prepare e := (run_prepare curArch repoDir dir_exists sha256_hex driver checkout debug now e s).
Abbreviation running_cli h e := (cli_run curArch repoDir dir_exists sha256_hex driver checkout debug now root h e s).

(** What [run] goes on with: a resolved application. *)
Lemma prepared e options appRef c item : prepare e options = Ok (appRef, c, item) ->
  ru_uid e <> 0 /\ (exists fuzzy, fuzzy_parse (rn_appid options) = Ok fuzzy /\ find_installed curArch s fuzzy = Ok appRef) /\
  no_outputs c /\ exists app, appLayer c = Some app /\ rl_reference app = appRef.
Proof.
  unfold run_prepare. destruct (Z.eqb_spec (ru_uid e) 0) as [|Hu]; [done|]. cbn [orb]. destruct (_ || _); [done|]. intros E.
  apply res_bind_ok in E as (fuzzy & Ef & E). apply res_bind_ok in E as (ref & Er & E).
  destruct (resolve _ _ _ _ _ _ _ _ _ _ _ _) as [c0 [[]|]] eqn:Eres; [|done].
  destruct (logged_paths c0) eqn:El; [|done]. cbn [negb] in E. apply res_bind_ok in E as (item0 & Ei & E). injection E as <- <- <-.
  destruct (resolve_filled _ _ _ _ _ _ _ _ _ _ _ _ Eres) as (x & _ & Hf). revert Hf. case_bool_decide as Hb; intros Hf.
  - unfold logged_paths in El. rewrite Hf in El. cbn [new_layer rl_layerDir] in El. by rewrite bool_decide_false in El by by intros [? ?].
  - destruct Hf as [_ _ _ Ha Ho]. split; [done|]. split; [by exists fuzzy|]. split; [done|]. unfold getCachedAppItem in Ei.
    destruct (appLayer c0) as [app|]; [|done]. exists app. split; [done|]. by apply Ha.
Qed.

Lemma started h e options st built commands code : running_cli h e options = Starts st built commands code ->
  exists appRef c item c' b, prepare e options = Ok (appRef, c, item) /\ commands = run_commands h e options item /\
    run_builder root h e s options appRef c item = Ok (c', b) /\ build h b = Ok built /\ st = stateInfo c'.
Proof.
  unfold cli_run. destruct (prepare e options) as [[[appRef c] item]|code'] eqn:Ep; [|by unfold stopped; destruct (_ =? _)].
  intros E. assert (Es : run_start root h e s options appRef c item (run_commands h e options item) = Starts st built commands code).
  { destruct (running e appRef); [|done]. destruct (ru_dump_delegated e); [|done..]. by destruct (delegate _ _ _). }
  clear E. unfold run_start in Es. destruct (run_builder _ _ _ _ _ _ _ _) as [[c' b]|c'] eqn:Eb; [|by unfold stopped in Es; destruct (_ =? _)].
  destruct (build h b) as [built'|c''] eqn:Ebd; [|by unfold stopped in Es; destruct (_ =? _)].
  destruct (ru_dump_started e); [|done..]. injection Es as <- <- <- <-. by exists appRef, c, item, c', b.
Qed.

(** The host and the resolved context of a run: proper names, each once, and a
    home directory that is not one of the system's. *)
Record run_ok (h : host) (appRef : Reference) (c : RunContext) : Prop := {
  rk_uid : 0 <= h_euid h;
  rk_app : file_name (ref_id appRef);
  rk_links : forall p target, h_readlink h p <> Ok (Some target);
  rk_exts : Forall (fun x : str * str => file_name x.1) (extension_dirs c) /\ NoDup ((fst : str * str -> str) <$> extension_dirs c);
  rk_devices : Forall file_name (devices h) /\ NoDup (devices h);
  rk_home : forall home, h_getenv h (lit "HOME") = Some home ->
    exists n rest, components home = n :: rest /\ (n ∉ system_dirs) /\ (n = lit "home" -> rest <> [])
}.

Lemma built_setup h e options appRef c item c' b : run_builder root h e s options appRef c item = Ok (c', b) ->
  no_outputs c -> (forall info, ru_permissions e info = None) -> run_ok h appRef c ->
  setup h (b_set b) (extension_dirs c) b /\ host_ok h (b_set b) (extension_dirs c) /\ home_ok b /\ layers_ro (b_set b) /\
  (s_selfAdjusting (b_set b) = true /\ snd (s_basePath (b_set b)) = true) /\ at_ b hostRootMount = at_ (bindHostRoot b) hostRootMount /\ stateInfo c' = stateInfo c.
Proof.
  unfold run_builder. intros E Ho Hp [K1 K2 K3 K4 K5 K6]. destruct (h_getenv h (lit "HOME")) as [home|]; [|done].
  destruct (fillContextCfg _ _ _ _ _ _ _ _) as [c1 r] eqn:Ef. apply res_bind_ok in E as (cc & -> & E).
  apply fill_plain in Ef as ([P1 P2] & Est & R1 & R2); [|done..]. apply res_bind_ok in E as (cc' & Es & E).
  assert (Hcc : plain_context (extension_dirs c) cc' /\
    (forall p ro, cc_runtimePath cc' = Some (p, ro) -> ro = true) /\ (forall p ro, cc_appPath cc' = Some (p, ro) -> ro = true)).
  { unfold secured in Es. destruct (ru_security e) as [[socket|]|]; [injection Es as <-|injection Es as <-|done]; by split_and!. }
  clear Es P1 P2 R1 R2. destruct Hcc as (Pc & R1 & R2). destruct (negb _); [done|].
  apply res_bind_ok in E as (b0 & _ & E). apply res_bind_ok in E as (cache & _ & E). apply res_bind_ok in E as (b1 & E1 & E).
  apply pair_equal_spec in E as [-> E] || injection E as <- <-.
  destruct (run_cfg_setup h e K3 _ _ _ _ _ _ _ Pc E1) as [S [T1 T2]]. set (st := run_settings _ _ _ _) in *.
  assert (Eb : b_set b1 = st).
  { pose proof (setup_as_set h st (extension_dirs c) [] K3 (proj1 K4) (proj1 K5) b1 S) as A. apply (as_settings _ _ _ _ _ A). }
  cbn [b_set enableLDCache set_slot]. rewrite Eb. split_and!.
  - apply setup_simple; [exact S|apply ld_cache_simple].
  - by split.
  - intros p. cbn. rewrite T1. intros [= <-]. by apply K6.
  - split; intros p ro; cbn; [apply R1|apply R2].
  - done.
  - done.
  - unfold bindHostRoot in T2 |- *. rewrite at_slot in T2 |- *. rewrite <- T2. unfold at_, enableLDCache. cbn. by rewrite fn_lookup_insert_ne.
  - done.
Qed.

(** C9: a container that [run] starts for an application for which no
    permissions mount anything, on a host without patches, where [/media] and
    [/mnt] are no links, extensions, devices and directory entries have proper
    names, each once, and [HOME] is not below a directory of the system nor
    [/home] itself: every mount the builder collected is in the configuration of
    the container, as it was or turned into a tmpfs at the same place (the
    adjustment does that, and then its source is gone from the list); nothing in
    the configuration hides a mount before it; and whatever the configuration
    mounts below [/etc], [/opt], [/runtime], [/usr] and [/var] is read-only, a
    copied link, a tmpfs, or the bind of a directory entry right below the tmpfs
    at [/opt] or a copied link. *)
Theorem run_container h e options st built commands code :
  running_cli h e options = Starts st built commands code ->
  (forall info, ru_permissions e info = None) -> h_patches h = None -> names_ok (h_before h) -> names_ok (h_after h) ->
  (forall appRef c item, prepare e options = Ok (appRef, c, item) -> run_ok h appRef c) ->
  exists appRef c item c' b b1 out, prepare e options = Ok (appRef, c, item) /\ st = stateInfo c /\
    run_builder root h e s options appRef c item = Ok (c', b) /\ collect_mounts h b = Ok b1 /\
    c_mounts (b_config built) = Some out /\
    (forall m, m ∈ merged b1 -> exists m', m' ∈ out /\ becomes m m') /\
    (forall i j m m', (i < j)%nat -> out !! i = Some m -> out !! j = Some m' -> ~ dest m' `prefix_of` dest m) /\
    (forall m n rest, m ∈ out -> dest m = n :: rest -> n ∈ protected_dirs -> ro_or_tmpfs (merged b1) m).
Proof.
  intros E Hp Hn N1 N2 Hok. destruct (started _ _ _ _ _ _ _ E) as (appRef & c & item & c' & b & Ep & _ & Eb & Ebd & ->).
  pose proof (Hok _ _ _ Ep) as K. destruct (prepared _ _ _ _ _ Ep) as (_ & _ & Ho & _).
  destruct (built_setup _ _ _ _ _ _ _ _ Eb Ho Hp K) as (S & O & Hh & Hro & [Ha Hb] & _ & Est).
  pose proof Ebd as Ec. unfold build in Ec. apply res_bind_ok in Ec as (b1 & Ec & _).
  destruct (build_kept h _ _ b b1 built O S Hh N1 N2 Ha (or_intror Hn) Ec Ebd) as (out & Eo & Hk & Hv & G).
  exists appRef, c, item, c', b, b1, out. split_and!; [done..|]. exact (G Hro Hb).
Qed.

(** *** Files that are given to an application *)

(** The mount a path is looked up in -- the last one on the way to it -- and
    what is left of the path there. *)
Fixpoint looked_up (mounts : list Mount) (p : list str) : option (str * list str) :=
  match mounts with
  | [] => None
  | m :: rest =>
      match looked_up rest p with
      | Some x => Some x
      | None => if bool_decide (dest m `prefix_of` p) then Some (default [] (mt_source m), drop (length (dest m)) p) else None
      end
  end.

(** A path without ".." and without a symbolic link, itself included. *)
Definition straight (is_link : list str -> bool) (p : list str) : bool :=
  negb (bool_decide (lit ".." ∈ p)) && forallb (fun k => negb (is_link (take k p))) (seq 0 (S (length p))).

(** Where a path of the container leads: to a path below the source of its
    mount, when that one is straight there.  Otherwise a link decides, which
    the container may follow elsewhere, and nothing is said. *)
Definition leads (links : str -> list str -> bool) (mounts : list Mount) (p : list str) : option (str * list str) :=
  '(source, q) ← looked_up mounts p; if straight (links source) q then Some (source, q) else None.

Lemma looked_up_app l1 l2 p : looked_up (l1 ++ l2) p = match looked_up l2 p with Some x => Some x | None => looked_up l1 p end.
Proof. induction l1 as [|m l1 IH]; cbn; [by destruct (looked_up l2 p)|]. rewrite IH. by destruct (looked_up l2 p). Qed.

Lemma looked_up_none l p : Forall (fun m => ~ dest m `prefix_of` p) l -> looked_up l p = None.
Proof. induction 1 as [|m l Hm Hl IH]; [done|]. cbn. by rewrite IH, bool_decide_false. Qed.

Lemma components_from_root p : components p <> [] -> is_absolute (from_root p) = false /\ components (from_root p) = components p.
Proof.
  intros Hn. unfold from_root. pose proof (components_names p) as Hf. destruct (components p) as [|n l] eqn:E; [done|].
  pose proof (join_relative _ Hf) as Hr. split.
  - unfold is_absolute in *. destruct (join (lit "/") (n :: l)) as [|c j] eqn:Ej; [|done]. by apply join_empty in Ej.
  - destruct (has_filename p); [rewrite app_nil_r; by apply components_join|].
    change (lit "/") with ("/"%char :: []) at 2. rewrite components_app, components_join by done. apply app_nil_r.
Qed.

Lemma rootfs_uncovered appId uid home exts devs k rest :
  (exists n r, home = n :: r /\ n ∉ system_dirs) ->
  k ∈ [hostStaticsMount; homeMount; displayMount; ipcMount; cacheMount; ldCacheMount; localtimeMount; networkConfMount;
       privateMount; envMount; extraMount] ->
  Forall (fun d => ~ d `prefix_of` lit "run" :: lit "host" :: lit "rootfs" :: rest) (places appId uid home exts devs k).
Proof.
  intros (n & r & -> & Hn) Hk. assert (Hr : n <> lit "run") by (intros ->; apply Hn; by apply (bool_decide_unpack _)).
  destruct (decide (k ∈ at_home)) as [Hh|Hh].
  - apply Forall_forall. intros d Hd. apply at_home_places in Hd as [->|(z & ->)]; [by intros [? E]|by intros [? [= E _]]|done].
  - apply list_elem_of_In in Hk. cbn [In] in Hk.
    destruct_or! Hk; subst; try done; try (exfalso; apply Hh; by apply (bool_decide_unpack _));
      cbn [places]; repeat (apply Forall_cons; split; [intros [? E]; discriminate E|]); apply Forall_nil; exact I.
Qed.

(** C15: a file outside of [/home] that is given to an application reaches it:
    [mappingFile] is given an absolute path; what the path stands for -- itself,
    or where it leads if its last component is a symbolic link -- is not below
    [/home/] nor the root, has no ".." and no symbolic link on its way.  Then in
    the mounts that are collected for the run (of an application for which no
    permissions mount anything, on a host as in C9) the path the application is
    told leads to that very path of the host: nothing is mounted over the root
    of the host.  A file below a linked directory, which [mappingFile] does not
    resolve, is left out. *)
Theorem file_reaches h e options appRef c item c' b b1 (links : str -> list str -> bool)
  (is_symlink : str -> bool) (realpath : str -> option str) (file : str)
  (target := if is_symlink file then default file (realpath file) else file) :
  prepare e options = Ok (appRef, c, item) -> run_builder root h e s options appRef c item = Ok (c', b) ->
  (forall info, ru_permissions e info = None) -> run_ok h appRef c -> collect_mounts h b = Ok b1 ->
  is_absolute file = true -> is_prefix (lit "/home/") target = false -> components target <> [] ->
  straight (links (lit "/")) (components target) = true ->
  leads links (merged b1) (components (mappingFile is_symlink realpath file)) = Some (lit "/", components target).
Proof.
  intros Ep Eb Hp K Ec Ha Hh Ht Hs0. destruct (prepared _ _ _ _ _ Ep) as (_ & _ & Ho & _).
  destruct (built_setup _ _ _ _ _ _ _ _ Eb Ho Hp K) as (S & O & Hho & _ & _ & Er & _).
  destruct (collected_places h _ _ b b1 O S Hho Ec) as (_ & home & _ & (n & rest & -> & Hn & _) & _ & Hs & U).
  assert (Em : components (mappingFile is_symlink realpath file) =
               lit "run" :: lit "host" :: lit "rootfs" :: components target).
  { unfold mappingFile. rewrite Ha. cbn [negb]. fold target. rewrite Hh. destruct (components_from_root target Ht) as [A C].
    unfold path_div. rewrite A. change (has_filename (lit "/run/host/rootfs")) with true. cbv iota. rewrite components_app, C. done. }
  rewrite Em. set (p := _ :: _). set (before := [runtimeMount; appMount; extensionMount; sysMount; procMount; devMount; devNodeMount;
    cgroupMount; runMount; tmpMount; UGMount; removableStorageMounts]).
  set (after := [hostStaticsMount; homeMount; displayMount; ipcMount; cacheMount; ldCacheMount; localtimeMount; networkConfMount;
    privateMount; envMount; extraMount]).
  assert (E : merged b1 = mjoin (at_ b1 <$> before) ++ at_ (bindHostRoot b) hostRootMount ++ mjoin (at_ b1 <$> after)).
  { rewrite <- Er. assert (Eh : at_ b1 hostRootMount = at_ b hostRootMount).
    { unfold at_. rewrite Hs; [done|]. by apply (bool_decide_unpack _). }
    rewrite <- Eh. unfold merged, merge_order, before, after. cbn [fmap list_fmap mjoin list_join]. unfold at_.
    rewrite !app_nil_r. rewrite <- !app_assoc. reflexivity. }
  unfold leads. rewrite E, looked_up_app, looked_up_app.
  rewrite (looked_up_none (mjoin (at_ b1 <$> after))).
  { replace (looked_up (at_ (bindHostRoot b) hostRootMount) p) with (Some (lit "/", components target)) by reflexivity.
    cbn [mbind option_bind]. by rewrite Hs0. }
  apply Forall_forall. intros m (l & Hm & (k & -> & Hk)%list_elem_of_fmap)%list_elem_of_join.
  assert (Ht' : exists n0 r, n :: rest = n0 :: r /\ n0 ∉ system_dirs) by (by exists n, rest).
  pose proof (rootfs_uncovered (s_appId (b_set b)) (dec (h_euid h)) (n :: rest) (fst <$> extension_dirs c) (devices h) k
    (components target) Ht' Hk) as F. rewrite Forall_forall in F. apply F.
  destruct (U k) as [Hsub _]. apply (list_elem_of_fmap_2 dest) in Hm. by eapply elem_of_submseteq, sublist_submseteq.
Qed.

(** *** The second run *)

Lemma find_some_first {A} (f : A -> bool) l x : x ∈ l -> f x = true -> exists y, List.find f l = Some y /\ y ∈ l /\ f y = true.
Proof.
  intros Hx Hf. induction l as [|z l IH]; [by apply elem_of_nil in Hx|]. cbn. destruct (f z) eqn:Ez; [exists z; split_and!; [done|left|done]|].
  apply elem_of_cons in Hx as [->|Hx]; [congruence|]. destruct (IH Hx) as (y & Ey & Hy & Hfy). exists y. split_and!; [done|by right|done].
Qed.

(** The state of a run as another one finds it: its process is there, the file
    is complete and its container runs. *)
Definition recorded (st : ContainerProcessStateInfo) (e : run_env) : Prop := exists files containers file pid,
  ru_files e = Ok (Some files) /\ ru_listed e = Ok containers /\ file ∈ files /\
  pf_process file = true /\ pf_size file <> Some 0 /\ pf_info file = Ok st /\
  (ct_containerID st, pid) ∈ containers.

(** C16: while an application runs, running it again starts no second container:
    the command is handed to one of its containers, as long as those accept
    it and the state can be written. *)
Theorem run_again h h' e e' options options' st built commands code : running_cli h e options = Starts st built commands code ->
  rn_appid options' = rn_appid options -> recorded st e' -> ru_dump_delegated e' = Dumped ->
  (forall id item, delegate e' id (run_commands h' e' options' item) = true) ->
  match prepare e' options' with
  | Ok (appRef, c, item) => exists container containers, getCurrentContainers (ru_listed e') (ru_files e') = Ok containers /\
      container ∈ containers /\ co_package container = ref_toString appRef /\
      running_cli h' e' options' = Delegates (stateInfo c) (co_id container) (run_commands h' e' options' item)
  | Err code' => running_cli h' e' options' = stopped code'
  end.
Proof.
  intros E Ea (files & containers & file & pid & Ef & El & Hfile & Hpr & Hsz & Hi & Hpid) Hd Hdel.
  destruct (started _ _ _ _ _ _ _ E) as (appRef & c & item & c' & b & Ep & _ & Eb & _ & ->).
  destruct (prepared _ _ _ _ _ Ep) as (_ & (fuzzy & Efz & Efi) & Ho & (app & Eapp & Eref)).
  destruct (prepare e' options') as [[[appRef' c2] item2]|code'] eqn:Ep'; [|unfold cli_run; by rewrite Ep'].
  destruct (prepared _ _ _ _ _ Ep') as (_ & (fuzzy' & Efz' & Efi') & _). rewrite Ea, Efz in Efz'. injection Efz' as <-.
  rewrite Efi in Efi'. injection Efi' as <-.
  assert (Est : ct_app (stateInfo c') = ref_toString appRef).
  { assert (appLayer c' = appLayer c) as Ec.
    { unfold run_builder in Eb. destruct (h_getenv h (lit "HOME")); [|done].
      destruct (fillContextCfg _ _ _ _ _ _ _ _) as [c1 r] eqn:E1. apply res_bind_ok in Eb as (cc & -> & Eb).
      apply res_bind_ok in Eb as (cc' & _ & Eb). destruct (negb _); [done|]. apply res_bind_ok in Eb as (b0 & _ & Eb).
      apply res_bind_ok in Eb as (cache & _ & Eb). apply res_bind_ok in Eb as (b2 & _ & Eb). injection Eb as <- _.
      unfold fillContextCfg in E1. destruct (baseLayer c); [|done]. destruct (ru_bundle e _); [|done].
      apply pair_equal_spec in E1 as [<- _]. done. }
    unfold stateInfo. cbn [ct_app]. rewrite Ec, Eapp. unfold ref_text. by rewrite Eref. }
  set (l := omap (current_container containers) files).
  assert (Hc : exists x, x ∈ l /\ co_package x = ref_toString appRef).
  { destruct (find_some_first (fun item => bool_decide (fst item = ct_containerID (stateInfo c'))) containers (ct_containerID (stateInfo c'), pid) Hpid)
      as ([id' pid'] & Efnd & _); [by apply bool_decide_eq_true|].
    exists (mkCliContainer (ct_containerID (stateInfo c')) (ct_app (stateInfo c')) pid'). split; [|exact Est].
    apply list_elem_of_omap. exists file. split; [done|]. unfold current_container. rewrite Hpr, Hi. cbn [negb].
    rewrite bool_decide_false by done. by rewrite Efnd. }
  destruct Hc as (x & Hx & Ex). destruct (find_some_first (fun container => bool_decide (co_package container = ref_toString appRef)) l x Hx)
    as (y & Ey & Hy & Hpk); [by apply bool_decide_eq_true|]. apply bool_decide_eq_true in Hpk.
  exists y, l. unfold getCurrentContainers. rewrite El, Ef. split_and!; [done..|].
  unfold cli_run. rewrite Ep'. unfold running, getCurrentContainers. rewrite El, Ef. fold l. rewrite Ey, Hd, Hdel. done.
Qed.

End running_facts.

(** ** Examples *)

#[local] Existing Instance qt_model.
#[local] Existing Instance qt_model_ok.
#[local] Existing Instance std_sort_model.
#[local] Existing Instance json_model.
#[local] Existing Instance client_model.
#[local] Existing Instance yaml_model.
#[local] Existing Instance map_order.

(** Numbers that have wrapped around: 40 is a child of 300, and not found. *)
Definition ancestry (parents : list (Z * Z)) (pid : Z) : Z :=
  default 0 (snd <$> List.find (fun p => fst p =? pid) parents).
Definition stat_of (name : str) (parents : list (Z * Z)) (pid : Z) : option str :=
  Some (dec pid ++ lit " (" ++ name ++ lit ") S " ++ dec (ancestry parents pid) ++ lit " 1 1").

Example wrapped_numbers : isChildProcess (stat_of (lit "sh") [(40, 300); (300, 20)]) 9 20 40 = Some (Ok true) /\
  isChildProcess (stat_of (lit "sh") [(400, 30); (30, 100); (100, 1)]) 9 100 400 = Some (Ok false).
Proof. vm_compute. done. Qed.

(** A name with blanks puts another field in the place of the parent. *)
Example name_with_blanks : isChildProcess (stat_of (lit "Web Content 7") [(400, 100); (100, 1)]) 9 100 400 = Some (Ok false) /\
  isChildProcess (stat_of (lit "Web Content") [(400, 100); (100, 1)]) 9 100 400 = Some (Err err_default).
Proof. vm_compute. done. Qed.

Lemma isChildProcess_spec_witness :
  exists b, isChildProcess (stat_of (lit "sh") [(400, 100); (100, 1)]) 3 100 400 = Some (Ok b).
Proof.
  destruct (isChildProcess_spec (stat_of (lit "sh") [(400, 100); (100, 1)]) (ancestry [(400, 100); (100, 1)]) 100 400 2)
    as (b & E & _); [lia| |reflexivity|exists b; exact E].
  intros i Hi. assert (i = 0 \/ i = 1 \/ i = 2)%nat as [->|[->| ->]] by lia; split_and!; try (vm_compute; (reflexivity || discriminate));
    (eexists; split; [reflexivity|exists (lit "sh"), (lit "S"), (lit "1 1"); split_and!; [reflexivity|by apply (bool_decide_unpack _)..]]).
Defined.

Example entered : enter (Ok [mkCliContainer (lit "c1") (lit "main:org.a/1.0.0.1/x86_64") 9]) (lit "org.a") [] =
  Ok (lit "c1", generateDefaultBashCommand).
Proof. vm_compute. reflexivity. Qed.

(** A slash before the colon: the length of the name wraps around. *)
Example odd_package : package_name (lit "a/b:c") = lit "c".
Proof. vm_compute. reflexivity. Qed.

Example mapped_arguments :
  filePathMapping (fun _ => false) Some [lit "app"; lit "%F"; lit "%U"; lit "%i"] [lit "/mnt/a b"; []; lit "/home/u/x"]
    [lit "file:///srv/y"; lit "https://z"] =
  [lit "app"; lit "/run/host/rootfs/mnt/a b"; lit "/home/u/x"; lit "file:///run/host/rootfs/srv/y"; lit "https://z"].
Proof. vm_compute. reflexivity. Qed.

Example killed_by_id : cli_kill (fun id => bool_decide (id = lit "c1"))
    (Ok [mkCliContainer (lit "c1") (lit "main:org.a/1.0.0.1/x86_64") 9; mkCliContainer (lit "c2") (lit "main:org.b/1.0.0.1/x86_64") 8;
         mkCliContainer (lit "c3") (lit "main:org.a/1.0.0.2/x86_64") 7]) (lit "org.a") = ([lit "c1"; lit "c3"], -1).
Proof. vm_compute. reflexivity. Qed.

Definition run_host : host := {|
  h_exists := fun _ => Ok true;
  h_is_symlink := fun _ => false;
  h_readlink := fun _ => Ok None;
  h_realpath := Some;
  h_create_directories := fun _ => true;
  h_permissions := fun _ => true;
  h_create_symlink := fun _ _ => true;
  h_open := fun _ => true;
  h_getenv := fun n => if bool_decide (n = lit "HOME") then Some (lit "/home/u") else None;
  h_environ := [];
  h_euid := 1000;
  h_getuid := 1000;
  h_dev := Some [lit "snd"; lit "sda"; lit "dri"];
  h_patches := None;
  h_status := fun _ => None;
  h_json_patch := fun _ => None;
  h_exec_patch := fun _ _ => None;
  h_before := example_host_fs;
  h_after := example_host_fs
|}.

Definition first_env : run_env := {|
  ru_uid := 1000;
  ru_gid := 1000;
  ru_directory := true;
  ru_placeholder := true;
  ru_listed := Ok [];
  ru_files := Ok None;
  ru_dump_delegated := Dumped;
  ru_dump_started := Dumped;
  ru_init := fun _ => (true, true, [], None);
  ru_is_symlink := fun _ => false;
  ru_permissions := fun _ => None;
  ru_bundle := fun _ => Ok (lit "/run/bundle");
  ru_security := Ok None;
  ru_cache := fun _ => mkCache true None;
  ru_runs := true
|}.

Definition run_demo : RunOptions := mkRunOptions (lit "org.deepin.demo") [] [] [lit "A=b"] [lit "demo"] None None.

Abbreviation cli_run_of e := (cli_run (Ok X86_64) (lit "/r") everything (fun t => t) None (fun _ => Ok tt) true 7 (lit "/r") run_host e run_repo run_demo).
Abbreviation prepare_of e := (run_prepare (Ok X86_64) (lit "/r") everything (fun t => t) None (fun _ => Ok tt) true 7 e run_repo run_demo).

Lemma demo_prepares : prepare_of first_env = Ok (demo_ref, the_context, demo_layer).
Proof. vm_compute. reflexivity. Qed.

Definition demo_builder : cfg_builder :=
  match run_builder (lit "/r") run_host first_env run_repo run_demo demo_ref the_context demo_layer with
  | Ok r => snd r
  | Err _ => new_builder example_settings
  end.
Definition demo_collected : cfg_builder :=
  match collect_mounts run_host demo_builder with Ok b => b | Err _ => demo_builder end.
Definition demo_built : cfg_builder :=
  match build run_host demo_builder with Ok b => b | Err _ => demo_builder end.

Lemma demo_builds : exists c, run_builder (lit "/r") run_host first_env run_repo run_demo demo_ref the_context demo_layer = Ok (c, demo_builder).
Proof. eexists. vm_compute. reflexivity. Qed.
Lemma demo_collects : collect_mounts run_host demo_builder = Ok demo_collected.
Proof. vm_compute. reflexivity. Qed.

Lemma demo_run_starts : cli_run_of first_env = Starts (stateInfo the_context) demo_built [lit "demo"] 0.
Proof. vm_compute. reflexivity. Qed.

Lemma demo_run_ok : run_ok run_host demo_ref the_context.
Proof.
  split; try (by apply (bool_decide_unpack _)); try done; try (by split; apply (bool_decide_unpack _)).
  intros home [= <-]. exists (lit "home"), [lit "u"]. split_and!; [reflexivity|by apply (bool_decide_unpack _)|done].
Qed.

Lemma run_container_witness : length <$> c_mounts (b_config demo_built) = Some 49%nat /\
  exists out, c_mounts (b_config demo_built) = Some out /\
    (forall i j m m', (i < j)%nat -> out !! i = Some m -> out !! j = Some m' -> ~ dest m' `prefix_of` dest m).
Proof.
  split; [vm_compute; reflexivity|].
  destruct (run_container (Ok X86_64) (lit "/r") everything (fun t => t) None (fun _ => Ok tt) true 7 (lit "/r") run_repo run_host first_env
    run_demo _ demo_built _ _ demo_run_starts ltac:(done) eq_refl example_host_names example_host_names)
    as (appRef & c & item & c' & b & b1 & out & _ & _ & _ & _ & Eo & _ & V & _).
  - intros appRef c item E. rewrite demo_prepares in E. injection E as <- <- <-. exact demo_run_ok.
  - exists out. split; [exact Eo|exact V].
Defined.

(** On this host [/var/run] is a link. *)
Definition demo_links (source : str) (p : list str) : bool := bool_decide (p = [lit "var"; lit "run"]).

Lemma file_reaches_witness :
  leads demo_links (merged demo_collected) (components (mappingFile (fun _ => false) Some (lit "/srv/music/a.ogg"))) =
    Some (lit "/", [lit "srv"; lit "music"; lit "a.ogg"]).
Proof.
  destruct demo_builds as [c' E].
  exact (file_reaches (Ok X86_64) (lit "/r") everything (fun t => t) None (fun _ => Ok tt) true 7 (lit "/r") run_repo run_host first_env
    run_demo demo_ref the_context demo_layer c' demo_builder demo_collected demo_links (fun _ => false) Some (lit "/srv/music/a.ogg")
    demo_prepares E ltac:(done) demo_run_ok demo_collects eq_refl eq_refl ltac:(discriminate) eq_refl).
Defined.

(** A file below the link is told to the application with the link in its
    path. *)
Example link_on_the_way : mappingFile (fun _ => false) Some (lit "/var/run/a.sock") = lit "/run/host/rootfs/var/run/a.sock" /\
  leads demo_links (merged demo_collected) (components (lit "/run/host/rootfs/var/run/a.sock")) = None.
Proof. vm_compute. done. Qed.

(** The first container is there, and takes the command. *)
Definition second_env : run_env := {|
  ru_uid := 1000;
  ru_gid := 1000;
  ru_directory := true;
  ru_placeholder := true;
  ru_listed := Ok [(ct_containerID (stateInfo the_context), 77)];
  ru_files := Ok (Some [mkPidFile true (Some 0) (Err err_default); mkPidFile true (Some 99) (Ok (stateInfo the_context))]);
  ru_dump_delegated := Dumped;
  ru_dump_started := Dumped;
  ru_init := fun _ => (true, true, [Sent 4096], Some 0);
  ru_is_symlink := fun _ => false;
  ru_permissions := fun _ => None;
  ru_bundle := fun _ => Ok (lit "/run/bundle");
  ru_security := Ok None;
  ru_cache := fun _ => mkCache true None;
  ru_runs := true
|}.

Lemma demo_recorded : recorded (stateInfo the_context) second_env.
Proof.
  eexists _, _, (mkPidFile true (Some 99) (Ok (stateInfo the_context))), 77.
  split_and!; [reflexivity|reflexivity|by right; left|reflexivity|discriminate|reflexivity|left].
Qed.

Lemma run_again_witness : exists id, cli_run_of second_env = Delegates (stateInfo the_context) id [lit "demo"].
Proof.
  assert (Hd : forall id item, delegate second_env id (run_commands run_host second_env run_demo item) = true) by (intros; vm_compute; reflexivity).
  pose proof (run_again (Ok X86_64) (lit "/r") everything (fun t => t) None (fun _ => Ok tt) true 7 (lit "/r") run_repo run_host run_host
    first_env second_env run_demo run_demo _ _ _ _ demo_run_starts eq_refl demo_recorded eq_refl Hd) as R.
  assert (E : prepare_of second_env = Ok (demo_ref, the_context, demo_layer)) by (vm_compute; reflexivity).
  rewrite E in R. destruct R as (container & containers & _ & _ & _ & R). exists (co_id container). exact R.
Defined.

Definition named_container : CliContainer := mkCliContainer (lit "c1") (ref_toString example_ref) 9.

Lemma containers_named_witness : names_package example_ref named_container /\
  enter (Ok [named_container]) (ref_id example_ref) [] = Ok (lit "c1", generateDefaultBashCommand).
Proof.
  assert (Hn : names_package example_ref named_container).
  { assert (Hw : wf_reference example_ref).
    { apply (ref_parse_wf (lit "main:org.deepin.demo/1.2.3.4/x86_64")); [vm_compute; reflexivity|discriminate]. }
    split; [reflexivity|]. split; [exact Hw|]. split_and!; by apply (bool_decide_unpack _). }
  split; [exact Hn|].
  destruct (containers_named (fun _ => true) [named_container] (ref_id example_ref) (fun _ => example_ref) []) as [_ E];
    [apply Forall_singleton; split; [exact Hn|split; [vm_compute; reflexivity|discriminate]]|by apply (bool_decide_unpack _)|].
  exact E.
Defined.
